(* ===== verification/_CoqProject ===== *)
-Q . S2P
Prelude.v
Buffer.v
Frame.v
TcpSocket.v
Epoll.v
EpollSpec.v
Conn.v
HttpMsg.v
HttpSpec.v
HttpProps.v
SList.v
Containers.v
SyncConnector.v
Hdr.v
HttpSocket.v
SyncCall.v
Timestamp.v
App.v
AppSpec.v
AppProps.v
HeartBeat.v
Coroutine.v
CoTask.v
StringUtil.v
LogStream.v
LogFile.v
Logger.v
NetIo.v
