(* ===== verification/Prelude.v ===== *)
(** * slience: a verification development of the server framework

    slience is a C++ framework for network servers on Linux: buffers, containers, a logger and
    clocks ([src/slience/base]), a proactor over epoll ([src/slience/socket]), framed TCP and
    HTTP connections ([src/slience/netio]), coroutines ([src/slience/coroutine]), remote calls
    ([src/slience/synccall]) and an application with a message loop
    ([src/commonlib/svr_base]).  This library models these parts as executable definitions and
    proves what they promise.  The vendored libraries of the repository (boost, protobuf, hiredis,
    the database drivers) are outside it.

    ** The parts and how they call each other

    The I/O threads run the loop of the proactor (Epoll.v).  A completion calls the handler of a
    socket: [_WriteHandler] goes on with the writer's two buffers (TcpSocket.v), [_ReadHandler]
    (Conn.v) cuts what was read into packets (Frame.v; HTTP messages: HttpMsg.v, HttpSocket.v) and
    hands them to the callbacks of [NetIo].  Who implements the callbacks decides what happens
    next: [ApplicationBase] queues them for its main loop (App.v), [HeartBeatMng] keeps a clock for
    every connection (HeartBeat.v), [ScServer] and the clients of synccall speak a protocol of
    requests and replies over the packets (SyncCall.v).  With coroutines ([CoRun]) handlers and
    tasks run in coroutines (Coroutine.v, CoTask.v).

    ** Files

    - Prelude.v: machine integers, bytes, memory blocks, [snprintf], the fault monad, automation.
    - Buffer.v: [base::Buffer] (base/buffer.hpp, buffer.cpp).
    - Frame.v: [MessageHeader], [_CutMsgPack] (netio/tsocket_impl.hpp).
    - TcpSocket.v: [TcpBaseSocket]: [Send], [_TrySendData], [_WriteHandler], [Close].
    - Epoll.v, EpollSpec.v: the socket core, the asynchronous operations, the loop and the deferred
      close (socket/epoll_access.hpp, linux_epoll.hpp, ioaccess.ipp, ioservice.ipp); the contract.
    - Conn.v: [_ReadHandler], [Init], one connection with its loop.
    - NetIo.v: [NetIo]: [ListenOne], [_AcceptHandler] and the accept loop, [TcpSocket::Init]
      (netio/netio.cpp, netio.hpp, socket/socket_acceptor.hpp).
    - HttpMsg.v, HttpSpec.v, HttpProps.v: the parsers and the response builder (netio/httpmsg.hpp),
      the byte-at-a-time reference, the theorems.
    - SList.v, Containers.v: [slist], [circular_queue], [svector] (base).
    - SyncConnector.v: the blocking client (netio/sync_connector.cpp).
    - Hdr.v: IP and ICMP headers and the checksum (socket/hdr_helper.hpp).
    - HttpSocket.v: HTTP sockets and the connectors (netio/hsocket_impl.hpp, tcp_connector.cpp,
      http_connector.cpp).
    - SyncCall.v: clients and server of synccall.
    - Timestamp.v, StringUtil.v: [timestamp] (base/timer.cpp), [StringUtil] (base/string_util.cpp).
    - App.v, AppSpec.v, AppProps.v: [ApplicationBase] (commonlib/svr_base/ApplicationBase.cpp), the
      queue of messages it promises, the theorems.
    - HeartBeat.v: [HeartBeatMng] (netio/heartbeat.hpp).
    - Coroutine.v, CoTask.v: the scheduler and the tasks (coroutine/coroutine.hpp,
      co_linux_impl.hpp).
    - LogStream.v, LogFile.v, Logger.v: lines, files and the ring of buffers of the logger
      (base/logger.hpp, logger.cpp).

    ** How the code is modelled

    A class is a record of its members; a method is a function from the record (and the heap it
    uses) to the new record, with the guards, early returns and calls of the source.  Names are the
    source's; a method that has the name of another carries its class as a prefix
    ([TcpBaseSocket_Send]) or that of its file.

    Undefined behaviour is the value [None]: a read or write outside a block of [malloc], a null,
    freed or dangling pointer, an [assert(0)], a missing [return].  So "= Some" in a theorem says
    that the code is memory safe there.  Failure of [malloc] and [new] is not modelled; what fresh
    memory holds is arbitrary (the class [Malloc]).

    Integers are [Z] with the wrap-around of their width written out ([u8], [u16], [u32], [u64],
    [s32]); the host is LP64 and little endian.  Bytes are [byte], strings and blocks are lists of
    them.  [%d] takes 32 bits whatever it is given, which is what the calling convention does.

    What the system does is an argument: results of [recv], [send], [connect], [fopen], [fwrite],
    clock values and local time.  A theorem that needs the system to behave has that as a
    hypothesis on this argument.  The interfaces of the application (callbacks, request handlers,
    functions of coroutines) are type classes or parameters, and so is the container of contexts of
    the message loop ([ContextStore]), which the code takes from boost.

    Threads: what a mutex protects is one step; an execution is a sequence of steps of all threads
    in any order ([wstep], [cstep], [sstep], [log_run], ...).  Where a thread works outside its
    mutex, its loop is cut into pieces there.

    Loops that are not structural take fuel, and running out of it is [None]: [CutMsgPack] gets one
    more than the bytes of the chunk (each round takes a byte or ends), the loops over lists their
    length, [write_loop] the length of the chunk, [dec_digits] ten digits.  The theorems that say
    "= Some" are about these functions with the fuel the callers give, so they show that it is
    enough; [CoTask.doThrResume_terminates] says so explicitly.

    ** What is shown

    - The path of a byte: [Frame.framing_roundtrip], [Frame.receiver_refines_decoder],
      [TcpSocket.writer_stream_integrity], [TcpSocket.Send_all_or_nothing],
      [TcpSocket.graceful_close], [Buffer.Buffer_refines_byte_string].
    - The life of a connection: [Conn.callback_order], [Conn.disconnect_guaranteed],
      [EpollSpec.proactor_exactly_once], [EpollSpec.DoClose_closes_each_once]; the connection's
      abstract socket is implemented by the core: [Conn.epoll_refines_aio].  The accept loop:
      [NetIo.accept_rearms], [NetIo.accept_error_is_fatal].
    - HTTP: [HttpProps.Parse_refines_reference], [request_parsed], [response_roundtrip].
    - Calls end to end: [SyncCall.sync_call_roundtrip] composes client, framing, server and writer.
    - Services over connections: [AppProps.App_delivers_in_order],
      [HeartBeat.heartbeat_refines_watchdogs] with what a watchdog does.
    - Coroutines: [Coroutine.shared_stack_transparent], [Coroutine.schedule_ok_reached],
      [CoTask.tasks_in_order].
    - The log: [Logger.logger_in_order], [Logger.logger_drains], [LogFile.logfile_refines_roller],
      [LogStream.log_line_spec].
    - Containers and small parts: [SList.slist_refines_queue], [Containers], [Hdr], [StringUtil].
    - Where the code does something else than it means to: the theorems and lemmas with names such
      as [content_length_faults], [svector_overruns], [slist_clear_dangles],
      [second_read_breaks_the_first], [failed_post_breaks_events],
      [disconnect_during_OnConnected], [full_ring_discards], [clrTask_leaves_wrappers].

    ** Not modelled

    - Starting the threads of [NetIo] and what runs in them around the loop.
    - End points, addresses and socket options: calls of the system's conversions and structures
      handed to [setsockopt].
    - The forwarding templates of socket/ ([basic_socket] and its relatives), thin wrappers of
      threads, mutexes, conditions and thread-local data: critical sections appear as atomic steps.
    - Windows: completion ports and fibers; the Linux build is modelled.
    - Setting up a schedule again from inside a coroutine; the text of a floating-point number.
    - Command line, signals and daemon code of commonlib; the generated protocol buffers. *)

From Stdlib Require Import ZArith Lia List Strings.String Strings.Byte Init.Byte.
From stdpp Require Import base numbers list option gmap relations.

Open Scope Z_scope.

(** ** Notations of the development *)

Declare Scope slience_scope.
Delimit Scope slience_scope with slience.

Notation "'CR'" := x0d (at level 0, only parsing) : slience_scope.
Notation "'LF'" := x0a (at level 0, only parsing) : slience_scope.
Notation "'SP'" := x20 (at level 0, only parsing) : slience_scope.

(** The character constants of a C++ string literal, as bytes. *)
Notation "'B[' s ]" := (list_byte_of_string s%string) (at level 0, s at level 200) : slience_scope.

Open Scope slience_scope.

#[export] Instance byte_eq_decision : EqDecision byte := byte_eq_dec.

(** ** Machine integers

    The code is compiled for an LP64 Linux host: [s_uint32_t] and [unsigned int]
    have 32 bits, [size_t] has 64, and unsigned arithmetic wraps. *)

Definition u8 (z : Z) : Z := z mod 2 ^ 8.
Definition u16 (z : Z) : Z := z mod 2 ^ 16.
Definition u32 (z : Z) : Z := z mod 2 ^ 32.
Definition u64 (z : Z) : Z := z mod 2 ^ 64.
Definition s32 (z : Z) : Z := (z + 2 ^ 31) mod 2 ^ 32 - 2 ^ 31.

Section wrap.
Lemma u32_small z : 0 <= z < 2 ^ 32 → u32 z = z.
Proof. apply Z.mod_small. Qed.

Lemma u32_bound z : 0 <= u32 z < 2 ^ 32.
Proof. apply Z.mod_pos_bound; lia. Qed.

Lemma u64_small z : 0 <= z < 2 ^ 64 → u64 z = z.
Proof. apply Z.mod_small. Qed.

Lemma u16_small z : 0 <= z < 2 ^ 16 → u16 z = z.
Proof. apply Z.mod_small. Qed.

Lemma u8_small z : 0 <= z < 2 ^ 8 → u8 z = z.
Proof. apply Z.mod_small. Qed.

Lemma s32_small z : - 2 ^ 31 <= z < 2 ^ 31 → s32 z = z.
Proof. intros H. unfold s32. rewrite Z.mod_small; lia. Qed.

Lemma u32_idem z : u32 (u32 z) = u32 z.
Proof. unfold u32. by rewrite Z.mod_mod. Qed.

Lemma u32_add_l a b : u32 (u32 a + b) = u32 (a + b).
Proof. unfold u32. by rewrite Zplus_mod_idemp_l. Qed.

Lemma u32_add_r a b : u32 (a + u32 b) = u32 (a + b).
Proof. unfold u32. by rewrite Zplus_mod_idemp_r. Qed.
End wrap.

Create HintDb slience.
Create Rewrite HintDb wrap.
Create Rewrite HintDb len.
#[export] Hint Rewrite u32_small u64_small u16_small u8_small s32_small using lia : wrap.
#[export] Hint Rewrite @length_app @length_take @length_drop @length_replicate
  @length_rev @length_insert @length_cons @length_nil : len.

(** Normalise list lengths, remove the wrap-arounds that cannot happen, and
    split on the integer comparisons of the source. *)
Ltac wrap := autorewrite with wrap in *.
Ltac len := autorewrite with len in *.
Ltac zcase :=
  match goal with
  | |- context [?a <? ?b] => destruct (Z.ltb_spec a b)
  | |- context [?a <=? ?b] => destruct (Z.leb_spec a b)
  | |- context [?a >? ?b] => rewrite (Z.gtb_ltb a b); destruct (Z.ltb_spec b a)
  | |- context [?a >=? ?b] => rewrite (Z.geb_leb a b); destruct (Z.leb_spec b a)
  | |- context [?a =? ?b] => destruct (Z.eqb_spec a b)
  end.
Ltac zcases := repeat zcase; try lia.

(** ** Bytes *)

Definition byte_val (b : byte) : Z := Z.of_N (Byte.to_N b).

(** The low eight bits of an integer. *)
Definition byte_of (z : Z) : byte :=
  match Byte.of_N (Z.to_N (z mod 256)) with Some b => b | None => x00 end.

Lemma byte_val_bound b : 0 <= byte_val b < 256.
Proof. unfold byte_val. pose proof (Byte.to_N_bounded b). lia. Qed.

Lemma byte_val_of z : byte_val (byte_of z) = z mod 256.
Proof.
  unfold byte_of, byte_val.
  pose proof (Z.mod_pos_bound z 256 ltac:(lia)) as Hb.
  destruct (Byte.of_N _) as [b|] eqn:E.
  - apply Byte.to_of_N in E. rewrite E. lia.
  - apply Byte.of_N_None_iff in E. lia.
Qed.

Lemma byte_of_val b : byte_of (byte_val b) = b.
Proof.
  unfold byte_of. rewrite Z.mod_small by apply byte_val_bound.
  unfold byte_val. by rewrite N2Z.id, Byte.of_to_N.
Qed.

#[export] Hint Resolve byte_val_bound u32_bound : slience.

(** ** Integers in memory: little-endian objects, network order *)

(** The object representation of an [n]-byte unsigned integer. *)
Fixpoint le_bytes (n : nat) (z : Z) : list byte :=
  match n with
  | O => []
  | S n => byte_of z :: le_bytes n (z / 256)
  end.

Fixpoint le_val (bs : list byte) : Z :=
  match bs with
  | [] => 0
  | b :: bs => byte_val b + 256 * le_val bs
  end.

Lemma length_le_bytes n z : length (le_bytes n z) = n.
Proof. revert z; induction n; simpl; congruence. Qed.
#[export] Hint Rewrite length_le_bytes : len.

Lemma le_val_bytes n z : le_val (le_bytes n z) = z mod 256 ^ Z.of_nat n.
Proof.
  revert z; induction n as [|n IH]; intros z; simpl le_bytes; simpl le_val.
  - by rewrite Z.mod_1_r.
  - rewrite IH, byte_val_of, Nat2Z.inj_succ, Z.pow_succ_r by lia.
    rewrite Z.rem_mul_r; [reflexivity | lia | apply Z.pow_pos_nonneg; lia].
Qed.

Lemma le_val_bound bs : 0 <= le_val bs < 256 ^ Z.of_nat (length bs).
Proof.
  induction bs as [|b bs IH]; simpl le_val; simpl length; [lia|].
  rewrite Nat2Z.inj_succ, Z.pow_succ_r by lia.
  pose proof (byte_val_bound b). lia.
Qed.

Lemma le_bytes_val bs : le_bytes (length bs) (le_val bs) = bs.
Proof.
  induction bs as [|b bs IH]; [done|].
  simpl length. simpl le_val. simpl le_bytes.
  pose proof (byte_val_bound b) as Hb. f_equal.
  - rewrite <- (byte_of_val b) at 2.
    unfold byte_of. do 3 f_equal. by rewrite (Z.mul_comm 256), Z_mod_plus_full.
  - transitivity (le_bytes (length bs) (le_val bs)); [|exact IH]. f_equal.
    rewrite (Z.mul_comm 256), Z.div_add, Z.div_small by lia. lia.
Qed.

(** [htonl]/[ntohl] on a little-endian host: reverse the four bytes. *)
Definition htonl (z : Z) : Z := le_val (rev (le_bytes 4 z)).
Definition ntohl (z : Z) : Z := htonl z.
Definition htons (z : Z) : Z := le_val (rev (le_bytes 2 z)).
Definition ntohs (z : Z) : Z := htons z.

Lemma swap_bytes_invol n z :
  le_val (rev (le_bytes n (le_val (rev (le_bytes n z))))) = z mod 256 ^ Z.of_nat n.
Proof.
  assert (Hl : length (rev (le_bytes n z)) = n) by (len; done).
  rewrite <- Hl at 1. rewrite le_bytes_val, rev_involutive. apply le_val_bytes.
Qed.

Lemma ntohl_htonl z : 0 <= z < 2 ^ 32 → ntohl (htonl z) = z.
Proof. intros. unfold ntohl, htonl. rewrite swap_bytes_invol. apply Z.mod_small. done. Qed.

Lemma ntohs_htons z : 0 <= z < 2 ^ 16 → ntohs (htons z) = z.
Proof. intros. unfold ntohs, htons. rewrite swap_bytes_invol. apply Z.mod_small. done. Qed.

Lemma htonl_bound z : 0 <= htonl z < 2 ^ 32.
Proof.
  unfold htonl. pose proof (le_val_bound (rev (le_bytes 4 z))) as H.
  rewrite length_rev, length_le_bytes in H. done.
Qed.

Lemma htons_bound z : 0 <= htons z < 2 ^ 16.
Proof.
  unfold htons. pose proof (le_val_bound (rev (le_bytes 2 z))) as H.
  rewrite length_rev, length_le_bytes in H. done.
Qed.
#[export] Hint Resolve htonl_bound htons_bound : slience.

(** ** Memory blocks

    A block obtained from [malloc] is a list of bytes.  A read or a write
    outside it is undefined behaviour in C++: it is the value [None] here, and
    every function of the development that can reach one returns an option. *)

(** [malloc n]: a fresh block of [n] bytes with arbitrary contents. *)
Class Malloc := {
  malloc : nat → list byte;
  length_malloc n : length (malloc n) = n
}.
#[export] Hint Rewrite @length_malloc : len.

(** [memcpy(blk + at, src, |src|)]. *)
Definition store (blk : list byte) (at_ : nat) (src : list byte) : option (list byte) :=
  if (at_ + length src <=? length blk)%nat
  then Some (take at_ blk ++ src ++ drop (at_ + length src) blk)
  else None.

(** The [n] bytes at [blk + at]. *)
Definition load (blk : list byte) (at_ n : nat) : option (list byte) :=
  if (at_ + n <=? length blk)%nat then Some (take n (drop at_ blk)) else None.

Lemma store_ok blk i src :
  (i + length src ≤ length blk)%nat →
  store blk i src = Some (take i blk ++ src ++ drop (i + length src) blk).
Proof. intros H. unfold store. by rewrite (proj2 (Nat.leb_le _ _) H). Qed.

Lemma store_fault blk i src : (length blk < i + length src)%nat → store blk i src = None.
Proof. intros H. unfold store. by rewrite (proj2 (Nat.leb_gt _ _) H). Qed.

Lemma load_ok blk i n : (i + n ≤ length blk)%nat → load blk i n = Some (take n (drop i blk)).
Proof. intros H. unfold load. by rewrite (proj2 (Nat.leb_le _ _) H). Qed.

Lemma store_length blk i src blk' : store blk i src = Some blk' → length blk' = length blk.
Proof.
  unfold store. destruct (Nat.leb_spec (i + length src) (length blk)); [|done].
  intros [= <-]. len. lia.
Qed.

(** ** snprintf *)

(** The digits of [%d]; ten of them are enough for an [int]. *)
Fixpoint dec_digits (fuel : nat) (z : Z) : list byte :=
  match fuel with
  | O => []
  | S fuel => (if z <? 10 then [] else dec_digits fuel (z / 10)) ++ [byte_of (48 + z mod 10)]
  end.

Definition print_int (z : Z) : list byte :=
  if z <? 0 then x2d :: dec_digits 10 (- z) else dec_digits 10 z.

(** [%0nd] of a value that is not negative. *)
Definition print_pad (n : nat) (z : Z) : list byte :=
  replicate (n - length (print_int z)) x30 ++ print_int z.

(** The digits of [%X]; eight of them are enough for an [unsigned int]. *)
Definition hex_digit (z : Z) : byte := byte_of (if z <? 10 then 48 + z else 55 + z).
Fixpoint hex_digits (fuel : nat) (z : Z) : list byte :=
  match fuel with
  | O => []
  | S fuel => (if z <? 16 then [] else hex_digits fuel (z / 16)) ++ [hex_digit (z mod 16)]
  end.

(** [snprintf(blk + at, n, ...)], [text] being the whole text: at most [n - 1] of its
    characters are stored, and a NUL. *)
Definition snprintf (blk : list byte) (at_ n : nat) (text : list byte) : option (list byte) :=
  if decide (n = 0%nat) then Some blk else store blk at_ (take (n - 1) text ++ [x00]).

Lemma dec_digits_length fuel : ∀ z, (length (dec_digits fuel z) ≤ fuel)%nat.
Proof. induction fuel as [|fuel IH]; intros z; cbn; [lia|]. rewrite length_app. specialize (IH (z / 10)). destruct (z <? 10); cbn; lia. Qed.

Lemma hex_digits_length fuel : ∀ z, (length (hex_digits fuel z) ≤ fuel)%nat.
Proof. induction fuel as [|fuel IH]; intros z; cbn; [lia|]. rewrite length_app. specialize (IH (z / 16)). destruct (z <? 16); cbn; lia. Qed.

Lemma print_int_length z : (length (print_int z) ≤ 11)%nat.
Proof. unfold print_int. destruct (z <? 0); cbn [length]; [pose proof (dec_digits_length 10 (- z))|pose proof (dec_digits_length 10 z)]; lia. Qed.

(** A number of exactly [k] digits. *)
Lemma dec_digits_exact k : ∀ fuel z, (S k ≤ fuel)%nat → 0 <= z < 10 ^ Z.of_nat (S k) → (k ≠ 0%nat → 10 ^ Z.of_nat k <= z) →
  length (dec_digits fuel z) = S k.
Proof.
  induction k as [|k IH]; intros [|fuel] z Hf Hz Hk; try lia; cbn [dec_digits]; rewrite length_app; cbn [length].
  - destruct (Z.ltb_spec z 10); cbn; lia.
  - rewrite Nat2Z.inj_succ, Z.pow_succ_r in Hz by lia. specialize (Hk ltac:(lia)).
    assert (10 ^ Z.of_nat (S k) = 10 * 10 ^ Z.of_nat k) as E by (rewrite Nat2Z.inj_succ; apply Z.pow_succ_r; lia).
    assert (0 < 10 ^ Z.of_nat k) by (apply Z.pow_pos_nonneg; lia).
    destruct (Z.ltb_spec z 10); [lia|]. rewrite IH; [lia|lia| |].
    + split; [apply Z.div_pos; lia|apply Z.div_lt_upper_bound; lia].
    + intros _. apply Z.div_le_lower_bound; lia.
Qed.

Lemma print_pad_length n z : (0 < n)%nat → 0 <= z < 10 ^ Z.of_nat n → z < 2 ^ 31 → length (print_pad n z) = n.
Proof.
  intros Hn Hz Hz'. unfold print_pad. rewrite length_app, length_replicate.
  enough (length (print_int z) ≤ n)%nat by lia. unfold print_int. rewrite (proj2 (Z.ltb_ge _ _)) by lia.
  assert (∀ m y, (0 < m)%nat → 0 <= y < 10 ^ Z.of_nat m → ∀ fuel, (length (dec_digits fuel y) ≤ m)%nat) as Hd; [|by apply Hd].
  clear. intros m. induction m as [|m IH]; [lia|]. intros y _ Hy [|fuel]; cbn [dec_digits]; [cbn; lia|]. rewrite length_app. cbn [length].
  destruct (Z.ltb_spec y 10); [cbn; lia|]. destruct (decide (m = 0%nat)) as [->|Hm]; [cbn in Hy; lia|].
  rewrite Nat2Z.inj_succ, Z.pow_succ_r in Hy by lia. specialize (IH (y / 10) ltac:(lia)).
  enough (length (dec_digits fuel (y / 10)) ≤ m)%nat by lia. apply IH.
  split; [apply Z.div_pos; lia|apply Z.div_lt_upper_bound; lia].
Qed.

(** ** State with faults

    Code that updates a shared store and can fault: a function from the store to
    [None] (undefined behaviour) or a result and the new store. *)
Definition ST (S A : Type) : Type := S → option (A * S).

#[export] Instance st_ret {S} : MRet (ST S) := λ A x s, Some (x, s).
#[export] Instance st_bind {S} : MBind (ST S) :=
  λ A B f m s, match m s with Some (x, s') => f x s' | None => None end.

Definition gets {S A} (f : S → A) : ST S A := λ s, Some (f s, s).
Definition modify {S} (f : S → S) : ST S () := λ s, Some (tt, f s).
Definition fault {S A} : ST S A := λ _, None.
Definition lift {S A} (o : option A) : ST S A := λ s, x ← o; Some (x, s).

Lemma st_bind_some {S A B} (m : ST S A) (f : A → ST S B) s x s' :
  m s = Some (x, s') → (m ≫= f) s = f x s'.
Proof. intros E. unfold mbind, st_bind. by rewrite E. Qed.

Lemma st_bind_inv {S A B} (m : ST S A) (f : A → ST S B) s y s2 :
  (m ≫= f) s = Some (y, s2) → ∃ x s1, m s = Some (x, s1) ∧ f x s1 = Some (y, s2).
Proof. unfold mbind, st_bind. destruct (m s) as [[x s1]|]; [eauto|done]. Qed.

Lemma st_bind_assoc {S A B C} (m : ST S A) (f : A → ST S B) (g : B → ST S C) s :
  ((m ≫= f) ≫= g) s = (m ≫= λ x, f x ≫= g) s.
Proof. unfold mbind, st_bind. by destruct (m s) as [[x s1]|]. Qed.

Lemma st_ret_bind {S A B} (x : A) (f : A → ST S B) s : (mret x ≫= f) s = f x s.
Proof. done. Qed.

(** ** Generic list lemmas *)

Lemma take_app_store {A} (l src : list A) i k :
  (i ≤ length l)%nat → k = (i + length src)%nat →
  take k (take i l ++ src ++ drop (i + length src) l) = take i l ++ src.
Proof.
  intros Hi ->. rewrite app_assoc, take_app_length'; [done|].
  len. lia.
Qed.

Lemma drop_take_split {A} (l : list A) i j k :
  (i ≤ j)%nat → (j ≤ k)%nat →
  drop i (take k l) = drop i (take j l) ++ drop j (take k l).
Proof.
  intros Hij Hjk. rewrite !skipn_firstn_comm.
  replace (k - i)%nat with ((j - i) + (k - j))%nat by lia.
  rewrite <- take_take_drop. f_equal. rewrite drop_drop. f_equal. f_equal. lia.
Qed.
