(* ===== verification/Buffer.v ===== *)
(** * base::Buffer

    The growable byte buffer of [src/slience/base/buffer.hpp] and
    [src/slience/base/buffer.cpp]: a heap block of [_size] bytes, a write cursor
    [_pos] and a read cursor [_offset], all [s_uint32_t].  The arithmetic wraps
    as it does in the source, and every [memcpy] outside its block is the result
    [None].

    [buf_at b xs o] is the abstraction the rest of the development uses: [b] is
    well formed, holds the bytes [xs] and its read cursor is at [o].  The lemmas
    [buf_at_*] state each operation against it. *)

From Stdlib Require Import ZArith Lia List Strings.String Strings.Byte Init.Byte.
From stdpp Require Import base numbers list option.
From S2P Require Import Prelude.

Definition M_BUFFER_DEFAILT_SIZE : Z := 1024.

Record Buffer := mkBuffer {
  _size : Z;
  _pos : Z;
  _offset : Z;
  _data : list byte
}.

Section buffer.
Context `{Malloc}.

Definition Buffer_new : Buffer :=
  mkBuffer M_BUFFER_DEFAILT_SIZE 0 0 (malloc (Z.to_nat M_BUFFER_DEFAILT_SIZE)).

Definition Buffer_new_hdr (hdrlen : Z) : Buffer :=
  let b := Buffer_new in
  if hdrlen <=? _size b
  then mkBuffer (_size b) (u32 (_pos b + hdrlen)) (_offset b) (_data b)
  else b.

Definition Buffer_Clear (b : Buffer) : Buffer := mkBuffer (_size b) 0 0 (_data b).

(** [len] is an [s_int32_t]: it is converted to unsigned before the addition,
    so a negative length moves the read cursor back. *)
Definition Buffer_CutData (b : Buffer) (len : Z) : Buffer :=
  if u32 (_offset b + len) >? _pos b
  then mkBuffer (_size b) (_pos b) (_pos b) (_data b)
  else mkBuffer (_size b) (_pos b) (u32 (_offset b + len)) (_data b).

Definition Buffer_Capacity (b : Buffer) : Z := _size b.
Definition Buffer_Size (b : Buffer) : Z := _pos b.
Definition Buffer_Length (b : Buffer) : Z := u32 (_pos b - _offset b).

(** The memory reachable from the pointers [Data()] and [Raw()]. *)
Definition Buffer_Data (b : Buffer) : list byte := drop (Z.to_nat (_offset b)) (_data b).
Definition Buffer_Raw (b : Buffer) : list byte := _data b.

(** [Write(data, len)], [src] being the memory at [data]. *)
Definition Buffer_Write (b : Buffer) (src : list byte) (len : Z) : option Buffer :=
  b1 ← (if u32 (_pos b + len) >? _size b then
          let sz := u32 (M_BUFFER_DEFAILT_SIZE *
                         (u32 (_pos b + len) / M_BUFFER_DEFAILT_SIZE + 1)) in
          old ← load (_data b) 0 (Z.to_nat (_pos b));
          ptmp ← store (malloc (Z.to_nat sz)) 0 old;
          Some (mkBuffer sz (_pos b) (_offset b) ptmp)
        else Some b);
  d ← load src 0 (Z.to_nat len);
  blk ← store (_data b1) (Z.to_nat (_pos b1)) d;
  Some (mkBuffer (_size b1) (u32 (_pos b1 + len)) (_offset b1) blk).

(** [Write(T const&)] for a four-byte unsigned [T]. *)
Definition Buffer_Write_u32 (b : Buffer) (v : Z) : option Buffer :=
  Buffer_Write b (le_bytes 4 v) 4.

Definition Buffer_Write_string (b : Buffer) (value : list byte) : option Buffer :=
  let len := u32 (Z.of_nat (length value)) in
  b1 ← Buffer_Write_u32 b len;
  Buffer_Write b1 (value ++ [x00]) len.

(** [Read(data, len)]: the bytes copied to [data], or [None] when the guard
    leaves the destination untouched. *)
Definition Buffer_Read (b : Buffer) (len : Z) : option (option (list byte) * Buffer) :=
  if u32 (_offset b + len) >? _pos b then Some (None, b)
  else
    d ← load (_data b) (Z.to_nat (_offset b)) (Z.to_nat len);
    Some (Some d, mkBuffer (_size b) (_pos b) (u32 (_offset b + len)) (_data b)).

(** [Read(T&)] for a four-byte unsigned [T] whose current value is [old]. *)
Definition Buffer_Read_u32 (b : Buffer) (old : Z) : option (Z * Buffer) :=
  '(r, b1) ← Buffer_Read b 4;
  Some (match r with Some d => le_val d | None => old end, b1).

(** The string a [char*] denotes: up to the first NUL. *)
Fixpoint c_str (bs : list byte) : list byte :=
  match bs with
  | [] => []
  | c :: bs => if decide (c = x00) then [] else c :: c_str bs
  end.

Definition Buffer_Read_string (b : Buffer) (value : list byte)
  : option (list byte * Buffer) :=
  '(len, b1) ← Buffer_Read_u32 b 0;
  if len >? 0 then
    let tmp := malloc (Z.to_nat (u32 (len + 1))) in
    '(r, b2) ← Buffer_Read b1 len;
    tmp1 ← match r with Some d => store tmp 0 d | None => Some tmp end;
    tmp2 ← store tmp1 (Z.to_nat len) [x00];
    Some (c_str tmp2, b2)
  else Some (value, b1).

Definition Buffer_Swap (b1 b2 : Buffer) : Buffer * Buffer := (b2, b1).

(** ** Well-formed buffers *)

Definition buf_wf (b : Buffer) : Prop :=
  0 <= _offset b <= _pos b ∧ _pos b <= _size b < 2 ^ 32 ∧
  Z.of_nat (length (_data b)) = _size b.

(** [b] holds the bytes [xs] and its read cursor is at [o]. *)
Definition buf_at (b : Buffer) (xs : list byte) (o : nat) : Prop :=
  buf_wf b ∧ take (Z.to_nat (_pos b)) (_data b) = xs ∧ Z.to_nat (_offset b) = o.

(** The bytes between the two cursors, which [Data()] and [Length()] delimit. *)
Definition buf_view (b : Buffer) : list byte :=
  take (Z.to_nat (Buffer_Length b)) (Buffer_Data b).

(** The bytes below the write cursor, which [Raw()] and [Size()] delimit. *)
Definition buf_raw (b : Buffer) : list byte :=
  take (Z.to_nat (Buffer_Size b)) (Buffer_Raw b).

(** Room for [n] more bytes without overflow of the 32-bit sizes. *)
Definition buf_room (xs : list byte) (n : nat) : Prop :=
  Z.of_nat (length xs) + Z.of_nat n < 2 ^ 32 - 1024.

Lemma buf_at_pos b xs o :
  buf_at b xs o → _pos b = Z.of_nat (length xs) ∧ _offset b = Z.of_nat o ∧ (o ≤ length xs)%nat.
Proof. intros ((?&?&?) & <- & <-). rewrite length_take. lia. Qed.

Lemma buf_at_wf b xs o : buf_at b xs o → buf_wf b.
Proof. by intros []. Qed.

Lemma buf_at_size b xs o : buf_at b xs o → Buffer_Size b = Z.of_nat (length xs).
Proof. intros H1. by destruct (buf_at_pos _ _ _ H1). Qed.

Lemma buf_at_bound b xs o : buf_at b xs o → Z.of_nat (length xs) < 2 ^ 32.
Proof. intros H1. pose proof (buf_at_pos _ _ _ H1). destruct H1 as ((?&?&?)&_). lia. Qed.

Lemma buf_at_length b xs o :
  buf_at b xs o → Buffer_Length b = Z.of_nat (length xs - o)%nat.
Proof.
  intros H1. destruct (buf_at_pos _ _ _ H1) as (Hp & Ho & Hle).
  pose proof (buf_at_bound _ _ _ H1). unfold Buffer_Length. wrap; lia.
Qed.

Lemma buf_at_view b xs o : buf_at b xs o → buf_view b = drop o xs.
Proof.
  intros H1. unfold buf_view, Buffer_Data. rewrite (buf_at_length _ _ _ H1).
  destruct (buf_at_pos _ _ _ H1) as (Hp & Ho & Hle).
  destruct H1 as (_ & Hx & <-). rewrite <- Hx at 2.
  rewrite Hp, Nat2Z.id, Nat2Z.id, skipn_firstn_comm. done.
Qed.

Lemma buf_at_raw b xs o : buf_at b xs o → buf_raw b = xs.
Proof. by intros (_ & <- & _). Qed.

Lemma buf_at_fun b xs o xs' o' : buf_at b xs o → buf_at b xs' o' → xs = xs' ∧ o = o'.
Proof. intros (_ & <- & <-) (_ & <- & <-). done. Qed.

Lemma buf_wf_at b : buf_wf b → buf_at b (buf_raw b) (Z.to_nat (_offset b)).
Proof. done. Qed.

(** ** The operations against the abstraction *)

Lemma buf_at_new : buf_at Buffer_new [] 0.
Proof.
  unfold buf_at, buf_wf, Buffer_new, M_BUFFER_DEFAILT_SIZE; simpl.
  rewrite length_malloc. done.
Qed.

Lemma buf_at_clear b xs o : buf_at b xs o → buf_at (Buffer_Clear b) [] 0.
Proof. intros ((?&?&?)&_&_). unfold buf_at, buf_wf; simpl. repeat split; lia. Qed.

(** Moving the read cursor: forward clamps at the write cursor, backward past
    the start wraps and clamps as well. *)
Lemma buf_at_cut b xs o n :
  buf_at b xs o → - Z.of_nat o <= n <= Z.of_nat (length xs) - Z.of_nat o →
  buf_at (Buffer_CutData b n) xs (Z.to_nat (Z.of_nat o + n)).
Proof.
  intros H1 Hn. destruct (buf_at_pos _ _ _ H1) as (Hp & Ho & Hle).
  pose proof (buf_at_bound _ _ _ H1). destruct H1 as ((?&?&?)&<-&_).
  unfold Buffer_CutData. rewrite u32_small by lia.
  zcases. unfold buf_at, buf_wf; simpl. repeat split; lia.
Qed.

Lemma buf_at_cut_out b xs o n :
  buf_at b xs o → - 2 ^ 31 <= n < 2 ^ 31 → Z.of_nat (length xs) < 2 ^ 31 →
  (n < - Z.of_nat o ∨ Z.of_nat (length xs) - Z.of_nat o < n) →
  buf_at (Buffer_CutData b n) xs (length xs).
Proof.
  intros H1 Hn Hl Hout. destruct (buf_at_pos _ _ _ H1) as (Hp & Ho & Hle).
  destruct H1 as ((?&?&?)&<-&_).
  unfold Buffer_CutData.
  assert (u32 (_offset b + n) > _pos b) as Hgt.
  { unfold u32. destruct Hout.
    - rewrite <- (Z_mod_plus_full _ 1), Z.mod_small; lia.
    - rewrite Z.mod_small; lia. }
  zcases. unfold buf_at, buf_wf; simpl. repeat split; try lia.
Qed.

Lemma load_prefix (src : list byte) n :
  (n ≤ length src)%nat → load src 0 n = Some (take n src).
Proof. intros. by rewrite load_ok by lia. Qed.

Lemma grow_bound p : 0 <= p → p < 1024 * (p / 1024 + 1) <= p + 1024.
Proof. intros. pose proof (Z.div_mod p 1024). pose proof (Z.mod_pos_bound p 1024). lia. Qed.

(** A write appends exactly the bytes it is given, growing the block when it
    must, and never faults while the sizes fit in 32 bits. *)
Lemma buf_at_write b xs o src n :
  buf_at b xs o → (n ≤ length src)%nat → buf_room xs n →
  ∃ b', Buffer_Write b src (Z.of_nat n) = Some b' ∧ buf_at b' (xs ++ take n src) o.
Proof.
  intros H1 Hn Hroom. unfold buf_room in Hroom.
  destruct (buf_at_pos _ _ _ H1) as (Hp & Ho & Hle).
  destruct H1 as ((Hw1&Hw2&Hw3)&Hx&_).
  unfold Buffer_Write, M_BUFFER_DEFAILT_SIZE. rewrite (u32_small (_pos b + _)) by lia.
  rewrite Nat2Z.id, (load_prefix src) by done.
  assert (Hlx : length (take (Z.to_nat (_pos b)) (_data b)) = length xs) by (by rewrite Hx).
  zcase.
  - pose proof (grow_bound (_pos b + Z.of_nat n) ltac:(lia)) as Hg.
    rewrite (u32_small (1024 * _)) by lia.
    set (sz := 1024 * _) in *.
    rewrite load_ok by lia. rewrite drop_0, Hx. cbn [mbind option_bind].
    rewrite store_ok by (len; lia). cbn [mbind option_bind _data _pos].
    rewrite store_ok by (len; lia). cbn [mbind option_bind].
    eexists; split; [reflexivity|].
    unfold buf_at, buf_wf; simpl. rewrite u32_small by lia.
    split; [repeat split; len; lia|]. split; [|lia].
    rewrite take_app_store by (len; lia). f_equal.
    rewrite Hp, Nat2Z.id. rewrite take_app_length'; [done|]. done.
  - cbn [mbind option_bind]. rewrite store_ok by (len; lia). cbn [mbind option_bind].
    eexists; split; [reflexivity|].
    unfold buf_at, buf_wf; simpl. rewrite u32_small by lia.
    split; [repeat split; len; lia|]. split; [|lia].
    rewrite take_app_store by (len; lia). by rewrite Hx.
Qed.

Lemma buf_at_append b xs o d :
  buf_at b xs o → buf_room xs (length d) →
  ∃ b', Buffer_Write b d (Z.of_nat (length d)) = Some b' ∧ buf_at b' (xs ++ d) o.
Proof.
  intros H1 H2. destruct (buf_at_write b xs o d (length d) H1) as (b' & E & H3); [done|done|].
  rewrite take_ge in H3 by done. eauto.
Qed.

Lemma buf_at_write_u32 b xs o v :
  buf_at b xs o → buf_room xs 4 →
  ∃ b', Buffer_Write_u32 b v = Some b' ∧ buf_at b' (xs ++ le_bytes 4 v) o.
Proof. intros H1 H2. by apply (buf_at_append b xs o (le_bytes 4 v)). Qed.

Lemma buf_at_read b xs o n :
  buf_at b xs o → (o + n ≤ length xs)%nat →
  ∃ b', Buffer_Read b (Z.of_nat n) = Some (Some (take n (drop o xs)), b') ∧
        buf_at b' xs (o + n).
Proof.
  intros H1 Hn. destruct (buf_at_pos _ _ _ H1) as (Hp & Ho & Hle).
  pose proof (buf_at_bound _ _ _ H1). destruct H1 as ((?&?&?)&Hx&_).
  unfold Buffer_Read. rewrite u32_small by lia. zcases.
  rewrite load_ok by lia. cbn [mbind option_bind].
  assert (take (Z.to_nat (Z.of_nat n)) (drop (Z.to_nat (_offset b)) (_data b))
          = take n (drop o xs)) as ->.
  { rewrite <- Hx, skipn_firstn_comm, take_take, Nat2Z.id, Ho, Nat2Z.id.
    f_equal. lia. }
  eexists; split; [reflexivity|].
  - unfold buf_at, buf_wf; simpl. repeat split; try lia. done.
Qed.

Lemma buf_at_read_short b xs o n :
  buf_at b xs o → (length xs < o + n)%nat → Z.of_nat o + Z.of_nat n < 2 ^ 32 →
  Buffer_Read b (Z.of_nat n) = Some (None, b).
Proof.
  intros H1 Hn Hb. destruct (buf_at_pos _ _ _ H1) as (Hp & Ho & Hle).
  unfold Buffer_Read. rewrite u32_small by lia. zcases. done.
Qed.

Lemma buf_at_read_u32 b xs o old :
  buf_at b xs o → (o + 4 ≤ length xs)%nat →
  ∃ b', Buffer_Read_u32 b old = Some (le_val (take 4 (drop o xs)), b') ∧ buf_at b' xs (o + 4).
Proof.
  intros H1 H2. destruct (buf_at_read b xs o 4 H1 H2) as (b' & E & H3).
  unfold Buffer_Read_u32. change 4 with (Z.of_nat 4). rewrite E. eauto.
Qed.

Lemma buf_at_read_u32_short b xs o old :
  buf_at b xs o → (length xs < o + 4)%nat → Z.of_nat (length xs) < 2 ^ 32 - 4 →
  Buffer_Read_u32 b old = Some (old, b).
Proof.
  intros H1 H2 H3. unfold Buffer_Read_u32. change 4 with (Z.of_nat 4).
  destruct (buf_at_pos _ _ _ H1) as (Hp & Ho & Hle).
  rewrite (buf_at_read_short _ _ _ _ H1 H2); [done|lia].
Qed.

(** ** Strings *)

Lemma c_str_app s t : Forall (λ c, c ≠ x00) s → c_str (s ++ x00 :: t) = s.
Proof.
  induction 1 as [|c s Hc Hs IH]; simpl; [done|].
  rewrite decide_False by done. by rewrite IH.
Qed.

Lemma buf_at_write_string b xs o s :
  buf_at b xs o → buf_room xs (4 + length s) →
  ∃ b', Buffer_Write_string b s = Some b' ∧
        buf_at b' (xs ++ le_bytes 4 (Z.of_nat (length s)) ++ s) o.
Proof.
  intros H1 Hr. unfold buf_room in Hr. unfold Buffer_Write_string.
  rewrite u32_small by lia.
  destruct (buf_at_write_u32 b xs o (Z.of_nat (length s)) H1) as (b1 & -> & H2);
    [unfold buf_room; lia|]. cbn [mbind option_bind].
  destruct (buf_at_write b1 _ o (s ++ [x00]) (length s) H2) as (b2 & -> & H3);
    [len; lia|unfold buf_room; len; simpl; lia|].
  rewrite take_app_length, <- app_assoc in H3. eauto.
Qed.

Lemma buf_at_read_string b xs o s v :
  buf_at b xs o → drop o xs = le_bytes 4 (Z.of_nat (length s)) ++ s →
  Forall (λ c, c ≠ x00) s → s ≠ [] → Z.of_nat (length s) < 2 ^ 31 →
  ∃ b', Buffer_Read_string b v = Some (s, b') ∧ buf_at b' xs (length xs).
Proof.
  intros H1 Hd Hs Hne Hl.
  assert (Hlen : length xs = (o + (4 + length s))%nat).
  { destruct (buf_at_pos _ _ _ H1) as (_ & _ & Hle).
    apply (f_equal length) in Hd. len. lia. }
  unfold Buffer_Read_string.
  destruct (buf_at_read_u32 b xs o 0 H1) as (b1 & -> & H2); [lia|]. cbn [mbind option_bind].
  rewrite Hd, take_app_length' by (len; done). rewrite le_val_bytes, Z.mod_small by lia.
  assert (0 < length s)%nat as Hpos by (destruct s; [done|simpl; lia]).
  zcase; [|lia].
  destruct (buf_at_read b1 xs (o + 4) (length s) H2) as (b2 & -> & H3); [lia|].
  cbn [mbind option_bind].
  assert (take (length s) (drop (o + 4) xs) = s) as ->.
  { rewrite <- drop_drop, Hd, drop_app_length' by (len; done). by rewrite take_ge. }
  rewrite u32_small by lia.
  rewrite store_ok by (len; lia). cbn [mbind option_bind].
  rewrite store_ok by (len; simpl; lia). cbn [mbind option_bind].
  eexists; split; [|by replace (length xs) with (o + 4 + length s)%nat by lia].
  rewrite Nat2Z.id, take_0, app_nil_l. rewrite take_app_length. simpl.
  rewrite c_str_app by done. done.
Qed.

(** Two memories that agree on the bytes copied. *)
Lemma Buffer_Write_view x b :
  buf_wf b → Buffer_Write x (Buffer_Data b) (Buffer_Length b) =
    Buffer_Write x (buf_view b) (Z.of_nat (length (buf_view b))).
Proof.
  intros Hw. pose proof (buf_wf_at _ Hw) as Hb.
  pose proof (buf_at_length _ _ _ Hb) as Hl. pose proof (buf_at_view _ _ _ Hb) as Hv.
  assert (Z.of_nat (length (buf_view b)) = Buffer_Length b) as -> by (rewrite Hv, Hl; len; lia).
  unfold Buffer_Write. destruct (if _ >? _ then _ else _) as [b1|]; [|done]. cbn [mbind option_bind].
  assert (load (Buffer_Data b) 0 (Z.to_nat (Buffer_Length b)) = load (buf_view b) 0 (Z.to_nat (Buffer_Length b))) as ->; [|done].
  assert (Z.to_nat (Buffer_Length b) ≤ length (Buffer_Data b))%nat as Hle.
  { unfold Buffer_Data. rewrite length_drop. destruct Hw as (?&?&?). unfold Buffer_Length. rewrite u32_small by lia. lia. }
  rewrite !load_ok; [|unfold buf_view; rewrite length_take; lia|lia].
  rewrite !drop_0. unfold buf_view. by rewrite take_take, Nat.min_id.
Qed.

Lemma view_length b : buf_wf b → Buffer_Length b = Z.of_nat (length (buf_view b)).
Proof. intros Hw. pose proof (buf_wf_at _ Hw) as Hb. rewrite (buf_at_length _ _ _ Hb), (buf_at_view _ _ _ Hb). by len. Qed.

(** ** Sequences of operations against a byte string with a cursor *)

Inductive buf_op :=
| OpWrite (d : list byte)
| OpRead (n : nat)
| OpCut (n : Z)
| OpClear.

Definition buf_step (b : Buffer) (op : buf_op) : option (option (list byte) * Buffer) :=
  match op with
  | OpWrite d => b1 ← Buffer_Write b d (Z.of_nat (length d)); Some (None, b1)
  | OpRead n => Buffer_Read b (Z.of_nat n)
  | OpCut n => Some (None, Buffer_CutData b n)
  | OpClear => Some (None, Buffer_Clear b)
  end.

Fixpoint buf_run (b : Buffer) (ops : list buf_op)
  : option (list (option (list byte)) * Buffer) :=
  match ops with
  | [] => Some ([], b)
  | op :: ops =>
      '(r, b1) ← buf_step b op;
      '(rs, b2) ← buf_run b1 ops;
      Some (r :: rs, b2)
  end.

(** The specification: an append-only byte string and a position in it. *)
Definition spec_step (s : list byte * nat) (op : buf_op)
  : option (list byte) * (list byte * nat) :=
  let (xs, o) := s in
  match op with
  | OpWrite d => (None, (xs ++ d, o))
  | OpRead n => if (o + n <=? length xs)%nat
                then (Some (take n (drop o xs)), (xs, (o + n)%nat))
                else (None, (xs, o))
  | OpCut n => let p := Z.of_nat o + n in
               if (0 <=? p) && (p <=? Z.of_nat (length xs))
               then (None, (xs, Z.to_nat p)) else (None, (xs, length xs))
  | OpClear => (None, ([], O))
  end.

Fixpoint spec_run (s : list byte * nat) (ops : list buf_op)
  : list (option (list byte)) * (list byte * nat) :=
  match ops with
  | [] => ([], s)
  | op :: ops => let (r, s1) := spec_step s op in
                 let (rs, s2) := spec_run s1 ops in (r :: rs, s2)
  end.

(** The bytes an operation may add, and the 32-bit range of its argument. *)
Definition op_weight (op : buf_op) : Z :=
  match op with OpWrite d => Z.of_nat (length d) | _ => 0 end.
Definition op_ok (op : buf_op) : Prop :=
  match op with
  | OpRead n => Z.of_nat n < 2 ^ 31
  | OpCut n => - 2 ^ 31 <= n < 2 ^ 31
  | _ => True
  end.
Definition ops_weight (ops : list buf_op) : Z := foldr (λ op z, op_weight op + z) 0 ops.

Lemma ops_weight_nonneg ops : 0 <= ops_weight ops.
Proof. induction ops as [|[] ops IH]; simpl in *; lia. Qed.

Lemma buf_step_refines b xs o op :
  buf_at b xs o → op_ok op → Z.of_nat (length xs) + op_weight op < 2 ^ 31 →
  ∃ b', buf_step b op = Some ((spec_step (xs, o) op).1, b') ∧
        buf_at b' (spec_step (xs, o) op).2.1 (spec_step (xs, o) op).2.2.
Proof.
  intros H1 Hok Hw. destruct (buf_at_pos _ _ _ H1) as (Hp & Ho & Hle).
  destruct op as [d|n|n|]; simpl in *.
  - destruct (buf_at_append b xs o d H1) as (b' & -> & H2); [unfold buf_room; lia|].
    simpl. eauto.
  - destruct (Nat.leb_spec (o + n) (length xs)).
    + apply buf_at_read; done.
    + rewrite (buf_at_read_short _ _ _ _ H1) by lia. eauto.
  - eexists; split; [destruct (_ && _); done|].
    destruct (Z.leb_spec 0 (Z.of_nat o + n)); simpl; [|apply (buf_at_cut_out _ _ _ _ H1); lia].
    destruct (Z.leb_spec (Z.of_nat o + n) (Z.of_nat (length xs))); simpl.
    + apply buf_at_cut; [done|lia].
    + apply (buf_at_cut_out _ _ _ _ H1); lia.
  - eexists; split; [done|]. by eapply buf_at_clear.
Qed.

Lemma spec_step_weight xs o op :
  Z.of_nat (length (spec_step (xs, o) op).2.1) <= Z.of_nat (length xs) + op_weight op.
Proof.
  destruct op as [d|n|n|]; simpl; [len; lia| | |lia].
  - destruct (_ <=? _)%nat; simpl; lia.
  - destruct (_ && _); simpl; lia.
Qed.

Lemma buf_run_refines ops : ∀ b xs o,
  buf_at b xs o → Forall op_ok ops → Z.of_nat (length xs) + ops_weight ops < 2 ^ 31 →
  ∃ b', buf_run b ops = Some ((spec_run (xs, o) ops).1, b') ∧
        buf_at b' (spec_run (xs, o) ops).2.1 (spec_run (xs, o) ops).2.2.
Proof.
  induction ops as [|op ops IH]; intros b xs o H1 Hok Hw; [simpl; eauto|].
  apply Forall_cons_1 in Hok as [Hok Hoks]. cbn [buf_run spec_run ops_weight foldr] in *.
  fold (ops_weight ops) in Hw. pose proof (ops_weight_nonneg ops).
  destruct (buf_step_refines b xs o op H1 Hok) as (b1 & -> & H2); [lia|].
  pose proof (spec_step_weight xs o op) as Hl.
  destruct (spec_step (xs, o) op) as [r [xs1 o1]]. simpl in *.
  destruct (IH b1 xs1 o1 H2 Hoks) as (b2 & -> & H3); [lia|].
  destruct (spec_run (xs1, o1) ops) as [rs s2]. simpl in *. eauto.
Qed.
End buffer.

#[export] Hint Resolve buf_at_new buf_at_clear buf_at_wf : slience.

(** A [malloc] whose blocks are zeroed, for concrete evaluations. *)
Definition zero_malloc : Malloc :=
  {| malloc n := replicate n x00; length_malloc n := length_replicate n x00 |}.

(** C23: for every sequence of writes, reads, cursor moves and clears whose sizes
    stay below 2^31, [base::Buffer] never touches memory outside its block and
    behaves as an append-only byte string with a read position: a read returns
    the next bytes in the order they were written or nothing at all, and a cursor
    move that leaves the string lands at its end. *)
Theorem Buffer_refines_byte_string `{Malloc} (ops : list buf_op) :
  Forall op_ok ops → ops_weight ops < 2 ^ 31 →
  ∃ b', buf_run Buffer_new ops = Some ((spec_run ([], O) ops).1, b') ∧
        buf_at b' (spec_run ([], O) ops).2.1 (spec_run ([], O) ops).2.2.
Proof. intros Hok Hw. apply buf_run_refines; [apply buf_at_new|done|simpl; lia]. Qed.

Lemma Buffer_refines_byte_string_witness :
  ∃ b', @buf_run zero_malloc (@Buffer_new zero_malloc)
          [OpWrite [x01; x02; x03]; OpRead 2; OpCut (-1); OpRead 9; OpRead 2]
        = Some ([None; Some [x01; x02]; None; None; Some [x02; x03]], b').
Proof.
  destruct (@Buffer_refines_byte_string zero_malloc
    [OpWrite [x01; x02; x03]; OpRead 2; OpCut (-1); OpRead 9; OpRead 2]) as (b' & E & _).
  - repeat constructor; simpl; lia.
  - vm_compute. reflexivity.
  - exists b'. exact E.
Defined.

(** A non-empty string without NUL bytes written with [operator<<] at the end of
    a fully read buffer is read back unchanged by [operator>>], whatever the
    variable held before and whatever the fresh memory contained. *)
Theorem Buffer_string_roundtrip `{Malloc} b xs s v :
  buf_at b xs (length xs) → Forall (λ c, c ≠ x00) s → s ≠ [] →
  Z.of_nat (length xs) + Z.of_nat (length s) < 2 ^ 31 →
  ∃ b1 b2, Buffer_Write_string b s = Some b1 ∧ Buffer_Read_string b1 v = Some (s, b2) ∧
           Buffer_Length b2 = 0.
Proof.
  intros H1 Hs Hne Hl.
  destruct (buf_at_write_string b xs (length xs) s H1) as (b1 & E1 & H2); [unfold buf_room; lia|].
  destruct (buf_at_read_string b1 _ (length xs) s v H2) as (b2 & E2 & H3); try done.
  - by rewrite drop_app_length.
  - lia.
  - exists b1, b2. repeat split; [done|done|]. rewrite (buf_at_length _ _ _ H3). lia.
Qed.

Lemma Buffer_string_roundtrip_witness :
  ∃ b1 b2, @Buffer_Write_string zero_malloc (@Buffer_new zero_malloc) [x61; x62] = Some b1 ∧
           @Buffer_Read_string zero_malloc b1 [x7a] = Some ([x61; x62], b2) ∧ Buffer_Length b2 = 0.
Proof.
  apply (@Buffer_string_roundtrip zero_malloc (@Buffer_new zero_malloc) []).
  - apply buf_at_new.
  - repeat constructor; discriminate.
  - discriminate.
  - vm_compute. reflexivity.
Defined.

(** What a variable holding [v] becomes when [s] is written to a new buffer and
    read back. *)
Definition string_through `{Malloc} (s v : list byte) : option (list byte) :=
  b ← Buffer_Write_string Buffer_new s;
  fst <$> Buffer_Read_string b v.

(** The two corner cases of [Read(std::string&)]: the result stops at an embedded
    NUL, and an empty string leaves the variable as it was. *)
Lemma Buffer_string_corner_cases :
  @string_through zero_malloc [x61; x00; x62] [] = Some [x61] ∧
  @string_through zero_malloc [] [x7a] = Some [x7a].
Proof. split; vm_compute; reflexivity. Qed.
