(* ===== verification/Frame.v ===== *)
(** * Message framing

    [MessageHeader] of [src/slience/netio/netio.hpp] and
    [TcpStreamSocket::_CutMsgPack] of [src/slience/netio/tsocket_impl.hpp]: the
    stream of bytes read from a TCP socket is cut into packets, each an
    eight-byte header (a timestamp and a size, in network order) and a body.

    [decode] is the reference decoder on a complete byte stream.  The main lemma,
    [CutMsgPack_refines], shows that one call of the incremental routine on a
    chunk performs exactly the deliveries of the reference decoder on the pending
    bytes followed by the chunk, and keeps the pending bytes in the reader. *)

From Stdlib Require Import ZArith Lia List Strings.Byte Init.Byte.
From stdpp Require Import base numbers list option.
From S2P Require Import Prelude Buffer.

(** ** The header *)

Record MessageHeader := mkHdr { timestamp : Z; size : Z }.

Definition MessageHeader_n2h (h : MessageHeader) : MessageHeader :=
  mkHdr (ntohl (timestamp h)) (ntohl (size h)).

Definition MessageHeader_h2n (h : MessageHeader) : MessageHeader :=
  mkHdr (htonl (timestamp h)) (htonl (size h)).

(** The packed object representation, and the header a block of bytes denotes. *)
Definition hdr_bytes (h : MessageHeader) : list byte :=
  le_bytes 4 (timestamp h) ++ le_bytes 4 (size h).
Definition hdr_of_bytes (bs : list byte) : MessageHeader :=
  mkHdr (le_val (take 4 bs)) (le_val (take 4 (drop 4 bs))).

Definition hdrlen : Z := 8.

Definition be_val (bs : list byte) : Z := le_val (rev bs).

Lemma ntohl_le_val bs : length bs = 4%nat → ntohl (le_val bs) = be_val bs.
Proof. intros Hl. unfold ntohl, htonl, be_val. by rewrite <- Hl, le_bytes_val. Qed.

Lemma be_val_bound bs : length bs = 4%nat → 0 <= be_val bs < 2 ^ 32.
Proof.
  intros Hl. unfold be_val. pose proof (le_val_bound (rev bs)) as H.
  rewrite length_rev, Hl in H. done.
Qed.

Lemma be_val_htonl z : 0 <= z < 2 ^ 32 → be_val (le_bytes 4 (htonl z)) = z.
Proof. intros Hz. rewrite <- ntohl_le_val by (len; done).
  rewrite le_val_bytes, Z.mod_small; [by apply ntohl_htonl|apply htonl_bound]. Qed.

(** ** The incremental decoder *)

Record reader := mkReader { msgbuffer : Buffer; curheader : MessageHeader }.

(** What the processing of the header part of one round decides: leave the
    function with a result, or go on with the body. *)
Inductive hdr_step :=
| HdrReturn (res : bool) (r : reader)
| HdrGo (r : reader) (buf : list byte) (tran_byte : Z).

(** The client of the framing layer: the application callback [OnReceiveData],
    which may do anything with the buffer it is lent as long as it leaves a
    well-formed buffer, and whose effect depends on the packet's bytes. *)
Class NetHandler `{Malloc} (St : Type) := {
  OnReceiveData : St → Buffer → option (St * Buffer);
  deliver : St → list byte → St;
  OnReceiveData_ok st b : buf_wf b →
    ∃ b', OnReceiveData st b = Some (deliver st (buf_view b), b') ∧ buf_wf b'
}.

Definition M_SOCKET_READ_SIZE : Z := 4 * 1024.
Definition M_SOCKET_PACK_SIZE : Z := 400 * 1024.

Section framing.
Context `{Malloc}.

(** Header part, with the size limit the caller checks. *)
Definition cut_header (limit : Z) (r : reader) (buf : list byte) (tran_byte : Z)
  : option hdr_step :=
  let datalen := Buffer_Length (msgbuffer r) in
  if size (curheader r) =? 0 then
    if u32 (tran_byte + datalen) <? hdrlen then
      mb ← Buffer_Write (msgbuffer r) buf tran_byte;
      Some (HdrReturn true (mkReader mb (curheader r)))
    else
      '(mb, buf, tran_byte) ←
        (if datalen >=? hdrlen then Some (msgbuffer r, buf, tran_byte)
         else
           mb ← Buffer_Write (msgbuffer r) buf (u32 (hdrlen - datalen));
           Some (mb, drop (Z.to_nat (u32 (hdrlen - datalen))) buf,
                 u32 (tran_byte - u32 (hdrlen - datalen))));
      '(d, mb) ← Buffer_Read mb hdrlen;
      let h := MessageHeader_n2h (match d with Some bs => hdr_of_bytes bs
                                             | None => curheader r end) in
      if size h >? limit then Some (HdrReturn false (mkReader mb h))
      else Some (HdrGo (mkReader mb h) buf tran_byte)
  else Some (HdrGo r buf tran_byte).

Context `{!NetHandler St}.

(** [_CutMsgPack(buf, tran_byte)]; one unit of fuel per round of the loop. *)
Fixpoint CutMsgPack (fuel : nat) (st : St) (r : reader) (buf : list byte) (tran_byte : Z)
  : option (bool * St * reader) :=
  match fuel with
  | O => None
  | S fuel =>
      h ← cut_header M_SOCKET_PACK_SIZE r buf tran_byte;
      match h with
      | HdrReturn res r => Some (res, st, r)
      | HdrGo r buf tran_byte =>
          let datalen := Buffer_Length (msgbuffer r) in
          let sz := size (curheader r) in
          if u32 (tran_byte + datalen) <? sz then
            mb ← Buffer_Write (msgbuffer r) buf tran_byte;
            Some (true, st, mkReader mb (curheader r))
          else
            mb ← Buffer_Write (msgbuffer r) buf (u32 (sz - datalen));
            '(st, mb) ← OnReceiveData st mb;
            CutMsgPack fuel st
              (mkReader (Buffer_Clear mb) (mkHdr (timestamp (curheader r)) 0))
              (drop (Z.to_nat (u32 (sz - datalen))) buf)
              (u32 (tran_byte - u32 (sz - datalen)))
      end
  end.

(** [_readerinfo_()] *)
Definition reader_new : reader := mkReader Buffer_new (mkHdr 0 0).
End framing.

(** ** The reference decoder *)

Inductive tail := Bad | More (pending : list byte).

Fixpoint decode (limit : Z) (fuel : nat) (xs : list byte) : list (list byte) * tail :=
  match fuel with
  | O => ([], More xs)
  | S fuel =>
      if (length xs <? 8)%nat then ([], More xs)
      else
        let sz := be_val (take 4 (drop 4 xs)) in
        if sz >? limit then ([], Bad)
        else if Z.of_nat (length xs) <? 8 + sz then ([], More xs)
        else
          let (fs, t) := decode limit fuel (drop (8 + Z.to_nat sz) xs) in
          (take (Z.to_nat sz) (drop 8 xs) :: fs, t)
  end.

(** The decoder with enough fuel: every packet takes at least eight bytes. *)
Definition decode_stream (limit : Z) (xs : list byte) : list (list byte) * tail :=
  decode limit (S (length xs)) xs.

Section decode.
Context (limit : Z).

Lemma decode_fuel f1 : ∀ f2 xs, (length xs < f1)%nat → (length xs < f2)%nat →
  decode limit f1 xs = decode limit f2 xs.
Proof.
  induction f1 as [|f1 IH]; intros [|f2] xs H1 H2; try lia. cbn [decode].
  destruct (Nat.ltb_spec (length xs) 8); [done|].
  rewrite (IH f2 (drop (8 + _) xs)) by (len; lia). done.
Qed.

Lemma decode_short xs : (length xs < 8)%nat → decode_stream limit xs = ([], More xs).
Proof. intros Hl. unfold decode_stream. cbn [decode]. by rewrite (proj2 (Nat.ltb_lt _ _) Hl). Qed.

Lemma decode_unfold xs : (8 ≤ length xs)%nat →
  decode_stream limit xs =
    (let sz := be_val (take 4 (drop 4 xs)) in
     if sz >? limit then ([], Bad)
     else if Z.of_nat (length xs) <? 8 + sz then ([], More xs)
     else
       let (fs, t) := decode_stream limit (drop (8 + Z.to_nat sz) xs) in
       (take (Z.to_nat sz) (drop 8 xs) :: fs, t)).
Proof.
  intros Hl. unfold decode_stream. cbn [decode].
  destruct (Nat.ltb_spec (length xs) 8); [lia|]. cbv zeta.
  rewrite (decode_fuel (length xs) (S (length (drop (8 + Z.to_nat (be_val
    (take 4 (drop 4 xs)))) xs)))) by (len; lia). done.
Qed.
End decode.

(** ** The incremental decoder refines the reference decoder *)

Section refine.
Context `{Malloc} `{!NetHandler St}.

(** The reader holds the pending bytes [p]: fewer than a header, or a header
    already consumed followed by less than its body. *)
Inductive reader_at (limit : Z) (r : reader) (p : list byte) : Prop :=
| reader_hdr :
    buf_at (msgbuffer r) p 0 → size (curheader r) = 0 → (length p < 8)%nat →
    reader_at limit r p
| reader_body :
    buf_at (msgbuffer r) p 8 → size (curheader r) = be_val (take 4 (drop 4 p)) →
    0 < size (curheader r) <= limit →
    (8 ≤ length p)%nat → Z.of_nat (length p) < 8 + size (curheader r) →
    reader_at limit r p.

Lemma reader_at_new limit : reader_at limit reader_new [].
Proof. apply reader_hdr; [apply buf_at_new|done|simpl; lia]. Qed.

Lemma reader_at_short limit r p : limit < 2 ^ 31 → reader_at limit r p →
  decode_stream limit p = ([], More p).
Proof.
  intros Hlim [? ? ?|? Hs ? ? ?]; [by apply decode_short|].
  rewrite decode_unfold by done. cbv zeta. rewrite <- Hs.
  zcases. done.
Qed.

Lemma hdr_size (p : list byte) :
  (8 ≤ length p)%nat →
  size (MessageHeader_n2h (hdr_of_bytes (take 8 p))) = be_val (take 4 (drop 4 p)).
Proof.
  intros Hl. unfold MessageHeader_n2h, hdr_of_bytes; simpl size.
  rewrite ntohl_le_val by (len; lia).
  rewrite skipn_firstn_comm, take_take. done.
Qed.

(** One header round, by the number of bytes available. *)
Lemma cut_header_short limit r p buf :
  buf_at (msgbuffer r) p 0 → size (curheader r) = 0 →
  (length p + length buf < 8)%nat →
  ∃ r', cut_header limit r buf (Z.of_nat (length buf)) = Some (HdrReturn true r') ∧
        reader_at limit r' (p ++ buf).
Proof.
  intros H1 H2 H3. unfold cut_header.
  rewrite H2, (buf_at_length _ _ _ H1), u32_small by lia. simpl.
  unfold hdrlen. zcase; [|lia].
  destruct (buf_at_append _ _ _ buf H1) as (mb & -> & H4); [unfold buf_room; lia|].
  cbn [mbind option_bind]. eexists; split; [done|].
  apply reader_hdr; [done|done|len; lia].
Qed.

Lemma cut_header_go limit r p buf :
  buf_at (msgbuffer r) p 0 → size (curheader r) = 0 → (length p < 8)%nat →
  (8 ≤ length p + length buf)%nat → Z.of_nat (length buf) < 2 ^ 31 →
  let hdr := take 8 (p ++ buf) in
  let sz := be_val (take 4 (drop 4 (p ++ buf))) in
  let rest := drop (8 - length p) buf in
  ∃ mb h, buf_at mb hdr 8 ∧ size h = sz ∧ length hdr = 8%nat ∧
    cut_header limit r buf (Z.of_nat (length buf)) =
      Some (if sz >? limit then HdrReturn false (mkReader mb h)
            else HdrGo (mkReader mb h) rest (Z.of_nat (length rest))).
Proof.
  intros H1 H2 H3 H4 H5 hdr sz rest. unfold cut_header.
  rewrite H2, (buf_at_length _ _ _ H1), Nat.sub_0_r, u32_small by lia.
  unfold hdrlen. simpl. zcase; [lia|].
  replace (Z.of_nat (length p) >=? 8) with false by lia.
  rewrite (u32_small (8 - _)) by lia.
  destruct (buf_at_write _ _ _ buf (8 - length p) H1) as (mb & E1 & H6);
    [lia|unfold buf_room; lia|].
  replace (8 - Z.of_nat (length p)) with (Z.of_nat (8 - length p)) by lia.
  rewrite E1. cbn [mbind option_bind].
  assert (Hh : p ++ take (8 - length p) buf = hdr).
  { unfold hdr. by rewrite firstn_app, (take_ge p) by lia. }
  rewrite Hh in H6.
  assert (Hl : length hdr = 8%nat) by (rewrite <- Hh; len; lia).
  destruct (buf_at_read mb hdr 0 8 H6) as (mb' & E2 & H7); [lia|].
  rewrite drop_0, take_ge in E2 by lia.
  change (Z.of_nat 8) with 8 in E2. rewrite E2. cbn [mbind option_bind].
  rewrite Nat2Z.id, u32_small by (len; lia).
  eexists mb', _. split; [exact H7|]. split; [|split; [exact Hl|]].
  2: { assert (size (MessageHeader_n2h (hdr_of_bytes hdr)) = sz) as Hsz.
       { replace hdr with (take 8 hdr) at 1 by (apply take_ge; lia).
         rewrite hdr_size by lia. unfold sz, hdr.
         rewrite skipn_firstn_comm, take_take. done. }
       rewrite <- Hsz.
       replace (Z.of_nat (length buf) - Z.of_nat (8 - length p))
         with (Z.of_nat (length rest)) by (unfold rest; len; lia).
       destruct (_ >? _); reflexivity. }
  replace hdr with (take 8 hdr) at 1 by (apply take_ge; lia).
  rewrite hdr_size by lia. unfold sz, hdr. rewrite skipn_firstn_comm, take_take. done.
Qed.

Abbreviation LIM := M_SOCKET_PACK_SIZE.

(** What a call must achieve on the pending bytes [xs] (old ones and chunk). *)
Definition cut_post (st : St) (xs : list byte) (res : option (bool * St * reader)) : Prop :=
  let (fs, t) := decode_stream LIM xs in
  ∃ r', res = Some (match t with More _ => true | Bad => false end, fold_left deliver fs st, r') ∧
        match t with More q => reader_at LIM r' q | Bad => True end.

Lemma cut_post_frame st xs k res :
  (8 ≤ length xs)%nat → be_val (take 4 (drop 4 xs)) <= LIM →
  be_val (take 4 (drop 4 xs)) = Z.of_nat k → (8 + k ≤ length xs)%nat →
  cut_post (deliver st (take k (drop 8 xs))) (drop (8 + k) xs) res →
  cut_post st xs res.
Proof.
  intros H1 H2 H3 H4 H5. unfold cut_post in *.
  rewrite (decode_unfold _ xs) by done. cbv zeta. rewrite H3 in *.
  replace (Z.of_nat k >? LIM) with false by lia.
  replace (Z.of_nat (length xs) <? 8 + Z.of_nat k) with false by lia.
  rewrite Nat2Z.id. destruct (decode_stream LIM (drop (8 + k) xs)). exact H5.
Qed.

Lemma take_4_4_app (q rest : list byte) : (8 ≤ length q)%nat →
  take 4 (drop 4 (q ++ rest)) = take 4 (drop 4 q).
Proof. intros. rewrite drop_app_le, take_app_le by (len; lia). done. Qed.

(** The body part of a round, given the rest of the loop. *)
Lemma cut_body_ok fuel st mb h q rest :
  buf_at mb q 8 → size h = be_val (take 4 (drop 4 q)) →
  0 <= size h <= LIM → (8 ≤ length q)%nat → Z.of_nat (length q) <= 8 + size h →
  Z.of_nat (length rest) < 2 ^ 31 →
  (∀ st r buf', (length buf' ≤ length rest)%nat →
     (length buf' + (8 + Z.to_nat (size h)) ≤ length q + length rest)%nat →
     reader_at LIM r [] → cut_post st buf' (CutMsgPack fuel st r buf' (Z.of_nat (length buf')))) →
  cut_post st (q ++ rest)
    (let datalen := Buffer_Length mb in
     let sz := size h in
     if u32 (Z.of_nat (length rest) + datalen) <? sz then
       mb ← Buffer_Write mb rest (Z.of_nat (length rest)); Some (true, st, mkReader mb h)
     else
       mb ← Buffer_Write mb rest (u32 (sz - datalen));
       '(st, mb) ← OnReceiveData st mb;
       CutMsgPack fuel st
         (mkReader (Buffer_Clear mb) (mkHdr (timestamp h) 0))
         (drop (Z.to_nat (u32 (sz - datalen))) rest)
         (u32 (Z.of_nat (length rest) - u32 (sz - datalen)))).
Proof.
  intros H1 H2 H3 H4 H5 H6 IH. unfold M_SOCKET_PACK_SIZE in *. cbv zeta.
  rewrite (buf_at_length _ _ _ H1), u32_small by lia.
  destruct (Z.ltb_spec (Z.of_nat (length rest) + Z.of_nat (length q - 8)) (size h)).
  - destruct (buf_at_append _ _ _ rest H1) as (mb' & -> & H7); [unfold buf_room; lia|].
    cbn [mbind option_bind].
    assert (reader_at (400 * 1024) (mkReader mb' h) (q ++ rest)) as Hr.
    { apply reader_body; simpl; [done|by rewrite take_4_4_app|lia|len; lia|len; lia]. }
    unfold cut_post. erewrite reader_at_short; [|by vm_compute|exact Hr]. eauto.
  - rewrite (u32_small (size h - _)) by lia. rewrite u32_small by lia.
    set (k := (Z.to_nat (size h) - (length q - 8))%nat).
    replace (size h - Z.of_nat (length q - 8)) with (Z.of_nat k) by lia.
    destruct (buf_at_write _ _ _ rest k H1) as (mb' & -> & H7);
      [lia|unfold buf_room; lia|]. cbn [mbind option_bind].
    destruct (OnReceiveData_ok st mb') as (mb'' & -> & Hwf); [eauto with slience|].
    cbn [mbind option_bind]. rewrite Nat2Z.id.
    rewrite (buf_at_view _ _ _ H7).
    apply (cut_post_frame _ _ (Z.to_nat (size h))); rewrite ?take_4_4_app by done;
      [len; lia|unfold M_SOCKET_PACK_SIZE; lia|lia|len; lia|].
    replace (take _ (drop 8 (q ++ rest))) with (drop 8 (q ++ take k rest)).
    2: { rewrite !drop_app_le, firstn_app by lia. rewrite (take_ge (drop 8 q)) by (len; lia).
         len. do 2 f_equal. }
    replace (drop (8 + _) (q ++ rest)) with (drop k rest).
    2: { rewrite drop_app_ge by lia. f_equal. lia. }
    replace (Z.of_nat (length rest) - Z.of_nat k) with (Z.of_nat (length (drop k rest)))
      by (len; lia).
    apply IH; [len; lia|len; lia|].
    apply reader_hdr; [by eapply buf_at_clear, buf_wf_at|done|simpl; lia].
Qed.

Lemma CutMsgPack_refines fuel : ∀ st r p buf,
  reader_at LIM r p → Z.of_nat (length buf) < 2 ^ 31 → (length buf < fuel)%nat →
  cut_post st (p ++ buf) (CutMsgPack fuel st r buf (Z.of_nat (length buf))).
Proof.
  induction fuel as [|fuel IH]; intros st r p buf H1 H2 H3; [lia|].
  assert (∀ st r buf', (length buf' < length buf)%nat → reader_at LIM r [] →
    cut_post st buf' (CutMsgPack fuel st r buf' (Z.of_nat (length buf')))) as IH'.
  { intros st' r' buf' Hl Hr. apply (IH st' r' [] buf'); [done|lia|lia]. }
  cbn [CutMsgPack]. destruct H1 as [Hb Hs Hl|Hb Hs Hsz Hl1 Hl2].
  - destruct (decide (length p + length buf < 8)%nat).
    + destruct (cut_header_short LIM r p buf Hb Hs) as (r' & -> & Hr); [done|].
      cbn [mbind option_bind]. unfold cut_post.
      erewrite reader_at_short; [|by vm_compute|exact Hr]. eauto.
    + destruct (cut_header_go LIM r p buf Hb Hs) as (mb & h & H4 & H5 & H6 & ->);
        [lia|lia|lia|].
      assert (Hsplit : p ++ buf = take 8 (p ++ buf) ++ drop (8 - length p) buf).
      { rewrite <- (take_drop 8 (p ++ buf)) at 1. f_equal. by rewrite drop_app_ge by lia. }
      assert (Hs8 : be_val (take 4 (drop 4 (take 8 (p ++ buf))))
                    = be_val (take 4 (drop 4 (p ++ buf)))).
      { by rewrite skipn_firstn_comm, take_take. }
      pose proof (be_val_bound (take 4 (drop 4 (p ++ buf))) ltac:(len; lia)).
      destruct (Z.gtb_spec (be_val (take 4 (drop 4 (p ++ buf)))) LIM) as [Hgt|Hle];
        cbn [mbind option_bind].
      * unfold cut_post. rewrite decode_unfold by (len; lia). cbv zeta.
        replace (_ >? _) with true by lia. eauto.
      * rewrite Hsplit at 1. apply cut_body_ok; cbn [msgbuffer curheader];
          rewrite ?H5, ?H6; try done; try lia.
        -- len. lia.
        -- intros st' r' buf' Hl' _ Hr. apply IH'; [|done]. len. lia.
  - unfold cut_header. replace (size (curheader r) =? 0) with false by lia.
    cbn [mbind option_bind]. apply cut_body_ok; try done; try lia.
    intros st' r' buf' _ Hl' Hr. apply IH'; [lia|done].
Qed.
End refine.

(** ** Whole connections *)

Section connection.
Context `{Malloc} `{!NetHandler St}.

(** The chunks one connection receives, in order; the loop of [_ReadHandler]
    stops at the first chunk [_CutMsgPack] refuses. *)
Fixpoint feed (st : St) (r : reader) (chunks : list (list byte)) : option (bool * St * reader) :=
  match chunks with
  | [] => Some (true, st, r)
  | c :: chunks =>
      '(ok, st, r) ← CutMsgPack (S (length c)) st r c (Z.of_nat (length c));
      if ok : bool then feed st r chunks else Some (false, st, r)
  end.

(** What [Send(data, len)] puts on the wire for one packet. *)
Definition frame_bytes (now : Z) (data : list byte) : list byte :=
  hdr_bytes (MessageHeader_h2n (mkHdr now (Z.of_nat (length data)))) ++ data.

Lemma decode_stream_frame limit now data xs :
  Z.of_nat (length data) <= limit → limit < 2 ^ 32 →
  decode_stream limit (frame_bytes now data ++ xs) =
    let (fs, t) := decode_stream limit xs in (data :: fs, t).
Proof.
  intros H1 H2. unfold frame_bytes, hdr_bytes, MessageHeader_h2n. simpl timestamp; simpl size.
  rewrite <- !app_assoc.
  set (t4 := le_bytes 4 (htonl now)). set (s4 := le_bytes 4 (htonl _)).
  assert (length t4 = 4%nat) by (unfold t4; len; done).
  assert (length s4 = 4%nat) by (unfold s4; len; done).
  assert (E : take 4 (drop 4 (t4 ++ s4 ++ data ++ xs)) = s4).
  { rewrite drop_app_length' by done. by rewrite take_app_length'. }
  rewrite decode_unfold by (len; lia). cbv zeta. rewrite E.
  assert (be_val s4 = Z.of_nat (length data)) as -> by (unfold s4; rewrite be_val_htonl; lia).
  replace (Z.of_nat (length data) >? limit) with false by lia.
  destruct (Z.ltb_spec (Z.of_nat (length (t4 ++ s4 ++ data ++ xs))) (8 + Z.of_nat (length data)));
    [len; lia|]. rewrite Nat2Z.id.
  assert (E8 : drop 8 (t4 ++ s4 ++ data ++ xs) = data ++ xs).
  { rewrite app_assoc. apply drop_app_length'. len. lia. }
  rewrite <- drop_drop, E8, drop_app_length, take_app_length. done.
Qed.

Lemma decode_stream_frames limit (pkts : list (Z * list byte)) xs :
  Forall (λ p, Z.of_nat (length p.2) <= limit) pkts → limit < 2 ^ 32 →
  decode_stream limit (concat (map (λ p, frame_bytes p.1 p.2) pkts) ++ xs) =
    let (fs, t) := decode_stream limit xs in (map snd pkts ++ fs, t).
Proof.
  intros Hall Hlim. induction Hall as [|[now d] pkts Hd _ IH]; cbn [map concat fst snd app].
  - by destruct (decode_stream limit xs).
  - rewrite <- app_assoc, decode_stream_frame, IH by done.
    by destruct (decode_stream limit xs).
Qed.

(** The reference decoder can restart from its pending bytes. *)
Lemma decode_stream_app limit n : ∀ xs ys, (length xs < n)%nat →
  decode_stream limit (xs ++ ys) =
    match decode_stream limit xs with
    | (fs, More q) => let (fs', t) := decode_stream limit (q ++ ys) in (fs ++ fs', t)
    | (fs, Bad) => (fs, Bad)
    end.
Proof.
  induction n as [|n IH]; intros xs ys Hn; [lia|].
  destruct (decide (length xs < 8)%nat).
  { rewrite (decode_short limit xs) by done. by destruct (decode_stream limit (xs ++ ys)). }
  rewrite (decode_unfold limit xs) by lia. cbv zeta.
  pose proof (be_val_bound (take 4 (drop 4 xs)) ltac:(len; lia)).
  set (sz := be_val (take 4 (drop 4 xs))) in *.
  assert (Hsz : be_val (take 4 (drop 4 (xs ++ ys))) = sz) by (by rewrite take_4_4_app by lia).
  destruct (Z.gtb_spec sz limit).
  { rewrite decode_unfold by (len; lia). cbv zeta. rewrite Hsz.
    by replace (sz >? limit) with true by lia. }
  destruct (Z.ltb_spec (Z.of_nat (length xs)) (8 + sz)).
  { by destruct (decode_stream limit (xs ++ ys)). }
  rewrite (decode_unfold limit (xs ++ ys)) by (len; lia). cbv zeta. rewrite Hsz.
  replace (sz >? limit) with false by lia.
  destruct (Z.ltb_spec (Z.of_nat (length (xs ++ ys))) (8 + sz)); [len; lia|].
  rewrite drop_app_le by lia. rewrite IH by (len; lia).
  destruct (decode_stream limit (drop _ xs)) as [fs [|q]].
  - rewrite drop_app_le, take_app_le by (len; lia). done.
  - destruct (decode_stream limit (q ++ ys)).
    rewrite drop_app_le, take_app_le by (len; lia). done.
Qed.

Lemma feed_refines chunks : ∀ st r p,
  reader_at M_SOCKET_PACK_SIZE r p →
  Forall (λ c, Z.of_nat (length c) < 2 ^ 31) chunks →
  let (fs, t) := decode_stream M_SOCKET_PACK_SIZE (p ++ concat chunks) in
  ∃ r', feed st r chunks = Some (match t with More _ => true | Bad => false end,
                                 fold_left deliver fs st, r').
Proof.
  induction chunks as [|c chunks IH]; intros st r p Hr Hc.
  - simpl. rewrite app_nil_r. erewrite reader_at_short; [|by vm_compute|done]. simpl. eauto.
  - apply Forall_cons_1 in Hc as [Hc Hcs]. simpl concat. rewrite app_assoc.
    rewrite (decode_stream_app _ (S (length (p ++ c)))) by lia. cbn [feed].
    pose proof (CutMsgPack_refines (S (length c)) st r p c Hr Hc ltac:(lia)) as Hcut.
    unfold cut_post in Hcut.
    destruct (decode_stream M_SOCKET_PACK_SIZE (p ++ c)) as [fs [|q]];
      destruct Hcut as (r' & -> & Hr'); cbn [mbind option_bind]; [eauto|].
    specialize (IH (fold_left deliver fs st) r' q Hr' Hcs).
    destruct (decode_stream M_SOCKET_PACK_SIZE (q ++ concat chunks)) as [fs' t].
    rewrite fold_left_app. exact IH.
Qed.
End connection.

(** The handler that records the packets it is given. *)
#[export] Program Instance recorder `{Malloc} : NetHandler (list (list byte)) := {|
  OnReceiveData st b := Some (st ++ [buf_view b], b);
  deliver st d := st ++ [d]
|}.
Next Obligation. simpl. eauto. Qed.

(** C1: framing round trip.  However the network cuts the byte stream of a
    sequence of sent packets (each at most 400 KB) into chunks, the receiver's
    [_CutMsgPack] accepts every chunk and hands exactly those packets, in order
    and byte for byte, to the application callback. *)
Theorem framing_roundtrip `{Malloc} `{!NetHandler St} (st : St)
    (pkts : list (Z * list byte)) (chunks : list (list byte)) :
  Forall (λ p, Z.of_nat (length p.2) <= M_SOCKET_PACK_SIZE) pkts →
  Forall (λ c, Z.of_nat (length c) < 2 ^ 31) chunks →
  concat chunks = concat (map (λ p, frame_bytes p.1 p.2) pkts) →
  ∃ r, feed st reader_new chunks = Some (true, fold_left deliver (map snd pkts) st, r).
Proof.
  intros Hp Hc E.
  pose proof (feed_refines chunks st reader_new [] (reader_at_new _) Hc) as Hf.
  rewrite app_nil_l, E, <- (app_nil_r (concat (map _ pkts))) in Hf.
  rewrite decode_stream_frames in Hf by (try done; vm_compute; done).
  rewrite decode_short, app_nil_r in Hf by (simpl; lia). exact Hf.
Qed.

#[local] Existing Instance zero_malloc.

Lemma framing_roundtrip_witness :
  ∃ r, feed (St:=list (list byte)) [] reader_new
         [[x00; x00; x00; x07; x00]; [x00; x00; x02; x61]; [x62; x00; x00]; [x00; x08];
          [x00; x00; x00; x01; x7a]]
       = Some (true, [[x61; x62]; [x7a]], r).
Proof.
  edestruct (framing_roundtrip (St:=list (list byte)) [] [(7, [x61; x62]); (8, [x7a])])
    as [r E]; [| | |exists r; exact E].
  - repeat constructor; vm_compute; discriminate.
  - repeat constructor.
  - vm_compute. reflexivity.
Defined.

(** C16: on an arbitrary byte stream, cut into arbitrary chunks, the incremental
    receiver makes exactly the deliveries of the reference decoder run on the
    whole stream, and refuses a chunk exactly when the reference decoder meets a
    header whose size exceeds the 400 KB limit. *)
Theorem receiver_refines_decoder `{Malloc} `{!NetHandler St} (st : St) (chunks : list (list byte)) :
  Forall (λ c, Z.of_nat (length c) < 2 ^ 31) chunks →
  let (fs, t) := decode_stream M_SOCKET_PACK_SIZE (concat chunks) in
  ∃ r, feed st reader_new chunks =
       Some (match t with More _ => true | Bad => false end, fold_left deliver fs st, r).
Proof. intros Hc. apply (feed_refines chunks st reader_new []); [apply reader_at_new|done]. Qed.

Lemma receiver_refines_decoder_witness :
  let chunks := [[x00; x00; x00; x07; x00; x00; x00; x01; x61; x00; x00; x00; x00; xff];
                 [xff; xff; xff; x61]] in
  ∃ r, feed (St:=list (list byte)) [] reader_new chunks = Some (false, [[x61]], r).
Proof.
  intros chunks.
  pose proof (receiver_refines_decoder (St:=list (list byte)) [] chunks) as Hf.
  assert (decode_stream M_SOCKET_PACK_SIZE (concat chunks) = ([[x61]], Bad)) as E
    by (vm_compute; reflexivity).
  rewrite E in Hf. apply Hf. repeat constructor.
Defined.
