(* ===== verification/TcpSocket.v ===== *)
(** * TCP sockets

    [TcpBaseSocket] and [TcpStreamSocket] of [src/slience/netio/netio.hpp] and
    [src/slience/netio/tsocket_impl.hpp], and [TcpSocket::Init].

    The writer keeps two buffers: [msgbuffer1] is being sent, [msgbuffer2]
    collects what the application sends meanwhile.  The calls made on the
    underlying asynchronous socket are recorded as actions; whether they report
    an error is an argument of the operation ([send_err], [recv_err]).  Each
    operation runs under [_writer.lock], so an execution is a sequence of them:
    the step relation [wstep] is the writer with its kernel, [Conn.cstep] one accepted
    connection with its I/O service and its callbacks. *)

From Stdlib Require Import ZArith Lia List Strings.Byte Init.Byte.
From stdpp Require Import base numbers list option relations.
From S2P Require Import Prelude Buffer Frame.

Inductive state_flag := E_STATE_START | E_STATE_STOP | E_STATE_CLOSE.
#[export] Instance state_flag_eq_dec : EqDecision state_flag.
Proof. solve_decision. Defined.

Inductive shutdown_type := E_Shutdown_RD | E_Shutdown_WR.

(** The calls on the underlying socket. *)
Inductive sock_act :=
| ActSendSome (data : list byte)
| ActRecvSome
| ActShutdown (what : shutdown_type)
| ActClose.

Record BaseSocket := mkSocket {
  _flag : state_flag;
  writing : bool;
  msgbuffer1 : Buffer;
  msgbuffer2 : Buffer
}.

Definition E_MAX_BUFFER_SIZE : Z := 1024 * 1024 * 3.

Section base.
Context `{Malloc}.

Definition TcpBaseSocket_new : BaseSocket := mkSocket E_STATE_STOP false Buffer_new Buffer_new.

(** [_Close()] *)
Definition TcpBaseSocket_Close_ (s : BaseSocket) : BaseSocket * list sock_act :=
  if decide (_flag s = E_STATE_CLOSE) then (s, [])
  else if writing s
       then (mkSocket E_STATE_STOP (writing s) (msgbuffer1 s) (msgbuffer2 s), [])
       else (mkSocket E_STATE_CLOSE (writing s) (msgbuffer1 s) (msgbuffer2 s), [ActClose]).

(** [Close()] calls [_PostClose()], which takes the lock around [_Close()]. *)
Definition TcpBaseSocket_Close (s : BaseSocket) : BaseSocket * list sock_act :=
  TcpBaseSocket_Close_ s.

Definition TcpBaseSocket_IsConnected (s : BaseSocket) : bool :=
  bool_decide (_flag s = E_STATE_START).

(** [_TrySendData()] *)
Definition TrySendData (send_err : bool) (s : BaseSocket)
  : bool * BaseSocket * list sock_act :=
  if writing s then (true, s, [])
  else
    let '(mb1, mb2) :=
      (if Buffer_Length (msgbuffer1 s) =? 0 then
         let '(mb1, mb2) := Buffer_Swap (msgbuffer1 s) (msgbuffer2 s) in
         let mb2 := if Buffer_Capacity mb2 >=? 1024 * 1024
                    then fst (Buffer_Swap mb2 Buffer_new) else mb2 in
         (mb1, Buffer_Clear mb2)
       else (msgbuffer1 s, msgbuffer2 s)) in
    if Buffer_Length mb1 >? 0 then
      let act := ActSendSome (take (Z.to_nat (Buffer_Length mb1)) (Buffer_Data mb1)) in
      if send_err then
        let (s', acts) := TcpBaseSocket_Close_ (mkSocket (_flag s) false mb1 mb2) in
        (false, s', act :: acts)
      else (true, mkSocket (_flag s) true mb1 mb2, [act])
    else (false, mkSocket (_flag s) false mb1 mb2, []).

(** [Send(const Buffer* )] *)
Definition TcpBaseSocket_SendBuffer (send_err : bool) (s : BaseSocket) (buffer : option Buffer)
  : option (bool * BaseSocket * list sock_act) :=
  match buffer with
  | None => Some (false, s, [])
  | Some buffer =>
      if Buffer_Length buffer =? 0 then Some (false, s, [])
      else
        let snd_len := s32 (Buffer_Size buffer) in
        if snd_len >? M_SOCKET_PACK_SIZE then Some (false, s, [])
        else if decide (_flag s ≠ E_STATE_START) then Some (false, s, [])
        else if u32 (Buffer_Size (msgbuffer2 s) + u32 snd_len) >? E_MAX_BUFFER_SIZE
             then Some (false, s, [])
        else
          mb2 ← Buffer_Write (msgbuffer2 s) (Buffer_Raw buffer) (u32 snd_len);
          let '(_, s', acts) :=
            TrySendData send_err (mkSocket (_flag s) (writing s) (msgbuffer1 s) mb2) in
          Some (true, s', acts)
  end.

(** [Send(const s_byte_t* data, s_uint32_t len)]; [now] is [time(0)]. *)
Definition TcpBaseSocket_Send (send_err : bool) (now : Z) (s : BaseSocket)
    (data : list byte) (len : Z) : option (bool * BaseSocket * list sock_act) :=
  if len <=? 0 then Some (false, s, [])
  else if len >? M_SOCKET_PACK_SIZE then Some (false, s, [])
  else if decide (_flag s ≠ E_STATE_START) then Some (false, s, [])
  else
    let snd_len := s32 (len + hdrlen) in
    if u32 (Buffer_Size (msgbuffer2 s) + u32 snd_len) >? E_MAX_BUFFER_SIZE
    then Some (false, s, [])
    else
      let hdr := MessageHeader_h2n (mkHdr (u32 now) len) in
      mb2 ← Buffer_Write (msgbuffer2 s) (hdr_bytes hdr) hdrlen;
      mb2 ← Buffer_Write mb2 data len;
      let '(_, s', acts) :=
        TrySendData send_err (mkSocket (_flag s) (writing s) (msgbuffer1 s) mb2) in
      Some (true, s', acts).

(** [_WriteHandler(tran_byte, error)] *)
Definition WriteHandler (send_err : bool) (s : BaseSocket) (tran_byte : Z) (error : bool)
  : BaseSocket * list sock_act :=
  let s := mkSocket (_flag s) false (msgbuffer1 s) (msgbuffer2 s) in
  if error then TcpBaseSocket_Close_ s
  else if tran_byte <=? 0 then TcpBaseSocket_Close_ s
  else
    let s := mkSocket (_flag s) false (Buffer_CutData (msgbuffer1 s) (s32 tran_byte))
               (msgbuffer2 s) in
    let '(ok, s, acts) := TrySendData send_err s in
    if negb ok && negb (bool_decide (_flag s = E_STATE_START)) then
      let (s, acts') := TcpBaseSocket_Close_ s in
      (s, acts ++ ActShutdown E_Shutdown_WR :: acts')
    else (s, acts).
End base.

(** ** The writer and its kernel *)

(** A writer together with what the kernel holds of it: the bytes it has taken,
    the data of the outstanding asynchronous send, and two ghosts: the
    bytes of every accepted packet, and whether the kernel reported a failure. *)
Record wsys := mkW {
  w_sock : BaseSocket;
  w_wire : list byte;
  w_post : option (list byte);
  w_accepted : list byte;
  w_failed : bool
}.

(** The outstanding send after a list of actions; a send that reported an error
    leaves none. *)
Definition posted (send_err : bool) (acts : list sock_act) (old : option (list byte))
  : option (list byte) :=
  fold_left (λ p a, match a with
                    | ActSendSome d => if send_err then None else Some d
                    | _ => p
                    end) acts old.

Definition has_send (acts : list sock_act) : bool :=
  existsb (λ a, match a with ActSendSome _ => true | _ => false end) acts.

Section wsys.
Context `{Malloc}.

Inductive wstep : wsys → wsys → Prop :=
| wstep_send w now data err ok s' acts :
    (** the application sends a packet *)
    Z.of_nat (length data) < 2 ^ 32 →
    TcpBaseSocket_Send err now (w_sock w) data (Z.of_nat (length data)) = Some (ok, s', acts) →
    wstep w (mkW s' (w_wire w) (posted err acts (w_post w))
               (w_accepted w ++ if ok : bool then frame_bytes (u32 now) data else [])
               (w_failed w || err && has_send acts))
| wstep_sendbuf w b err ok s' acts :
    (** the application sends a prepared buffer *)
    buf_wf b → Buffer_Size b < 2 ^ 31 →
    TcpBaseSocket_SendBuffer err (w_sock w) (Some b) = Some (ok, s', acts) →
    wstep w (mkW s' (w_wire w) (posted err acts (w_post w))
               (w_accepted w ++ if ok : bool then buf_raw b else [])
               (w_failed w || err && has_send acts))
| wstep_done w d n err s' acts :
    (** the kernel took the first [n] bytes of the outstanding send *)
    w_post w = Some d → (0 < n ≤ length d)%nat →
    WriteHandler err (w_sock w) (Z.of_nat n) false = (s', acts) →
    wstep w (mkW s' (w_wire w ++ take n d) (posted err acts None) (w_accepted w)
               (w_failed w || err && has_send acts))
| wstep_fail w d error s' acts :
    (** the outstanding send failed *)
    w_post w = Some d →
    WriteHandler true (w_sock w) 0 error = (s', acts) →
    wstep w (mkW s' (w_wire w) (posted true acts None) (w_accepted w) true)
| wstep_close w s' acts :
    (** the application closes the socket *)
    TcpBaseSocket_Close (w_sock w) = (s', acts) →
    wstep w (mkW s' (w_wire w) (posted false acts (w_post w)) (w_accepted w) (w_failed w)).

(** A connection that has just been established. *)
Definition w_init : wsys :=
  mkW (mkSocket E_STATE_START false Buffer_new Buffer_new) [] None [] false.

(** The invariant on the data: what is on the wire, in [msgbuffer1] and in
    [msgbuffer2], in this order, is what was accepted; the outstanding send is the
    unsent part of [msgbuffer1]; and bytes wait only while a send is outstanding
    or after a failure. *)
Definition wbufs (s : BaseSocket) (wire : list byte) (post : option (list byte))
    (acc : list byte) (failed : bool) : Prop :=
  ∃ xs1 o xs2,
    buf_at (msgbuffer1 s) xs1 o ∧ buf_at (msgbuffer2 s) xs2 0 ∧
    Z.of_nat (length xs1) <= E_MAX_BUFFER_SIZE ∧ Z.of_nat (length xs2) <= E_MAX_BUFFER_SIZE ∧
    wire ++ drop o xs1 ++ xs2 = acc ∧
    post = (if writing s then Some (drop o xs1) else None) ∧
    (writing s = true → (o < length xs1)%nat) ∧
    (writing s = false → failed = false → drop o xs1 = [] ∧ xs2 = []).

(** A socket is closed early only by a failure. *)
Record winv (w : wsys) : Prop := {
  wi_bufs : wbufs (w_sock w) (w_wire w) (w_post w) (w_accepted w) (w_failed w);
  wi_close : _flag (w_sock w) = E_STATE_CLOSE → writing (w_sock w) = false;
  wi_stop : _flag (w_sock w) = E_STATE_STOP → w_failed w = false → writing (w_sock w) = true
}.

Lemma Close_spec s s' acts :
  TcpBaseSocket_Close_ s = (s', acts) →
  msgbuffer1 s' = msgbuffer1 s ∧ msgbuffer2 s' = msgbuffer2 s ∧ writing s' = writing s ∧
  has_send acts = false ∧ (∀ err p, posted err acts p = p) ∧
  (_flag s' = E_STATE_CLOSE → _flag s = E_STATE_CLOSE ∨ writing s = false) ∧
  (_flag s' = E_STATE_STOP → writing s = true) ∧ _flag s' ≠ E_STATE_START.
Proof.
  unfold TcpBaseSocket_Close_. destruct (decide _) as [Hc|Hc].
  - intros [= <- <-]. rewrite Hc. naive_solver.
  - destruct (writing s) eqn:Hw; intros [= <- <-]; simpl; naive_solver.
Qed.

Lemma wbufs_close s s' acts wire post acc f :
  TcpBaseSocket_Close_ s = (s', acts) → wbufs s wire post acc f → wbufs s' wire post acc f.
Proof.
  intros E. destruct (Close_spec _ _ _ E) as (H1 & H2 & H3 & _).
  unfold wbufs. by rewrite H1, H2, H3.
Qed.

Lemma winv_close s s' acts wire post acc f :
  TcpBaseSocket_Close_ s = (s', acts) → wbufs s wire post acc f →
  (_flag s = E_STATE_CLOSE → writing s = false) → winv (mkW s' wire post acc f).
Proof.
  intros E H1 H2. pose proof (wbufs_close _ _ _ _ _ _ _ E H1).
  destruct (Close_spec _ _ _ E) as (_ & _ & Hw & _ & _ & Hc & Hs & _).
  constructor; simpl; [done|rewrite Hw; intros [?|?]%Hc; auto|rewrite Hw; auto].
Qed.

(** The buffers at the moment [_TrySendData] decides. *)
Lemma TrySendData_spec err s xs1 o xs2 :
  writing s = false → buf_at (msgbuffer1 s) xs1 o → buf_at (msgbuffer2 s) xs2 0 →
  ∃ mb1 mb2 ys o' zs,
    buf_at mb1 ys o' ∧ buf_at mb2 zs 0 ∧ drop o' ys ++ zs = drop o xs1 ++ xs2 ∧
    (drop o' ys = [] → zs = []) ∧
    (length ys ≤ length xs1 `max` length xs2)%nat ∧ (length zs ≤ length xs2)%nat ∧
    TrySendData err s =
      if decide (drop o' ys = []) then (false, mkSocket (_flag s) false mb1 mb2, [])
      else if err then
        let (s', acts) := TcpBaseSocket_Close_ (mkSocket (_flag s) false mb1 mb2) in
        (false, s', ActSendSome (drop o' ys) :: acts)
      else (true, mkSocket (_flag s) true mb1 mb2, [ActSendSome (drop o' ys)]).
Proof.
  intros Hw H1 H2. destruct (buf_at_pos _ _ _ H1) as (_ & _ & Ho).
  pose proof (buf_at_length _ _ _ H1) as Hl1.
  assert (∀ mb1 mb2 ys o', buf_at mb1 ys o' →
    (if Buffer_Length mb1 >? 0
     then if err
          then let (s', acts) := TcpBaseSocket_Close_ (mkSocket (_flag s) false mb1 mb2) in
               (false, s', ActSendSome (buf_view mb1) :: acts)
          else (true, mkSocket (_flag s) true mb1 mb2, [ActSendSome (buf_view mb1)])
     else (false, mkSocket (_flag s) false mb1 mb2, [])) =
    (if decide (drop o' ys = []) then (false, mkSocket (_flag s) false mb1 mb2, [])
     else if err then
        let (s', acts) := TcpBaseSocket_Close_ (mkSocket (_flag s) false mb1 mb2) in
        (false, s', ActSendSome (drop o' ys) :: acts)
      else (true, mkSocket (_flag s) true mb1 mb2, [ActSendSome (drop o' ys)]))) as Hfin.
  { intros mb1 mb2 ys o' Hb. rewrite (buf_at_view _ _ _ Hb), (buf_at_length _ _ _ Hb).
    rewrite <- (length_drop ys). destruct (drop o' ys) as [|y l]; [done|].
    by destruct (Z.gtb_spec (Z.of_nat (length (y :: l))) 0); [|simpl in *; lia]. }
  unfold TrySendData. rewrite Hw, Hl1.
  destruct (Z.eqb_spec (Z.of_nat (length xs1 - o)) 0) as [He|He].
  - cbn [Buffer_Swap fst].
    exists (msgbuffer2 s),
      (Buffer_Clear (if Buffer_Capacity (msgbuffer1 s) >=? 1024 * 1024 then Buffer_new
                     else msgbuffer1 s)), xs2, 0%nat, [].
    split; [done|]. split.
    { destruct (_ >=? _); eapply buf_at_clear; [apply buf_at_new|done]. }
    rewrite drop_0, app_nil_r, (drop_ge xs1) by lia.
    split; [done|]. split; [done|]. split; [lia|]. split; [simpl; lia|].
    exact (Hfin _ _ _ _ H2).
  - exists (msgbuffer1 s), (msgbuffer2 s), xs1, o, xs2.
    split; [done|]. split; [done|]. split; [done|]. split.
    { intros Hd%(f_equal length). len. simpl in Hd. lia. }
    split; [lia|]. split; [lia|]. exact (Hfin _ _ _ _ H1).
Qed.

Lemma wbufs_try err s ok s' acts wire acc f xs1 o xs2 :
  TrySendData err s = (ok, s', acts) → writing s = false →
  buf_at (msgbuffer1 s) xs1 o → buf_at (msgbuffer2 s) xs2 0 →
  Z.of_nat (length xs1) <= E_MAX_BUFFER_SIZE → Z.of_nat (length xs2) <= E_MAX_BUFFER_SIZE →
  wire ++ drop o xs1 ++ xs2 = acc →
  wbufs s' wire (posted err acts None) acc (f || err && has_send acts) ∧
  writing s' = ok ∧ (_flag s' ≠ _flag s → ok = false) ∧ (ok = true → err = false) ∧
  (_flag s' = E_STATE_STOP → _flag s = E_STATE_STOP).
Proof.
  intros E Hw H1 H2 Hl1 Hl2 Hacc.
  destruct (TrySendData_spec err s xs1 o xs2 Hw H1 H2)
    as (mb1 & mb2 & ys & o' & zs & H3 & H4 & Heq & Hnil & Hl3 & Hl4 & E').
  rewrite E' in E. clear E'.
  destruct (decide (drop o' ys = [])) as [Hd|Hd].
  - simplify_eq. simpl. rewrite andb_false_r, orb_false_r.
    split; [|naive_solver]. exists ys, o', zs. simpl. rewrite Heq.
    split_and!; try done; try lia. intros _ _. by rewrite Hnil.
  - assert (o' < length ys)%nat.
    { destruct (decide (o' < length ys)%nat); [done|].
      destruct Hd. apply drop_ge. lia. }
    destruct err.
    + destruct (TcpBaseSocket_Close_ _) as [s1 acts1] eqn:Ec. simplify_eq.
      destruct (Close_spec _ _ _ Ec) as (Hb1 & Hb2 & Hw' & Hs & Hp & Hc & Hst & Hstart).
      change (posted true (ActSendSome (drop o' ys) :: acts1) None) with (posted true acts1 None).
      rewrite Hp, orb_true_r. simpl in *. split; [|naive_solver].
      exists ys, o', zs. rewrite Hb1, Hb2, Hw'. rewrite Heq.
      split_and!; try done; try lia; by intros ? ?%orb_false_elim.
    + simplify_eq. simpl. rewrite orb_false_r. split; [|naive_solver].
      exists ys, o', zs. simpl. rewrite Heq. split_and!; try done; lia.
Qed.

(** Both [Send]s either refuse and change nothing, or append to [msgbuffer2] and
    try to send; they never fault. *)
Definition send_taken (err : bool) (s : BaseSocket) (xs2 bytes : list byte)
    (res : option (bool * BaseSocket * list sock_act)) : Prop :=
  ∃ mb2 ok s' acts,
    _flag s = E_STATE_START ∧ buf_at mb2 (xs2 ++ bytes) 0 ∧
    Z.of_nat (length (xs2 ++ bytes)) <= E_MAX_BUFFER_SIZE ∧
    TrySendData err (mkSocket (_flag s) (writing s) (msgbuffer1 s) mb2) = (ok, s', acts) ∧
    res = Some (true, s', acts).

Definition send_result (err : bool) (s : BaseSocket) (xs2 bytes : list byte)
    (res : option (bool * BaseSocket * list sock_act)) : Prop :=
  res = Some (false, s, []) ∨ send_taken err s xs2 bytes res.

Lemma SendBuffer_spec err s xs2 b :
  buf_at (msgbuffer2 s) xs2 0 → Z.of_nat (length xs2) <= E_MAX_BUFFER_SIZE → buf_wf b →
  Buffer_Size b < 2 ^ 31 →
  send_result err s xs2 (buf_raw b) (TcpBaseSocket_SendBuffer err s (Some b)).
Proof.
  unfold send_result, send_taken, E_MAX_BUFFER_SIZE. intros H1 H2 Hb Hsz. unfold TcpBaseSocket_SendBuffer.
  pose proof (buf_at_size _ _ _ (buf_wf_at _ Hb)) as Hbs.
  pose proof (buf_at_size _ _ _ H1) as Hs2. rewrite Hs2.
  destruct (_ =? 0); [by left|]. rewrite s32_small by lia. unfold M_SOCKET_PACK_SIZE.
  destruct (Z.gtb_spec (Buffer_Size b) (400 * 1024)); [by left|].
  destruct (decide _) as [Hf|Hf]; [by left|]. apply dec_stable in Hf.
  rewrite u32_add_r, !u32_small by lia.
  destruct (Z.gtb_spec (Z.of_nat (length xs2) + Buffer_Size b) E_MAX_BUFFER_SIZE) as [|Hm];
    [by left|]. right. unfold E_MAX_BUFFER_SIZE in Hm. rewrite Hbs.
  assert (length (buf_raw b) ≤ length (Buffer_Raw b))%nat
    by (unfold buf_raw; rewrite length_take; lia).
  destruct (buf_at_write _ _ _ (Buffer_Raw b) (length (buf_raw b)) H1) as (mb2 & -> & Hb3);
    [done|unfold buf_room; lia|]. cbn [mbind option_bind].
  assert (take (length (buf_raw b)) (Buffer_Raw b) = buf_raw b) as Er.
  { unfold buf_raw at 2. rewrite Hbs. by rewrite Nat2Z.id. }
  rewrite Er in Hb3. destruct (TrySendData _ _) as [[ok s'] acts] eqn:E.
  exists mb2, ok, s', acts. len. split_and!; try done; lia.
Qed.

Lemma hdr_bytes_length h : length (hdr_bytes h) = 8%nat.
Proof. unfold hdr_bytes. by len. Qed.

(** The packets [Send] must take: on a connected socket, a packet of 1 to 409,600
    bytes for which the second buffer has room. *)
Definition Send_accepts (s : BaseSocket) (len : Z) : Prop :=
  _flag s = E_STATE_START ∧ 0 < len <= 400 * 1024 ∧
  Buffer_Size (msgbuffer2 s) + len + 8 <= 3 * 1024 * 1024.

Lemma Send_decides err now s xs2 data :
  buf_at (msgbuffer2 s) xs2 0 → Z.of_nat (length xs2) <= E_MAX_BUFFER_SIZE →
  Z.of_nat (length data) < 2 ^ 32 →
  let res := TcpBaseSocket_Send err now s data (Z.of_nat (length data)) in
  (Send_accepts s (Z.of_nat (length data)) → send_taken err s xs2 (frame_bytes (u32 now) data) res) ∧
  (¬ Send_accepts s (Z.of_nat (length data)) → res = Some (false, s, [])).
Proof.
  unfold send_taken, Send_accepts, E_MAX_BUFFER_SIZE. intros H1 H2 Hd. unfold TcpBaseSocket_Send.
  pose proof (buf_at_size _ _ _ H1) as Hs2. rewrite Hs2.
  destruct (Z.leb_spec (Z.of_nat (length data)) 0); [split; [intros (_ & ? & ?); lia|done]|]. unfold M_SOCKET_PACK_SIZE.
  destruct (Z.gtb_spec (Z.of_nat (length data)) (400 * 1024)); [split; [intros (_ & ? & ?); lia|done]|].
  destruct (decide _) as [Hf|Hf]; [split; [intros (? & _); done|done]|]. apply dec_stable in Hf.
  change hdrlen with (Z.of_nat 8). rewrite s32_small by lia.
  rewrite u32_add_r, (u32_small (Z.of_nat (length xs2) + _)) by lia.
  destruct (Z.gtb_spec (Z.of_nat (length xs2) + (Z.of_nat (length data) + Z.of_nat 8))
              E_MAX_BUFFER_SIZE) as [Hm|Hm]; unfold E_MAX_BUFFER_SIZE in Hm; [split; [intros (_ & ? & ?); lia|done]|].
  split; [intros _|intros Hn; exfalso; apply Hn; split_and!; (done || lia)].
  set (hdr := hdr_bytes _). assert (length hdr = 8%nat) as Hh by apply hdr_bytes_length.
  destruct (buf_at_append _ _ _ hdr H1) as (mb & E1 & Hb3); [unfold buf_room; lia|].
  rewrite Hh in E1. rewrite E1. cbn [mbind option_bind].
  destruct (buf_at_append _ _ _ data Hb3) as (mb2 & -> & Hb4); [unfold buf_room; len; lia|].
  cbn [mbind option_bind]. rewrite <- app_assoc in Hb4.
  destruct (TrySendData _ _) as [[ok s'] acts] eqn:E.
  exists mb2, ok, s', acts. unfold frame_bytes. fold hdr. len. split_and!; try done; lia.
Qed.

Lemma Send_accepts_dec s len : Send_accepts s len ∨ ¬ Send_accepts s len.
Proof.
  unfold Send_accepts. destruct (decide (_flag s = E_STATE_START)); [|right; tauto].
  destruct (decide (0 < len <= 400 * 1024)); [|right; tauto].
  destruct (decide (Buffer_Size (msgbuffer2 s) + len + 8 <= 3 * 1024 * 1024)); [left|right]; tauto.
Qed.

Lemma Send_spec err now s xs2 data :
  buf_at (msgbuffer2 s) xs2 0 → Z.of_nat (length xs2) <= E_MAX_BUFFER_SIZE →
  Z.of_nat (length data) < 2 ^ 32 →
  send_result err s xs2 (frame_bytes (u32 now) data)
    (TcpBaseSocket_Send err now s data (Z.of_nat (length data))).
Proof.
  intros H1 H2 Hd. destruct (Send_decides err now s xs2 data H1 H2 Hd) as [Ha Hr].
  destruct (Send_accepts_dec s (Z.of_nat (length data))); [right|left]; auto.
Qed.

Lemma TrySendData_writing err s : writing s = true → TrySendData err s = (true, s, []).
Proof. intros Hw. unfold TrySendData. by rewrite Hw. Qed.

Lemma winv_send err s wire post acc f xs2 bytes ok s' acts :
  winv (mkW s wire post acc f) → buf_at (msgbuffer2 s) xs2 0 →
  send_result err s xs2 bytes (Some (ok, s', acts)) →
  winv (mkW s' wire (posted err acts post) (acc ++ if ok : bool then bytes else [])
          (f || err && has_send acts)).
Proof.
  intros [Hb Hc Hs] H2 [Hr|(mb2 & ok' & s1 & acts1 & Hf & H3 & Hl3 & E & Hr)]; simplify_eq;
    simpl in *; [rewrite andb_false_r, orb_false_r, app_nil_r; by constructor|].
  destruct Hb as (xs1 & o & xs2' & H1 & H2' & Hl1 & Hl2 & Hacc & Hp & Hpend & Hidle).
  destruct (buf_at_fun _ _ _ _ _ H2 H2') as [<- _]. clear H2'.
  destruct (writing s) eqn:Hw.
  - rewrite TrySendData_writing in E by done. simplify_eq. simpl.
    rewrite andb_false_r, orb_false_r. constructor; simpl; try (rewrite Hf; done).
    exists xs1, o, (xs2 ++ bytes). simpl. rewrite <- !app_assoc. by split_and!.
  - subst post.
    edestruct (wbufs_try err _ _ _ _ wire (acc ++ bytes) f xs1 o (xs2 ++ bytes) E)
      as (Hb & Hw' & Hch & Hok & Hst); try done.
    { rewrite <- Hacc. by rewrite !app_assoc. }
    simpl in *. constructor; simpl; [done| |].
    + intros Hcl. rewrite Hw'. apply Hch. congruence.
    + intros Hst'%Hst. congruence.
Qed.

Lemma winv_done err s wire d n acc f s' acts :
  winv (mkW s wire (Some d) acc f) → (0 < n ≤ length d)%nat →
  WriteHandler err s (Z.of_nat n) false = (s', acts) →
  winv (mkW s' (wire ++ take n d) (posted err acts None) acc (f || err && has_send acts)).
Proof.
  intros [Hb Hc Hs] Hn E. simpl in *.
  destruct Hb as (xs1 & o & xs2 & H1 & H2 & Hl1 & Hl2 & Hacc & Hp & Hpend & Hidle).
  destruct (writing s) eqn:Hw; [|done]. simplify_eq.
  assert (_flag s ≠ E_STATE_CLOSE) as Hnc by (intros ?%Hc; done).
  assert (Hld : (length (drop o xs1) ≤ length xs1)%nat) by (len; lia).
  unfold WriteHandler, E_MAX_BUFFER_SIZE in *.
  replace (Z.of_nat n <=? 0) with false in E by lia. rewrite s32_small in E by lia.
  pose proof (buf_at_cut _ _ _ (Z.of_nat n) H1 ltac:(rewrite length_drop in Hn; lia)) as H1'.
  replace (Z.to_nat (Z.of_nat o + Z.of_nat n)) with (o + n)%nat in H1' by lia.
  set (s1 := mkSocket _ _ _ _) in E.
  destruct (TrySendData err s1) as [[ok s2] acts2] eqn:Et.
  destruct (wbufs_try err s1 ok s2 acts2 (wire ++ take n (drop o xs1)) 
    (wire ++ drop o xs1 ++ xs2) f xs1 (o + n) xs2 Et)
    as (Hb & Hw' & Hch & Hok & Hst); try done.
  { rewrite <- !app_assoc. f_equal. rewrite app_assoc. f_equal.
    by rewrite <- drop_drop, take_drop. }
  destruct ok; simpl in E.
  - simplify_eq. constructor; simpl; [done| |by rewrite Hw'].
    intros Hcl. rewrite Hw'. apply Hch. simpl. congruence.
  - destruct (decide (_flag s2 = E_STATE_START)) as [Hst2|Hst2].
    + rewrite bool_decide_true in E by done. simplify_eq/=.
      constructor; simpl; [done|congruence..].
    + rewrite bool_decide_false in E by done. simpl in E.
      destruct (TcpBaseSocket_Close_ s2) as [s3 acts3] eqn:Ec. simplify_eq.
      destruct (Close_spec _ _ _ Ec) as (_ & _ & _ & Hns & Hp & _).
      unfold posted, has_send in *. rewrite fold_left_app, existsb_app. simpl.
      rewrite Hp, Hns, orb_false_r. eapply winv_close; [done|done|by rewrite Hw'].
Qed.

Lemma winv_fail s wire d acc f error s' acts :
  winv (mkW s wire (Some d) acc f) → WriteHandler true s 0 error = (s', acts) →
  winv (mkW s' wire (posted true acts None) acc true).
Proof.
  intros [Hb Hc Hs] E. simpl in *.
  destruct Hb as (xs1 & o & xs2 & H1 & H2 & Hl1 & Hl2 & Hacc & Hp & Hpend & Hidle).
  assert (TcpBaseSocket_Close_ (mkSocket (_flag s) false (msgbuffer1 s) (msgbuffer2 s))
          = (s', acts)) as Ec by (unfold WriteHandler in E; by destruct error).
  destruct (Close_spec _ _ _ Ec) as (_ & _ & _ & _ & Hpo & _).
  rewrite Hpo. eapply winv_close; [done| |done].
  exists xs1, o, xs2. by split_and!.
Qed.

Lemma winv_init : winv w_init.
Proof.
  constructor; simpl; try done. exists [], 0%nat, []. simpl.
  split_and!; try done; apply buf_at_new.
Qed.

Lemma winv_step w w' : winv w → wstep w w' → winv w'.
Proof.
  intros Hi Hstep. destruct w as [s wire post acc f].
  pose proof (wi_bufs _ Hi) as (_ & _ & xs2 & _ & H2 & _ & Hl2 & _).
  destruct Hstep as [w now data err ok s' acts Hd E|w b err ok s' acts Hb Hsz E
    |w d n err s' acts Hp Hn E|w d error s' acts Hp E|w s' acts E]; destruct w; simplify_eq/=.
  - eapply winv_send; [done|done|]. rewrite <- E. by apply Send_spec.
  - eapply winv_send; [done|done|]. rewrite <- E. by apply SendBuffer_spec.
  - by eapply winv_done.
  - by eapply winv_fail.
  - unfold TcpBaseSocket_Close in E. destruct Hi as [Hb Hc Hs].
    destruct (Close_spec _ _ _ E) as (_ & _ & _ & _ & Hpo & _).
    rewrite Hpo. by eapply winv_close.
Qed.

Lemma winv_reach w : rtc wstep w_init w → winv w.
Proof.
  intros Hr. remember w_init as w0 eqn:E. assert (winv w0) as Hi by (subst; apply winv_init).
  clear E. induction Hr; eauto using winv_step.
Qed.
End wsys.

(** An executable scheduler for the writer, for running concrete scenarios. *)
Inductive wop :=
| OpSend (now : Z) (data : list byte) (err : bool)
| OpDone (n : nat) (err : bool)
| OpFail (error : bool)
| OpClose.

Section exec.
Context `{Malloc}.

Definition w_exec (w : wsys) (op : wop) : option wsys :=
  match op with
  | OpSend now data err =>
      if Z.of_nat (length data) <? 2 ^ 32 then
        '(ok, s', acts) ← TcpBaseSocket_Send err now (w_sock w) data (Z.of_nat (length data));
        Some (mkW s' (w_wire w) (posted err acts (w_post w))
               (w_accepted w ++ if ok : bool then frame_bytes (u32 now) data else [])
               (w_failed w || err && has_send acts))
      else None
  | OpDone n err =>
      d ← w_post w;
      if (0 <? n)%nat && (n <=? length d)%nat then
        let (s', acts) := WriteHandler err (w_sock w) (Z.of_nat n) false in
        Some (mkW s' (w_wire w ++ take n d) (posted err acts None) (w_accepted w)
               (w_failed w || err && has_send acts))
      else None
  | OpFail error =>
      d ← w_post w;
      let (s', acts) := WriteHandler true (w_sock w) 0 error in
      Some (mkW s' (w_wire w) (posted true acts None) (w_accepted w) true)
  | OpClose =>
      let (s', acts) := TcpBaseSocket_Close (w_sock w) in
      Some (mkW s' (w_wire w) (posted false acts (w_post w)) (w_accepted w) (w_failed w))
  end.

Lemma w_exec_step w op w' : w_exec w op = Some w' → wstep w w'.
Proof.
  destruct op as [now data err|n err|error|]; cbn [w_exec].
  - destruct (Z.ltb_spec (Z.of_nat (length data)) (2 ^ 32)); [|done].
    destruct (TcpBaseSocket_Send _ _ _ _ _) as [[[ok s'] acts]|] eqn:E; [|done].
    intros [= <-]. by econstructor.
  - destruct (w_post w) as [d|] eqn:Hp; [|done]. cbn [mbind option_bind].
    destruct (Nat.ltb_spec 0 n); [|done]. destruct (Nat.leb_spec n (length d)); [|done].
    cbn [andb]. destruct (WriteHandler err _ _ _) as [s' acts] eqn:E. intros [= <-].
    econstructor; [done|lia|done].
  - destruct (w_post w) as [d|] eqn:Hp; [|done]. cbn [mbind option_bind].
    destruct (WriteHandler true _ _ _) as [s' acts] eqn:E. intros [= <-]. by econstructor.
  - destruct (TcpBaseSocket_Close _) as [s' acts] eqn:E. intros [= <-]. by constructor.
Qed.

Definition w_run (ops : list wop) (w : wsys) : option wsys :=
  foldl (λ ow op, w ← ow; w_exec w op) (Some w) ops.

Lemma w_run_reach ops w w' : w_run ops w = Some w' → rtc wstep w w'.
Proof.
  revert w. induction ops as [|op ops IH]; intros w; unfold w_run; cbn [foldl].
  - intros [= ->]. apply rtc_refl.
  - cbn [mbind option_bind]. destruct (w_exec w op) as [w1|] eqn:E.
    + intros Hr. eapply rtc_l; [by eapply w_exec_step|]. by apply IH.
    + assert (foldl (λ ow op, w ← ow; w_exec w op) None ops = None) as ->; [|done].
      clear. by induction ops.
Qed.
End exec.

(** The writer refines a byte pipe: in every reachable state the kernel has been
    given a prefix of what [Send] accepted, and the rest waits, in order, in the
    two buffers. *)
Definition w_pending (w : wsys) : list byte :=
  buf_view (msgbuffer1 (w_sock w)) ++ buf_view (msgbuffer2 (w_sock w)).

Lemma winv_pending `{Malloc} w : winv w →
  w_wire w ++ w_pending w = w_accepted w ∧
  (w_failed w = false → w_pending w ≠ [] → is_Some (w_post w)) ∧
  (writing (w_sock w) = false → w_failed w = false → w_pending w = []) ∧
  Z.of_nat (length (w_pending w)) <= 2 * E_MAX_BUFFER_SIZE.
Proof.
  intros [(xs1 & o & xs2 & H1 & H2 & Hl1 & Hl2 & Hacc & Hp & _ & Hidle) _ _].
  unfold w_pending. rewrite (buf_at_view _ _ _ H1), (buf_at_view _ _ _ H2), drop_0.
  split; [done|]. split; [|split].
  - intros Hf Hne. rewrite Hp. destruct (writing _) eqn:Hw; [eauto|].
    destruct (Hidle eq_refl Hf) as [E1 E2]. destruct Hne. by rewrite E1, E2.
  - intros Hw Hf. by destruct (Hidle Hw Hf) as [-> ->].
  - len. lia.
Qed.

(** C2: stream integrity of the double-buffered writer.  In any interleaving of
    [Send]s, partial completions, failures and [Close]s, the bytes handed to the
    kernel are a prefix of the accepted packets, and what is missing is exactly
    [msgbuffer1] followed by [msgbuffer2]: nothing is lost, duplicated or
    reordered.  While no failure occurred, pending bytes always have an
    outstanding asynchronous send (no stall), and they never exceed 6 MB. *)
Theorem writer_stream_integrity `{Malloc} w :
  rtc wstep w_init w →
  w_wire w ++ w_pending w = w_accepted w ∧
  (w_failed w = false → w_pending w ≠ [] → is_Some (w_post w)) ∧
  Z.of_nat (length (w_pending w)) <= 2 * E_MAX_BUFFER_SIZE.
Proof. intros Hr%winv_reach. destruct (winv_pending w Hr) as (?&?&_&?). auto. Qed.

(** C14: graceful close.  [Close()] does not drop data: without a transmission
    failure a socket reaches [E_STATE_CLOSE] only when everything accepted before
    is on the wire, and while it waits in [E_STATE_STOP] a send is outstanding
    whose completion resumes the closing. *)
Theorem graceful_close `{Malloc} w :
  rtc wstep w_init w → w_failed w = false →
  (_flag (w_sock w) = E_STATE_CLOSE → w_wire w = w_accepted w) ∧
  (_flag (w_sock w) = E_STATE_STOP → is_Some (w_post w)).
Proof.
  intros Hr%winv_reach Hf. destruct (winv_pending w Hr) as (Heq & _ & Hi & _).
  destruct Hr as [Hb Hc Hs]. split.
  - intros Hcl. rewrite <- Heq, Hi by auto. by rewrite app_nil_r.
  - intros Hst. destruct Hb as (xs1 & o & xs2 & _ & _ & _ & _ & _ & -> & _).
    rewrite Hs by done. eauto.
Qed.

(** C28: [Send] is memory safe in every reachable state and takes a packet whole or
    not at all.  It takes exactly the packets of 1 to 409,600 bytes sent on a connected
    socket whose second buffer has room for them with their header; then the
    unsent bytes are those before it followed by the framed packet.  While a write is
    outstanding nothing else happens; otherwise a write of the first buffer is
    posted, and it is outstanding if the kernel takes it ([err = false]) and the
    socket is closed if not.  Any other packet is refused without changing the
    socket. *)
Theorem Send_all_or_nothing `{Malloc} w err now data :
  rtc wstep w_init w → Z.of_nat (length data) < 2 ^ 32 →
  let s := w_sock w in
  let res := TcpBaseSocket_Send err now s data (Z.of_nat (length data)) in
  (Send_accepts s (Z.of_nat (length data)) → ∃ s' acts, res = Some (true, s', acts) ∧
     buf_view (msgbuffer1 s') ++ buf_view (msgbuffer2 s') =
       w_pending w ++ frame_bytes (u32 now) data ∧
     if writing s then acts = [] ∧ _flag s' = E_STATE_START ∧ writing s' = true
     else buf_view (msgbuffer1 s') ≠ [] ∧
       if err then acts = [ActSendSome (buf_view (msgbuffer1 s')); ActClose] ∧ _flag s' = E_STATE_CLOSE
       else acts = [ActSendSome (buf_view (msgbuffer1 s'))] ∧ _flag s' = E_STATE_START ∧ writing s' = true) ∧
  (¬ Send_accepts s (Z.of_nat (length data)) → res = Some (false, s, [])).
Proof.
  intros Hr%winv_reach Hd s res.
  destruct (wi_bufs _ Hr) as (xs1 & o & xs2 & H1 & H2 & Hl1 & Hl2 & Hacc & _).
  destruct (Send_decides err now _ _ data H2 Hl2 Hd) as [Ha Hn]. split; [|exact Hn].
  intros (mb2 & ok & s' & acts & Hf & H3 & Hl3 & Et & E)%Ha. exists s', acts. split; [exact E|].
  unfold w_pending. fold s in H1, H2 |- *. rewrite (buf_at_view _ _ _ H1), (buf_at_view _ _ _ H2), drop_0.
  fold s in Hf, Et. destruct (writing s) eqn:Hw.
  - rewrite TrySendData_writing in Et by done. simplify_eq/=.
    by rewrite (buf_at_view _ _ _ H1), (buf_at_view _ _ _ H3), drop_0, app_assoc.
  - destruct (TrySendData_spec err (mkSocket (_flag s) false (msgbuffer1 s) mb2) xs1 o _ eq_refl H1 H3)
      as (mb1 & mb2' & ys & o' & zs & Hb1 & Hb2 & Heq & Hnil & _ & _ & E').
    rewrite E' in Et. rewrite <- app_assoc, <- Heq. clear E'.
    destruct (decide (drop o' ys = [])) as [Hy|Hy].
    { exfalso. rewrite Hy, (Hnil Hy) in Heq. symmetry in Heq. apply app_eq_nil in Heq as [_ Heq].
      apply app_eq_nil in Heq as [_ Heq]. apply (f_equal length) in Heq. unfold frame_bytes in Heq.
      rewrite length_app, hdr_bytes_length in Heq. simpl in Heq. lia. }
    cbn [_flag msgbuffer1 msgbuffer2] in Et. unfold TcpBaseSocket_Close_ in Et. cbn [_flag writing] in Et.
    rewrite decide_False in Et by (by rewrite Hf).
    destruct err; simplify_eq/=; rewrite (buf_at_view _ _ _ Hb1), (buf_at_view _ _ _ Hb2), drop_0; by split_and!.
Qed.

#[local] Existing Instance zero_malloc.

(** A packet is sent, the socket closed, and the kernel takes the ten bytes in
    two parts; [w_demo k] is the state after the first [k] operations. *)
Definition w_demo (k : nat) : wsys :=
  match w_run (take k [OpSend 7 [x61; x62] false; OpClose; OpDone 4 false; OpDone 6 false]) w_init
  with Some w => w | None => w_init end.

Lemma w_demo_reach k : w_demo k = w_init ∨ rtc wstep w_init (w_demo k).
Proof.
  unfold w_demo. destruct (w_run _ _) as [w|] eqn:E; [right|by left]. by eapply w_run_reach.
Qed.

Lemma w_demo_rtc k : rtc wstep w_init (w_demo k).
Proof. destruct (w_demo_reach k) as [->|?]; [apply rtc_refl|done]. Qed.

Lemma writer_stream_integrity_witness :
  w_wire (w_demo 3) = [x00; x00; x00; x07] ∧ length (w_pending (w_demo 3)) = 6%nat ∧
  is_Some (w_post (w_demo 3)).
Proof.
  destruct (writer_stream_integrity (w_demo 3) (w_demo_rtc 3)) as (_ & Hs & _).
  split; [by vm_compute|]. split; [by vm_compute|].
  apply Hs; [by vm_compute|]. intros Hn%(f_equal length). vm_compute in Hn. discriminate.
Defined.

Lemma graceful_close_witness :
  _flag (w_sock (w_demo 2)) = E_STATE_STOP ∧ is_Some (w_post (w_demo 2)) ∧
  _flag (w_sock (w_demo 4)) = E_STATE_CLOSE ∧ w_wire (w_demo 4) = w_accepted (w_demo 4).
Proof.
  split; [by vm_compute|]. split.
  - apply (graceful_close (w_demo 2) (w_demo_rtc 2)); by vm_compute.
  - split; [by vm_compute|]. apply (graceful_close (w_demo 4) (w_demo_rtc 4)); by vm_compute.
Defined.

Lemma Send_all_or_nothing_witness :
  (∃ s' acts, TcpBaseSocket_Send false 9 (w_sock (w_demo 1)) [x63] 1 = Some (true, s', acts)) ∧
  TcpBaseSocket_Send false 9 (w_sock (w_demo 2)) [x63] 1 = Some (false, w_sock (w_demo 2), []).
Proof.
  assert (Z.of_nat (length [x63]) < 2 ^ 32) as Hl by (vm_compute; reflexivity). split.
  - destruct (proj1 (Send_all_or_nothing (w_demo 1) false 9 [x63] (w_demo_rtc 1) Hl)) as (s' & acts & E & _).
    + split; [by vm_compute|]. split; [split; by vm_compute|by vm_compute].
    + exists s', acts. exact E.
  - apply (proj2 (Send_all_or_nothing (w_demo 2) false 9 [x63] (w_demo_rtc 2) Hl)).
    intros (Hf & _). by vm_compute in Hf.
Defined.
