(* ===== verification/Epoll.v ===== *)
(** * The I/O service on Linux

    The proactor of [src/slience/socket]: the socket core and its state word
    ([linux_epoll.hpp], [ioservice.ipp]), the synchronous socket calls and the
    deferred close ([ioaccess.ipp]), the asynchronous operations, their completion
    and the event loop ([epoll_access.hpp]).

    The kernel is a parameter, the class [Kernel]: its state [K] and the system
    calls the sources make.  Handlers ([m_function_t] objects) are values of an
    abstract type [H]; a completion returns the call to make, and the loop runs it
    through [run].  A [SocketImpl] is a shared pointer to a core: [None] is the
    null pointer and dereferencing it is a fault.

    Every function that takes the core's mutex is one atomic step. *)

From Stdlib Require Import ZArith Lia List Strings.Byte Init.Byte.
From stdpp Require Import base numbers list option gmap relations.
From S2P Require Import Prelude.

(** ** Bits of the state word *)

Definition M_SET_BIT (x y : Z) : Z := Z.lor x (Z.shiftl 1 y).
Definition M_CLR_BIT (x y : Z) : Z := Z.land x (Z.lnot (Z.shiftl 1 y)).
Definition M_GET_BIT (x y : Z) : bool := negb (Z.land x (Z.shiftl 1 y) =? 0).
Definition M_CLR_MBIT (x s e : Z) : Z :=
  Z.land x (Z.lnot (Z.shiftl (Z.shiftl 1 (e - s + 1) - 1) s)).
Definition M_SET_MBIT (x y s e : Z) : Z := Z.lor (M_CLR_MBIT x s e) (Z.shiftl y s).
Definition M_GET_MBIT (x s e : Z) : Z := Z.land (Z.shiftr x s) (Z.shiftl 1 (e - s + 1) - 1).

Definition M_INVALID_SOCKET : Z := -1.
Definition M_SOCKET_ERROR : Z := -1.

(** The operation bits of an [OperationSet]. *)
Definition E_ACCEPT_OP : Z := 1.
Definition E_CONNECT_OP : Z := 2.
Definition E_WRITE_OP : Z := 4.
Definition E_READ_OP : Z := 8.
Definition E_FINISH_OP : Z := 16.

(** Linux constants. *)
Definition M_EPOLLIN : Z := 1.
Definition M_EPOLLOUT : Z := 4.
Definition M_EPOLLERR : Z := 8.
Definition M_EPOLLHUP : Z := 16.
Definition M_EPOLLONESHOT : Z := 2 ^ 30.
Definition M_EPOLL_CTL_ADD : Z := 1.
Definition M_EPOLL_CTL_DEL : Z := 2.
Definition M_EPOLL_CTL_MOD : Z := 3.
Definition O_NONBLOCK : Z := 2048.
Definition M_EINTR : Z := 4.
Definition M_ECONNRESET : Z := 104.
Definition M_EINPROGRESS : Z := 115.
Definition M_AF_INET : Z := 2.

Definition M_ERR_SOCKET_OPEN : Z := -1999.
Definition M_ERR_ENDPOINT_INVALID : Z := -1998.
Definition M_ERR_IOCP_INVALID : Z := -1996.
Definition M_ERR_ASYNC_CONNECT_FAIL : Z := -1992.
Definition M_ERR_POSTED_ACCEPT : Z := -1991.
Definition M_ERR_POSTED_CONNECT : Z := -1990.
Definition M_ERR_POSTED_WRITE : Z := -1989.
Definition M_ERR_POSTED_READ : Z := -1988.
Definition M_ERR_ASYNC_ACCEPT_FAIL : Z := -1987.
Definition M_ERR_ASYNC_READ_FAIL : Z := -1986.
Definition M_ERR_ASYNC_WRITE_FAIL : Z := -1985.
Definition M_ERR_BAD_DESCRIPTOR : Z := -1984.
Definition M_ERR_NOT_SERVICE : Z := -1983.
Definition M_ERR_IS_NONBLOCK : Z := -1982.
Definition M_ERR_TIMEOUT : Z := -1981.

(** ** The data of the service *)

(** The user data of an [epoll_event]: the operation set of a core, or the set
    allocated by [Stop]. *)
Inductive ev_data := DOp (core : nat) | DFinish.
Record epoll_event := mkEvent { events : Z; ev_ptr : ev_data }.

Record rw_oper (H : Type) := mkRw {
  rw_handler : option H; rw_impl : option nat; rw_buf : list byte; rw_len : Z
}.
Record acpt_oper (H : Type) := mkAcpt {
  acpt_handler : option H; acpt_impl : option nat; acpt_cli : option nat
}.
Record conn_oper (H : Type) := mkConn { conn_handler : option H; conn_impl : option nat }.
Arguments mkRw {H}. Arguments rw_handler {H}. Arguments rw_impl {H}.
Arguments rw_buf {H}. Arguments rw_len {H}.
Arguments mkAcpt {H}. Arguments acpt_handler {H}. Arguments acpt_impl {H}.
Arguments acpt_cli {H}.
Arguments mkConn {H}. Arguments conn_handler {H}. Arguments conn_impl {H}.

(** [SocketImpl::core], with its [OperationSet]. *)
Record core (H : Type) := mkCore {
  c_epoll : Z; c_fd : Z; c_state : Z;
  op_type : Z; op_aop : acpt_oper H; op_cop : conn_oper H; op_wop : rw_oper H; op_rop : rw_oper H
}.
Arguments mkCore {H}. Arguments c_epoll {H}. Arguments c_fd {H}. Arguments c_state {H}.
Arguments op_type {H}. Arguments op_aop {H}. Arguments op_cop {H}. Arguments op_wop {H}.
Arguments op_rop {H}.

Record SocketClose (H : Type) := mkClose { cls_impl : option nat; cls_handler : option H }.
Arguments mkClose {H}. Arguments cls_impl {H}. Arguments cls_handler {H}.

(** The loop of one thread; of [_taskvec] only the number of pooled tasks. *)
Record IoServiceImpl (H : Type) := mkIo {
  io_service : bool; io_handler : Z; io_fdcnt : Z;
  io_closereqs : list (SocketClose H); io_closereqs2 : list (SocketClose H); io_tasks : nat
}.
Arguments mkIo {H}. Arguments io_service {H}. Arguments io_handler {H}. Arguments io_fdcnt {H}.
Arguments io_closereqs {H}. Arguments io_closereqs2 {H}. Arguments io_tasks {H}.

(** [IIoService]: the running loops, and the loop of each epoll descriptor. *)
Record IoService := mkService {
  implvector : list nat; implmap : gmap Z nat; implidx : Z; implcnt : Z
}.

(** A handler and the arguments it is called with. *)
Inductive callback (H : Type) :=
| CallCommon (h : H) (error : Z)
| CallWrite (h : H) (tran : Z) (error : Z)
| CallRead (h : H) (data : list byte) (tran : Z) (error : Z)
| CallClose (h : H).
Arguments CallCommon {H}. Arguments CallWrite {H}. Arguments CallRead {H}. Arguments CallClose {H}.

(** The system calls. *)
Class Kernel (K EP : Type) := {
  k_errno : K → Z;
  k_setlasterr : K → Z → K;
  k_getfl : K → Z → Z;
  k_setfl : K → Z → Z → K * Z;
  k_epoll_create : K → K * Z;
  k_epoll_ctl : K → Z → Z → Z → Z → option ev_data → K * Z;
  k_epoll_wait : K → Z → K * (Z * list epoll_event);
  k_socket : K → Z → Z → Z → K * Z;
  k_closesocket : K → Z → K * Z;
  k_shutdown : K → Z → Z → K * Z;
  k_connect : K → Z → EP → K * Z;
  k_accept : K → Z → K * Z;
  k_send : K → Z → list byte → K * Z;
  k_recv : K → Z → Z → K * (Z * list byte);
  k_bind : K → Z → EP → K * Z;
  k_listen : K → Z → Z → K * Z;
  (** [getsockopt(SO_ERROR)]: [None] when the call fails *)
  k_so_error : K → Z → K * option Z;
  (** [select] on one descriptor *)
  k_select : K → Z → bool → Z → K * Z;
  ep_valid : EP → bool
}.

Section service.
Context {K EP H : Type} `{!Kernel K EP}.
Abbreviation core := (core H).
Abbreviation IoServiceImpl := (IoServiceImpl H).
Abbreviation SocketClose := (SocketClose H).

Record World := mkWorld {
  w_k : K; w_cores : gmap nat core; w_ios : gmap nat IoServiceImpl; w_svc : IoService
}.
Abbreviation M := (ST World).
Abbreviation SocketImpl := (option nat).

(** ** Access to the store *)

Definition core_of (p : SocketImpl) : M core :=
  λ w, i ← p; c ← w_cores w !! i; Some (c, w).

Definition upd (p : SocketImpl) (f : core → core) : M () :=
  λ w, i ← p; c ← w_cores w !! i;
       Some (tt, mkWorld (w_k w) (<[i := f c]> (w_cores w)) (w_ios w) (w_svc w)).

Definition io_of (s : nat) : M IoServiceImpl :=
  λ w, io ← w_ios w !! s; Some (io, w).

Definition upd_io (s : nat) (f : IoServiceImpl → IoServiceImpl) : M () :=
  λ w, io ← w_ios w !! s;
       Some (tt, mkWorld (w_k w) (w_cores w) (<[s := f io]> (w_ios w)) (w_svc w)).

Definition upd_svc (f : IoService → IoService) : M () :=
  modify (λ w, mkWorld (w_k w) (w_cores w) (w_ios w) (f (w_svc w))).

Definition sys {A} (f : K → K * A) : M A :=
  λ w, let (k, x) := f (w_k w) in Some (x, mkWorld k (w_cores w) (w_ios w) (w_svc w)).

Definition M_ERR_LAST : M Z := gets (λ w, k_errno (w_k w)).

(** Field updates of a core. *)
Definition set_epoll (z : Z) (c : core) : core :=
  mkCore z (c_fd c) (c_state c) (op_type c) (op_aop c) (op_cop c) (op_wop c) (op_rop c).
Definition set_fd (z : Z) (c : core) : core :=
  mkCore (c_epoll c) z (c_state c) (op_type c) (op_aop c) (op_cop c) (op_wop c) (op_rop c).
Definition set_state (f : Z → Z) (c : core) : core :=
  mkCore (c_epoll c) (c_fd c) (f (c_state c)) (op_type c) (op_aop c) (op_cop c) (op_wop c) (op_rop c).
Definition set_type (f : Z → Z) (c : core) : core :=
  mkCore (c_epoll c) (c_fd c) (c_state c) (f (op_type c)) (op_aop c) (op_cop c) (op_wop c) (op_rop c).
Definition set_aop (o : acpt_oper H) (c : core) : core :=
  mkCore (c_epoll c) (c_fd c) (c_state c) (op_type c) o (op_cop c) (op_wop c) (op_rop c).
Definition set_cop (o : conn_oper H) (c : core) : core :=
  mkCore (c_epoll c) (c_fd c) (c_state c) (op_type c) (op_aop c) o (op_wop c) (op_rop c).
Definition set_wop (o : rw_oper H) (c : core) : core :=
  mkCore (c_epoll c) (c_fd c) (c_state c) (op_type c) (op_aop c) (op_cop c) o (op_rop c).
Definition set_rop (o : rw_oper H) (c : core) : core :=
  mkCore (c_epoll c) (c_fd c) (c_state c) (op_type c) (op_aop c) (op_cop c) (op_wop c) o.

(** The accessor macros. *)
Definition M_Impl_Fd (p : SocketImpl) : M Z := c ← core_of p; mret (c_fd c).
Definition M_Impl_Epoll (p : SocketImpl) : M Z := c ← core_of p; mret (c_epoll c).
Definition M_Impl_Get (bit : Z) (p : SocketImpl) : M bool :=
  c ← core_of p; mret (M_GET_BIT (c_state c) bit).
Definition M_Impl_Set (bit : Z) (p : SocketImpl) : M () :=
  upd p (set_state (λ x, M_SET_BIT x bit)).
Definition M_Impl_Clr (bit : Z) (p : SocketImpl) : M () :=
  upd p (set_state (λ x, M_CLR_BIT x bit)).

Definition M_Impl_S_V4 := M_Impl_Clr 0.
Definition M_Impl_S_V6 := M_Impl_Set 0.
Definition M_Impl_G_V := M_Impl_Get 0.
Definition M_Impl_S_Bind := M_Impl_Set 1.
Definition M_Impl_S_Unbind := M_Impl_Clr 1.
Definition M_Impl_G_Bind := M_Impl_Get 1.
Definition M_Impl_S_Block := M_Impl_Set 2.
Definition M_Impl_G_Block := M_Impl_Get 2.
Definition M_Impl_S_Nonblock := M_Impl_Clr 2.
Definition M_Impl_G_Nonblock (p : SocketImpl) : M bool := b ← M_Impl_Get 2 p; mret (negb b).
Definition M_Impl_S_Type (p : SocketImpl) (type : Z) : M () :=
  upd p (set_state (λ x, u16 (M_SET_MBIT x type 3 4))).
Definition M_Impl_G_Type (p : SocketImpl) : M Z :=
  c ← core_of p; mret (M_GET_MBIT (c_state c) 3 4).
Definition M_Impl_G_Accept_Flag := M_Impl_Get 5.
Definition M_Impl_S_Accept_Flag := M_Impl_Set 5.
Definition M_Impl_C_Accept_Flag := M_Impl_Clr 5.
Definition M_Impl_G_Connect_Flag := M_Impl_Get 6.
Definition M_Impl_S_Connect_Flag := M_Impl_Set 6.
Definition M_Impl_C_Connect_Flag := M_Impl_Clr 6.
Definition M_Impl_G_Write_Flag := M_Impl_Get 7.
Definition M_Impl_S_Write_Flag := M_Impl_Set 7.
Definition M_Impl_C_Write_Flag := M_Impl_Clr 7.
Definition M_Impl_G_Read_Flag := M_Impl_Get 8.
Definition M_Impl_S_Read_Flag := M_Impl_Set 8.
Definition M_Impl_C_Read_Flag := M_Impl_Clr 8.
Definition M_Impl_G_Close_Flag := M_Impl_Get 9.
Definition M_Impl_S_Close_Flag := M_Impl_Set 9.

(** [Oper::Clear] of the four operations. *)
Definition rw_clear : rw_oper H := mkRw None None [] 0.
Definition acpt_clear : acpt_oper H := mkAcpt None None None.
Definition conn_clear : conn_oper H := mkConn None None.

(** [SocketImpl::Init] on a null pointer: a fresh core at [i]. *)
Definition core_new : core := mkCore (-1) M_INVALID_SOCKET 0 0 acpt_clear conn_clear rw_clear rw_clear.

Definition SocketImpl_Init (p : SocketImpl) (i : nat) : M SocketImpl :=
  match p with
  | Some _ => mret p
  | None => modify (λ w, mkWorld (w_k w) (<[i := core_new]> (w_cores w)) (w_ios w) (w_svc w));;
            mret (Some i)
  end.

(** ** [detail::Util] *)

Definition SetBlock (fd : Z) : M bool :=
  flags ← gets (λ w, k_getfl (w_k w) fd);
  r ← sys (λ k, k_setfl k fd (Z.land flags (Z.lnot O_NONBLOCK)));
  mret (negb (r =? -1)).

Definition SetNonBlock (fd : Z) : M bool :=
  flags ← gets (λ w, k_getfl (w_k w) fd);
  r ← sys (λ k, k_setfl k fd (Z.lor flags O_NONBLOCK));
  mret (negb (r =? -1)).

(** [M_DEFAULT_SOCKET_ERROR(con, error)] *)
Definition M_DEFAULT_SOCKET_ERROR (con : bool) (error : Z) : M Z :=
  if con then M_ERR_LAST else mret error.

(** [GetOption] of a [SoError], and the error a completion reports when the
    system call gave nothing. *)
Definition so_error (p : SocketImpl) (error fail : Z) : M Z :=
  fd ← M_Impl_Fd p;
  r ← sys (λ k, k_so_error k fd);
  match r with
  | Some v => if error =? 0 then mret v else mret fail
  | None => e ← M_ERR_LAST; if e =? 0 then mret 0 else mret fail
  end.

(** ** [IoAccess]: synchronous calls and the deferred close *)

Definition IoAccess_ConstructImpl (p : SocketImpl) (fresh : nat) (type : Z) : M SocketImpl :=
  p ← SocketImpl_Init p fresh;
  M_Impl_S_V4 p;; M_Impl_S_Unbind p;; M_Impl_S_Block p;; M_Impl_S_Type p (u8 type);;
  mret p.

Definition E_NULL_SOCKET_TYPE : Z := 0.
Definition IoAccess_DestroyImpl (p : SocketImpl) (fresh : nat) : M SocketImpl :=
  IoAccess_ConstructImpl p fresh E_NULL_SOCKET_TYPE.

Definition IoAccess_IsOpen (p : SocketImpl) : M bool :=
  fd ← M_Impl_Fd p; mret (negb (fd =? M_INVALID_SOCKET)).

Definition IoAccess_Open (p : SocketImpl) (family type protocol : Z) : M Z :=
  fd ← M_Impl_Fd p;
  if negb (fd =? M_INVALID_SOCKET) then mret M_ERR_SOCKET_OPEN
  else
    (if family =? M_AF_INET then M_Impl_S_V4 p else M_Impl_S_V6 p);;
    fd ← sys (λ k, k_socket k family type protocol);
    upd p (set_fd fd);;
    if fd =? M_INVALID_SOCKET then M_ERR_LAST else mret 0.

Definition IoAccess_Bind (p : SocketImpl) (ep : EP) (error : Z) : M Z :=
  fd ← M_Impl_Fd p;
  ret ← sys (λ k, k_bind k fd ep);
  M_DEFAULT_SOCKET_ERROR (negb (ret =? 0)) error.

Definition IoAccess_Listen (p : SocketImpl) (flag error : Z) : M Z :=
  fd ← M_Impl_Fd p;
  ret ← sys (λ k, k_listen k fd flag);
  M_DEFAULT_SOCKET_ERROR (negb (ret =? 0)) error.

Definition IoAccess_Shutdown (p : SocketImpl) (what error : Z) : M Z :=
  fd ← M_Impl_Fd p;
  ret ← sys (λ k, k_shutdown k fd what);
  M_DEFAULT_SOCKET_ERROR (negb (ret =? 0)) error.

(** [_GetIoServiceImpl] *)
Definition GetIoServiceImpl (p : SocketImpl) : M (option nat) :=
  ep ← M_Impl_Epoll p;
  if ep =? 0 then mret None else gets (λ w, implmap (w_svc w) !! ep).

(** [Close(service, impl, handler, error)] *)
Definition IoAccess_Close (p : SocketImpl) (handler : option H) (error : Z) : M Z :=
  fd ← M_Impl_Fd p;
  cf ← M_Impl_G_Close_Flag p;
  if negb (fd =? M_INVALID_SOCKET) && negb cf then
    simpl ← GetIoServiceImpl p;
    match simpl with
    | Some s => upd_io s (λ io, mkIo (io_service io) (io_handler io) (u32 (io_fdcnt io - 1))
                            (io_closereqs io) (io_closereqs2 io) (io_tasks io))
    | None => mret tt
    end;;
    block ← M_Impl_G_Block p;
    error ← (if block : bool then
       r ← sys (λ k, k_closesocket k fd);
       error ← M_DEFAULT_SOCKET_ERROR (r =? M_SOCKET_ERROR) error;
       upd p (set_fd M_INVALID_SOCKET);; upd p (set_state (λ _, 0));;
       mret error
     else M_Impl_S_Close_Flag p;; mret error);
    match simpl with
    | Some s => upd_io s (λ io, mkIo (io_service io) (io_handler io) (io_fdcnt io)
                            (io_closereqs io ++ [mkClose p handler]) (tail (io_closereqs2 io))
                            (io_tasks io))
    | None => mret tt
    end;;
    mret error
  else mret error.

(** [Select]: (return value, error). *)
Definition IoAccess_Select (p : SocketImpl) (rd_or_wr : bool) (timeo error : Z) : M (Z * Z) :=
  fd ← M_Impl_Fd p;
  ret ← sys (λ k, k_select k fd rd_or_wr timeo);
  if ret =? 0 then mret (-1, M_ERR_TIMEOUT)
  else if ret =? -1 then e ← M_ERR_LAST; mret (-2, e)
  else
    r ← sys (λ k, k_so_error k fd);
    let code := default 0 r in
    if code =? 0 then mret (0, error) else mret (-2, code).

(** [Connect]; [timeo_sec] is an [s_uint32_t], so "no timeout" is [2^32 - 1]. *)
Definition IoAccess_Connect (p : SocketImpl) (ep : EP) (error timeo_sec : Z) : M Z :=
  fd ← M_Impl_Fd p;
  if fd =? M_INVALID_SOCKET then mret M_ERR_BAD_DESCRIPTOR else
  cf ← M_Impl_G_Connect_Flag p;
  if cf : bool then mret M_ERR_POSTED_CONNECT else
  if negb (ep_valid ep) then mret M_ERR_ENDPOINT_INVALID else
  let timed := negb (timeo_sec =? 2 ^ 32 - 1) in
  nb ← M_Impl_G_Nonblock p;
  if negb timed && nb then mret M_ERR_IS_NONBLOCK else
  (if timed && negb nb then SetNonBlock fd else mret true);;
  M_Impl_S_Connect_Flag p;;
  ret ← sys (λ k, k_connect k fd ep);
  errno ← M_ERR_LAST;
  '(ret, error) ← (if (ret =? -1) && timed && (errno =? M_EINPROGRESS) then
      '(ret, error) ← IoAccess_Select p false timeo_sec error;
      error ← (if negb (ret =? 0) then IoAccess_Close p None error else mret error);
      mret (ret, error)
    else mret (ret, error));
  error ← (if negb (ret =? 0) && (error =? 0) then M_ERR_LAST else mret error);
  fd ← M_Impl_Fd p;
  SetBlock fd;;
  M_Impl_C_Connect_Flag p;;
  mret error.

(** The accept loop of [Accept]; [None] when [fuel] interrupted accepts did not
    suffice. *)
Fixpoint accept_loop (fuel : nat) (p peer : SocketImpl) (error : Z) : M Z :=
  match fuel with
  | O => fault
  | S fuel =>
      fd ← M_Impl_Fd p;
      r ← sys (λ k, k_accept k fd);
      upd peer (set_fd r);;
      if negb (r =? M_INVALID_SOCKET) then mret error
      else
        errno ← M_ERR_LAST;
        if errno =? M_ECONNRESET then accept_loop fuel p peer error else M_ERR_LAST
  end.

Definition IoAccess_Accept (fuel : nat) (p peer : SocketImpl) (error : Z) : M Z :=
  fd ← M_Impl_Fd p;
  if fd =? M_INVALID_SOCKET then mret M_ERR_BAD_DESCRIPTOR else
  af ← M_Impl_G_Accept_Flag p;
  if af : bool then mret M_ERR_POSTED_ACCEPT else
  nb ← M_Impl_G_Nonblock p;
  if nb : bool then mret M_ERR_IS_NONBLOCK else
  M_Impl_S_Accept_Flag p;;
  error ← accept_loop fuel p peer error;
  M_Impl_C_Accept_Flag p;;
  mret error.

(** [SendSome]/[RecvSome]: (bytes or -1, error). *)
Definition IoAccess_SendSome (p : SocketImpl) (data : list byte) (error : Z) : M (Z * Z) :=
  fd ← M_Impl_Fd p;
  if fd =? M_INVALID_SOCKET then mret (M_SOCKET_ERROR, M_ERR_BAD_DESCRIPTOR) else
  wf ← M_Impl_G_Write_Flag p;
  if wf : bool then mret (M_SOCKET_ERROR, M_ERR_POSTED_WRITE) else
  nb ← M_Impl_G_Nonblock p;
  if nb : bool then mret (M_SOCKET_ERROR, M_ERR_IS_NONBLOCK) else
  M_Impl_S_Write_Flag p;;
  ret ← sys (λ k, k_send k fd data);
  M_Impl_C_Write_Flag p;;
  error ← M_DEFAULT_SOCKET_ERROR (ret =? M_SOCKET_ERROR) error;
  mret (ret, error).

Definition IoAccess_RecvSome (p : SocketImpl) (size error : Z) : M (Z * Z * list byte) :=
  fd ← M_Impl_Fd p;
  if fd =? M_INVALID_SOCKET then mret (M_SOCKET_ERROR, M_ERR_BAD_DESCRIPTOR, []) else
  rf ← M_Impl_G_Read_Flag p;
  if rf : bool then mret (M_SOCKET_ERROR, M_ERR_POSTED_READ, []) else
  nb ← M_Impl_G_Nonblock p;
  if nb : bool then mret (M_SOCKET_ERROR, M_ERR_IS_NONBLOCK, []) else
  M_Impl_S_Read_Flag p;;
  '(ret, data) ← sys (λ k, k_recv k fd size);
  M_Impl_C_Read_Flag p;;
  error ← M_DEFAULT_SOCKET_ERROR (ret =? M_SOCKET_ERROR) error;
  mret (ret, error, data).

Definition IoAccess_Stopped : M bool :=
  gets (λ w, match implvector (w_svc w) with [] => true | _ => false end).

Definition IoAccess_GetServiceCount : M Z :=
  gets (λ w, u32 (Z.of_nat (length (implvector (w_svc w))))).

(** [_CreateIoImpl]: the loop [s] of the calling thread joins the service. *)
Definition CreateIoImpl (s : nat) : M (Z * option nat) :=
  io ← io_of s;
  if io_handler io =? 0 then mret (M_ERR_IOCP_INVALID, None)
  else
    upd_io s (λ io, mkIo true (io_handler io) (io_fdcnt io) (io_closereqs io)
                      (io_closereqs2 io) (io_tasks io));;
    upd_svc (λ v, mkService (implvector v ++ [s]) (<[io_handler io := s]> (implmap v))
                    (implidx v) (s32 (implcnt v + 1)));;
    mret (0, Some s).

(** [erase(find(s))] on a vector that holds [s]. *)
Fixpoint remove_first (s : nat) (l : list nat) : list nat :=
  match l with
  | [] => []
  | x :: l => if decide (x = s) then l else x :: remove_first s l
  end.

(** [_ReleaseIoImpl], and [IoServiceImpl::Close] inside it.  Erasing [end()] is
    undefined, a fault here. *)
Definition ReleaseIoImpl (s : nat) : M () :=
  io ← io_of s;
  sys (λ k, k_closesocket k (io_handler io));;
  h ← sys k_epoll_create;
  upd_io s (λ _, mkIo false h 0 [] [] 0);;
  v ← gets (λ w, implvector (w_svc w));
  if decide (s ∈ v) then
    upd_svc (λ v, mkService (remove_first s (implvector v)) (implmap v) (implidx v)
                    (s32 (implcnt v - 1)))
  else fault.

(** ** [EpollService::Access] *)

(** The first part of [CtlEpoll]: a socket that is added for the first time gets
    the next loop in turn. *)
Definition CtlEpoll_pick (p : SocketImpl) (flag : Z) : M () :=
  ep ← M_Impl_Epoll p;
  if (flag =? M_EPOLL_CTL_ADD) && (ep =? -1) then
    v ← gets w_svc;
    match implvector v with
    | [] => mret tt
    | _ =>
        let idx := u32 (implidx v + 1) in
        upd_svc (λ v, mkService (implvector v) (implmap v) idx (implcnt v));;
        s ← lift (implvector v !! Z.to_nat (idx mod u32 (Z.of_nat (length (implvector v)))));
        io ← io_of s;
        upd p (set_epoll (io_handler io));;
        upd_io s (λ io, mkIo (io_service io) (io_handler io) (u32 (io_fdcnt io + 1))
                     (io_closereqs io) (io_closereqs2 io) (io_tasks io))
    end
  else mret tt.

Definition CtlEpoll_ctl (p : SocketImpl) (opset : option ev_data) (flag evs error : Z) : M Z :=
  ep ← M_Impl_Epoll p;
  if ep =? -1 then mret M_ERR_NOT_SERVICE
  else
    fd ← M_Impl_Fd p;
    ret ← sys (λ k, k_epoll_ctl k ep flag fd evs opset);
    M_DEFAULT_SOCKET_ERROR (negb (ret =? 0)) error.

Definition CtlEpoll (p : SocketImpl) (opset : option ev_data) (flag evs error : Z) : M Z :=
  CtlEpoll_pick p flag;; CtlEpoll_ctl p opset flag evs error.

Definition Access_Cancel (p : SocketImpl) (error : Z) : M Z :=
  b ← M_Impl_G_Bind p;
  if b : bool then CtlEpoll p None M_EPOLL_CTL_DEL 0 error else mret error.

(** [&M_Impl_Op(impl)] *)
Definition opset_of (p : SocketImpl) : M ev_data := i ← lift p; mret (DOp i).

(** The common guard of the asynchronous operations: put the descriptor in
    non-blocking mode the first time; the error when that fails. *)
Definition ensure_nonblock (p : SocketImpl) (fd : Z) : M Z :=
  nb ← M_Impl_G_Nonblock p;
  if nb : bool then mret 0
  else
    ok ← SetNonBlock fd;
    if negb ok then M_ERR_LAST else M_Impl_S_Nonblock p;; mret 0.

Definition Access_AsyncAccept (p cli : SocketImpl) (handler : H) (error : Z) : M Z :=
  fd ← M_Impl_Fd p;
  if fd =? M_INVALID_SOCKET then mret M_ERR_BAD_DESCRIPTOR else
  af ← M_Impl_G_Accept_Flag p;
  if af : bool then mret M_ERR_POSTED_ACCEPT else
  nb ← M_Impl_G_Nonblock p;
  ok ← (if nb : bool then mret true else SetNonBlock fd);
  if negb ok then M_ERR_LAST else
  (if nb : bool then mret tt else M_Impl_S_Nonblock p);;
  M_Impl_S_Accept_Flag p;;
  upd p (set_type (λ _, E_ACCEPT_OP));;
  upd p (set_aop (mkAcpt (Some handler) p cli));;
  b ← M_Impl_G_Bind p;
  error ← (if b : bool then mret error
           else M_Impl_S_Bind p;;
                op ← opset_of p;
                CtlEpoll p (Some op) M_EPOLL_CTL_ADD M_EPOLLIN error);
  (if negb (error =? 0) then
     M_Impl_C_Accept_Flag p;; M_Impl_S_Unbind p;; upd p (set_aop acpt_clear)
   else mret tt);;
  mret error.

Definition Access_AsyncConnect (p : SocketImpl) (ep : EP) (handler : H) (error : Z) : M Z :=
  fd ← M_Impl_Fd p;
  if fd =? M_INVALID_SOCKET then mret M_ERR_BAD_DESCRIPTOR else
  cf ← M_Impl_G_Connect_Flag p;
  if cf : bool then mret M_ERR_POSTED_CONNECT else
  if negb (ep_valid ep) then mret M_ERR_ENDPOINT_INVALID else
  nb ← M_Impl_G_Nonblock p;
  ok ← (if nb : bool then mret true else SetNonBlock fd);
  if negb ok then M_ERR_LAST else
  (if nb : bool then mret tt else M_Impl_S_Nonblock p);;
  ret ← sys (λ k, k_connect k fd ep);
  errno ← M_ERR_LAST;
  if (ret =? -1) && negb (errno =? M_EINPROGRESS) then M_ERR_LAST else
  M_Impl_S_Connect_Flag p;;
  upd p (set_type (λ _, E_CONNECT_OP));;
  upd p (set_cop (mkConn (Some handler) p));;
  b ← M_Impl_G_Bind p;
  error ← (if b : bool then mret error
           else M_Impl_S_Bind p;;
                op ← opset_of p;
                CtlEpoll p (Some op) M_EPOLL_CTL_ADD (Z.lor M_EPOLLOUT M_EPOLLONESHOT) error);
  (if negb (error =? 0) then
     M_Impl_C_Connect_Flag p;; M_Impl_S_Unbind p;; upd p (set_cop conn_clear)
   else mret tt);;
  mret error.

(** [AsyncRecvSome]: [size] bytes of [readbuf].  The operation is overwritten
    before the guards run, and cleared whenever they fail. *)
Definition Access_AsyncRecvSome (p : SocketImpl) (size : Z) (handler : H) (error : Z) : M Z :=
  upd p (set_rop (mkRw (Some handler) p [] size));;
  fd ← M_Impl_Fd p;
  rf ← M_Impl_G_Read_Flag p;
  let fail e := upd p (set_rop rw_clear);; mret e in
  if fd =? M_INVALID_SOCKET then fail M_ERR_BAD_DESCRIPTOR else
  if rf : bool then fail M_ERR_POSTED_READ else
  nb ← M_Impl_G_Nonblock p;
  ok ← (if nb : bool then mret true else SetNonBlock fd);
  if negb ok then e ← M_ERR_LAST; fail e else
  (if nb : bool then mret tt else M_Impl_S_Nonblock p);;
  M_Impl_S_Read_Flag p;;
  upd p (set_type (λ _, E_READ_OP));;
  b ← M_Impl_G_Bind p;
  (if b : bool then mret tt else M_Impl_S_Bind p);;
  let ctl := if b : bool then M_EPOLL_CTL_MOD else M_EPOLL_CTL_ADD in
  wf ← M_Impl_G_Write_Flag p;
  (if wf : bool then upd p (set_type (λ t, Z.lor t E_WRITE_OP)) else mret tt);;
  let flag := if wf : bool then Z.lor M_EPOLLIN M_EPOLLOUT else M_EPOLLIN in
  op ← opset_of p;
  error ← CtlEpoll p (Some op) ctl flag error;
  (if negb (error =? 0) then
     M_Impl_C_Read_Flag p;; M_Impl_S_Unbind p;; upd p (set_rop rw_clear)
   else mret tt);;
  mret error.

Definition Access_AsyncSendSome (p : SocketImpl) (data : list byte) (handler : H) (error : Z) : M Z :=
  upd p (set_wop (mkRw (Some handler) p data (Z.of_nat (length data))));;
  fd ← M_Impl_Fd p;
  wf ← M_Impl_G_Write_Flag p;
  let fail e := upd p (set_wop rw_clear);; mret e in
  if fd =? M_INVALID_SOCKET then fail M_ERR_BAD_DESCRIPTOR else
  if wf : bool then fail M_ERR_POSTED_WRITE else
  nb ← M_Impl_G_Nonblock p;
  ok ← (if nb : bool then mret true else SetNonBlock fd);
  if negb ok then e ← M_ERR_LAST; fail e else
  (if nb : bool then mret tt else M_Impl_S_Nonblock p);;
  M_Impl_S_Write_Flag p;;
  upd p (set_type (λ _, E_WRITE_OP));;
  b ← M_Impl_G_Bind p;
  (if b : bool then mret tt else M_Impl_S_Bind p);;
  let ctl := if b : bool then M_EPOLL_CTL_MOD else M_EPOLL_CTL_ADD in
  rf ← M_Impl_G_Read_Flag p;
  (if rf : bool then upd p (set_type (λ t, Z.lor t E_READ_OP)) else mret tt);;
  let flag := if rf : bool then Z.lor M_EPOLLOUT M_EPOLLIN else M_EPOLLOUT in
  op ← opset_of p;
  error ← CtlEpoll p (Some op) ctl flag error;
  (if negb (error =? 0) then
     M_Impl_C_Write_Flag p;; M_Impl_S_Unbind p;; upd p (set_wop rw_clear)
   else mret tt);;
  mret error.

(** ** Completion

    [Complete] of the operations of the set of core [i]; the handler call that
    ends it is returned.  [handler(...)] on an empty [m_function_t] throws, a fault
    here. *)

(** [opset->_type &= ~bits] *)
Definition type_clear (bits : Z) (t : Z) : Z := Z.land t (Z.lnot bits).

Definition AcceptOperation_Complete (i : nat) : M (callback H) :=
  c ← core_of (Some i);
  let o := op_aop c in
  fd ← M_Impl_Fd (acpt_impl o);
  (if negb (fd =? M_INVALID_SOCKET) then M_Impl_C_Accept_Flag (acpt_impl o) else mret tt);;
  nfd ← sys (λ k, k_accept k fd);
  error ← (if nfd <? 0 then so_error (acpt_impl o) 0 M_ERR_ASYNC_ACCEPT_FAIL
           else upd (acpt_cli o) (set_fd nfd);;
                v ← M_Impl_G_V (acpt_impl o);
                (if v : bool then M_Impl_S_V4 (acpt_cli o) else M_Impl_S_V6 (acpt_cli o));;
                mret 0);
  upd (Some i) (set_aop acpt_clear);;
  h ← lift (acpt_handler o);
  mret (CallCommon h error).

Definition ConnectOperation_Complete (i : nat) : M (option (callback H)) :=
  c ← core_of (Some i);
  let o := op_cop c in
  fd ← M_Impl_Fd (conn_impl o);
  let notify := negb (fd =? M_INVALID_SOCKET) in
  (if notify then M_Impl_C_Connect_Flag (conn_impl o) else mret tt);;
  upd (Some i) (set_type (type_clear E_CONNECT_OP));;
  error ← so_error (conn_impl o) 0 M_ERR_ASYNC_CONNECT_FAIL;
  upd (Some i) (set_cop conn_clear);;
  if notify then h ← lift (conn_handler o); mret (Some (CallCommon h error)) else mret None.

Definition WriteOperation_Complete (i : nat) : M (option (callback H)) :=
  c ← core_of (Some i);
  let o := op_wop c in
  fd ← M_Impl_Fd (rw_impl o);
  upd (Some i) (set_type (type_clear E_WRITE_OP));;
  let notify := negb (fd =? M_INVALID_SOCKET) in
  error ← (if notify then
             M_Impl_C_Write_Flag (rw_impl o);;
             c ← core_of (Some i);
             let flag := if negb (Z.land (op_type c) E_READ_OP =? 0) then M_EPOLLIN else 0 in
             CtlEpoll (rw_impl o) (Some (DOp i)) M_EPOLL_CTL_MOD flag 0
           else mret 0);
  ret ← sys (λ k, k_send k fd (rw_buf o));
  error ← (if ret <=? 0 then so_error (rw_impl o) error M_ERR_ASYNC_WRITE_FAIL else mret error);
  upd (Some i) (set_wop rw_clear);;
  if notify then
    h ← lift (rw_handler o);
    mret (Some (CallWrite h (if ret <? 0 then 0 else ret) error))
  else mret None.

Definition ReadOperation_Complete (i : nat) : M (option (callback H)) :=
  c ← core_of (Some i);
  let o := op_rop c in
  fd ← M_Impl_Fd (rw_impl o);
  let notify := negb (fd =? M_INVALID_SOCKET) in
  error ← (if notify then
             M_Impl_C_Read_Flag (rw_impl o);;
             upd (Some i) (set_type (type_clear E_READ_OP));;
             c ← core_of (Some i);
             let flag := if negb (Z.land (op_type c) E_WRITE_OP =? 0) then M_EPOLLOUT else 0 in
             CtlEpoll (rw_impl o) (Some (DOp i)) M_EPOLL_CTL_MOD flag 0
           else mret 0);
  '(ret, data) ← sys (λ k, k_recv k fd (rw_len o));
  error ← (if ret <=? 0 then so_error (rw_impl o) error M_ERR_ASYNC_READ_FAIL else mret error);
  upd (Some i) (set_rop rw_clear);;
  if notify then
    h ← lift (rw_handler o);
    mret (Some (CallRead h data (if ret <? 0 then 0 else ret) error))
  else mret None.

(** ** The event loop *)

Section loop.
(** How the loop runs a handler, the run callback of the service, the resumption
    of waiting coroutines, and [CoroutineTask::doTask]. *)
Variable run : callback H → M ().
Variable runhandler : M ().
Variable doThrResume : M ().
Variable doTask : M () → M ().

Definition run_opt (c : option (callback H)) : M () :=
  match c with Some c => run c | None => mret tt end.

Definition has_bit (x b : Z) : bool := negb (Z.land x b =? 0).

(** [_DoExecOp] *)
Definition DoExecOp (i : nat) (evs : Z) : M () :=
  c ← core_of (Some i);
  if has_bit (op_type c) E_ACCEPT_OP then cb ← AcceptOperation_Complete i; run cb
  else if has_bit (op_type c) E_CONNECT_OP then cb ← ConnectOperation_Complete i; run_opt cb
  else
    let hup := has_bit evs M_EPOLLERR || has_bit evs M_EPOLLHUP in
    (if has_bit (op_type c) E_READ_OP && (has_bit evs M_EPOLLIN || hup) then
       cb ← ReadOperation_Complete i; run_opt cb
     else mret tt);;
    c ← core_of (Some i);
    if has_bit (op_type c) E_WRITE_OP && (has_bit evs M_EPOLLOUT || hup) then
      cb ← WriteOperation_Complete i; run_opt cb
    else mret tt.

(** [_ExecOp]: in coroutine mode the operation runs as a task whose descriptor
    comes from the pool. *)
Definition ExecOp (isco : bool) (s i : nat) (evs : Z) : M () :=
  if negb isco then DoExecOp i evs
  else
    io ← io_of s;
    upd_io s (λ io, mkIo (io_service io) (io_handler io) (io_fdcnt io) (io_closereqs io)
                      (io_closereqs2 io) (pred (io_tasks io)));;
    doTask (DoExecOp i evs);;
    io ← io_of s;
    if (io_tasks io <? 1024)%nat then
      upd_io s (λ io, mkIo (io_service io) (io_handler io) (io_fdcnt io) (io_closereqs io)
                        (io_closereqs2 io) (S (io_tasks io)))
    else mret tt.

(** The loop of [_DoClose] over the swapped-out requests; it returns the
    recycled ones. *)
Fixpoint do_closes (reqs : list SocketClose) : M (list SocketClose) :=
  match reqs with
  | [] => mret []
  | cls :: reqs =>
      fd ← M_Impl_Fd (cls_impl cls);
      sys (λ k, k_closesocket k fd);;
      upd (cls_impl cls) (set_fd M_INVALID_SOCKET);;
      upd (cls_impl cls) (set_state (λ _, 0));;
      match cls_handler cls with Some h => run (CallClose h) | None => mret tt end;;
      rest ← do_closes reqs;
      mret (mkClose None None :: rest)
  end.

Definition DoClose (s : nat) : M () :=
  io ← io_of s;
  upd_io s (λ io, mkIo (io_service io) (io_handler io) (io_fdcnt io) [] (io_closereqs2 io)
                    (io_tasks io));;
  done ← do_closes (io_closereqs io);
  upd_io s (λ io, mkIo (io_service io) (io_handler io) (io_fdcnt io) (io_closereqs io)
                    (io_closereqs2 io ++ done) (io_tasks io)).

(** One batch of events; [true] when a finish event was met. *)
Fixpoint exec_events (isco : bool) (s : nat) (evs : list epoll_event) : M bool :=
  match evs with
  | [] => mret false
  | e :: evs =>
      brk ← match ev_ptr e with
            | DFinish => mret true
            | DOp i => ExecOp isco s i (events e);; mret false
            end;
      r ← exec_events isco s evs;
      mret (brk || r)
  end.

(** [_DoRun]: [fuel] bounds the number of rounds; [None] as a result of a run
    that needs more. *)
Fixpoint DoRun (fuel : nat) (isco : bool) (s : nat) : M (option Z) :=
  match fuel with
  | O => mret None
  | S fuel =>
      runhandler;;
      DoClose s;;
      (if isco then doThrResume else mret tt);;
      modify (λ w, mkWorld (k_setlasterr (w_k w) 0) (w_cores w) (w_ios w) (w_svc w));;
      io ← io_of s;
      '(ret, evs) ← sys (λ k, k_epoll_wait k (io_handler io));
      errno ← M_ERR_LAST;
      if ret =? 0 then DoRun fuel isco s
      else if (ret <? 0) && negb (errno =? M_EINTR) then e ← M_ERR_LAST; mret (Some e)
      else
        brk ← exec_events isco s (take (Z.to_nat ret) evs);
        if brk : bool then mret (Some 0) else DoRun fuel isco s
  end.

Definition Access_Run (fuel : nat) (isco : bool) (s : nat) : M (option Z) :=
  '(error, r) ← CreateIoImpl s;
  match r with
  | None => mret (Some error)
  | Some s =>
      r ← DoRun fuel isco s;
      match r with
      | None => mret None
      | Some e => ReleaseIoImpl s;; mret (Some (if e =? 0 then error else e))
      end
  end.
End loop.

(** [Stop]: a finish event for every running loop. *)
Fixpoint stop_all (ss : list nat) (error : Z) : M Z :=
  match ss with
  | [] => mret error
  | s :: ss =>
      io ← io_of s;
      fd ← sys (λ k, k_socket k M_AF_INET 1 0);
      ret ← sys (λ k, k_epoll_ctl k (io_handler io) M_EPOLL_CTL_ADD fd
                    (Z.lor (Z.lor M_EPOLLERR M_EPOLLIN) M_EPOLLOUT) (Some DFinish));
      error ← (if negb (ret =? 0) then sys (λ k, k_closesocket k fd);; M_ERR_LAST
               else mret error);
      stop_all ss error
  end.

Definition Access_Stop (error : Z) : M Z :=
  v ← gets (λ w, implvector (w_svc w));
  stop_all v error.
End service.
