(* ===== verification/EpollSpec.v ===== *)
(** * The contract of the I/O service

    Lemmas and theorems about the definitions of [Epoll]: symbolic execution of the
    store monad, the contract of the asynchronous operations ([proactor_exactly_once]: whatever
    is posted, refused, completed and closed, posting does not fault and each handler is called
    at most once, in order; as long as the system refuses no post and none is made while one is
    outstanding, every event calls its handler), the deferred close, and what the operations do
    when a post is refused ([failed_post_breaks_events]) or made twice
    ([second_read_breaks_the_first]). *)

From Stdlib Require Import ZArith Lia List Strings.Byte Init.Byte.
From stdpp Require Import base numbers list option gmap relations.
From S2P Require Import Prelude Epoll.

(** ** Reasoning about the state word *)

Lemma M_GET_BIT_testbit x y : 0 <= y → M_GET_BIT x y = Z.testbit x y.
Proof.
  intros Hy. unfold M_GET_BIT.
  destruct (Z.testbit x y) eqn:E.
  - apply negb_true_iff, Z.eqb_neq. intros E0.
    apply (f_equal (λ z, Z.testbit z y)) in E0.
    rewrite Z.land_spec, E, Z.shiftl_spec, Z.sub_diag, Z.bits_0 in E0 by done. done.
  - apply negb_false_iff, Z.eqb_eq. apply Z.bits_inj'. intros n Hn.
    rewrite Z.land_spec, Z.bits_0. destruct (decide (n = y)) as [->|Hne]; [by rewrite E|].
    rewrite Z.shiftl_spec by done.
    destruct (decide (n < y)).
    + rewrite (Z.testbit_neg_r _ (n - y)) by lia. by rewrite andb_false_r.
    + replace 1 with (2 ^ 0) by done. rewrite Z.pow2_bits_false by lia. by rewrite andb_false_r.
Qed.

Lemma testbit_shiftl_1 y n : 0 <= y → 0 <= n → Z.testbit (Z.shiftl 1 y) n = (n =? y).
Proof.
  intros Hy Hn. rewrite Z.shiftl_1_l, Z.pow2_bits_eqb by done. apply Z.eqb_sym.
Qed.

Lemma GET_SET x y z : 0 <= y → 0 <= z → M_GET_BIT (M_SET_BIT x y) z = M_GET_BIT x z || (z =? y).
Proof.
  intros. rewrite !M_GET_BIT_testbit by done. unfold M_SET_BIT.
  by rewrite Z.lor_spec, testbit_shiftl_1.
Qed.

Lemma GET_CLR x y z : 0 <= y → 0 <= z → M_GET_BIT (M_CLR_BIT x y) z = M_GET_BIT x z && negb (z =? y).
Proof.
  intros. rewrite !M_GET_BIT_testbit by done. unfold M_CLR_BIT.
  by rewrite Z.land_spec, Z.lnot_spec, testbit_shiftl_1.
Qed.

Lemma has_bit_lor x y b : has_bit (Z.lor x y) b = has_bit x b || has_bit y b.
Proof.
  unfold has_bit. rewrite Z.land_comm, Z.land_lor_distr_r, (Z.land_comm x), (Z.land_comm y).
  destruct (Z.eqb_spec (Z.lor (Z.land b x) (Z.land b y)) 0) as [E|E].
  - apply Z.lor_eq_0_iff in E as [-> ->]. done.
  - destruct (Z.eqb_spec (Z.land b x) 0) as [E1|]; [|done].
    destruct (Z.eqb_spec (Z.land b y) 0) as [E2|]; [|done].
    by rewrite E1, E2 in E.
Qed.

Lemma has_bit_clear x a b : Z.land a b = 0 → has_bit (type_clear a x) b = has_bit x b.
Proof.
  intros Hab. unfold has_bit, type_clear. do 2 f_equal.
  rewrite <- Z.land_assoc. f_equal. apply Z.bits_inj'. intros n Hn.
  rewrite Z.land_spec, Z.lnot_spec by done.
  apply (f_equal (λ z, Z.testbit z n)) in Hab. rewrite Z.land_spec, Z.bits_0 in Hab.
  by destruct (Z.testbit a n), (Z.testbit b n).
Qed.

Lemma has_bit_clear_same x a : has_bit (type_clear a x) a = false.
Proof.
  unfold has_bit, type_clear. rewrite <- Z.land_assoc, (Z.land_comm (Z.lnot a)), Z.land_lnot_diag.
  by rewrite Z.land_0_r.
Qed.

(** Decide the bits of a state word or an operation type. *)
Ltac bits :=
  repeat first
    [ rewrite GET_SET by done | rewrite GET_CLR by done
    | rewrite has_bit_lor | rewrite has_bit_clear_same
    | rewrite has_bit_clear by done ];
  repeat match goal with
  | |- context [Z.eqb ?a ?b] => let v := eval vm_compute in (Z.eqb a b) in change (Z.eqb a b) with v
  | |- context [has_bit ?a ?b] => is_ground a; let v := eval vm_compute in (has_bit a b) in
      change (has_bit a b) with v
  end;
  rewrite ?andb_true_r, ?andb_false_r, ?orb_true_r, ?orb_false_r.

(** ** Symbolic execution *)

Section exec.
Context {K EP H : Type} `{!Kernel K EP}.
Abbreviation World := (World (K:=K) (H:=H)).
Implicit Types w : World.

(** Loops named by the service exist. *)
Record svc_wf w : Prop := {
  sw_ios : Forall (λ s, is_Some (w_ios w !! s)) (implvector (w_svc w));
  sw_map : map_Forall (λ _ s, is_Some (w_ios w !! s)) (implmap (w_svc w));
  sw_cnt : Z.of_nat (length (implvector (w_svc w))) < 2 ^ 32
}.

Lemma upd_run i (f : core H → core H) w c :
  w_cores w !! i = Some c →
  upd (Some i) f w = Some (tt, mkWorld (w_k w) (<[i := f c]> (w_cores w)) (w_ios w) (w_svc w)).
Proof. intros E. unfold upd. cbn [mbind option_bind]. by rewrite E. Qed.

Lemma core_of_run i w c : w_cores w !! i = Some c → core_of (Some i) w = Some (c, w).
Proof. intros E. unfold core_of. cbn [mbind option_bind]. by rewrite E. Qed.


Lemma upd_io_run s f w io :
  w_ios w !! s = Some io →
  upd_io s f w = Some (tt, mkWorld (w_k w) (w_cores w) (<[s := f io]> (w_ios w)) (w_svc w)).
Proof. intros E. unfold upd_io. by rewrite E. Qed.

Lemma M_Impl_Fd_run i w c : w_cores w !! i = Some c → M_Impl_Fd (Some i) w = Some (c_fd c, w).
Proof. intros E. unfold M_Impl_Fd. by rewrite (st_bind_some _ _ _ _ _ (core_of_run _ _ _ E)). Qed.

Lemma M_Impl_Epoll_run i w c :
  w_cores w !! i = Some c → M_Impl_Epoll (Some i) w = Some (c_epoll c, w).
Proof. intros E. unfold M_Impl_Epoll. by rewrite (st_bind_some _ _ _ _ _ (core_of_run _ _ _ E)). Qed.

Lemma M_Impl_Get_run b i w c :
  w_cores w !! i = Some c → M_Impl_Get b (Some i) w = Some (M_GET_BIT (c_state c) b, w).
Proof. intros E. unfold M_Impl_Get. by rewrite (st_bind_some _ _ _ _ _ (core_of_run _ _ _ E)). Qed.

Lemma M_Impl_G_Nonblock_run i w c :
  w_cores w !! i = Some c →
  M_Impl_G_Nonblock (Some i) w = Some (negb (M_GET_BIT (c_state c) 2), w).
Proof.
  intros E. unfold M_Impl_G_Nonblock. by rewrite (st_bind_some _ _ _ _ _ (M_Impl_Get_run _ _ _ _ E)).
Qed.

Lemma opset_of_run i w : opset_of (Some i) w = Some (DOp i, w).
Proof. done. Qed.

Lemma bind_sys {A B} (g : K → K * A) (f : A → ST World B) w :
  (sys g ≫= f) w =
    let (k, x) := g (w_k w) in f x (mkWorld k (w_cores w) (w_ios w) (w_svc w)).
Proof. unfold mbind, st_bind, sys. by destruct (g (w_k w)). Qed.

Lemma io_of_run s w io : w_ios w !! s = Some io → io_of s w = Some (io, w).
Proof. intros E. unfold io_of. by rewrite E. Qed.
End exec.

(** Run the monadic code at the head of the goal, up to the next choice. *)
Ltac lkup :=
  cbn [w_cores w_ios]; rewrite ?lookup_insert_eq;
  first [ eassumption | reflexivity
        | repeat first [rewrite lookup_insert_eq | rewrite lookup_insert_ne by congruence];
          first [eassumption | reflexivity] ].
Ltac core_simpl :=
  cbn [set_epoll set_fd set_state set_type set_aop set_cop set_wop set_rop
       c_epoll c_fd c_state op_type op_aop op_cop op_wop op_rop].
Ltac st_clean :=
  cbn beta iota; cbn [w_k w_cores w_ios w_svc negb andb]; core_simpl; rewrite ?insert_insert_eq.
Ltac macros :=
  unfold M_Impl_S_V4, M_Impl_S_V6, M_Impl_G_V, M_Impl_S_Bind, M_Impl_S_Unbind, M_Impl_G_Bind,
    M_Impl_S_Block, M_Impl_G_Block, M_Impl_S_Nonblock, M_Impl_G_Accept_Flag,
    M_Impl_S_Accept_Flag, M_Impl_C_Accept_Flag, M_Impl_G_Connect_Flag, M_Impl_S_Connect_Flag,
    M_Impl_C_Connect_Flag, M_Impl_G_Write_Flag, M_Impl_S_Write_Flag, M_Impl_C_Write_Flag,
    M_Impl_G_Read_Flag, M_Impl_S_Read_Flag, M_Impl_C_Read_Flag, M_Impl_G_Close_Flag,
    M_Impl_S_Close_Flag, M_Impl_Set, M_Impl_Clr.
Ltac st1 :=
  match goal with
  | |- context [mbind ?f ?m ?w] =>
      lazymatch m with
      | mret _ => rewrite (st_ret_bind _ f w)
      | mbind _ _ => rewrite (st_bind_assoc _ _ f w)
      | sys _ => rewrite bind_sys
      | core_of (Some _) => erewrite (st_bind_some m f w) by (apply core_of_run; lkup)
      | upd (Some _) _ => erewrite (st_bind_some m f w) by (apply upd_run; lkup)
      | M_Impl_Fd (Some _) => erewrite (st_bind_some m f w) by (apply M_Impl_Fd_run; lkup)
      | M_Impl_Epoll (Some _) => erewrite (st_bind_some m f w) by (apply M_Impl_Epoll_run; lkup)
      | M_Impl_Get _ (Some _) => erewrite (st_bind_some m f w) by (apply M_Impl_Get_run; lkup)
      | M_Impl_G_Nonblock (Some _) =>
          erewrite (st_bind_some m f w) by (apply M_Impl_G_Nonblock_run; lkup)
      | io_of _ => erewrite (st_bind_some m f w) by (apply io_of_run; lkup)
      | upd_io _ _ => erewrite (st_bind_some m f w) by (apply upd_io_run; lkup)
      | opset_of (Some _) => rewrite (st_bind_some m f w _ _ eq_refl)
      | lift (Some _) => rewrite (st_bind_some m f w _ _ eq_refl)
      | gets _ => rewrite (st_bind_some m f w _ _ eq_refl)
      | modify _ => rewrite (st_bind_some m f w _ _ eq_refl)
      | upd_svc _ => rewrite (st_bind_some m f w _ _ eq_refl)
      | M_ERR_LAST => rewrite (st_bind_some m f w _ _ eq_refl)
      end
  | |- context [upd (Some ?i) ?f ?w] => erewrite (upd_run i f w) by lkup
  | |- context [upd_io ?i ?f ?w] => erewrite (upd_io_run i f w) by lkup
  | |- context [mret ?x ?w] => change (mret x w) with (Some (x, w))
  end; st_clean.
Ltac st := macros; st_clean; repeat st1.

Section exec2.
Context {K EP H : Type} `{!Kernel K EP}.
Abbreviation World := (World (K:=K) (H:=H)).
Implicit Types w : World.

Lemma svc_wf_io w s f (k : K) cs :
  svc_wf w → svc_wf (mkWorld k cs (<[s := f]> (w_ios w)) (w_svc w)).
Proof.
  assert (∀ s', is_Some (w_ios w !! s') → is_Some (<[s:=f]> (w_ios w) !! s')) as Hi.
  { intros s' Hs'. destruct (decide (s = s')) as [->|].
    - rewrite lookup_insert_eq. eauto.
    - by rewrite lookup_insert_ne. }
  intros [Hs Hm Hn]. constructor; [|intros m s' Hs'; by apply Hi, (Hm m)|done].
  eapply Forall_impl; [exact Hs|]. exact Hi.
Qed.

Lemma CtlEpoll_ctl_run i opset flag evs error w c :
  w_cores w !! i = Some c → svc_wf w →
  ∃ e w', CtlEpoll_ctl (Some i) opset flag evs error w = Some (e, w') ∧
    w_cores w' = w_cores w ∧ svc_wf w'.
Proof.
  intros Hc Hwf. unfold CtlEpoll_ctl, M_DEFAULT_SOCKET_ERROR. st.
  destruct (_ =? -1); st; [by eexists _, _|].
  destruct (k_epoll_ctl _ _ _ _ _ _) as [k' r].
  destruct (negb _); eexists _, _; (split; [reflexivity|]); (split; [done|]);
    destruct Hwf; by constructor.
Qed.

(** The loop a socket is bound to: the next one in turn. *)
Lemma CtlEpoll_pick_run i flag w c :
  w_cores w !! i = Some c → svc_wf w →
  ∃ w' ep', CtlEpoll_pick (Some i) flag w = Some (tt, w') ∧
    w_cores w' = <[i := set_epoll ep' c]> (w_cores w) ∧ svc_wf w' ∧
    (flag ≠ M_EPOLL_CTL_ADD → w' = w).
Proof.
  intros Hc Hwf. pose proof Hwf as [Hs Hm Hn].
  assert (w_cores w = <[i:=set_epoll (c_epoll c) c]> (w_cores w)) as Hid.
  { rewrite insert_id; [done|]. rewrite Hc. by destruct c. }
  unfold CtlEpoll_pick. st.
  destruct (Z.eqb_spec flag M_EPOLL_CTL_ADD) as [Hf|Hf]; cbn [andb];
    [|by exists w, (c_epoll c); rewrite <- Hid].
  destruct (c_epoll c =? -1); [|by exists w, (c_epoll c); rewrite <- Hid]. st.
  destruct (implvector (w_svc w)) as [|s0 v] eqn:Ev; st; [by exists w, (c_epoll c); rewrite <- Hid|].
  rewrite Ev. set (idx := u32 (implidx (w_svc w) + 1)). rewrite u32_small by lia.
  assert (is_Some ((s0 :: v) !! Z.to_nat (idx mod Z.of_nat (length (s0 :: v))))) as [s Hl].
  { apply lookup_lt_is_Some. pose proof (Z.mod_pos_bound idx (Z.of_nat (length (s0 :: v)))).
    simpl length in *. lia. }
  assert (is_Some (w_ios w !! s)) as [io Hio].
  { rewrite Forall_lookup in Hs. by eapply Hs. }
  rewrite Hl. st. eexists _, (io_handler io). split; [reflexivity|]. split; [done|].
  split; [|done].
  pose proof (svc_wf_io _ s (mkIo (io_service io) (io_handler io) (u32 (io_fdcnt io + 1))
    (io_closereqs io) (io_closereqs2 io) (io_tasks io)) (w_k w) (w_cores w) Hwf) as [? ? ?].
  constructor; simpl in *; rewrite Ev in *; done.
Qed.

Lemma CtlEpoll_run i opset flag evs error w c :
  w_cores w !! i = Some c → svc_wf w →
  ∃ e w' ep', CtlEpoll (Some i) opset flag evs error w = Some (e, w') ∧
    w_cores w' = <[i := set_epoll ep' c]> (w_cores w) ∧ svc_wf w'.
Proof.
  intros Hc Hwf. unfold CtlEpoll.
  destruct (CtlEpoll_pick_run i flag w c Hc Hwf) as (w1 & ep' & E1 & Hc1 & Hwf1 & _).
  rewrite (st_bind_some _ _ _ _ _ E1).
  destruct (CtlEpoll_ctl_run i opset flag evs error w1 (set_epoll ep' c)) as (e & w2 & E2 & Hc2 & Hwf2);
    [by rewrite Hc1, lookup_insert_eq|done|].
  exists e, w2, ep'. by rewrite Hc2.
Qed.

(** ** The contract of the asynchronous operations on a stream socket *)

(** A core [i] whose flags, operation type and armed operations agree. *)
Definition armed (o : rw_oper H) : bool := match rw_handler o with Some _ => true | None => false end.

Record sock_ok (i : nat) (c : core H) : Prop := {
  so_read : M_GET_BIT (c_state c) 8 = armed (op_rop c);
  so_write : M_GET_BIT (c_state c) 7 = armed (op_wop c);
  so_rtype : has_bit (op_type c) E_READ_OP = armed (op_rop c);
  so_wtype : has_bit (op_type c) E_WRITE_OP = armed (op_wop c);
  so_rimpl : armed (op_rop c) = true → rw_impl (op_rop c) = Some i;
  so_wimpl : armed (op_wop c) = true → rw_impl (op_wop c) = Some i;
  so_stream : has_bit (op_type c) E_ACCEPT_OP = false ∧ has_bit (op_type c) E_CONNECT_OP = false
}.

(** Documented behaviour of [fcntl]: a failure sets [errno]. *)
Class KernelOk : Prop := {
  setfl_errno k fd v k' r : k_setfl k fd v = (k', r) → r = -1 → k_errno k' ≠ 0
}.

Lemma SetNonBlock_run `{!KernelOk} fd w :
  ∃ ok k', SetNonBlock fd w = Some (ok, mkWorld k' (w_cores w) (w_ios w) (w_svc w)) ∧
           (ok = false → k_errno k' ≠ 0).
Proof.
  unfold SetNonBlock. st. destruct (k_setfl _ _ _) as [k' r] eqn:E. eexists _, k'.
  split; [reflexivity|]. intros Hok%negb_false_iff%Z.eqb_eq. by eapply setfl_errno.
Qed.

Lemma svc_wf_k w (k : K) cs : svc_wf w → svc_wf (mkWorld k cs (w_ios w) (w_svc w)).
Proof. intros []. by constructor. Qed.

(** The three stages of posting an operation: the non-blocking mode, the
    registration with [epoll], and the flags it leaves. *)
Ltac set_nonblock :=
  match goal with
  | |- context [M_GET_BIT (c_state ?c) 2] =>
      let Eb := fresh "Eb" in destruct (M_GET_BIT (c_state c) 2) eqn:Eb; cbn [negb]; st;
      [ match goal with
        | |- context [mbind ?f (SetNonBlock ?fd) ?w] =>
            let ok := fresh "ok" in let k := fresh "k" in
            let E := fresh "E" in let He := fresh "He" in
            destruct (SetNonBlock_run fd w) as (ok & k & E & He);
            rewrite (st_bind_some _ f w _ _ E); clear E;
            destruct ok; cbn [negb]; st; [|specialize (He eq_refl)]
        end | ]
  end.
Ltac post_nonblock :=
  set_nonblock;
  try match goal with
  | He : k_errno ?k ≠ 0 |- _ =>
      eexists _, _, _; split; [reflexivity|]; split; [reflexivity|];
      split; [by apply svc_wf_k|]; core_simpl; by split_and!
  end.
Ltac ctl_step :=
  match goal with
  | Hwf : svc_wf _ |- context [mbind ?f (CtlEpoll (Some ?i) ?op ?fl ?ev ?er) ?w] =>
      let e := fresh "e" in let w' := fresh "w'" in let ep := fresh "ep" in
      let E := fresh "E" in let Hcs := fresh "Hcs" in let Hwf' := fresh "Hwf'" in
      edestruct (CtlEpoll_run i op fl ev er w) as (e & w' & ep & E & Hcs & Hwf');
      [lkup | by apply svc_wf_k |];
      rewrite (st_bind_some _ f w _ _ E); clear E;
      destruct w'; cbn [w_cores] in Hcs; rewrite ?insert_insert_eq in Hcs; subst; st
  end.
Ltac post_ctl :=
  repeat match goal with
  | |- context [if M_GET_BIT ?x ?b then _ else _] =>
      let E := fresh "Ebit" in destruct (M_GET_BIT x b) eqn:E; st
  end;
  ctl_step;
  match goal with |- context [?e =? 0] => destruct (Z.eqb_spec e 0); cbn [negb]; st end.
Ltac post_done :=
  eexists _, _, _; split; [reflexivity|]; split; [cbn [w_cores]; core_simpl; reflexivity|];
  split; [first [assumption|by eapply (svc_wf_k (mkWorld _ _ _ _))]|];
  repeat match goal with
  | H : context [M_GET_BIT (M_SET_BIT _ _) _] |- _ => revert H
  | H : context [M_GET_BIT (M_CLR_BIT _ _) _] |- _ => revert H
  end; core_simpl; bits; intros; split_and!; core_simpl; bits; try done; intros; split_and!;
  try constructor; core_simpl; bits; try done; try congruence.

Ltac post_any :=
  eexists _, _, _; split; [reflexivity|]; split; [cbn [w_cores]; core_simpl; reflexivity|];
  split; [first [assumption|by eapply (svc_wf_k (mkWorld _ _ _ _))|by apply svc_wf_k]|];
  core_simpl; split_and!; try done;
  try (by rewrite (proj2 (Z.eqb_neq _ _)) by done); try (by subst).
Ltac post_nonblock_any :=
  set_nonblock; try match goal with He : k_errno ?k ≠ 0 |- _ => post_any end.

(** Posting a read on an open socket that has none outstanding. *)
Lemma AsyncRecvSome_spec `{!KernelOk} i size h w c :
  w_cores w !! i = Some c → svc_wf w → sock_ok i c → c_fd c ≠ M_INVALID_SOCKET →
  armed (op_rop c) = false →
  ∃ e w' c', Access_AsyncRecvSome (Some i) size h 0 w = Some (e, w') ∧
    w_cores w' = <[i := c']> (w_cores w) ∧ svc_wf w' ∧ c_fd c' = c_fd c ∧
    M_GET_BIT (c_state c') 9 = M_GET_BIT (c_state c) 9 ∧ op_wop c' = op_wop c ∧
    (M_GET_BIT (c_state c) 2 = false → M_GET_BIT (c_state c') 2 = false) ∧
    (e = 0 → sock_ok i c' ∧ op_rop c' = mkRw (Some h) (Some i) [] size ∧
             M_GET_BIT (c_state c') 2 = false ∧ M_GET_BIT (c_state c') 1 = true) ∧
    (e ≠ 0 → op_rop c' = rw_clear).
Proof.
  intros Hc Hwf [Hr Hw Hrt Hwt Hri Hwi Hst] Hfd Hna.
  unfold Access_AsyncRecvSome. st. rewrite (proj2 (Z.eqb_neq _ _) Hfd), Hr, Hna. st.
  post_nonblock; post_ctl; post_done; rewrite ?Hw; try done.
Qed.

(** Posting a write on an open socket that has none outstanding. *)
Lemma AsyncSendSome_spec `{!KernelOk} i data h w c :
  w_cores w !! i = Some c → svc_wf w → sock_ok i c → c_fd c ≠ M_INVALID_SOCKET →
  armed (op_wop c) = false →
  ∃ e w' c', Access_AsyncSendSome (Some i) data h 0 w = Some (e, w') ∧
    w_cores w' = <[i := c']> (w_cores w) ∧ svc_wf w' ∧ c_fd c' = c_fd c ∧
    M_GET_BIT (c_state c') 9 = M_GET_BIT (c_state c) 9 ∧ op_rop c' = op_rop c ∧
    (M_GET_BIT (c_state c) 2 = false → M_GET_BIT (c_state c') 2 = false) ∧
    (e = 0 → sock_ok i c' ∧ op_wop c' = mkRw (Some h) (Some i) data (Z.of_nat (length data)) ∧
             M_GET_BIT (c_state c') 2 = false ∧ M_GET_BIT (c_state c') 1 = true) ∧
    (e ≠ 0 → op_wop c' = rw_clear).
Proof.
  intros Hc Hwf [Hr Hw Hrt Hwt Hri Hwi Hst] Hfd Hna.
  unfold Access_AsyncSendSome. st. rewrite (proj2 (Z.eqb_neq _ _) Hfd), Hw, Hna. st.
  post_nonblock; post_ctl; post_done; rewrite ?Hr; try done.
Qed.

(** Posting in any state of the core, refusals included: the operation is the
    new one when the post succeeds and is wiped when it fails. *)
Lemma AsyncRecvSome_any `{!KernelOk} i size h w c :
  w_cores w !! i = Some c → svc_wf w →
  ∃ e w' c', Access_AsyncRecvSome (Some i) size h 0 w = Some (e, w') ∧
    w_cores w' = <[i := c']> (w_cores w) ∧ svc_wf w' ∧ c_fd c' = c_fd c ∧ op_wop c' = op_wop c ∧
    op_rop c' = (if e =? 0 then mkRw (Some h) (Some i) [] size else rw_clear) ∧
    (e = 0 → c_fd c ≠ M_INVALID_SOCKET ∧ M_GET_BIT (c_state c) 8 = false).
Proof.
  intros Hc Hwf. unfold Access_AsyncRecvSome. st.
  destruct (Z.eqb_spec (c_fd c) M_INVALID_SOCKET) as [Hfd|Hfd]; st; [post_any|].
  destruct (M_GET_BIT (c_state c) 8) eqn:Hr; st; [post_any|].
  post_nonblock_any; post_ctl; post_any.
Qed.

Lemma AsyncSendSome_any `{!KernelOk} i data h w c :
  w_cores w !! i = Some c → svc_wf w →
  ∃ e w' c', Access_AsyncSendSome (Some i) data h 0 w = Some (e, w') ∧
    w_cores w' = <[i := c']> (w_cores w) ∧ svc_wf w' ∧ c_fd c' = c_fd c ∧ op_rop c' = op_rop c ∧
    op_wop c' = (if e =? 0 then mkRw (Some h) (Some i) data (Z.of_nat (length data)) else rw_clear) ∧
    (e = 0 → c_fd c ≠ M_INVALID_SOCKET ∧ M_GET_BIT (c_state c) 7 = false).
Proof.
  intros Hc Hwf. unfold Access_AsyncSendSome. st.
  destruct (Z.eqb_spec (c_fd c) M_INVALID_SOCKET) as [Hfd|Hfd]; st; [post_any|].
  destruct (M_GET_BIT (c_state c) 7) eqn:Hr; st; [post_any|].
  post_nonblock_any; post_ctl; post_any.
Qed.

(** A read whose [epoll_ctl] fails leaves its type bit behind
    ([epoll_access.hpp:306-330] clears the flag and the operation only): the next
    hang-up or error event of the socket, say for an outstanding write, completes
    an operation that is not there and dereferences its null [SocketImpl]. *)
Lemma failed_post_breaks_events `{!KernelOk} i size h w c e w' :
  w_cores w !! i = Some c → svc_wf w → sock_ok i c → c_fd c ≠ M_INVALID_SOCKET →
  armed (op_rop c) = false → M_GET_BIT (c_state c) 2 = false →
  Access_AsyncRecvSome (Some i) size h 0 w = Some (e, w') → e ≠ 0 →
  ∃ c', w_cores w' !! i = Some c' ∧ has_bit (op_type c') E_READ_OP = true ∧ op_rop c' = rw_clear ∧
    ∀ run evs, has_bit evs M_EPOLLERR || has_bit evs M_EPOLLHUP = true → DoExecOp run i evs w' = None.
Proof.
  intros Hc Hwf [Hr Hw Hrt Hwt Hri Hwi Hst] Hfd Hna H2 E He.
  assert (∃ c', w_cores w' !! i = Some c' ∧ has_bit (op_type c') E_READ_OP = true ∧
    op_rop c' = rw_clear ∧ has_bit (op_type c') E_ACCEPT_OP = false ∧
    has_bit (op_type c') E_CONNECT_OP = false) as (c' & Hc' & Ht & Ho & Ha & Hco).
  { revert E. unfold Access_AsyncRecvSome. st. rewrite (proj2 (Z.eqb_neq _ _) Hfd), Hr, Hna. st.
    rewrite H2. cbn [negb]. st.
    post_ctl; intros [= <- <-]; try done; eexists; cbn [w_cores]; rewrite lookup_insert_eq;
      (split; [reflexivity|]); core_simpl; bits; done. }
  exists c'. split_and!; [done..|]. intros run evs Hev.
  unfold DoExecOp. st. rewrite Ha, Hco, Ht, Hev, !orb_true_r. cbn [andb].
  unfold ReadOperation_Complete. st. rewrite Ho. done.
Qed.

Lemma so_error_run i error fail w c :
  w_cores w !! i = Some c →
  ∃ e k', so_error (Some i) error fail w = Some (e, mkWorld k' (w_cores w) (w_ios w) (w_svc w)).
Proof.
  intros Hc. unfold so_error. st. destruct (k_so_error _ _) as [k' [v|]]; st;
    destruct (_ =? 0); st; eauto.
Qed.

Ltac so_step :=
  match goal with
  | |- context [mbind ?f (if ?b then so_error (Some ?i) ?er ?fa else mret ?er2) ?w] =>
      let e := fresh "e" in let k := fresh "k" in let E := fresh "E" in
      let Hb := fresh "Hb" in
      destruct b eqn:Hb; st;
      [edestruct (so_error_run i er fa w) as (e & k & E); [lkup|];
       rewrite (st_bind_some _ f w _ _ E); clear E; st|]
  end.
Ltac complete_done :=
  st; eexists _, _, _; try eexists _; try eexists _; split; [reflexivity|];
  split; [cbn [w_cores]; core_simpl; reflexivity|];
  split; [by eapply (svc_wf_k (mkWorld _ _ _ _))|];
  core_simpl; bits; split_and!; try done; try lia;
  try (match goal with |- context [if ?b then _ else _] => destruct b eqn:?; lia end);
  constructor; core_simpl; bits; try done; try congruence.

(** A read event on an open socket: the posted handler is called once, with what
    the kernel returned, and the operation is no longer armed. *)
Lemma ReadOperation_Complete_spec i w c h :
  w_cores w !! i = Some c → svc_wf w → sock_ok i c → c_fd c ≠ M_INVALID_SOCKET →
  rw_handler (op_rop c) = Some h →
  ∃ data tran e w' c', ReadOperation_Complete i w = Some (Some (CallRead h data tran e), w') ∧
    w_cores w' = <[i := c']> (w_cores w) ∧ svc_wf w' ∧ c_fd c' = c_fd c ∧
    M_GET_BIT (c_state c') 9 = M_GET_BIT (c_state c) 9 ∧
    M_GET_BIT (c_state c') 2 = M_GET_BIT (c_state c) 2 ∧
    op_wop c' = op_wop c ∧ op_rop c' = rw_clear ∧ sock_ok i c' ∧ 0 <= tran.
Proof.
  intros Hc Hwf [Hr Hw Hrt Hwt Hri Hwi Hst] Hfd Hh.
  assert (armed (op_rop c) = true) as Ha by (unfold armed; by rewrite Hh).
  unfold ReadOperation_Complete. st. rewrite (Hri Ha). st.
  rewrite (proj2 (Z.eqb_neq _ _) Hfd). st. ctl_step.
  destruct (k_recv _ _ _) as [k' [ret data]]. st. so_step; rewrite Hh; complete_done.
Qed.

(** A write event: the kernel is offered the posted bytes once. *)
Lemma WriteOperation_Complete_spec i w c h :
  w_cores w !! i = Some c → svc_wf w → sock_ok i c → c_fd c ≠ M_INVALID_SOCKET →
  rw_handler (op_wop c) = Some h →
  ∃ tran e w' c', WriteOperation_Complete i w = Some (Some (CallWrite h tran e), w') ∧
    w_cores w' = <[i := c']> (w_cores w) ∧ svc_wf w' ∧ c_fd c' = c_fd c ∧
    M_GET_BIT (c_state c') 9 = M_GET_BIT (c_state c) 9 ∧
    M_GET_BIT (c_state c') 2 = M_GET_BIT (c_state c) 2 ∧
    op_rop c' = op_rop c ∧ op_wop c' = rw_clear ∧ sock_ok i c' ∧ 0 <= tran.
Proof.
  intros Hc Hwf [Hr Hw Hrt Hwt Hri Hwi Hst] Hfd Hh.
  assert (armed (op_wop c) = true) as Ha by (unfold armed; by rewrite Hh).
  unfold WriteOperation_Complete. st. rewrite (Hwi Ha). st.
  rewrite (proj2 (Z.eqb_neq _ _) Hfd). st. ctl_step.
  destruct (k_send _ _ _) as [k' ret]. st. so_step; rewrite Hh; complete_done.
Qed.

(** ** Closing *)

(** [Close] of an open socket in non-blocking mode whose loop runs: the close
    flag is set and the request, with its handler, joins the loop's queue. *)
Lemma Close_posted i handler w c s io :
  w_cores w !! i = Some c → c_fd c ≠ M_INVALID_SOCKET →
  M_GET_BIT (c_state c) 9 = false → M_GET_BIT (c_state c) 2 = false →
  c_epoll c ≠ 0 → implmap (w_svc w) !! c_epoll c = Some s → w_ios w !! s = Some io →
  IoAccess_Close (Some i) handler 0 w =
    Some (0, mkWorld (w_k w) (<[i := set_state (λ x, M_SET_BIT x 9) c]> (w_cores w))
      (<[s := mkIo (io_service io) (io_handler io) (u32 (io_fdcnt io - 1))
                (io_closereqs io ++ [mkClose (Some i) handler]) (tail (io_closereqs2 io))
                (io_tasks io)]> (w_ios w)) (w_svc w)).
Proof.
  intros Hc Hfd H9 H2 He Hm Hs. unfold IoAccess_Close, GetIoServiceImpl. st.
  rewrite (proj2 (Z.eqb_neq _ _) Hfd), H9. st. rewrite (proj2 (Z.eqb_neq _ _) He). st.
  rewrite Hm. st. rewrite H2. st. done.
Qed.

(** A second [Close], or one on a closed socket, does nothing. *)
Lemma Close_idempotent i handler e w c :
  w_cores w !! i = Some c →
  c_fd c = M_INVALID_SOCKET ∨ M_GET_BIT (c_state c) 9 = true →
  IoAccess_Close (Some i) handler e w = Some (e, w).
Proof.
  intros Hc Hcl. unfold IoAccess_Close. st.
  destruct Hcl as [-> | ->]; [|rewrite andb_false_r]; st; done.
Qed.

(** [Close] never faults; the core keeps its operations, and either only gets its
    close flag or is closed at once. *)
Lemma Close_run i handler e w c :
  w_cores w !! i = Some c → svc_wf w →
  ∃ e' w' c', IoAccess_Close (Some i) handler e w = Some (e', w') ∧
    w_cores w' = <[i := c']> (w_cores w) ∧ svc_wf w' ∧
    c' = (if negb (c_fd c =? M_INVALID_SOCKET) && negb (M_GET_BIT (c_state c) 9) then
            if M_GET_BIT (c_state c) 2 then set_state (λ _, 0) (set_fd M_INVALID_SOCKET c)
            else set_state (λ x, M_SET_BIT x 9) c
          else c).
Proof.
  intros Hc Hwf. pose proof Hwf as [Hs Hm Hn]. unfold IoAccess_Close, GetIoServiceImpl. st.
  assert (w_cores w = <[i:=c]> (w_cores w)) as Hid by (by rewrite insert_id).
  destruct (negb _ && negb _); st; [|by exists e, w, c; rewrite <- Hid; auto].
  assert (∀ o : option nat, (∀ s, o = Some s → is_Some (w_ios w !! s)) →
    ∃ e' w' c', (match o with
      | Some s => upd_io s (λ io, mkIo (io_service io) (io_handler io) (u32 (io_fdcnt io - 1))
                              (io_closereqs io) (io_closereqs2 io) (io_tasks io))
      | None => mret tt
      end ≫= λ _ : (), M_Impl_Get 2 (Some i) ≫= λ block : bool,
        (if block then sys (λ k, k_closesocket k (c_fd c)) ≫= λ r : Z,
            M_DEFAULT_SOCKET_ERROR (r =? M_SOCKET_ERROR) e ≫= λ error : Z,
            upd (Some i) (set_fd M_INVALID_SOCKET) ≫= λ _ : (),
            upd (Some i) (set_state (λ _, 0)) ≫= λ _ : (), mret error
         else upd (Some i) (set_state (λ x : Z, M_SET_BIT x 9)) ≫= λ _ : (), mret e) ≫= λ error : Z,
        match o with
        | Some s => upd_io s (λ io, mkIo (io_service io) (io_handler io) (io_fdcnt io)
                      (io_closereqs io ++ [mkClose (Some i) handler]) (tail (io_closereqs2 io))
                      (io_tasks io))
        | None => mret tt
        end ≫= λ _ : (), mret error) w = Some (e', w') ∧
    w_cores w' = <[i := c']> (w_cores w) ∧ svc_wf w' ∧
    c' = (if M_GET_BIT (c_state c) 2 then set_state (λ _, 0) (set_fd M_INVALID_SOCKET c)
          else set_state (λ x, M_SET_BIT x 9) c)) as Hgo.
  { intros o Ho. unfold M_DEFAULT_SOCKET_ERROR.
    destruct o as [s|]; [destruct (Ho s eq_refl) as [io Hio]|]; st;
      destruct (M_GET_BIT (c_state c) 2); st;
      try (destruct (k_closesocket _ _) as [k' r]; destruct (r =? M_SOCKET_ERROR); st);
      (eexists _, _, _; split; [reflexivity|]; split; [cbn [w_cores]; reflexivity|];
       split; [|reflexivity]);
      first [apply (svc_wf_io w)|apply svc_wf_k]; done. }
  destruct (c_epoll c =? 0); [apply (Hgo None); done|]. st.
  apply (Hgo (implmap (w_svc w) !! c_epoll c)). intros s Hl. by eapply Hm.
Qed.
(** ** Completions in any state *)

(** The handler a completion calls, if any. *)
Definition called_of (cb : option (callback H)) : list H :=
  match cb with
  | Some (CallCommon h _) | Some (CallWrite h _ _) | Some (CallRead h _ _ _) | Some (CallClose h) => [h]
  | None => []
  end.

Definition pend (o : rw_oper H) : list H := match rw_handler o with Some h => [h] | None => [] end.

(** An operation that is wiped or armed with its own core. *)
Definition oper_ok (i : nat) (o : rw_oper H) : Prop :=
  o = rw_clear ∨ armed o = true ∧ rw_impl o = Some i.

Lemma armed_pend (o : rw_oper H) : armed o = false → pend o = [].
Proof. unfold armed, pend. by destruct (rw_handler o). Qed.

Lemma armed_handler (o : rw_oper H) : armed o = true → ∃ h, rw_handler o = Some h.
Proof. unfold armed. destruct (rw_handler o); [eauto|done]. Qed.

(** A completion in any state: only an armed operation completes, and it is wiped;
    its handler is called unless the descriptor is gone. *)
Lemma ReadOperation_Complete_any i w c cb w' :
  w_cores w !! i = Some c → svc_wf w → oper_ok i (op_rop c) →
  ReadOperation_Complete i w = Some (cb, w') →
  ∃ c', w_cores w' = <[i := c']> (w_cores w) ∧ svc_wf w' ∧ c_fd c' = c_fd c ∧
    op_wop c' = op_wop c ∧ op_rop c' = rw_clear ∧
    called_of cb = (if c_fd c =? M_INVALID_SOCKET then [] else pend (op_rop c)).
Proof.
  intros Hc Hwf Ho. unfold ReadOperation_Complete. st.
  destruct Ho as [->|[(h & Hh)%armed_handler Hi]]; [cbn [rw_impl rw_clear]; done|].
  rewrite Hi, Hh. unfold pend. rewrite Hh. st.
  destruct (Z.eqb_spec (c_fd c) M_INVALID_SOCKET) as [Hfd|Hfd]; cbn [negb]; st; [|ctl_step];
    (destruct (k_recv _ _ _) as [k' [ret data]]; st; so_step; intros [= <- <-];
     eexists; (split; [cbn [w_cores]; core_simpl; reflexivity|]);
     (split; [first [by eapply (svc_wf_k (mkWorld _ _ _ _)) | by apply svc_wf_k]|]);
     core_simpl; by split_and!).
Qed.

Lemma WriteOperation_Complete_any i w c cb w' :
  w_cores w !! i = Some c → svc_wf w → oper_ok i (op_wop c) →
  WriteOperation_Complete i w = Some (cb, w') →
  ∃ c', w_cores w' = <[i := c']> (w_cores w) ∧ svc_wf w' ∧ c_fd c' = c_fd c ∧
    op_rop c' = op_rop c ∧ op_wop c' = rw_clear ∧
    called_of cb = (if c_fd c =? M_INVALID_SOCKET then [] else pend (op_wop c)).
Proof.
  intros Hc Hwf Ho. unfold WriteOperation_Complete. st.
  destruct Ho as [->|[(h & Hh)%armed_handler Hi]]; [cbn [rw_impl rw_clear]; done|].
  rewrite Hi, Hh. unfold pend. rewrite Hh. st.
  destruct (Z.eqb_spec (c_fd c) M_INVALID_SOCKET) as [Hfd|Hfd]; cbn [negb]; st; [|ctl_step];
    (destruct (k_send _ _ _) as [k' ret]; st; so_step; intros [= <- <-];
     eexists; (split; [cbn [w_cores]; core_simpl; reflexivity|]);
     (split; [first [by eapply (svc_wf_k (mkWorld _ _ _ _)) | by apply svc_wf_k]|]);
     core_simpl; by split_and!).
Qed.

End exec2.

(** ** One socket and its loop

    The handlers posted with success and the handlers called for a socket, in
    order, and whether a post on the open socket was refused. *)
Record slog (H : Type) := mkLog {
  rd_posted : list H; rd_called : list H; wr_posted : list H; wr_called : list H; refused : bool
}.
Arguments mkLog {H}. Arguments rd_posted {H}. Arguments rd_called {H}.
Arguments wr_posted {H}. Arguments wr_called {H}. Arguments refused {H}.

Section socket.
Context {K EP H : Type} `{!Kernel K EP} `{!KernelOk (K:=K) (EP:=EP)}.
Abbreviation World := (World (K:=K) (H:=H)).
Implicit Types w : World.
Variable i : nat.

(** What a post adds to the log: the handler when it succeeds, a refusal when it
    fails on an open socket. *)
Definition accepted (h : H) (e : Z) : list H := if e =? 0 then [h] else [].
Definition refusal (c : core H) (e : Z) : bool :=
  negb (e =? 0) && negb (c_fd c =? M_INVALID_SOCKET).

(** The steps, each in any state of the core: an operation is posted (whatever
    comes of it: a second post of the same kind, a failing [fcntl] or [epoll_ctl],
    a closed socket), an event of either kind is completed, and the two halves of
    closing. *)
Inductive sstep : World * slog H → World * slog H → Prop :=
| s_recv w w' l c size h e :
    w_cores w !! i = Some c →
    Access_AsyncRecvSome (Some i) size h 0 w = Some (e, w') →
    sstep (w, l) (w', mkLog (rd_posted l ++ accepted h e) (rd_called l) (wr_posted l) (wr_called l)
                        (refused l || refusal c e))
| s_send w w' l c data h e :
    w_cores w !! i = Some c →
    Access_AsyncSendSome (Some i) data h 0 w = Some (e, w') →
    sstep (w, l) (w', mkLog (rd_posted l) (rd_called l) (wr_posted l ++ accepted h e) (wr_called l)
                        (refused l || refusal c e))
| s_read_event w w' l cb :
    ReadOperation_Complete i w = Some (cb, w') →
    sstep (w, l) (w', mkLog (rd_posted l) (rd_called l ++ called_of cb) (wr_posted l) (wr_called l)
                        (refused l))
| s_write_event w w' l cb :
    WriteOperation_Complete i w = Some (cb, w') →
    sstep (w, l) (w', mkLog (rd_posted l) (rd_called l) (wr_posted l) (wr_called l ++ called_of cb)
                        (refused l))
| s_close w w' l handler e :
    IoAccess_Close (Some i) handler 0 w = Some (e, w') → sstep (w, l) (w', l)
| s_doclose w w' l handler r :
    do_closes (λ _, mret tt) [mkClose (Some i) handler] w = Some (r, w') → sstep (w, l) (w', l).

(** Every execution: the operations are either wiped or name this core, and what
    was called and is still armed was posted, in order and once. *)
Record winv (s : World * slog H) (c : core H) : Prop := {
  wi_wf : svc_wf (fst s);
  wi_core : w_cores (fst s) !! i = Some c;
  wi_rop : oper_ok i (op_rop c);
  wi_wop : oper_ok i (op_wop c);
  wi_read : rd_called (snd s) ++ pend (op_rop c) `sublist_of` rd_posted (snd s);
  wi_write : wr_called (snd s) ++ pend (op_wop c) `sublist_of` wr_posted (snd s)
}.

(** One direction: what was posted is what was called, then what is armed, then
    at most one handler lost to the close of the socket. *)
Definition kept (open : Prop) (posted called : list H) (o : rw_oper H) : Prop :=
  ∃ lost, posted = called ++ pend o ++ lost ∧ (length (pend o ++ lost) ≤ 1)%nat ∧
          (open → lost = []).

(** Executions in which no post was refused on the open socket: nothing posted is
    lost while the socket is open. *)
(** Executions in which no post was refused on the open socket: nothing posted is
    lost while the socket is open. *)
Record cinv (s : World * slog H) (c : core H) : Prop := {
  ci_ok : c_fd c ≠ M_INVALID_SOCKET → sock_ok i c;
  ci_read : kept (c_fd c ≠ M_INVALID_SOCKET) (rd_posted (snd s)) (rd_called (snd s)) (op_rop c);
  ci_write : kept (c_fd c ≠ M_INVALID_SOCKET) (wr_posted (snd s)) (wr_called (snd s)) (op_wop c)
}.

Definition sinv (s : World * slog H) : Prop :=
  ∃ c, winv s c ∧ (refused (snd s) = false → cinv s c).

Lemma sock_ok_close (c : core H) : sock_ok i c → sock_ok i (set_state (λ x, M_SET_BIT x 9) c).
Proof. intros []. constructor; core_simpl; bits; done. Qed.

Lemma sublist_post (called posted : list H) o (o' : rw_oper H) h e :
  called ++ pend o `sublist_of` posted → rw_handler o' = Some h →
  called ++ pend (if e =? 0 then o' else rw_clear) `sublist_of` posted ++ accepted h e.
Proof.
  intros Hs Ho. assert (called `sublist_of` posted) as Hc.
  { etrans; [|exact Hs]. apply sublist_inserts_r. done. }
  unfold accepted. destruct (e =? 0); unfold pend at 1; rewrite ?Ho; simpl.
  - by apply sublist_app.
  - by rewrite !app_nil_r.
Qed.

Lemma sublist_called (called posted : list H) o b :
  called ++ pend o `sublist_of` posted →
  (called ++ (if b : bool then [] else pend o)) ++ pend rw_clear `sublist_of` posted.
Proof.
  intros Hs. unfold pend at 2. simpl. rewrite app_nil_r. destruct b; [|done].
  rewrite app_nil_r. etrans; [|exact Hs]. by apply sublist_inserts_r.
Qed.

Lemma oper_ok_post (o : rw_oper H) h e : rw_handler o = Some h → rw_impl o = Some i →
  oper_ok i (if e =? 0 then o else rw_clear).
Proof.
  intros Ho Hi. destruct (e =? 0); [right|by left]. unfold armed. by rewrite Ho.
Qed.

Lemma winv_core w w' l' (c' : core H) :
  w_cores w' = <[i := c']> (w_cores w) → svc_wf w' →
  oper_ok i (op_rop c') → oper_ok i (op_wop c') →
  rd_called l' ++ pend (op_rop c') `sublist_of` rd_posted l' →
  wr_called l' ++ pend (op_wop c') `sublist_of` wr_posted l' →
  winv (w', l') c'.
Proof. intros Hcs. constructor; simpl; try done. by rewrite Hcs, lookup_insert_eq. Qed.

Lemma refusal_false c e : refusal c e = false → e = 0 ∨ c_fd c = M_INVALID_SOCKET.
Proof.
  unfold refusal. intros [?%negb_false_iff%Z.eqb_eq|?%negb_false_iff%Z.eqb_eq]%andb_false_iff; auto.
Qed.

Lemma kept_clear (open open' : Prop) posted called o :
  kept open posted called o → ¬ open' → kept open' posted called rw_clear.
Proof.
  intros (lost & -> & Hl & _) Hno. exists (pend o ++ lost). by split_and!.
Qed.

Lemma kept_called (open open' : Prop) posted called o :
  kept open posted called o → (open' → open) → kept open' posted (called ++ pend o) rw_clear.
Proof.
  intros (lost & -> & Hl & Hop) Ho. exists lost. rewrite <- app_assoc. simpl. rewrite length_app in Hl.
  split_and!; [done|lia|tauto].
Qed.

Lemma kept_post (open open' : Prop) posted called o o' h :
  kept open posted called o → open → armed o = false → rw_handler o' = Some h →
  kept open' (posted ++ [h]) called o'.
Proof.
  intros (lost & -> & _ & Hop) Ho Ha Hh. rewrite (Hop Ho), (armed_pend _ Ha).
  exists []. unfold pend. rewrite Hh, !app_nil_r. simpl. split_and!; [done|lia|done].
Qed.

Lemma kept_mono (open open' : Prop) posted called o :
  kept open posted called o → (open' → open) → kept open' posted called o.
Proof. intros (lost & ? & ? & ?) Ho. exists lost. split_and!; auto. Qed.

Lemma sinv_recv w w' l c size h e :
  sinv (w, l) → w_cores w !! i = Some c →
  Access_AsyncRecvSome (Some i) size h 0 w = Some (e, w') →
  sinv (w', mkLog (rd_posted l ++ accepted h e) (rd_called l) (wr_posted l) (wr_called l)
              (refused l || refusal c e)).
Proof.
  intros (c0 & Hwi & Hci) Hc E. pose proof Hwi as [Hwf Hc0 Hro Hwo Hr Hw]. simpl in *. simplify_eq.
  destruct (AsyncRecvSome_any i size h w c Hc Hwf) as (e' & w1 & c' & E1 & Hcs & Hwf1 & Hfd & Hwop & Hrop & He0).
  simplify_eq. exists c'. split.
  - eapply winv_core; [exact Hcs|done|rewrite Hrop|by rewrite Hwop|rewrite Hrop|by rewrite Hwop].
    + by eapply oper_ok_post.
    + by eapply sublist_post.
  - simpl. intros [Hnr Hcl%refusal_false]%orb_false_iff. destruct (Hci Hnr) as [Hok Hkr Hkw].
    simpl in *. destruct Hcl as [->|Hcl].
    + destruct (He0 eq_refl) as [Hfd0 H8]. specialize (Hok Hfd0).
      assert (armed (op_rop c) = false) as Ha by (by rewrite <- (so_read _ _ Hok)).
      destruct (AsyncRecvSome_spec i size h w c Hc Hwf Hok Hfd0 Ha)
        as (e & w2 & c2 & E2 & Hcs2 & _ & _ & _ & _ & _ & Hgood & _).
      simplify_eq. assert (c' = c2) as -> by (rewrite Hcs in Hcs2;
        apply (f_equal (lookup i)) in Hcs2; rewrite !lookup_insert_eq in Hcs2; congruence).
      constructor; simpl; [intros _; by apply Hgood| |rewrite Hwop, Hfd; done].
      rewrite Hrop. by apply (kept_post (c_fd c ≠ M_INVALID_SOCKET) _ _ _ (op_rop c)).
    + assert (e ≠ 0) as He by (intros ->; by destruct (He0 eq_refl)).
      constructor; simpl; rewrite ?Hfd, ?Hwop; [done| |done].
      rewrite Hrop. unfold accepted. rewrite (proj2 (Z.eqb_neq _ _) He), app_nil_r.
      eapply kept_clear; [exact Hkr|]. by intros [].
Qed.

Lemma sinv_send w w' l c data h e :
  sinv (w, l) → w_cores w !! i = Some c →
  Access_AsyncSendSome (Some i) data h 0 w = Some (e, w') →
  sinv (w', mkLog (rd_posted l) (rd_called l) (wr_posted l ++ accepted h e) (wr_called l)
              (refused l || refusal c e)).
Proof.
  intros (c0 & Hwi & Hci) Hc E. pose proof Hwi as [Hwf Hc0 Hro Hwo Hr Hw]. simpl in *. simplify_eq.
  destruct (AsyncSendSome_any i data h w c Hc Hwf) as (e' & w1 & c' & E1 & Hcs & Hwf1 & Hfd & Hrop & Hwop & He0).
  simplify_eq. exists c'. split.
  - eapply winv_core; [exact Hcs|done|by rewrite Hrop|rewrite Hwop|by rewrite Hrop|rewrite Hwop].
    + by eapply oper_ok_post.
    + by eapply sublist_post.
  - simpl. intros [Hnr Hcl%refusal_false]%orb_false_iff. destruct (Hci Hnr) as [Hok Hkr Hkw].
    simpl in *. destruct Hcl as [->|Hcl].
    + destruct (He0 eq_refl) as [Hfd0 H7]. specialize (Hok Hfd0).
      assert (armed (op_wop c) = false) as Ha by (by rewrite <- (so_write _ _ Hok)).
      destruct (AsyncSendSome_spec i data h w c Hc Hwf Hok Hfd0 Ha)
        as (e & w2 & c2 & E2 & Hcs2 & _ & _ & _ & _ & _ & Hgood & _).
      simplify_eq. assert (c' = c2) as -> by (rewrite Hcs in Hcs2;
        apply (f_equal (lookup i)) in Hcs2; rewrite !lookup_insert_eq in Hcs2; congruence).
      constructor; simpl; [intros _; by apply Hgood|rewrite Hrop, Hfd; done|].
      rewrite Hwop. by apply (kept_post (c_fd c ≠ M_INVALID_SOCKET) _ _ _ (op_wop c)).
    + assert (e ≠ 0) as He by (intros ->; by destruct (He0 eq_refl)).
      constructor; simpl; rewrite ?Hfd, ?Hrop; [done|done|].
      rewrite Hwop. unfold accepted. rewrite (proj2 (Z.eqb_neq _ _) He), app_nil_r.
      eapply kept_clear; [exact Hkw|]. by intros [].
Qed.

Lemma sinv_read_event w w' l cb :
  sinv (w, l) → ReadOperation_Complete i w = Some (cb, w') →
  sinv (w', mkLog (rd_posted l) (rd_called l ++ called_of cb) (wr_posted l) (wr_called l) (refused l)).
Proof.
  intros (c & Hwi & Hci) E. pose proof Hwi as [Hwf Hc Hro Hwo Hr Hw]. simpl in *.
  destruct (ReadOperation_Complete_any i w c cb w' Hc Hwf Hro E)
    as (c' & Hcs & Hwf1 & Hfd & Hwop & Hrop & Hcl).
  exists c'. rewrite Hcl. split.
  - eapply winv_core; [exact Hcs|done|rewrite Hrop; by left|by rewrite Hwop| |by rewrite Hwop].
    rewrite Hrop. by apply sublist_called.
  - intros Hnr. destruct (Hci Hnr) as [Hok Hkr Hkw]. simpl in *.
    destruct (Z.eqb_spec (c_fd c) M_INVALID_SOCKET) as [Hf|Hf].
    + constructor; simpl; rewrite ?Hfd, ?Hwop, ?Hrop, ?app_nil_r; [done| |done].
      eapply kept_clear; [exact Hkr|]. by intros [].
    + constructor; simpl; rewrite ?Hfd, ?Hwop, ?Hrop; [|by eapply kept_called|done].
      intros _. specialize (Hok Hf).
      destruct Hro as [Hro|[(h & Hh)%armed_handler _]].
      { exfalso. revert E. unfold ReadOperation_Complete. st. by rewrite Hro. }
      destruct (ReadOperation_Complete_spec i w c h Hc Hwf Hok Hf Hh)
        as (d' & t' & e' & w1 & c2 & E1 & Hcs2 & _ & _ & _ & _ & _ & _ & Hok' & _).
      simplify_eq. rewrite Hcs in Hcs2. apply (f_equal (lookup i)) in Hcs2.
      rewrite !lookup_insert_eq in Hcs2. by simplify_eq.
Qed.

Lemma sinv_write_event w w' l cb :
  sinv (w, l) → WriteOperation_Complete i w = Some (cb, w') →
  sinv (w', mkLog (rd_posted l) (rd_called l) (wr_posted l) (wr_called l ++ called_of cb) (refused l)).
Proof.
  intros (c & Hwi & Hci) E. pose proof Hwi as [Hwf Hc Hro Hwo Hr Hw]. simpl in *.
  destruct (WriteOperation_Complete_any i w c cb w' Hc Hwf Hwo E)
    as (c' & Hcs & Hwf1 & Hfd & Hrop & Hwop & Hcl).
  exists c'. rewrite Hcl. split.
  - eapply winv_core; [exact Hcs|done|by rewrite Hrop|rewrite Hwop; by left|by rewrite Hrop|].
    rewrite Hwop. by apply sublist_called.
  - intros Hnr. destruct (Hci Hnr) as [Hok Hkr Hkw]. simpl in *.
    destruct (Z.eqb_spec (c_fd c) M_INVALID_SOCKET) as [Hf|Hf].
    + constructor; simpl; rewrite ?Hfd, ?Hwop, ?Hrop, ?app_nil_r; [done|done|].
      eapply kept_clear; [exact Hkw|]. by intros [].
    + constructor; simpl; rewrite ?Hfd, ?Hwop, ?Hrop; [|done|by eapply kept_called].
      intros _. specialize (Hok Hf).
      destruct Hwo as [Hwo|[(h & Hh)%armed_handler _]].
      { exfalso. revert E. unfold WriteOperation_Complete. st. by rewrite Hwo. }
      destruct (WriteOperation_Complete_spec i w c h Hc Hwf Hok Hf Hh)
        as (t' & e' & w1 & c2 & E1 & Hcs2 & _ & _ & _ & _ & _ & _ & Hok' & _).
      simplify_eq. rewrite Hcs in Hcs2. apply (f_equal (lookup i)) in Hcs2.
      rewrite !lookup_insert_eq in Hcs2. by simplify_eq.
Qed.

(** Closing leaves the operations; the flag it sets is none of theirs. *)
Lemma sinv_closing w w' l c' :
  sinv (w, l) → svc_wf w' →
  (∀ c, w_cores w !! i = Some c →
     w_cores w' = <[i := c']> (w_cores w) ∧ op_rop c' = op_rop c ∧ op_wop c' = op_wop c ∧
     (c_fd c' ≠ M_INVALID_SOCKET → c_fd c ≠ M_INVALID_SOCKET ∧ (sock_ok i c → sock_ok i c'))) →
  sinv (w', l).
Proof.
  intros (c & Hwi & Hci) Hwf' Hcase. pose proof Hwi as [Hwf Hc Hro Hwo Hr Hw]. simpl in *.
  destruct (Hcase c Hc) as (Hcs & Hrop & Hwop & Hopen). exists c'. split.
  - eapply winv_core; [exact Hcs|done|by rewrite Hrop|by rewrite Hwop|by rewrite Hrop|by rewrite Hwop].
  - intros Hnr. destruct (Hci Hnr) as [Hok Hkr Hkw]. simpl in *.
    constructor; simpl; rewrite ?Hrop, ?Hwop; [intros Hf; destruct (Hopen Hf) as [? Hs]; by apply Hs, Hok| |];
      (eapply kept_mono; [done|]; intros Hf; by apply Hopen).
Qed.

Lemma sinv_step s s' : sinv s → sstep s s' → sinv s'.
Proof.
  intros Hi Hstep. destruct Hstep as
    [w w' l c size h e Hc E|w w' l c data h e Hc E|w w' l cb E|w w' l cb E|w w' l handler e E
    |w w' l handler r E].
  - by eapply sinv_recv.
  - by eapply sinv_send.
  - by eapply sinv_read_event.
  - by eapply sinv_write_event.
  - destruct Hi as (c & Hwi & Hci). pose proof Hwi as [Hwf Hc _ _ _ _]. simpl in Hwf, Hc.
    destruct (Close_run i handler 0 w c Hc Hwf) as (e1 & w1 & c' & E1 & Hcs & Hwf1 & Hcase).
    simplify_eq. eapply (sinv_closing w w' l _ (ex_intro _ c (conj Hwi Hci)) Hwf1).
    intros c1 Hc1. simplify_eq. split; [exact Hcs|].
    destruct (negb _ && negb _); [destruct (M_GET_BIT _ 2)|]; split_and!; try done;
      core_simpl; intros; split; try done. by apply sock_ok_close.
  - revert E. destruct Hi as (c & Hwi & Hci). pose proof Hwi as [Hwf Hc _ _ _ _]. simpl in Hwf, Hc.
    cbn [do_closes cls_impl cls_handler]. st.
    destruct (k_closesocket _ _) as [k' r'] eqn:Ek. st.
    intros E. eapply (sinv_closing w w' l (set_state (λ _, 0) (set_fd M_INVALID_SOCKET c))
      (ex_intro _ c (conj Hwi Hci))).
    + destruct handler; cbn in E; injection E as <- <-; by apply svc_wf_k.
    + intros c1 Hc1. simplify_eq. destruct handler; cbn in E; injection E as <- <-;
        split_and!; try done; by core_simpl.
Qed.

Lemma sinv_reach s s' : sinv s → rtc sstep s s' → sinv s'.
Proof. intros Hi Hr. induction Hr; eauto using sinv_step. Qed.

End socket.

(** A connected socket on which nothing was posted yet. *)
Definition fresh_socket {H} (c : core H) : Prop :=
  c_fd c ≠ M_INVALID_SOCKET ∧ op_type c = 0 ∧ op_rop c = rw_clear ∧ op_wop c = rw_clear ∧
  M_GET_BIT (c_state c) 7 = false ∧ M_GET_BIT (c_state c) 8 = false.

Lemma fresh_sock_ok {H} i (c : core H) : fresh_socket c → sock_ok i c.
Proof. intros (Hfd & Ht & Hr & Hw & H7 & H8). constructor; rewrite ?Ht, ?Hr, ?Hw; done. Qed.

Lemma fresh_sinv {K EP H} `{!Kernel K EP} i (w : World (K:=K) (H:=H)) c :
  svc_wf w → w_cores w !! i = Some c → fresh_socket c →
  sinv i (w, mkLog [] [] [] [] false).
Proof.
  intros Hwf Hc Hf. pose proof (fresh_sock_ok i _ Hf). destruct Hf as (_ & _ & Hr & Hw & _).
  exists c. split; [constructor|intros _; constructor]; simpl; rewrite ?Hr, ?Hw; try done.
  1, 2: by left.
  1, 2: exists []; simpl; split_and!; [done|lia|done].
Qed.

(** On an open socket whose posts were all accepted, a type bit means that the
    last handler posted is outstanding, and completing it calls that handler. *)
Lemma kept_outstanding {H} (open : Prop) (posted called : list H) o :
  kept open posted called o → open → (armed o = true ↔ posted ≠ called).
Proof.
  intros (lost & -> & _ & Hl) Hop. rewrite (Hl Hop), app_nil_r. unfold armed, pend.
  destruct (rw_handler o); split; try done.
  - intros _ E%(f_equal length). rewrite length_app in E. simpl in E. lia.
  - by rewrite app_nil_r.
Qed.

Lemma kept_next {H} (open : Prop) (posted called : list H) o h :
  kept open posted called o → open → rw_handler o = Some h → posted = called ++ [h].
Proof.
  intros (lost & -> & _ & Hl) Hop Hh. rewrite (Hl Hop), app_nil_r. unfold pend. by rewrite Hh.
Qed.

Lemma kept_prefix {H} (open : Prop) (posted called : list H) o :
  kept open posted called o → ∃ hs, posted = called ++ hs ∧ (length hs ≤ 1)%nat.
Proof. intros (lost & -> & ? & _). eauto. Qed.

(** C4: the proactor contract of a stream socket.  In every execution - posts that
    succeed or fail in any state, a second post over an outstanding one, a refused
    [fcntl] or [epoll_ctl], events of either kind at any moment, and the two halves
    of closing - a post does not fault, and the handlers called, followed by the
    one still armed, are a subsequence of the handlers whose post succeeded: no
    handler is called twice, out of order, or without its post having succeeded.
    As long as no post on the open socket was refused, the handlers called are a
    prefix of the posted ones that misses at most the last; and while the socket is
    open the type bit of a direction is set exactly when a handler is outstanding
    and an event for it completes without a fault and calls that handler.  (A
    refused post breaks this second half: [second_read_breaks_the_first],
    [failed_post_breaks_events].) *)
Theorem proactor_exactly_once {K EP H} `{!Kernel K EP} `{!KernelOk (K:=K) (EP:=EP)}
    (i : nat) (w0 w : World (K:=K) (H:=H)) (c0 : core H) (l : slog H) :
  svc_wf w0 → w_cores w0 !! i = Some c0 → fresh_socket c0 →
  rtc (sstep i) (w0, mkLog [] [] [] [] false) (w, l) →
  (∀ size h, is_Some (Access_AsyncRecvSome (Some i) size h 0 w)) ∧
  (∀ data h, is_Some (Access_AsyncSendSome (Some i) data h 0 w)) ∧
  ∃ c, w_cores w !! i = Some c ∧
    rd_called l ++ pend (op_rop c) `sublist_of` rd_posted l ∧
    wr_called l ++ pend (op_wop c) `sublist_of` wr_posted l ∧
    (refused l = false →
      (∃ hr, rd_posted l = rd_called l ++ hr ∧ (length hr ≤ 1)%nat) ∧
      (∃ hw, wr_posted l = wr_called l ++ hw ∧ (length hw ≤ 1)%nat) ∧
      (c_fd c ≠ M_INVALID_SOCKET →
        (has_bit (op_type c) E_READ_OP = true ↔ rd_posted l ≠ rd_called l) ∧
        (has_bit (op_type c) E_WRITE_OP = true ↔ wr_posted l ≠ wr_called l) ∧
        (has_bit (op_type c) E_READ_OP = true →
           ∃ h data tran e w', ReadOperation_Complete i w = Some (Some (CallRead h data tran e), w') ∧
                               rd_posted l = rd_called l ++ [h]) ∧
        (has_bit (op_type c) E_WRITE_OP = true →
           ∃ h tran e w', WriteOperation_Complete i w = Some (Some (CallWrite h tran e), w') ∧
                          wr_posted l = wr_called l ++ [h]))).
Proof.
  intros Hwf Hc0 Hf Hr.
  destruct (sinv_reach i _ _ (fresh_sinv i w0 c0 Hwf Hc0 Hf) Hr) as (c & [Hwf' Hc _ _ Hrd Hwr] & Hci).
  simpl in *. split_and!.
  { intros size h. destruct (AsyncRecvSome_any i size h w c Hc Hwf') as (? & ? & ? & -> & _). eauto. }
  { intros data h. destruct (AsyncSendSome_any i data h w c Hc Hwf') as (? & ? & ? & -> & _). eauto. }
  exists c. split_and!; [done..|]. intros Hnr. destruct (Hci Hnr) as [Hok Hkr Hkw]. simpl in *.
  split; [by eapply kept_prefix|]. split; [by eapply kept_prefix|]. intros Hfd. specialize (Hok Hfd).
  rewrite (so_rtype _ _ Hok), (so_wtype _ _ Hok).
  split; [by eapply kept_outstanding|]. split; [by eapply kept_outstanding|].
  split; intros [h Hh]%armed_handler.
  - destruct (ReadOperation_Complete_spec i w c h Hc Hwf' Hok Hfd Hh)
      as (d' & t' & e' & w1 & c' & E1 & _).
    exists h, d', t', e', w1. split; [done|]. by eapply kept_next.
  - destruct (WriteOperation_Complete_spec i w c h Hc Hwf' Hok Hfd Hh)
      as (t' & e' & w1 & c' & E1 & _).
    exists h, t', e', w1. split; [done|]. by eapply kept_next.
Qed.

(** ** The deferred close *)

Section doclose.
Context {K EP H : Type} `{!Kernel K EP}.
Abbreviation World := (World (K:=K) (H:=H)).
Implicit Types w : World.

(** Handlers that only leave a note in the kernel state. *)
Variable note : H → K → K.

Definition noting (cb : callback H) : ST World () :=
  match cb with
  | CallClose h =>
      modify (λ w, mkWorld (note h (w_k w)) (w_cores w) (w_ios w) (w_svc w))
  | _ => fault
  end.

(** What one round of closing does to the kernel: for each request, in order,
    the descriptor is closed and then the handler called. *)
Definition close_effect (cores : gmap nat (core H)) (k : K) (r : SocketClose H) : K :=
  let fd := match cls_impl r with
            | Some i => match cores !! i with Some c => c_fd c | None => M_INVALID_SOCKET end
            | None => M_INVALID_SOCKET
            end in
  let k := fst (k_closesocket k fd) in
  match cls_handler r with Some h => note h k | None => k end.

Definition closed_core (c : core H) : core H := set_state (λ _, 0) (set_fd M_INVALID_SOCKET c).

Lemma close_effect_insert cores k reqs i c :
  Forall (λ r, cls_impl r ≠ Some i) reqs →
  fold_left (close_effect (<[i := c]> cores)) reqs k = fold_left (close_effect cores) reqs k.
Proof.
  intros Hf. revert k. induction Hf as [|r reqs Hr _ IH]; intros k; [done|]. cbn [fold_left].
  rewrite IH. f_equal. unfold close_effect.
  destruct (cls_impl r) as [j|]; [|done]. rewrite lookup_insert_ne; [done|congruence].
Qed.

Lemma do_closes_run reqs w :
  NoDup (map cls_impl reqs) →
  Forall (λ r, ∃ i, cls_impl r = Some i ∧ is_Some (w_cores w !! i)) reqs →
  ∃ w', do_closes noting reqs w = Some (replicate (length reqs) (mkClose None None), w') ∧
    w_k w' = fold_left (close_effect (w_cores w)) reqs (w_k w) ∧
    w_ios w' = w_ios w ∧ w_svc w' = w_svc w ∧
    ∀ j, w_cores w' !! j = (if decide (Some j ∈ map cls_impl reqs) then closed_core <$> w_cores w !! j
                            else w_cores w !! j).
Proof.
  revert w. induction reqs as [|r reqs IH]; intros w Hnd Hall; [by exists w|].
  apply Forall_cons_1 in Hall as [(i & Hi & [c Hc]) Hall].
  cbn [map] in Hnd. apply NoDup_cons in Hnd as [Hni Hnd]. rewrite Hi in Hni.
  cbn [do_closes]. rewrite Hi. st.
  destruct (k_closesocket (w_k w) (c_fd c)) as [k1 r1] eqn:Ek. st.
  set (k2 := match cls_handler r with Some h => note h k1 | None => k1 end).
  set (w2 := mkWorld k2 (<[i := closed_core c]> (w_cores w)) (w_ios w) (w_svc w)).
  destruct (IH w2) as (w' & E & Hk & Hio & Hsv & Hco).
  { done. }
  { eapply Forall_impl; [exact Hall|]. intros r' (j & Hj & Hs). exists j. split; [done|].
    cbn [w2 w_cores]. destruct (decide (i = j)) as [->|].
    - rewrite lookup_insert_eq. eauto.
    - by rewrite lookup_insert_ne. }
  exists w'. split; [|split; [|split; [done|split; [done|]]]].
  - assert (∀ f : () → ST World (list (SocketClose H)),
      (match cls_handler r with Some h => noting (CallClose h) | None => mret tt end ≫= f)
        (mkWorld k1 (<[i:=closed_core c]> (w_cores w)) (w_ios w) (w_svc w)) = f tt w2) as Hrun.
    { intros f. unfold w2, k2. by destruct (cls_handler r). }
    change (set_state (λ _, 0) (set_fd M_INVALID_SOCKET c)) with (closed_core c).
    rewrite Hrun. rewrite (st_bind_some _ _ _ _ _ E). done.
  - rewrite Hk. cbn [fold_left w2 w_k w_cores]. rewrite close_effect_insert.
    + f_equal. unfold close_effect. by rewrite Hi, Hc, Ek.
    + rewrite Forall_forall. intros r' Hr' Hj. apply Hni. rewrite <- Hj.
      by apply list_elem_of_fmap_2.
  - intros j. rewrite Hco. cbn [map w2 w_cores]. rewrite Hi.
    destruct (decide (i = j)) as [->|Hne].
    + rewrite decide_False by done. rewrite lookup_insert_eq.
      rewrite decide_True by (by left). by rewrite Hc.
    + rewrite lookup_insert_ne by done.
      destruct (decide (Some j ∈ map cls_impl reqs)) as [Hin|Hin].
      * rewrite decide_True by (by right). done.
      * rewrite decide_False; [done|]. intros [?|?]%elem_of_cons; congruence.
Qed.
End doclose.

(** C27: the deferred close.  One round of [_DoClose] closes the descriptor of
    every queued request and calls its handler, each exactly once and in the order
    of the requests; afterwards the cores are closed, the queue is empty and the
    request objects are back in the pool. *)
Theorem DoClose_closes_each_once {K EP H} `{!Kernel K EP} (note : H → K → K) s
    (w : World (K:=K) (H:=H)) io :
  w_ios w !! s = Some io →
  NoDup (map cls_impl (io_closereqs io)) →
  Forall (λ r, ∃ i, cls_impl r = Some i ∧ is_Some (w_cores w !! i)) (io_closereqs io) →
  ∃ w', DoClose (noting note) s w = Some (tt, w') ∧
    w_k w' = fold_left (close_effect note (w_cores w)) (io_closereqs io) (w_k w) ∧
    (∀ i c, Some i ∈ map cls_impl (io_closereqs io) → w_cores w !! i = Some c →
       ∃ c', w_cores w' !! i = Some c' ∧ c_fd c' = M_INVALID_SOCKET ∧ c_state c' = 0) ∧
    (∃ io', w_ios w' !! s = Some io' ∧ io_closereqs io' = [] ∧
       length (io_closereqs2 io') = (length (io_closereqs2 io) + length (io_closereqs io))%nat).
Proof.
  intros Hs Hnd Hall. unfold DoClose. st.
  match goal with |- context [mbind _ (do_closes _ _) ?w0] =>
    destruct (do_closes_run note (io_closereqs io) w0 Hnd Hall) as (w' & E & Hk & Hio & Hsv & Hco)
  end.
  rewrite (st_bind_some _ _ _ _ _ E). cbn [w_ios w_k w_cores] in *.
  erewrite upd_io_run by (rewrite Hio; apply lookup_insert_eq).
  eexists. split; [reflexivity|]. cbn [w_k w_cores w_ios]. split; [done|]. split.
  - intros i c Hin Hc. rewrite Hco, decide_True, Hc by done. simpl. eauto.
  - rewrite lookup_insert_eq. eexists. split; [reflexivity|]. simpl.
    rewrite length_app, length_replicate. done.
Qed.

(** Posting a second read is not refused harmlessly.  [AsyncRecvSome]
    overwrites and then clears the operation that is already outstanding: it
    returns [M_ERR_POSTED_READ], but the read flag and the event registration stay,
    and the next read event dereferences a null [SocketImpl]. *)
Theorem second_read_breaks_the_first {K EP H} `{!Kernel K EP} i size h
    (w : World (K:=K) (H:=H)) (c : core H) :
  w_cores w !! i = Some c → sock_ok i c → c_fd c ≠ M_INVALID_SOCKET → armed (op_rop c) = true →
  ∃ w' c', Access_AsyncRecvSome (Some i) size h 0 w = Some (M_ERR_POSTED_READ, w') ∧
    w_cores w' !! i = Some c' ∧ has_bit (op_type c') E_READ_OP = true ∧ armed (op_rop c') = false ∧
    ReadOperation_Complete i w' = None.
Proof.
  intros Hc [Hr _ Hrt _ _ _ _] Hfd Ha. unfold Access_AsyncRecvSome. st.
  rewrite (proj2 (Z.eqb_neq _ _) Hfd), Hr, Ha. st.
  eexists _, _. split; [reflexivity|]. cbn [w_cores]. rewrite lookup_insert_eq.
  split; [reflexivity|]. core_simpl. split; [by rewrite Hrt|]. split; [done|].
  unfold ReadOperation_Complete. st. done.
Qed.

(** Closing a socket that was never registered drops its close handler.  A
    socket still in blocking mode (no asynchronous operation was posted on it) is
    closed at once and no loop receives the request, so the handler is never
    called. *)
Theorem close_before_io_drops_the_handler {K EP H} `{!Kernel K EP} i (h : H)
    (w : World (K:=K) (H:=H)) (c : core H) :
  w_cores w !! i = Some c → c_fd c ≠ M_INVALID_SOCKET →
  M_GET_BIT (c_state c) 9 = false → M_GET_BIT (c_state c) 2 = true → c_epoll c = -1 →
  implmap (w_svc w) !! (-1) = None →
  ∃ e w' c', IoAccess_Close (Some i) (Some h) 0 w = Some (e, w') ∧
    w_ios w' = w_ios w ∧ w_cores w' !! i = Some c' ∧ c_fd c' = M_INVALID_SOCKET.
Proof.
  intros Hc Hfd H9 H2 He Hm. unfold IoAccess_Close, GetIoServiceImpl, M_DEFAULT_SOCKET_ERROR. st.
  rewrite (proj2 (Z.eqb_neq _ _) Hfd), H9. st. rewrite He. cbn [Z.eqb]. st. rewrite Hm. st.
  rewrite H2. st. destruct (k_closesocket _ _) as [k' r]. st.
  destruct (r =? M_SOCKET_ERROR); st; eexists _, _, _; (split; [reflexivity|]); cbn [w_ios w_cores];
    rewrite lookup_insert_eq; done.
Qed.

(** ** A concrete kernel *)

(** It accepts everything, every receive gives one byte, and its state is the
    list of the descriptors closed and the notes left. *)
#[local] Instance demo_kernel : Kernel (list Z) () := {|
  k_errno _ := 0; k_setlasterr k _ := k; k_getfl _ _ := 2; k_setfl k _ _ := (k, 0);
  k_epoll_create k := (k, 9); k_epoll_ctl k _ _ _ _ _ := (k, 0); k_epoll_wait k _ := (k, (0, []));
  k_socket k _ _ _ := (k, 8); k_closesocket k fd := (k ++ [fd], 0); k_shutdown k _ _ := (k, 0);
  k_connect k _ _ := (k, 0); k_accept k _ := (k, 7); k_send k _ d := (k, Z.of_nat (length d));
  k_recv k _ _ := (k, (1, [x61])); k_bind k _ _ := (k, 0); k_listen k _ _ := (k, 0);
  k_so_error k _ := (k, Some 0); k_select k _ _ _ := (k, 1); ep_valid _ := true
|}.

#[local] Instance demo_kernel_ok : KernelOk (K:=list Z) (EP:=()).
Proof. constructor. intros k fd v k' r [= <- <-]. done. Qed.

(** One connected socket (descriptor 5, handlers are numbers) and one loop. *)
Definition demo_core : core Z := mkCore (-1) 5 4 0 acpt_clear conn_clear rw_clear rw_clear.
Definition demo_world : World (K:=list Z) (H:=Z) :=
  mkWorld [] {[ 0%nat := demo_core ]} {[ 0%nat := mkIo true 3 0 [] [] 0 ]}
    (mkService [0%nat] {[ 3 := 0%nat ]} 0 1).

Lemma demo_wf : svc_wf demo_world.
Proof.
  constructor; cbn [demo_world w_svc w_ios implvector implmap].
  - repeat constructor. by eexists.
  - intros m s. rewrite lookup_singleton_Some. intros [<- <-]. by eexists.
  - done.
Qed.

Lemma demo_fresh : fresh_socket demo_core.
Proof. by split_and!. Qed.

(** The world after a sequence of posts. *)
Definition run_world {A} (m : ST (World (K:=list Z) (H:=Z)) A) w :=
  match m w with Some (_, w') => w' | None => w end.
Definition demo_posted := run_world (Access_AsyncRecvSome (Some 0%nat) 4096 100 0) demo_world.

Lemma proactor_exactly_once_witness :
  ∃ h data tran e w', ReadOperation_Complete 0 demo_posted
    = Some (Some (CallRead h data tran e), w') ∧ h = 100.
Proof.
  assert (rtc (sstep 0) (demo_world, mkLog [] [] [] [] false)
            (demo_posted, mkLog [100] [] [] [] false)) as Hr.
  { eapply rtc_once.
    apply (s_recv 0 demo_world demo_posted (mkLog [] [] [] [] false) demo_core 4096 100 0);
      [reflexivity|]. vm_compute. reflexivity. }
  destruct (proactor_exactly_once 0 demo_world demo_posted demo_core _ demo_wf
              eq_refl demo_fresh Hr) as (_ & _ & c & Hc & _ & _ & Hev).
  destruct (Hev eq_refl) as (_ & _ & Hopen). vm_compute in Hc. injection Hc as <-.
  destruct Hopen as (_ & _ & Hrd & _); [done|].
  destruct Hrd as (h & data & tran & e & w' & E & Hp); [done|].
  exists h, data, tran, e, w'. split; [exact E|]. simpl in Hp. congruence.
Defined.

Definition demo_closing := run_world (IoAccess_Close (Some 0%nat) (Some 200) 0) demo_posted.

Lemma DoClose_closes_each_once_witness :
  ∃ w', DoClose (noting (λ h k, k ++ [h])) 0 demo_closing = Some (tt, w') ∧ w_k w' = [5; 200].
Proof.
  destruct (w_ios demo_closing !! 0%nat) as [io|] eqn:Hio; [|by vm_compute in Hio].
  pose proof Hio as Hio'. vm_compute in Hio'. injection Hio' as Hio'.
  destruct (DoClose_closes_each_once (λ h k, k ++ [h]) 0 demo_closing io Hio)
    as (w' & E & Hk & _).
  - rewrite <- Hio'. cbn. repeat constructor. by intros ?%elem_of_nil.
  - rewrite <- Hio'. repeat constructor. eexists. split; [reflexivity|]. by eexists.
  - exists w'. split; [exact E|]. rewrite Hk, <- Hio'. vm_compute. reflexivity.
Defined.

Lemma second_read_breaks_the_first_witness :
  ∃ w', Access_AsyncRecvSome (Some 0%nat) 4096 101 0 demo_posted = Some (M_ERR_POSTED_READ, w') ∧
        ReadOperation_Complete 0 w' = None.
Proof.
  destruct (w_cores demo_posted !! 0%nat) as [c|] eqn:Hc; [|by vm_compute in Hc].
  pose proof Hc as Hc'. vm_compute in Hc'. injection Hc' as Hc'.
  destruct (second_read_breaks_the_first 0 4096 101 demo_posted c Hc)
    as (w' & c' & E & _ & _ & _ & Hn); [by rewrite <- Hc'; constructor|by rewrite <- Hc'..|].
  exists w'. split; [exact E|exact Hn].
Defined.

Lemma close_before_io_drops_the_handler_witness :
  ∃ e w', IoAccess_Close (Some 0%nat) (Some 200) 0 demo_world = Some (e, w') ∧
          w_ios w' = w_ios demo_world.
Proof.
  destruct (close_before_io_drops_the_handler 0 200 demo_world demo_core)
    as (e & w' & _ & E & Hio & _); [done..|].
  exists e, w'. split; [exact E|exact Hio].
Defined.
