(* ===== verification/Conn.v ===== *)
(** * One connection: reading, closing and the order of its callbacks

    The reading side of [TcpStreamSocket] ([tsocket_impl.hpp]), [TcpSocket::Init]
    ([netio.hpp]) and [TcpConnector::_ConnectHandler] ([tcp_connector.cpp]), and
    the connection as a whole: the writer of [TcpSocket], the read loop, and an
    asynchronous socket [aio] that abstracts the core of [Epoll] ([aio_of];
    [aio_*_refines] are the simulation lemmas).

    [cstep isco] is one connection with its loop.  The callbacks it makes are
    logged; [isco] says whether handlers run in coroutines, where a handler that
    waits lets the loop go on.  The loops of the service share the sockets out among them, so
    the close of a connection can run while [OnConnected] of the same connection still does:
    [disconnect_during_OnConnected]. *)

From Stdlib Require Import ZArith Lia List Strings.Byte Init.Byte.
From stdpp Require Import base numbers list option gmap relations.
From S2P Require Import Prelude Buffer Frame TcpSocket Epoll EpollSpec.

(** ** The read handler *)

Section read.
Context `{Malloc} `{!NetHandler St}.

(** [_TryRecvData()] *)
Definition TryRecvData (recv_err : bool) (s : BaseSocket) : BaseSocket * list sock_act :=
  if recv_err then
    let (s, acts) := TcpBaseSocket_Close s in (s, ActRecvSome :: acts)
  else (s, [ActRecvSome]).

(** [_ReadHandler(tran_byte, error)]; [readbuf] is what the kernel stored. *)
Definition ReadHandler (recv_err : bool) (st : St) (s : BaseSocket) (r : reader)
    (readbuf : list byte) (tran_byte : Z) (error : bool)
  : option (St * BaseSocket * reader * list sock_act) :=
  if error || (tran_byte <=? 0) || negb (TcpBaseSocket_IsConnected s) then
    let (s, acts) := TcpBaseSocket_Close s in Some (st, s, r, acts)
  else
    '(ok, st, r) ← CutMsgPack (S (Z.to_nat tran_byte)) st r readbuf tran_byte;
    if ok : bool then
      let (s, acts) := TryRecvData recv_err s in Some (st, s, r, acts)
    else
      let (s, acts) := TcpBaseSocket_Close s in
      Some (st, s, r, ActShutdown E_Shutdown_RD :: acts).
End read.

(** ** The abstract asynchronous socket *)

Record aio := mkAio {
  a_open : bool;      (** the descriptor is valid *)
  a_closing : bool;   (** a close request is queued *)
  a_reg : bool;       (** non-blocking, known to a loop *)
  a_rd : bool;        (** a read is outstanding *)
  a_wr : bool         (** a write is outstanding *)
}.

Definition set_rd (b : bool) (a : aio) : aio := mkAio (a_open a) (a_closing a) (a_reg a) b (a_wr a).
Definition set_wr (b : bool) (a : aio) : aio := mkAio (a_open a) (a_closing a) (a_reg a) (a_rd a) b.

(** Posting a read or a write: refused on a closed descriptor; refused when one is
    outstanding, which is then forgotten; otherwise the kernel may fail. *)
Inductive aio_recv : aio → bool → aio → Prop :=
| recv_closed a : a_open a = false → aio_recv a false (set_rd false a)
| recv_ok a : a_open a = true → a_rd a = false →
    aio_recv a true (mkAio true (a_closing a) true true (a_wr a))
| recv_fail a reg : a_open a = true → a_rd a = false → (a_reg a = true → reg = true) →
    aio_recv a false (mkAio true (a_closing a) reg false (a_wr a))
| recv_busy a : a_open a = true → a_rd a = true → aio_recv a false (set_rd false a).

Inductive aio_send : aio → bool → aio → Prop :=
| send_closed a : a_open a = false → aio_send a false (set_wr false a)
| send_ok a : a_open a = true → a_wr a = false →
    aio_send a true (mkAio true (a_closing a) true (a_rd a) true)
| send_fail a reg : a_open a = true → a_wr a = false → (a_reg a = true → reg = true) →
    aio_send a false (mkAio true (a_closing a) reg (a_rd a) false)
| send_busy a : a_open a = true → a_wr a = true → aio_send a false (set_wr false a).

(** [Close]: queued when a loop knows the socket, immediate otherwise. *)
Definition aio_close (a : aio) : aio :=
  if a_open a && negb (a_closing a) then
    if a_reg a then mkAio true true true (a_rd a) (a_wr a)
    else mkAio false false false (a_rd a) (a_wr a)
  else a.

(** The abstraction of a core of [Epoll]. *)
Definition aio_of {H} (c : core H) : aio :=
  mkAio (negb (c_fd c =? M_INVALID_SOCKET)) (M_GET_BIT (c_state c) 9)
    (negb (c_fd c =? M_INVALID_SOCKET) && negb (M_GET_BIT (c_state c) 2)) (armed (op_rop c)) (armed (op_wop c)).

Section refines.
Context {K EP H : Type} `{!Kernel K EP} `{!KernelOk (K:=K) (EP:=EP)}.
Abbreviation World := (World (K:=K) (H:=H)).
Implicit Types w : World.

Lemma aio_of_open (c : core H) : c_fd c ≠ M_INVALID_SOCKET →
  aio_of c = mkAio true (M_GET_BIT (c_state c) 9) (negb (M_GET_BIT (c_state c) 2))
               (armed (op_rop c)) (armed (op_wop c)).
Proof. intros Hfd. unfold aio_of. by rewrite (proj2 (Z.eqb_neq _ _) Hfd). Qed.

Lemma aio_of_closed (c : core H) : c_fd c = M_INVALID_SOCKET →
  aio_of c = mkAio false (M_GET_BIT (c_state c) 9) false (armed (op_rop c)) (armed (op_wop c)).
Proof. intros Hfd. unfold aio_of. by rewrite Hfd. Qed.

Lemma aio_recv_refines i size h w c :
  w_cores w !! i = Some c → svc_wf w → sock_ok i c → c_fd c ≠ M_INVALID_SOCKET →
  ∃ e w' c', Access_AsyncRecvSome (Some i) size h 0 w = Some (e, w') ∧
    w_cores w' !! i = Some c' ∧ aio_recv (aio_of c) (e =? 0) (aio_of c') ∧
    (e = 0 → op_rop c' = mkRw (Some h) (Some i) [] size).
Proof.
  intros Hc Hwf Hok Hfd. rewrite (aio_of_open _ Hfd) in *. destruct (armed (op_rop c)) eqn:Hrd.
  - unfold Access_AsyncRecvSome. st. rewrite (proj2 (Z.eqb_neq _ _) Hfd), (so_read _ _ Hok), Hrd. st.
    eexists _, _, _. split; [reflexivity|]. cbn [w_cores]. rewrite lookup_insert_eq.
    split; [reflexivity|]. split; [|done]. rewrite aio_of_open by done.
    apply (recv_busy (mkAio true _ _ true _)); done.
  - destruct (AsyncRecvSome_spec i size h w c Hc Hwf Hok Hfd Hrd)
      as (e & w' & c' & E & Hcs & _ & Hfd' & H9 & Hwop & H2 & Hgood & Hbad).
    exists e, w', c'. rewrite Hcs, lookup_insert_eq. split; [done|]. split; [done|].
    split; [|intros He; by destruct (Hgood He) as (_ & ? & _)].
    rewrite (aio_of_open c') by (by rewrite Hfd'). rewrite H9, Hwop.
    destruct (Z.eqb_spec e 0) as [He|He].
    + destruct (Hgood He) as (_ & Hrop & Hnb & _). rewrite Hrop, Hnb.
      by apply (recv_ok (mkAio true _ _ false _)).
    + rewrite (Hbad He). apply (recv_fail (mkAio true _ _ false _)); [done|done|].
      cbn [a_reg]. intros Hb%negb_true_iff. by rewrite (H2 Hb).
Qed.

Lemma aio_send_refines i data h w c :
  w_cores w !! i = Some c → svc_wf w → sock_ok i c → c_fd c ≠ M_INVALID_SOCKET →
  ∃ e w' c', Access_AsyncSendSome (Some i) data h 0 w = Some (e, w') ∧
    w_cores w' !! i = Some c' ∧ aio_send (aio_of c) (e =? 0) (aio_of c') ∧
    (e = 0 → op_wop c' = mkRw (Some h) (Some i) data (Z.of_nat (length data))).
Proof.
  intros Hc Hwf Hok Hfd. rewrite (aio_of_open _ Hfd) in *. destruct (armed (op_wop c)) eqn:Hrd.
  - unfold Access_AsyncSendSome. st. rewrite (proj2 (Z.eqb_neq _ _) Hfd), (so_write _ _ Hok), Hrd. st.
    eexists _, _, _. split; [reflexivity|]. cbn [w_cores]. rewrite lookup_insert_eq.
    split; [reflexivity|]. split; [|done]. rewrite aio_of_open by done.
    apply (send_busy (mkAio true _ _ _ true)); done.
  - destruct (AsyncSendSome_spec i data h w c Hc Hwf Hok Hfd Hrd)
      as (e & w' & c' & E & Hcs & _ & Hfd' & H9 & Hrop & H2 & Hgood & Hbad).
    exists e, w', c'. rewrite Hcs, lookup_insert_eq. split; [done|]. split; [done|].
    split; [|intros He; by destruct (Hgood He) as (_ & ? & _)].
    rewrite (aio_of_open c') by (by rewrite Hfd'). rewrite H9, Hrop.
    destruct (Z.eqb_spec e 0) as [He|He].
    + destruct (Hgood He) as (_ & Hwop & Hnb & _). rewrite Hwop, Hnb.
      by apply (send_ok (mkAio true _ _ _ false)).
    + rewrite (Hbad He). apply (send_fail (mkAio true _ _ _ false)); [done|done|].
      cbn [a_reg]. intros Hb%negb_true_iff. by rewrite (H2 Hb).
Qed.

(** A post on a closed descriptor. *)
Lemma aio_posts_closed i size data h w c :
  w_cores w !! i = Some c → c_fd c = M_INVALID_SOCKET →
  (∃ w' c', Access_AsyncRecvSome (Some i) size h 0 w = Some (M_ERR_BAD_DESCRIPTOR, w') ∧
     w_cores w' !! i = Some c' ∧ aio_recv (aio_of c) false (aio_of c')) ∧
  (∃ w' c', Access_AsyncSendSome (Some i) data h 0 w = Some (M_ERR_BAD_DESCRIPTOR, w') ∧
     w_cores w' !! i = Some c' ∧ aio_send (aio_of c) false (aio_of c')).
Proof.
  intros Hc Hfd. unfold Access_AsyncRecvSome, Access_AsyncSendSome.
  split; st; rewrite Hfd; cbn [Z.eqb M_INVALID_SOCKET Pos.eqb]; st; eexists _, _;
    (split; [reflexivity|]); cbn [w_cores]; rewrite lookup_insert_eq; (split; [reflexivity|]);
    rewrite !aio_of_closed by done; core_simpl.
  - by apply (recv_closed (mkAio false _ _ _ _)).
  - by apply (send_closed (mkAio false _ _ _ _)).
Qed.

Lemma aio_close_refines i handler w c :
  w_cores w !! i = Some c → svc_wf w →
  ∃ e w' c', IoAccess_Close (Some i) handler 0 w = Some (e, w') ∧
    w_cores w' !! i = Some c' ∧ aio_of c' = aio_close (aio_of c).
Proof.
  intros Hc Hwf. destruct (Close_run i handler 0 w c Hc Hwf) as (e & w' & c' & E & Hcs & _ & Hcase).
  exists e, w', c'. rewrite Hcs, lookup_insert_eq. split; [done|]. split; [done|]. rewrite Hcase.
  destruct (decide (c_fd c = M_INVALID_SOCKET)) as [Hfd|Hfd].
  - rewrite Hfd. cbn [Z.eqb M_INVALID_SOCKET Pos.eqb negb andb]. by rewrite !aio_of_closed by done.
  - rewrite (aio_of_open _ Hfd), (proj2 (Z.eqb_neq _ _) Hfd). unfold aio_close.
    cbn [negb andb a_open a_closing a_reg a_rd a_wr].
    destruct (M_GET_BIT (c_state c) 9) eqn:E9; cbn [negb]; [by rewrite aio_of_open, E9|].
    destruct (M_GET_BIT (c_state c) 2) eqn:E2; cbn [negb].
    + by rewrite aio_of_closed.
    + rewrite aio_of_open by done. core_simpl. bits. by rewrite E2.
Qed.
End refines.

Section events.
Context {K EP H : Type} `{!Kernel K EP}.
Abbreviation World := (World (K:=K) (H:=H)).
Implicit Types w : World.

Lemma aio_events i w c :
  w_cores w !! i = Some c → svc_wf w → sock_ok i c → c_fd c ≠ M_INVALID_SOCKET →
  (a_rd (aio_of c) = true →
     ∃ h data tran e w' c', ReadOperation_Complete i w = Some (Some (CallRead h data tran e), w') ∧
       rw_handler (op_rop c) = Some h ∧
       w_cores w' !! i = Some c' ∧ aio_of c' = set_rd false (aio_of c)) ∧
  (a_wr (aio_of c) = true →
     ∃ h tran e w' c', WriteOperation_Complete i w = Some (Some (CallWrite h tran e), w') ∧
       rw_handler (op_wop c) = Some h ∧
       w_cores w' !! i = Some c' ∧ aio_of c' = set_wr false (aio_of c)).
Proof.
  intros Hc Hwf Hok Hfd. rewrite (aio_of_open _ Hfd). cbn [a_rd a_wr]. split; intros Ha.
  - destruct (armed_handler _ Ha) as [h Hh].
    destruct (ReadOperation_Complete_spec i w c h Hc Hwf Hok Hfd Hh)
      as (d & t & e & w1 & c' & E & Hcs & _ & Hfd' & H9 & H2 & Hwop & Hrop & _).
    exists h, d, t, e, w1, c'. rewrite Hcs, lookup_insert_eq. split; [done|]. split; [done|]. split; [done|].
    rewrite aio_of_open by (by rewrite Hfd'). by rewrite H9, H2, Hwop, Hrop.
  - destruct (armed_handler _ Ha) as [h Hh].
    destruct (WriteOperation_Complete_spec i w c h Hc Hwf Hok Hfd Hh)
      as (t & e & w1 & c' & E & Hcs & _ & Hfd' & H9 & H2 & Hrop & Hwop & _).
    exists h, t, e, w1, c'. rewrite Hcs, lookup_insert_eq. split; [done|]. split; [done|]. split; [done|].
    rewrite aio_of_open by (by rewrite Hfd'). by rewrite H9, H2, Hwop, Hrop.
Qed.
End events.

(** ** The connection and its loop *)

Inductive cevent := EvConnected | EvReceive | EvDisconnected.
#[export] Instance cevent_eq_dec : EqDecision cevent.
Proof. solve_decision. Defined.

(** Where the thread of the connection is: in [OnConnected] (before the first
    read is posted), in the loop, or inside [_ReadHandler]. *)
Inductive cphase := PInit | PIdle | PRead.
#[export] Instance cphase_eq_dec : EqDecision cphase.
Proof. solve_decision. Defined.

Record conn := mkConn' {
  cn_sock : BaseSocket; cn_aio : aio; cn_phase : cphase; cn_log : list cevent
}.

(** Carrying out a call on the socket; [err] is whether posting fails. *)
Inductive do_act (err : bool) : sock_act → aio → aio → Prop :=
| da_send d a a' : aio_send a (negb err) a' → do_act err (ActSendSome d) a a'
| da_recv a a' : aio_recv a (negb err) a' → do_act err ActRecvSome a a'
| da_shutdown what a : do_act err (ActShutdown what) a a
| da_close a : do_act err ActClose a (aio_close a).

Inductive do_acts (err : bool) : list sock_act → aio → aio → Prop :=
| das_nil a : do_acts err [] a a
| das_cons x xs a1 a2 a3 : do_act err x a1 a2 → do_acts err xs a2 a3 → do_acts err (x :: xs) a1 a3.

Section conn.
Context `{Malloc}.

(** [isco]: handlers run in coroutines, so the loop may close sockets while a
    handler of the connection is suspended.  Otherwise its close waits for
    [_ReadHandler], which the same thread runs; it does not wait for [OnConnected],
    which runs in the acceptor's thread while the socket may belong to another
    loop ([CtlEpoll] binds sockets to the loops in turn). *)
Inductive cstep (isco : bool) : conn → conn → Prop :=
| c_send s a ph log err now data len ok s' acts a' :
    (** any thread calls [Send] *)
    TcpBaseSocket_Send err now s data len = Some (ok, s', acts) → do_acts err acts a a' →
    cstep isco (mkConn' s a ph log) (mkConn' s' a' ph log)
| c_send_buffer s a ph log err b ok s' acts a' :
    TcpBaseSocket_SendBuffer err s b = Some (ok, s', acts) → do_acts err acts a a' →
    cstep isco (mkConn' s a ph log) (mkConn' s' a' ph log)
| c_close s a ph log s' acts a' :
    (** any thread calls [Close] *)
    TcpBaseSocket_Close s = (s', acts) → do_acts false acts a a' →
    cstep isco (mkConn' s a ph log) (mkConn' s' a' ph log)
| c_write s a ph log err n error s' acts a' :
    (** a write event *)
    a_open a = true → a_wr a = true →
    WriteHandler err s n error = (s', acts) → do_acts err acts (set_wr false a) a' →
    cstep isco (mkConn' s a ph log) (mkConn' s' a' ph log)
| c_read_close s a log s' acts a' :
    (** a read event with an error, an end of file, or after [Close] *)
    a_open a = true → a_rd a = true →
    TcpBaseSocket_Close s = (s', acts) → do_acts false acts (set_rd false a) a' →
    cstep isco (mkConn' s a PIdle log) (mkConn' s' a' PIdle log)
| c_read s a log :
    (** a read event with data: [_CutMsgPack] starts *)
    a_open a = true → a_rd a = true → TcpBaseSocket_IsConnected s = true →
    cstep isco (mkConn' s a PIdle log) (mkConn' s (set_rd false a) PRead log)
| c_receive s a log :
    (** it delivers a packet *)
    cstep isco (mkConn' s a PRead log) (mkConn' s a PRead (log ++ [EvReceive]))
| c_again s a ph log err s' acts a' :
    (** it accepts the chunk, or [OnConnected] returns: [_TryRecvData] *)
    ph ≠ PIdle → TryRecvData err s = (s', acts) → do_acts err acts a a' →
    cstep isco (mkConn' s a ph log) (mkConn' s' a' PIdle log)
| c_refuse s a log s' acts a' :
    (** it refuses the chunk *)
    TcpBaseSocket_Close s = (s', acts) → do_acts false acts a a' →
    cstep isco (mkConn' s a PRead log) (mkConn' s' a' PIdle log)
| c_doclose s a ph log :
    (** the loop closes the descriptor and calls [_CloseHandler] *)
    a_open a = true → a_closing a = true → (isco = false → ph ≠ PRead) →
    cstep isco (mkConn' s a ph log)
      (mkConn' s (mkAio false false false (a_rd a) (a_wr a)) ph (log ++ [EvDisconnected])).

(** [Init] of an accepted socket: [OnConnected] is called first. *)
Definition conn_init : conn :=
  mkConn' (mkSocket E_STATE_START false Buffer_new Buffer_new)
    (mkAio true false false false false) PInit [EvConnected].
End conn.

(** ** The invariant of a connection *)

(** What the flag, the writing bit and the asynchronous socket agree on. *)
Record cinv1 (s : BaseSocket) (a : aio) : Prop := {
  ci_start : _flag s = E_STATE_START → a_open a = true ∧ a_closing a = false;
  ci_closing : a_closing a = true → a_open a = true ∧ _flag s = E_STATE_CLOSE;
  ci_closed : _flag s = E_STATE_CLOSE → a_open a = true → a_closing a = true;
  ci_idle : _flag s = E_STATE_CLOSE → writing s = false;
  ci_write : a_open a = true → a_wr a = writing s;
  ci_shut : a_open a = false → _flag s = E_STATE_CLOSE
}.

(** The reads a connection has outstanding, and whether it was ever known to a
    loop. *)
Definition same_side (a a' : aio) : Prop :=
  a_rd a' = a_rd a ∧ (a_open a' = true → a_open a = true) ∧
  (a_open a' = true → a_reg a = true → a_reg a' = true) ∧
  (a_open a = true → a_open a' = false → a_reg a = false).

Section inv.
Context `{Malloc}.

Lemma same_side_refl a : same_side a a.
Proof. unfold same_side. split_and!; auto; congruence. Qed.

Lemma same_side_trans a b c : same_side a b → same_side b c → same_side a c.
Proof.
  unfold same_side. intros (?&Ho&Hr&Hc) (?&Ho'&Hr'&Hc').
  split; [congruence|]. split; [auto|]. split; [auto|].
  intros Ha Hcl. destruct (a_open b) eqn:Hb; [|by apply Hc].
  destruct (a_reg a) eqn:Ea; [|done]. rewrite Hc' in Hr by done. by specialize (Hr eq_refl eq_refl).
Qed.

Lemma cinv1_close s a s' acts err a' :
  cinv1 s a → TcpBaseSocket_Close_ s = (s', acts) → do_acts err acts a a' →
  cinv1 s' a' ∧ same_side a a' ∧ _flag s' ≠ E_STATE_START.
Proof.
  intros [Hst Hcg Hcl Hid Hwr Hsh]. unfold TcpBaseSocket_Close_.
  destruct (decide (_flag s = E_STATE_CLOSE)) as [Hc|Hc].
  - intros [= <- <-] Hd. inversion Hd; subst. rewrite Hc.
    split; [by constructor|]. split; [apply same_side_refl|done].
  - assert (a_open a = true) as Ho.
    { destruct (a_open a) eqn:E; [done|]. by rewrite Hsh in Hc. }
    assert (a_closing a = false) as Hncl.
    { destruct (a_closing a) eqn:E; [|done]. by destruct (Hcg eq_refl). }
    specialize (Hwr Ho).
    destruct (writing s) eqn:Hw; intros [= <- <-] Hd; inversion Hd as [|x xs a1 a2 a3 Hx Hxs]; subst.
    + split; [|split; [apply same_side_refl|done]]. constructor; simpl; congruence.
    + inversion Hx; subst. inversion Hxs; subst.
      unfold aio_close. rewrite Ho, Hncl. cbn [negb andb].
      destruct (a_reg a) eqn:Hr; (split; [|split; [unfold same_side; simpl; rewrite ?Hr; auto|done]]);
        constructor; simpl; intros; split_and?; congruence.
Qed.

Lemma cinv1_send s a d err a' :
  cinv1 s a → writing s = false → _flag s ≠ E_STATE_CLOSE → do_act err (ActSendSome d) a a' →
  ∀ mb1 mb2, cinv1 (mkSocket (_flag s) (negb err) mb1 mb2) a' ∧ same_side a a'.
Proof.
  intros [Hst Hcg Hcl Hid Hwr Hsh] Hw Hnc Hd mb1 mb2.
  assert (a_open a = true) as Ho.
  { destruct (a_open a) eqn:E; [done|]. by rewrite Hsh in Hnc. }
  inversion Hd as [d' x x' Hs| | |]; subst. inversion Hs; subst; [congruence|..|by rewrite (Hwr Ho), Hw in *]; rewrite Ho in *.
  - replace err with false by (by destruct err).
    split; [|unfold same_side; simpl; rewrite ?Ho; split_and!; auto; congruence].
    constructor; simpl; try done; intros; try (by apply Hst); try (by apply Hcg); try (by apply Hcl); congruence.
  - replace err with true by (by destruct err).
    split; [|unfold same_side; simpl; rewrite ?Ho; split_and!; auto; congruence].
    constructor; simpl; try done; intros; try (by apply Hst); try (by apply Hcg); try (by apply Hcl); congruence.
Qed.

Lemma do_acts_cons_inv err x xs a a' :
  do_acts err (x :: xs) a a' → ∃ a1, do_act err x a a1 ∧ do_acts err xs a1 a'.
Proof. inversion 1; eauto. Qed.

Lemma do_acts_nil_inv err a a' : do_acts err [] a a' → a' = a.
Proof. by inversion 1. Qed.

Lemma cinv1_buffers s a mb1 mb2 :
  cinv1 s a → cinv1 (mkSocket (_flag s) (writing s) mb1 mb2) a.
Proof. intros []. by constructor. Qed.

(** [_TrySendData] on a socket that is not closed. *)
Lemma cinv1_try err s a ok s' acts a' :
  cinv1 s a → _flag s ≠ E_STATE_CLOSE → TrySendData err s = (ok, s', acts) →
  do_acts err acts a a' → cinv1 s' a' ∧ same_side a a'.
Proof.
  intros Hi Hnc E Hd. unfold TrySendData in E. destruct (writing s) eqn:Hw.
  { simplify_eq. apply do_acts_nil_inv in Hd as ->. split; [done|apply same_side_refl]. }
  match type of E with
  | (let '(_, _) := ?m in _) = _ => destruct m as [mb1 mb2]
  end.
  destruct (_ >? 0).
  - destruct err.
    + destruct (TcpBaseSocket_Close_ _) as [s1 acts1] eqn:Ec. simplify_eq.
      apply do_acts_cons_inv in Hd as (a1 & Hd1 & Hd2).
      destruct (cinv1_send s a _ true a1 Hi Hw Hnc Hd1 mb1 mb2) as [Hi1 Hs1].
      destruct (cinv1_close _ _ _ _ _ _ Hi1 Ec Hd2) as (Hi2 & Hs2 & _).
      split; [done|]. exact (same_side_trans _ _ _ Hs1 Hs2).
    + simplify_eq. apply do_acts_cons_inv in Hd as (a1 & Hd1 & ->%do_acts_nil_inv).
      exact (cinv1_send s a _ false a1 Hi Hw Hnc Hd1 mb1 mb2).
  - simplify_eq. apply do_acts_nil_inv in Hd as ->. split; [|apply same_side_refl].
    rewrite <- Hw. by apply cinv1_buffers.
Qed.

Lemma cinv1_Send err s a now data len ok s' acts a' :
  cinv1 s a → TcpBaseSocket_Send err now s data len = Some (ok, s', acts) →
  do_acts err acts a a' → cinv1 s' a' ∧ same_side a a'.
Proof.
  intros Hi E Hd.
  assert ((s', acts) = (s, []) ∨ ∃ ok mb2, _flag s ≠ E_STATE_CLOSE ∧
     TrySendData err (mkSocket (_flag s) (writing s) (msgbuffer1 s) mb2) = (ok, s', acts))
    as [? | (ok' & mb2 & Hnc & Et)].
  { revert E. unfold TcpBaseSocket_Send.
    destruct (_ <=? 0); [intros; simplify_eq; by left|].
    destruct (_ >? M_SOCKET_PACK_SIZE); [intros; simplify_eq; by left|].
    destruct (decide _) as [|Hf]; [intros; simplify_eq; by left|]. apply dec_stable in Hf.
    destruct (_ >? E_MAX_BUFFER_SIZE); [intros; simplify_eq; by left|].
    destruct (Buffer_Write _ _ hdrlen) as [b1|]; [|done]. cbn [mbind option_bind].
    destruct (Buffer_Write b1 _ _) as [b2|]; [|done]. cbn [mbind option_bind].
    destruct (TrySendData _ _) as [[ok' s1] acts1] eqn:Et. intros. simplify_eq.
    right. exists ok', b2. rewrite Hf. by rewrite Hf in Et. }
  - simplify_eq. apply do_acts_nil_inv in Hd as ->. split; [done|apply same_side_refl].
  - refine (cinv1_try err (mkSocket (_flag s) (writing s) (msgbuffer1 s) mb2) a ok' s' acts a' _ Hnc Et Hd). by apply cinv1_buffers.
Qed.

Lemma cinv1_SendBuffer err s a b ok s' acts a' :
  cinv1 s a → TcpBaseSocket_SendBuffer err s b = Some (ok, s', acts) →
  do_acts err acts a a' → cinv1 s' a' ∧ same_side a a'.
Proof.
  intros Hi E Hd.
  assert ((s', acts) = (s, []) ∨ ∃ ok mb2, _flag s ≠ E_STATE_CLOSE ∧
     TrySendData err (mkSocket (_flag s) (writing s) (msgbuffer1 s) mb2) = (ok, s', acts))
    as [? | (ok' & mb2 & Hnc & Et)].
  { revert E. unfold TcpBaseSocket_SendBuffer.
    destruct b as [b|]; [|intros; simplify_eq; by left].
    destruct (_ =? 0); [intros; simplify_eq; by left|].
    destruct (_ >? M_SOCKET_PACK_SIZE); [intros; simplify_eq; by left|].
    destruct (decide _) as [|Hf]; [intros; simplify_eq; by left|]. apply dec_stable in Hf.
    destruct (_ >? E_MAX_BUFFER_SIZE); [intros; simplify_eq; by left|].
    destruct (Buffer_Write _ _ _) as [b2|]; [|done]. cbn [mbind option_bind].
    destruct (TrySendData _ _) as [[ok' s1] acts1] eqn:Et. intros. simplify_eq.
    right. exists ok', b2. rewrite Hf. by rewrite Hf in Et. }
  - simplify_eq. apply do_acts_nil_inv in Hd as ->. split; [done|apply same_side_refl].
  - refine (cinv1_try err (mkSocket (_flag s) (writing s) (msgbuffer1 s) mb2) a ok' s' acts a' _ Hnc Et Hd). by apply cinv1_buffers.
Qed.

Lemma cinv1_written s a mb1 mb2 :
  cinv1 s a → a_open a = true → a_wr a = true →
  cinv1 (mkSocket (_flag s) false mb1 mb2) (set_wr false a) ∧ _flag s ≠ E_STATE_CLOSE ∧
  same_side a (set_wr false a).
Proof.
  intros [Hst Hcg Hcl Hid Hwr Hsh] Ho Ha.
  assert (_flag s ≠ E_STATE_CLOSE) as Hnc.
  { intros Hc. specialize (Hwr Ho). rewrite Hid in Hwr by done. congruence. }
  split; [|split; [done|unfold same_side; simpl; split_and!; auto; congruence]].
  constructor; simpl; auto.
Qed.

Lemma do_acts_app_inv err xs ys a a' :
  do_acts err (xs ++ ys) a a' → ∃ a1, do_acts err xs a a1 ∧ do_acts err ys a1 a'.
Proof.
  revert a. induction xs as [|x xs IH]; intros a; simpl.
  - intros Hd. exists a. split; [constructor|done].
  - intros (a1 & Hd1 & (a2 & Hd2 & Hd3)%IH)%do_acts_cons_inv. exists a2.
    split; [by econstructor|done].
Qed.

Lemma cinv1_WriteHandler err s a n error s' acts a' :
  cinv1 s a → a_open a = true → a_wr a = true →
  WriteHandler err s n error = (s', acts) → do_acts err acts (set_wr false a) a' →
  cinv1 s' a' ∧ same_side a a'.
Proof.
  intros Hi Ho Ha E Hd. unfold WriteHandler in E.
  destruct (cinv1_written s a (msgbuffer1 s) (msgbuffer2 s) Hi Ho Ha) as (Hi0 & Hnc & Hs0).
  destruct error; [|destruct (n <=? 0)].
  1,2: destruct (cinv1_close _ _ _ _ _ _ Hi0 E Hd) as (? & Hs & _);
       (split; [done|exact (same_side_trans _ _ _ Hs0 Hs)]).
  destruct (cinv1_written s a (Buffer_CutData (msgbuffer1 s) (s32 n)) (msgbuffer2 s) Hi Ho Ha)
    as (Hi1 & _ & _).
  destruct (TrySendData err _) as [[ok s1] acts1] eqn:Et. cbn [_flag msgbuffer1 msgbuffer2] in Et.
  destruct (negb ok && _).
  - destruct (TcpBaseSocket_Close_ s1) as [s2 acts2] eqn:Ec. simplify_eq.
    apply do_acts_app_inv in Hd as (a1 & Hd1 & Hd2).
    apply do_acts_cons_inv in Hd2 as (a2 & Hd2 & Hd3). inversion Hd2; subst.
    destruct (cinv1_try err _ _ _ _ _ _ Hi1 Hnc Et Hd1) as [Hi2 Hs2].
    destruct (cinv1_close _ _ _ _ _ _ Hi2 Ec Hd3) as (Hi3 & Hs3 & _).
    split; [done|]. exact (same_side_trans _ _ _ Hs0 (same_side_trans _ _ _ Hs2 Hs3)).
  - simplify_eq. destruct (cinv1_try err _ _ _ _ _ _ Hi1 Hnc Et Hd) as [Hi2 Hs2].
    split; [done|]. exact (same_side_trans _ _ _ Hs0 Hs2).
Qed.

Lemma cinv1_rd b s a : cinv1 s a → cinv1 s (set_rd b a).
Proof. intros []. by constructor. Qed.

(** The read side of a step. *)
Definition read_side (a a' : aio) : Prop :=
  (a_open a' = true → a_open a = true) ∧
  (a_open a' = true → a_reg a = true → a_reg a' = true) ∧
  (a_open a = true → a_open a' = false → a_reg a = false).

Lemma cinv1_TryRecv err s a s' acts a' :
  cinv1 s a → a_rd a = false → TryRecvData err s = (s', acts) → do_acts err acts a a' →
  cinv1 s' a' ∧ read_side a a'.
Proof.
  intros Hi Hrd E Hd.
  assert (∀ a1, do_act err ActRecvSome a a1 → cinv1 s a1 ∧ read_side a a1) as Hr.
  { intros a1 Hd1. destruct Hi as [Hst Hcg Hcl Hid Hwr Hsh].
    inversion Hd1 as [|x x' Hx| |]; subst. inversion Hx; subst; [..|congruence].
    - split; [by constructor|]. unfold read_side. simpl. split_and!; auto; congruence.
    - assert (a_open a = true) as Ho by done. rewrite Ho in *.
      split; [constructor; simpl; try done; intros; try (by apply Hst); try (by apply Hcg);
        try (by apply Hcl)|].
      unfold read_side. simpl. rewrite Ho. split_and!; auto; congruence.
    - assert (a_open a = true) as Ho by done. rewrite Ho in *.
      split; [constructor; simpl; try done; intros; try (by apply Hst); try (by apply Hcg);
        try (by apply Hcl)|].
      unfold read_side. simpl. rewrite Ho. split_and!; auto; congruence. }
  unfold TryRecvData, TcpBaseSocket_Close in E. destruct err.
  - destruct (TcpBaseSocket_Close_ s) as [s1 acts1] eqn:Ec. simplify_eq.
    apply do_acts_cons_inv in Hd as (a1 & Hd1 & Hd2).
    destruct (Hr a1 Hd1) as (Hi1 & Ho1 & Hr1 & Hc1).
    destruct (cinv1_close _ _ _ _ _ _ Hi1 Ec Hd2) as (Hi2 & (_ & Ho2 & Hr2 & Hc2) & _).
    split; [done|]. split; [auto|]. split; [auto|]. intros Ho Hcl.
    destruct (a_open a1) eqn:E1; [|by apply Hc1].
    destruct (a_reg a) eqn:E2; [|done]. rewrite Hc2 in Hr1 by done. by specialize (Hr1 eq_refl eq_refl).
  - simplify_eq. apply do_acts_cons_inv in Hd as (a1 & Hd1 & ->%do_acts_nil_inv). auto.
Qed.
End inv.

(** The invariant on the log and the phase. *)
Definition disconnected (log : list cevent) : bool := bool_decide (EvDisconnected ∈ log).

Definition log_shape (log : list cevent) : Prop :=
  ∃ n d, log = EvConnected :: replicate n EvReceive ++ (if d : bool then [EvDisconnected] else []).

Record cinv (isco : bool) (was_reg : bool) (c : conn) : Prop := {
  cv_base : cinv1 (cn_sock c) (cn_aio c);
  cv_rd : cn_phase c ≠ PIdle → a_rd (cn_aio c) = false;
  cv_disc : disconnected (cn_log c) = true → a_open (cn_aio c) = false;
  cv_phase : isco = false → disconnected (cn_log c) = true → cn_phase c ≠ PRead;
  cv_shape : isco = false → log_shape (cn_log c);
  cv_reg : was_reg = true → a_open (cn_aio c) = true → a_reg (cn_aio c) = true;
  cv_lost : was_reg = true → a_open (cn_aio c) = false → disconnected (cn_log c) = true
}.

Section theorems.
Context `{Malloc}.

Lemma disconnected_app log e : disconnected (log ++ [e]) = disconnected log || bool_decide (e = EvDisconnected).
Proof.
  unfold disconnected. destruct (decide (EvDisconnected ∈ log)) as [Hi|Hi].
  - rewrite (bool_decide_true (EvDisconnected ∈ log)) by done. apply bool_decide_true, elem_of_app. by left.
  - rewrite (bool_decide_false (EvDisconnected ∈ log)) by done. cbn [orb].
    destruct (decide (e = EvDisconnected)) as [->|He].
    + rewrite !bool_decide_true; [done..|]. apply elem_of_app. right. by left.
    + rewrite !bool_decide_false; [done..|]. intros [?|?%list_elem_of_singleton]%elem_of_app; congruence.
Qed.

Lemma log_shape_receive log : log_shape log → disconnected log = false → log_shape (log ++ [EvReceive]).
Proof.
  intros (n & [] & ->) Hd.
  - rewrite app_comm_cons, disconnected_app, orb_true_r in Hd. done.
  - exists (S n), false. rewrite !app_nil_r. simpl. f_equal.
    by rewrite replicate_cons_app.
Qed.

Lemma log_shape_disconnect log : log_shape log → disconnected log = false → log_shape (log ++ [EvDisconnected]).
Proof.
  intros (n & [] & ->) Hd.
  - rewrite app_comm_cons, disconnected_app, orb_true_r in Hd. done.
  - exists n, true. by rewrite app_nil_r.
Qed.

(** A step that changes neither the phase nor the log. *)
Lemma cinv_quiet isco wr s a ph log s' a' :
  cinv isco wr (mkConn' s a ph log) → cinv1 s' a' → a_rd a' = a_rd a → read_side a a' →
  cinv isco wr (mkConn' s' a' ph log).
Proof.
  intros [Hb Hrd Hdi Hph Hsh Hrg Hlo] Hb' Hrd' (Ho & Hr & Hc). constructor; simpl in *; try done.
  - intros Hp. rewrite Hrd'. auto.
  - intros Hd. specialize (Hdi Hd). destruct (a_open a') eqn:E; [|done]. by rewrite Ho in Hdi.
  - intros Hw Ho'. auto.
  - intros Hw Ho'. destruct (a_open a) eqn:E; [|auto].
    rewrite Hrg in Hc by done. by specialize (Hc eq_refl Ho').
Qed.

Lemma same_read_side a a' : same_side a a' → read_side a a' ∧ a_rd a' = a_rd a.
Proof. intros (?&?&?&?). by split. Qed.

Lemma cinv_phase isco wr s a ph ph' log :
  cinv isco wr (mkConn' s a ph log) → ph' ≠ PInit → (ph' ≠ PIdle → a_rd a = false ∧ a_open a = true) →
  cinv isco wr (mkConn' s a ph' log).
Proof.
  intros [Hb Hrd Hdi Hph Hsh Hrg Hlo] Hp1 Hp2. constructor; simpl in *; try done.
  - intros Hp. by apply Hp2.
  - intros Hi Hd Hp. destruct Hp2 as [_ Ho]; [by rewrite Hp|]. by rewrite Hdi in Ho.
Qed.

Lemma cinv_step isco wr c c' : cinv isco wr c → cstep isco c c' → cinv isco wr c'.
Proof.
  intros Hi Hstep. destruct Hstep as
    [s a ph log err now data len ok s' acts a' E Hd|s a ph log err b ok s' acts a' E Hd
    |s a ph log s' acts a' E Hd|s a ph log err n error s' acts a' Ho Ha E Hd
    |s a log s' acts a' Ho Ha E Hd|s a log Ho Ha Hconn|s a log
    |s a ph log err s' acts a' Hp E Hd|s a log s' acts a' E Hd|s a ph log Ho Ha Hp];
    pose proof (cv_base _ _ _ Hi) as Hb; cbn [cn_sock cn_aio] in Hb.
  - destruct (cinv1_Send _ _ _ _ _ _ _ _ _ _ Hb E Hd) as [Hb' [? ?]%same_read_side].
    by eapply cinv_quiet.
  - destruct (cinv1_SendBuffer _ _ _ _ _ _ _ _ Hb E Hd) as [Hb' [? ?]%same_read_side].
    by eapply cinv_quiet.
  - destruct (cinv1_close _ _ _ _ _ _ Hb E Hd) as (Hb' & [? ?]%same_read_side & _).
    by eapply cinv_quiet.
  - destruct (cinv1_WriteHandler _ _ _ _ _ _ _ _ Hb Ho Ha E Hd) as [Hb' [? ?]%same_read_side].
    by eapply cinv_quiet.
  - assert (cinv isco wr (mkConn' s (set_rd false a) PIdle log)) as Hi1.
    { destruct Hi. constructor; simpl in *; try done. by apply cinv1_rd. }
    destruct (cinv1_close _ _ _ _ _ _ (cinv1_rd false _ _ Hb) E Hd) as (Hb' & [? ?]%same_read_side & _).
    by eapply cinv_quiet.
  - apply (cinv_phase _ _ _ _ PIdle); [|done|done].
    destruct Hi. constructor; simpl in *; try done. by apply cinv1_rd.
  - destruct Hi as [_ Hrd Hdi Hph Hsh Hrg Hlo].
    constructor; simpl in *; try done; rewrite ?disconnected_app, ?orb_false_r; try done.
    intros Hc. apply log_shape_receive; [auto|].
    destruct (disconnected log) eqn:Ed; [|done]. by specialize (Hph Hc eq_refl).
  - pose proof (cv_rd _ _ _ Hi Hp) as Hrd. cbn [cn_aio] in Hrd.
    destruct (cinv1_TryRecv _ _ _ _ _ _ Hb Hrd E Hd) as (Hb' & Ho' & Hr' & Hc').
    destruct Hi as [_ _ Hdi Hph Hsh Hrg Hlo]. constructor; simpl in *; try done.
    + intros Hdis. specialize (Hdi Hdis). destruct (a_open a') eqn:Eo; [|done]. by rewrite Ho' in Hdi.
    + auto.
    + intros Hw Hcl. destruct (a_open a) eqn:Eo; [|auto].
      rewrite Hrg in Hc' by done. by specialize (Hc' eq_refl Hcl).
  - destruct (cinv1_close _ _ _ _ _ _ Hb E Hd) as (Hb' & [? ?]%same_read_side & _).
    assert (cinv isco wr (mkConn' s' a' PRead log)) as Hi1 by (by eapply cinv_quiet).
    by apply (cinv_phase _ _ _ _ PRead).
  - destruct Hi as [_ Hrd Hdi Hph Hsh Hrg Hlo].
    destruct Hb as [Hst Hcg Hcl Hid Hwr Hshut]. destruct (Hcg Ha) as [_ Hflag].
    assert (disconnected log = false) as Hnd.
    { destruct (disconnected log) eqn:Ed; [|done]. cbn in Hdi. rewrite Hdi in Ho by done. done. }
    constructor; simpl in *; rewrite ?disconnected_app, ?orb_true_r; try done.
    + constructor; simpl; try done. intros ?. congruence.
    + auto.
    + intros Hc. apply log_shape_disconnect; auto.
Qed.

Lemma cinv_reach isco wr c c' : cinv isco wr c → rtc (cstep isco) c c' → cinv isco wr c'.
Proof. intros Hi Hr. induction Hr; eauto using cinv_step. Qed.

Lemma cinv_init isco : cinv isco false conn_init.
Proof.
  assert (disconnected [EvConnected] = false) as Hd by (by vm_compute).
  constructor; cbn [conn_init cn_sock cn_aio cn_phase cn_log]; rewrite ?Hd; try done.
  - intros _. by exists 0%nat, false.
Qed.
End theorems.

(** C3: the order of the callbacks of one socket, in callback mode (handlers run in
    the thread of the loop, [isco = false]).  Under any interleaving of sends and
    closes from any thread, kernel events and loop rounds - the loop's close may
    come while [OnConnected] still runs in the acceptor's thread - a connection's
    callbacks are [OnConnected], then any number of [OnReceiveData], then at most
    one [OnDisconnected], as [netio.hpp] documents; once disconnected the descriptor
    is closed and no [_ReadHandler] is running or starts.  And the I/O contract is
    kept: a read is posted only when none is outstanding, and [writing] is exactly
    "a write is outstanding".  (In coroutine mode the order is lost:
    [coroutine_mode_receives_after_disconnect].) *)
Theorem callback_order `{Malloc} (c : conn) :
  rtc (cstep false) conn_init c →
  log_shape (cn_log c) ∧
  (EvDisconnected ∈ cn_log c → a_open (cn_aio c) = false ∧ cn_phase c ≠ PRead) ∧
  (cn_phase c ≠ PIdle → a_rd (cn_aio c) = false) ∧
  (a_open (cn_aio c) = true → a_wr (cn_aio c) = writing (cn_sock c)).
Proof.
  intros Hr. destruct (cinv_reach _ _ _ _ (cinv_init false) Hr) as [Hb Hrd Hdi Hph Hsh _ _].
  split; [auto|]. split; [|split; [done|apply Hb]].
  intros Hd. assert (disconnected (cn_log c) = true) by (by apply bool_decide_true). auto.
Qed.

(** C15: [OnDisconnected] is not lost.  Once a connection is known to a loop (its
    first read or write was posted), whenever it reaches [E_STATE_CLOSE] either
    [OnDisconnected] was called or the close request is queued, and the loop's next
    round can call it. *)
Theorem disconnect_guaranteed `{Malloc} (isco : bool) (c1 c : conn) :
  rtc (cstep isco) conn_init c1 → a_open (cn_aio c1) = true → a_reg (cn_aio c1) = true →
  rtc (cstep isco) c1 c → _flag (cn_sock c) = E_STATE_CLOSE →
  EvDisconnected ∈ cn_log c ∨
  (a_closing (cn_aio c) = true ∧
   ((isco = false → cn_phase c ≠ PRead) →
    ∃ c', cstep isco c c' ∧ cn_log c' = cn_log c ++ [EvDisconnected])).
Proof.
  intros Hr1 Ho1 Hg1 Hr Hf.
  pose proof (cinv_reach _ _ _ _ (cinv_init isco) Hr1) as [Hb Hrd Hdi Hph Hsh _ _].
  assert (cinv isco true c1) as Hi by (constructor; try done; congruence).
  destruct (cinv_reach _ _ _ _ Hi Hr) as [Hb' _ _ _ _ Hrg Hlo].
  destruct (a_open (cn_aio c)) eqn:Ho.
  - right. assert (a_closing (cn_aio c) = true) as Hcl by (by apply Hb'). split; [done|].
    intros Hp. destruct c as [s a ph log]. eexists. split; [by apply c_doclose|done].
  - left. specialize (Hlo eq_refl eq_refl). by apply bool_decide_eq_true in Hlo.
Qed.

Section silent.
Context `{Malloc}.

Lemma closed_stays isco c c' :
  cinv isco false c → a_open (cn_aio c) = false → cstep isco c c' →
  a_open (cn_aio c') = false ∧ (EvDisconnected ∈ cn_log c' → EvDisconnected ∈ cn_log c).
Proof.
  intros Hi Ho Hstep.
  assert (∀ a', read_side (cn_aio c) a' → a_open a' = false) as Hro.
  { intros a' (Hr & _). destruct (a_open a'); [|done]. by rewrite Hr in Ho. }
  destruct Hstep as
    [s a ph log err now data len ok s' acts a' E Hd|s a ph log err b ok s' acts a' E Hd
    |s a ph log s' acts a' E Hd|s a ph log err n error s' acts a' Ho' Ha E Hd
    |s a log s' acts a' Ho' Ha E Hd|s a log Ho' Ha Hconn|s a log
    |s a ph log err s' acts a' Hp E Hd|s a log s' acts a' E Hd|s a ph log Ho' Ha Hp];
    pose proof (cv_base _ _ _ Hi) as Hb; cbn [cn_sock cn_aio cn_log] in *; try congruence.
  - destruct (cinv1_Send _ _ _ _ _ _ _ _ _ _ Hb E Hd) as [_ [? _]%same_read_side]. auto.
  - destruct (cinv1_SendBuffer _ _ _ _ _ _ _ _ Hb E Hd) as [_ [? _]%same_read_side]. auto.
  - destruct (cinv1_close _ _ _ _ _ _ Hb E Hd) as (_ & [? _]%same_read_side & _). auto.
  - split; [done|]. intros [?|?%list_elem_of_singleton]%elem_of_app; [done|congruence].
  - pose proof (cv_rd _ _ _ Hi Hp) as Hrd.
    destruct (cinv1_TryRecv _ _ _ _ _ _ Hb Hrd E Hd) as [_ ?]. auto.
  - destruct (cinv1_close _ _ _ _ _ _ Hb E Hd) as (_ & [? _]%same_read_side & _). auto.
Qed.
End silent.

(** A connection closed inside [OnConnected] is never reported.  If the
    application calls [Close] from [OnConnected], before anything was posted, the
    descriptor is closed at once and [OnDisconnected] is not called in any
    continuation. *)
Theorem close_in_OnConnected_is_silent `{Malloc} (isco : bool) :
  ∃ c, cstep isco conn_init c ∧ _flag (cn_sock c) = E_STATE_CLOSE ∧ a_open (cn_aio c) = false ∧
       ∀ c', rtc (cstep isco) c c' → EvDisconnected ∉ cn_log c'.
Proof.
  set (c0 := mkConn' (mkSocket E_STATE_CLOSE false Buffer_new Buffer_new)
               (aio_close (cn_aio conn_init)) PInit [EvConnected]).
  assert (cstep isco conn_init c0) as Hs.
  { apply (c_close _ _ _ _ _ _ [ActClose]); [done|]. econstructor; constructor. }
  exists c0. split; [done|]. split; [done|]. split; [done|]. intros c' Hr.
  assert (cinv isco false c0) as Hi by (by eapply cinv_step, Hs; apply cinv_init).
  assert (a_open (cn_aio c0) = false ∧ EvDisconnected ∉ cn_log c0) as [Ho Hn].
  { split; [done|]. cbn. by intros ?%list_elem_of_singleton. }
  revert Hi Ho Hn. generalize dependent c0. intros c0 _ Hr. induction Hr as [|c1 c2 c3 Hs2 _ IH].
  - done.
  - intros Hi Ho Hn. destruct (closed_stays _ _ _ Hi Ho Hs2) as [Ho2 Hn2].
    apply IH; [by eapply cinv_step|done|auto].
Qed.

(** In coroutine mode the order of callbacks is not kept.  When a handler of
    the connection waits inside [OnReceiveData], the loop may close the socket and
    call [OnDisconnected]; the resumed [_CutMsgPack] then delivers further packets
    of the same chunk after it. *)
Theorem coroutine_mode_receives_after_disconnect `{Malloc} :
  ∃ c, rtc (cstep true) conn_init c ∧
       cn_log c = [EvConnected; EvReceive; EvDisconnected; EvReceive].
Proof.
  set (s := mkSocket E_STATE_START false Buffer_new Buffer_new).
  set (s' := mkSocket E_STATE_CLOSE false Buffer_new Buffer_new).
  set (a rd := mkAio true false true rd false). set (ac := mkAio true true true false false).
  assert (cstep true conn_init (mkConn' s (a true) PIdle [EvConnected])) as S1.
  { eapply (c_again true s _ PInit _ false s [ActRecvSome]); [done|reflexivity|].
    econstructor; [constructor; by apply recv_ok|constructor]. }
  assert (cstep true (mkConn' s (a true) PIdle [EvConnected])
            (mkConn' s (a false) PRead [EvConnected])) as S2 by (by apply (c_read true s (a true))).
  assert (cstep true (mkConn' s (a false) PRead [EvConnected; EvReceive])
            (mkConn' s' ac PRead [EvConnected; EvReceive])) as S3.
  { apply (c_close true s _ _ _ s' [ActClose]); [reflexivity|]. repeat econstructor. }
  exists (mkConn' s' (mkAio false false false false false) PRead
            [EvConnected; EvReceive; EvDisconnected; EvReceive]). split; [|done].
  eapply rtc_l; [exact S1|]. eapply rtc_l; [exact S2|].
  eapply rtc_l; [apply c_receive|]. eapply rtc_l; [exact S3|].
  eapply rtc_l; [by apply (c_doclose true s' ac)|].
  eapply rtc_l; [apply c_receive|]. apply rtc_refl.
Qed.

(** The close of one request: the descriptor goes, and then its handler runs. *)
Lemma doclose_refines {K EP H} `{!Kernel K EP} (i : nat) run ho (w : World (K:=K) (H:=H)) (c : core H) :
  w_cores w !! i = Some c →
  do_closes run [mkClose (Some i) ho] w =
    (match ho with Some h => run (CallClose h) | None => mret tt end;; mret [mkClose None None])
      (mkWorld (fst (k_closesocket (w_k w) (c_fd c))) (<[i := closed_core c]> (w_cores w))
         (w_ios w) (w_svc w)) ∧
  aio_of (closed_core c) = mkAio false false false (a_rd (aio_of c)) (a_wr (aio_of c)).
Proof.
  intros Hc. split; [|done]. cbn [do_closes cls_impl cls_handler]. st.
  destruct (k_closesocket _ _) as [k' r']. st. cbn [fst].
  change (set_state (λ _, 0) (set_fd M_INVALID_SOCKET c)) with (closed_core c).
  destruct ho as [h|]; [|by st]. unfold mbind, st_bind.
  destruct (run _ _) as [[[] w']|]; [|done]. by st.
Qed.

(** C5: the event-driven service implements the abstract asynchronous socket.
    On a socket core whose flags agree with its operations, each of the six calls a
    connection makes - posting a read or a write, a read or write event, [Close] and
    the loop's close - returns without a fault and changes the core's abstraction
    [aio_of] exactly as the abstract socket prescribes.  The handlers go where they
    must: a successful post arms its handler, an event calls the armed one, the
    first [Close] of a socket that a running loop knows appends the request with its
    handler to that loop's queue and touches no other loop, a second one changes
    nothing, and the loop's close of a request closes the descriptor and then runs
    the request's handler. *)
Theorem epoll_refines_aio {K EP H} `{!Kernel K EP} `{!KernelOk (K:=K) (EP:=EP)} (i : nat)
    (w : World (K:=K) (H:=H)) (c : core H) (h : H) (size : Z) (data : list byte) :
  w_cores w !! i = Some c → svc_wf w → sock_ok i c → c_fd c ≠ M_INVALID_SOCKET →
  (∃ e w' c', Access_AsyncRecvSome (Some i) size h 0 w = Some (e, w') ∧
     w_cores w' !! i = Some c' ∧ aio_recv (aio_of c) (e =? 0) (aio_of c') ∧
     (e = 0 → op_rop c' = mkRw (Some h) (Some i) [] size)) ∧
  (∃ e w' c', Access_AsyncSendSome (Some i) data h 0 w = Some (e, w') ∧
     w_cores w' !! i = Some c' ∧ aio_send (aio_of c) (e =? 0) (aio_of c') ∧
     (e = 0 → op_wop c' = mkRw (Some h) (Some i) data (Z.of_nat (length data)))) ∧
  (a_rd (aio_of c) = true → ∃ h d t e w' c', ReadOperation_Complete i w = Some (Some (CallRead h d t e), w') ∧
     rw_handler (op_rop c) = Some h ∧
     w_cores w' !! i = Some c' ∧ aio_of c' = set_rd false (aio_of c)) ∧
  (a_wr (aio_of c) = true → ∃ h t e w' c', WriteOperation_Complete i w = Some (Some (CallWrite h t e), w') ∧
     rw_handler (op_wop c) = Some h ∧
     w_cores w' !! i = Some c' ∧ aio_of c' = set_wr false (aio_of c)) ∧
  (∃ e w' c', IoAccess_Close (Some i) (Some h) 0 w = Some (e, w') ∧
     w_cores w' !! i = Some c' ∧ aio_of c' = aio_close (aio_of c)) ∧
  (∀ s io, a_reg (aio_of c) = true → a_closing (aio_of c) = false → c_epoll c ≠ 0 →
     implmap (w_svc w) !! c_epoll c = Some s → w_ios w !! s = Some io →
     ∃ w' io', IoAccess_Close (Some i) (Some h) 0 w = Some (0, w') ∧ w_ios w' !! s = Some io' ∧
       io_closereqs io' = io_closereqs io ++ [mkClose (Some i) (Some h)] ∧
       ∀ s', s' ≠ s → w_ios w' !! s' = w_ios w !! s') ∧
  (a_closing (aio_of c) = true → IoAccess_Close (Some i) (Some h) 0 w = Some (0, w)) ∧
  (∀ run ho, do_closes run [mkClose (Some i) ho] w =
     (match ho with Some h => run (CallClose h) | None => mret tt end;; mret [mkClose None None])
       (mkWorld (fst (k_closesocket (w_k w) (c_fd c))) (<[i := closed_core c]> (w_cores w))
          (w_ios w) (w_svc w))) ∧
  aio_of (closed_core c) = mkAio false false false (a_rd (aio_of c)) (a_wr (aio_of c)).
Proof.
  intros Hc Hwf Hok Hfd. destruct (aio_events i w c Hc Hwf Hok Hfd) as [Hre Hwe].
  split; [by apply aio_recv_refines|]. split; [by apply aio_send_refines|].
  split; [done|]. split; [done|]. split; [by apply aio_close_refines|].
  rewrite (aio_of_open _ Hfd). cbn [a_reg a_closing a_rd a_wr]. split; [|split; [|split]].
  - intros s io Hreg%negb_true_iff H9 He Hm Hs. eexists _, _. split; [by eapply Close_posted|].
    cbn [w_ios]. rewrite lookup_insert_eq. split; [reflexivity|]. split; [done|].
    intros s' Hne. by rewrite lookup_insert_ne.
  - intros H9. eapply Close_idempotent; eauto.
  - intros run ho. by apply doclose_refines.
  - done.
Qed.

(** C26: the read handler.  On an open connection, a chunk of a valid stream is
    delivered packet by packet and exactly one new read is posted; a chunk with an
    oversized header delivers the packets before it, shuts the receiving side and
    closes; and an error, an end of file or a closed flag only closes. *)
Theorem ReadHandler_refines `{Malloc} `{!NetHandler St} recv_err (st : St) (s : BaseSocket)
    (r : reader) (p buf : list byte) (error : bool) :
  reader_at M_SOCKET_PACK_SIZE r p → Z.of_nat (length buf) < 2 ^ 31 →
  let (fs, t) := decode_stream M_SOCKET_PACK_SIZE (p ++ buf) in
  let '(s', acts) := TcpBaseSocket_Close s in
  if error || (Z.of_nat (length buf) <=? 0) || negb (TcpBaseSocket_IsConnected s) then
    ReadHandler recv_err st s r buf (Z.of_nat (length buf)) error = Some (st, s', r, acts)
  else ∃ r',
    ReadHandler recv_err st s r buf (Z.of_nat (length buf)) error =
      Some (fold_left deliver fs st,
            (match t with More _ => if recv_err then s' else s | Bad => s' end), r',
            (match t with More _ => ActRecvSome :: (if recv_err then acts else [])
             | Bad => ActShutdown E_Shutdown_RD :: acts end)) ∧
    match t with More q => reader_at M_SOCKET_PACK_SIZE r' q | Bad => True end.
Proof.
  intros Hr Hb. pose proof (CutMsgPack_refines (S (length buf)) st r p buf Hr Hb ltac:(lia)) as Hc.
  unfold cut_post in Hc. destruct (decode_stream _ _) as [fs t].
  destruct (TcpBaseSocket_Close s) as [s' acts] eqn:Ec. unfold ReadHandler, TryRecvData. rewrite Ec.
  destruct (error || _ || _); [done|].
  rewrite Nat2Z.id. destruct Hc as (r' & -> & Hr'). cbn [mbind option_bind].
  exists r'. destruct t; [done|]. by destruct recv_err.
Qed.

#[local] Existing Instance zero_malloc.

Lemma ReadHandler_refines_witness :
  let s := mkSocket E_STATE_START false Buffer_new Buffer_new in
  ∃ r', ReadHandler false (St:=list (list byte)) [] s reader_new (frame_bytes 7 [x61; x62]) 10 false
        = Some ([[x61; x62]], s, r', [ActRecvSome]).
Proof.
  intros s.
  pose proof (ReadHandler_refines (St:=list (list byte)) false [] s reader_new []
    (frame_bytes 7 [x61; x62]) false (reader_at_new _)) as Hr.
  assert (decode_stream M_SOCKET_PACK_SIZE ([] ++ frame_bytes 7 [x61; x62]) = ([[x61; x62]], More []))
    as E by (vm_compute; reflexivity).
  rewrite E in Hr. destruct (TcpBaseSocket_Close s) as [s' acts].
  destruct Hr as (r' & E' & _); [vm_compute; reflexivity|]. exists r'. exact E'.
Defined.

(** A connection that received one packet and was closed by the application. *)
Definition demo_conn (k : nat) : conn :=
  let s := mkSocket E_STATE_START false Buffer_new Buffer_new in
  let s' := mkSocket E_STATE_CLOSE false Buffer_new Buffer_new in
  let a rd := mkAio true false true rd false in
  nth k [conn_init; mkConn' s (a true) PIdle [EvConnected];
         mkConn' s (a false) PRead [EvConnected];
         mkConn' s (a false) PRead [EvConnected; EvReceive];
         mkConn' s (a true) PIdle [EvConnected; EvReceive];
         mkConn' s' (mkAio true true true true false) PIdle [EvConnected; EvReceive];
         mkConn' s' (mkAio false false false true false) PIdle
           [EvConnected; EvReceive; EvDisconnected]] conn_init.

Lemma demo_conn_step k : (k < 6)%nat → cstep false (demo_conn k) (demo_conn (S k)).
Proof.
  intros Hk. destruct k as [|[|[|[|[|[|k]]]]]]; [..|lia]; clear Hk.
  - eapply (c_again false _ _ PInit _ false _ [ActRecvSome]); [done|reflexivity|].
    econstructor; [constructor; by apply recv_ok|constructor].
  - by apply c_read.
  - apply c_receive.
  - eapply (c_again false _ _ PRead _ false _ [ActRecvSome]); [done|reflexivity|].
    econstructor; [constructor; by apply recv_ok|constructor].
  - apply (c_close false _ _ _ _ _ [ActClose]); [reflexivity|]. repeat econstructor.
  - by apply (c_doclose false).
Qed.

Lemma demo_conn_steps j k : (j + k ≤ 6)%nat → rtc (cstep false) (demo_conn j) (demo_conn (k + j)).
Proof.
  induction k as [|k IH]; intros Hk; [apply rtc_refl|].
  eapply rtc_r; [apply IH; lia|]. apply demo_conn_step. lia.
Qed.

Lemma callback_order_witness :
  log_shape (cn_log (demo_conn 6)) ∧ a_open (cn_aio (demo_conn 6)) = false.
Proof.
  destruct (callback_order (demo_conn 6) (demo_conn_steps 0 6 ltac:(lia))) as (Hs & Hd & _).
  split; [exact Hs|]. apply Hd. cbn. apply elem_of_cons. right. apply elem_of_cons. right. by left.
Defined.

Lemma disconnect_guaranteed_witness :
  ∃ c', cstep false (demo_conn 5) c' ∧ EvDisconnected ∈ cn_log c'.
Proof.
  destruct (disconnect_guaranteed false (demo_conn 1) (demo_conn 5)
    (demo_conn_steps 0 1 ltac:(lia)) eq_refl eq_refl (demo_conn_steps 1 4 ltac:(lia)) eq_refl)
    as [Hd|[_ Hc]].
  - assert (disconnected (cn_log (demo_conn 5)) = false) as Hn by (vm_compute; reflexivity).
    apply bool_decide_eq_false in Hn. done.
  - destruct Hc as (c' & Hs & Hl); [done|]. exists c'. split; [exact Hs|]. rewrite Hl.
    apply elem_of_app. right. by left.
Defined.

Lemma epoll_refines_aio_witness :
  ∃ e w' c', @Access_AsyncRecvSome _ _ _ demo_kernel (Some 0%nat) 4096 100 0 demo_world = Some (e, w') ∧
    w_cores w' !! 0%nat = Some c' ∧ aio_recv (aio_of demo_core) (e =? 0) (aio_of c').
Proof.
  destruct (@epoll_refines_aio _ _ _ demo_kernel demo_kernel_ok 0 demo_world demo_core 100 4096 [])
    as [Hr _]; [reflexivity|exact demo_wf|exact (fresh_sock_ok 0 _ demo_fresh)|done|].
  destruct Hr as (e & w' & c' & E & Hc & Ha & _). exists e, w', c'.
  split; [exact E|]. split; [exact Hc|exact Ha].
Defined.

(** With several loops [OnDisconnected] may be called while [OnConnected] still runs
    in the acceptor's thread: it sends, the write completes on the socket's own loop,
    it closes, and that loop closes the descriptor. *)
Theorem disconnect_during_OnConnected :
  ∃ c, rtc (cstep false) conn_init c ∧ cn_phase c = PInit ∧ cn_log c = [EvConnected; EvDisconnected].
Proof.
  set (s0 := cn_sock conn_init).
  destruct (TcpBaseSocket_Send false 7 s0 [x61] 1) as [[[ok s1] acts1]|] eqn:E1; [|by vm_compute in E1].
  assert (acts1 = [ActSendSome (frame_bytes 7 [x61])] ∧ _flag s1 = E_STATE_START ∧
    WriteHandler false s1 9 false = (mkSocket E_STATE_START false (msgbuffer1 (WriteHandler false s1 9 false).1)
                                       (msgbuffer2 (WriteHandler false s1 9 false).1), [])) as (-> & Hf & E2).
  { clear -E1. vm_compute in E1. injection E1 as <- <- <-. by vm_compute. }
  set (s2 := mkSocket E_STATE_START false _ _) in E2.
  set (s3 := mkSocket E_STATE_CLOSE false (msgbuffer1 s2) (msgbuffer2 s2)).
  set (a k := mkAio true k true false false).
  assert (rtc (cstep false) conn_init (mkConn' s3 (a true) PInit [EvConnected])) as Hr.
  { eapply rtc_l; [eapply (c_send false s0 _ PInit _ false 7 [x61] 1 ok s1); [exact E1|]|].
    { econstructor; [constructor; by apply send_ok|constructor]. }
    eapply rtc_l; [eapply (c_write false s1 _ PInit _ false 9 false s2 []); [done|done|exact E2|constructor]|].
    eapply rtc_l; [eapply (c_close false s2 _ PInit _ s3 [ActClose]); [reflexivity|]|apply rtc_refl].
    econstructor; [constructor|constructor]. }
  exists (mkConn' s3 (mkAio false false false false false) PInit [EvConnected; EvDisconnected]).
  split; [|done]. eapply rtc_r; [exact Hr|]. by apply (c_doclose false s3 (a true) PInit [EvConnected]).
Qed.
