(* ===== verification/HttpMsg.v ===== *)
(** * HTTP messages

    The incremental parsers and the response builder of
    [src/slience/netio/httpmsg.hpp].

    [HttpSvrRecvMsg] (requests) and [HttpCliRecvMsg] (responses) have the same
    code with other names: a first line of three fields, the first two ended by a
    space and the third by CR LF, then the header and the body of [HttpBaseMsg].
    One record [HttpMsg] holds either; [_p1 _p2 _p3] are the fields of its first
    line, and the functions on them take the flags [F1 F2 F3] of the class.

    [HttpSpec.rstep] is a reference parser that reads one byte at a time; [Parse_refines_reference]
    shows that the parser, which scans and copies whole runs of bytes and keeps
    [_assistflag] across chunks, computes the same. *)

From Stdlib Require Import ZArith Lia List Strings.String Strings.Byte Init.Byte.
From stdpp Require Import base numbers list option.
From S2P Require Import Prelude Buffer.

Inductive parse_flag :=
| E_PARSE_METHOD | E_PARSE_URL | E_PARSE_VER | E_PARSE_STATUS_CODE | E_PARSE_STATUS_PHRASE
| E_PARSE_HEAD | E_PARSE_BODY | E_PARSE_OVER.
#[export] Instance parse_flag_eq_dec : EqDecision parse_flag.
Proof. solve_decision. Defined.

Record strpos := mkPos { beg : Z; end_ : Z }.

(** [strpos::_swap]: the exclusive-or exchange of two distinct integers. *)
Definition swap_xor (a b : Z) : Z * Z :=
  let a := Z.lxor a b in
  let b := Z.lxor a b in
  let a := Z.lxor a b in (a, b).

Definition strpos_Swap (p o : strpos) : strpos * strpos :=
  let (b1, b2) := swap_xor (beg p) (beg o) in
  let (e1, e2) := swap_xor (end_ p) (end_ o) in
  (mkPos b1 e1, mkPos b2 e2).

Record HttpMsg := mkMsg {
  _buffer : Buffer;
  _p1 : strpos; _p2 : strpos; _p3 : strpos;
  _header : strpos; _header2 : strpos; _body : strpos;
  _mflag : parse_flag; _assistflag : bool;
  _header_iter : nat; _bodysize : Z; _header_vec : list strpos
}.

(** ** Scanning *)

(** The loops of [_Parse1] and [_Parse2]: the final [pos] and [hit]. *)
Fixpoint Parse1_loop (chr : byte) (buffer : list byte) : nat * bool :=
  match buffer with
  | [] => (0%nat, false)
  | b :: rest => if decide (b = chr) then (0%nat, true)
                 else let (pos, hit) := Parse1_loop chr rest in (S pos, hit)
  end.

Fixpoint Parse2_loop (chr1 chr2 : byte) (buffer : list byte) : nat * bool :=
  match buffer with
  | b1 :: rest =>
      match rest with
      | b2 :: _ => if decide (b1 = chr1 ∧ b2 = chr2) then (0%nat, true)
                   else let (pos, hit) := Parse2_loop chr1 chr2 rest in (S pos, hit)
      | [] => (0%nat, false)
      end
  | [] => (0%nat, false)
  end.

Definition Parse1 (chr : byte) (buffer : list byte) : nat * bool :=
  let (pos, hit) := Parse1_loop chr buffer in
  (if decide (pos ≠ length buffer) then (pos + 1)%nat else length buffer, hit).

Definition Parse2 (chr1 chr2 : byte) (buffer : list byte) : nat * bool :=
  let (pos, hit) := Parse2_loop chr1 chr2 buffer in
  (if decide ((pos + 1)%nat ≠ length buffer) then (pos + 2)%nat else length buffer, hit).

Section http.
Context `{Malloc}.

Definition pos0 : strpos := mkPos 0 0.

(** [Clear()] of the class whose first flag is [F1]; the record before the first
    [Clear] is irrelevant but for its buffer. *)
Definition HttpMsg_Clear (F1 : parse_flag) (m : HttpMsg) : HttpMsg :=
  mkMsg (Buffer_Clear (_buffer m)) pos0 pos0 pos0 pos0 pos0 pos0 F1 false 0 (-1) [].

Definition HttpMsg_new (F1 : parse_flag) : HttpMsg :=
  HttpMsg_Clear F1 (mkMsg Buffer_new pos0 pos0 pos0 pos0 pos0 pos0 F1 false 0 0 []).

(** [std::string(_buffer.Data() + p.beg, p.end - p.beg - cut)], empty while the
    end is not set; reading outside the buffer is a fault. *)
Definition substr (b : Buffer) (from to : Z) : option (list byte) :=
  if (0 <=? from) && (from <=? to) then load (Buffer_Data b) (Z.to_nat from) (Z.to_nat (to - from))
  else None.

Definition get_pos (m : HttpMsg) (p : strpos) : option (list byte) :=
  if end_ p =? 0 then Some [] else substr (_buffer m) (beg p) (end_ p).

Definition GetHeader (m : HttpMsg) : option (list byte) := get_pos m (_header m).
Definition GetBody (m : HttpMsg) : option (list byte) := get_pos m (_body m).
(** [GetRequestLine] / [GetRespondLine] *)
Definition GetFirstLine (m : HttpMsg) : option (list byte) :=
  if end_ (_p3 m) =? 0 then Some [] else substr (_buffer m) (beg (_p1 m)) (end_ (_p3 m)).

Definition NextHeader (m : HttpMsg) : option (list byte * HttpMsg) :=
  match _header_vec m !! _header_iter m with
  | None => Some ([], m)
  | Some p =>
      s ← substr (_buffer m) (beg p) (end_ p - 2);
      Some (s, mkMsg (_buffer m) (_p1 m) (_p2 m) (_p3 m) (_header m) (_header2 m) (_body m)
                 (_mflag m) (_assistflag m) (S (_header_iter m)) (_bodysize m) (_header_vec m))
  end.

Definition InitHeaderIter (m : HttpMsg) : HttpMsg :=
  mkMsg (_buffer m) (_p1 m) (_p2 m) (_p3 m) (_header m) (_header2 m) (_body m)
    (_mflag m) (_assistflag m) 0 (_bodysize m) (_header_vec m).

(** ** [_CheckContentLen] *)

(** [_constr], and the number of characters before its space. *)
Definition constr : list byte := B["Content-Length: "].

(** The comparison loop: where [psrc] stands when it ends. *)
Fixpoint cmp_constr (line src : list byte) (at_ : nat) : option nat :=
  match src with
  | [] => None
  | s :: src =>
      if decide (s = SP) then Some at_
      else match line with
           | [] => None
           | l :: line => if decide (l = s) then cmp_constr line src (S at_) else Some (S at_)
           end
  end.

(** Copy up to '\r' into the 11-byte block. *)
Fixpoint copy_value (line : list byte) (pbuf : list byte) (at_ : nat) : option (list byte) :=
  match line with
  | [] => None
  | c :: line =>
      if decide (c = CR) then Some pbuf
      else pbuf ← store pbuf at_ [c]; copy_value line pbuf (S at_)
  end.

Definition is_digit (c : byte) : bool := (48 <=? byte_val c) && (byte_val c <=? 57).

(** The digits of [atoi]; running off the block is a fault. *)
Fixpoint atoi_digits (bs : list byte) (acc : Z) : option Z :=
  match bs with
  | [] => None
  | c :: bs => if is_digit c then atoi_digits bs (10 * acc + (byte_val c - 48)) else Some acc
  end.

Definition is_space (c : byte) : bool :=
  (byte_val c =? 32) || ((9 <=? byte_val c) && (byte_val c <=? 13)).

Fixpoint atoi (bs : list byte) : option Z :=
  match bs with
  | [] => None
  | c :: rest =>
      if is_space c then atoi rest
      else if decide (c = x2d) then v ← atoi_digits rest 0; Some (s32 (- v))
      else if decide (c = x2b) then v ← atoi_digits rest 0; Some (s32 v)
      else v ← atoi_digits bs 0; Some (s32 v)
  end.

(** [pbuf] is shared by the iterations, but the first match returns.  [data] is
    the memory up to the write cursor: reading bytes never written is a fault. *)
Fixpoint CheckContentLen_loop (data : list byte) (vec : list strpos) : option Z :=
  match vec with
  | [] => Some 0
  | it :: vec =>
      if end_ it - beg it <? 18 then CheckContentLen_loop data vec
      else
        let line := drop (Z.to_nat (beg it)) data in
        at_ ← cmp_constr line constr 0;
        if decide (constr !! at_ = Some SP) then
          pbuf ← copy_value (drop (at_ + 1) line) (replicate 11 x00) 0;
          atoi pbuf
        else CheckContentLen_loop data vec
  end.

Definition CheckContentLen (m : HttpMsg) : option Z :=
  CheckContentLen_loop (buf_view (_buffer m)) (_header_vec m).

(** ** Header and body *)

Definition size32 (m : HttpMsg) : Z := s32 (Buffer_Size (_buffer m)).

Definition ParseBody (m : HttpMsg) (buffer : list byte) : option (nat * HttpMsg) :=
  if decide (buffer = []) then Some (0%nat, m)
  else
    m ← (if _bodysize m =? -1 then
           sz ← CheckContentLen m;
           Some (mkMsg (_buffer m) (_p1 m) (_p2 m) (_p3 m) (_header m) (_header2 m)
                   (if sz =? 0 then _body m else mkPos (size32 m) (end_ (_body m)))
                   (if sz =? 0 then E_PARSE_OVER else _mflag m) (_assistflag m) (_header_iter m)
                   sz (_header_vec m))
         else Some m);
    if negb (_bodysize m =? 0) then
      let copy_len := s32 (_bodysize m - u32 (Buffer_Size (_buffer m) - beg (_body m))) in
      let len := Z.of_nat (length buffer) in
      let over := negb (copy_len >? len) in
      let copy_len := if over then copy_len else len in
      let flag := if over then E_PARSE_OVER else _mflag m in
      b ← Buffer_Write (_buffer m) buffer (u32 copy_len);
      let body := if decide (flag = E_PARSE_OVER) then mkPos (beg (_body m)) (s32 (Buffer_Size b))
                  else _body m in
      Some (Z.to_nat copy_len,
            mkMsg b (_p1 m) (_p2 m) (_p3 m) (_header m) (_header2 m) body flag (_assistflag m)
              (_header_iter m) (_bodysize m) (_header_vec m))
    else Some (0%nat, m).

(** The scan for CR LF that [_ParseHead] and the last field of the first line
    share: (copied, hit, [_assistflag]). *)
Definition scan_crlf (assist : bool) (buffer : list byte) : nat * bool * bool :=
  match buffer with
  | b :: _ =>
      if assist then
        if decide (b = LF) then (1%nat, true, true)
        else (Parse2 CR LF buffer, false)
      else (Parse2 CR LF buffer, false)
  | [] => (0%nat, false, assist)
  end.

(** [if (!_assistflag) ... ] after a scan without a hit. *)
Definition end_assist (b : Buffer) (assist : bool) : option bool :=
  if assist then Some true
  else
    let pos := s32 (Buffer_Size b) in
    c ← (if 1 <=? pos then Buffer_Data b !! Z.to_nat (pos - 1) else None);
    Some (bool_decide (c = CR)).

Definition with_buffer (m : HttpMsg) (b : Buffer) (assist : bool) : HttpMsg :=
  mkMsg b (_p1 m) (_p2 m) (_p3 m) (_header m) (_header2 m) (_body m) (_mflag m) assist
    (_header_iter m) (_bodysize m) (_header_vec m).

Fixpoint ParseHead (fuel : nat) (m : HttpMsg) (buffer : list byte) : option (nat * HttpMsg) :=
  match fuel with
  | O => None
  | S fuel =>
      if decide (buffer = []) then Some (0%nat, m)
      else
        let '(copy_len, hit, assist) := scan_crlf (_assistflag m) buffer in
        b ← Buffer_Write (_buffer m) buffer (Z.of_nat copy_len);
        if hit : bool then
          let pos := s32 (Buffer_Size b) in
          let h2 := mkPos (beg (_header2 m)) pos in
          let vec := _header_vec m ++ [h2] in
          if beg h2 + 2 =? end_ h2 then
            '(n, m) ← ParseBody (mkMsg b (_p1 m) (_p2 m) (_p3 m) (mkPos (beg (_header m)) pos) h2
                         (_body m) E_PARSE_BODY false (_header_iter m) (_bodysize m) vec)
                       (drop copy_len buffer);
            Some ((copy_len + n)%nat, m)
          else
            '(n, m) ← ParseHead fuel (mkMsg b (_p1 m) (_p2 m) (_p3 m) (mkPos (beg (_header m)) pos)
                         (mkPos pos 0) (_body m) E_PARSE_HEAD false (_header_iter m) (_bodysize m) vec)
                       (drop copy_len buffer);
            Some ((copy_len + n)%nat, m)
        else
          assist ← end_assist b assist;
          Some (copy_len, with_buffer m b assist)
  end.

(** ** The first line *)

Section line.
Variables F1 F2 F3 : parse_flag.

(** [HttpSvrRecvMsg::_ParseVer] / [HttpCliRecvMsg::_ParseStatusPhrase] *)
Definition ParseField3 (m : HttpMsg) (buffer : list byte) : option (nat * HttpMsg) :=
  if decide (buffer = []) then Some (0%nat, m)
  else
    let '(copy_len, hit, assist) := scan_crlf (_assistflag m) buffer in
    b ← Buffer_Write (_buffer m) buffer (Z.of_nat copy_len);
    if hit : bool then
      let pos := s32 (Buffer_Size b) in
      '(n, m) ← ParseHead (S (length buffer))
                 (mkMsg b (_p1 m) (_p2 m) (mkPos (beg (_p3 m)) (pos - 2))
                    (mkPos pos (end_ (_header m))) (mkPos pos (end_ (_header2 m))) (_body m)
                    E_PARSE_HEAD false (_header_iter m) (_bodysize m) (_header_vec m))
                 (drop copy_len buffer);
      Some ((copy_len + n)%nat, m)
    else
      assist ← end_assist b assist;
      Some (copy_len, with_buffer m b assist).

(** [_ParseUrl] / [_ParseStatusCode] *)
Definition ParseField2 (m : HttpMsg) (buffer : list byte) : option (nat * HttpMsg) :=
  if decide (buffer = []) then Some (0%nat, m)
  else
    let (copy_len, hit) := Parse1 SP buffer in
    b ← Buffer_Write (_buffer m) buffer (Z.of_nat copy_len);
    if hit : bool then
      let pos := s32 (Buffer_Size b) in
      '(n, m) ← ParseField3
                 (mkMsg b (_p1 m) (mkPos (beg (_p2 m)) (pos - 1)) (mkPos pos (end_ (_p3 m)))
                    (_header m) (_header2 m) (_body m) F3 (_assistflag m) (_header_iter m)
                    (_bodysize m) (_header_vec m))
                 (drop copy_len buffer);
      Some ((copy_len + n)%nat, m)
    else Some (copy_len, with_buffer m b (_assistflag m)).

(** [_ParseMethod] / [HttpCliRecvMsg::_ParseVer] *)
Definition ParseField1 (m : HttpMsg) (buffer : list byte) : option (nat * HttpMsg) :=
  let (copy_len, hit) := Parse1 SP buffer in
  b ← Buffer_Write (_buffer m) buffer (Z.of_nat copy_len);
  if hit : bool then
    let pos := s32 (Buffer_Size b) in
    '(n, m) ← ParseField2
               (mkMsg b (mkPos (beg (_p1 m)) (pos - 1)) (mkPos pos (end_ (_p2 m))) (_p3 m)
                  (_header m) (_header2 m) (_body m) F2 (_assistflag m) (_header_iter m)
                  (_bodysize m) (_header_vec m))
               (drop copy_len buffer);
    Some ((copy_len + n)%nat, m)
  else Some (copy_len, with_buffer m b (_assistflag m)).

(** [Parse]: the number of bytes used. *)
Definition Parse (m : HttpMsg) (buffer : list byte) : option (nat * HttpMsg) :=
  if decide (_mflag m = F1) then ParseField1 m buffer
  else if decide (_mflag m = F2) then ParseField2 m buffer
  else if decide (_mflag m = F3) then ParseField3 m buffer
  else match _mflag m with
       | E_PARSE_HEAD => ParseHead (S (length buffer)) m buffer
       | E_PARSE_BODY => ParseBody m buffer
       | _ => Some (0%nat, m)
       end.
End line.

(** The two classes. *)
Definition HttpSvrRecvMsg_Parse := Parse E_PARSE_METHOD E_PARSE_URL E_PARSE_VER.
Definition HttpCliRecvMsg_Parse := Parse E_PARSE_VER E_PARSE_STATUS_CODE E_PARSE_STATUS_PHRASE.
Definition HttpSvrRecvMsg_Clear := HttpMsg_Clear E_PARSE_METHOD.
Definition HttpCliRecvMsg_Clear := HttpMsg_Clear E_PARSE_VER.
Definition HttpSvrRecvMsg_new := HttpMsg_new E_PARSE_METHOD.
Definition HttpCliRecvMsg_new := HttpMsg_new E_PARSE_VER.
Definition HttpSvrRecvMsg_ParseMethod := ParseField1 E_PARSE_URL E_PARSE_VER.
Definition HttpSvrRecvMsg_ParseUrl := ParseField2 E_PARSE_VER.
Definition HttpSvrRecvMsg_ParseVer := ParseField3.
Definition HttpCliRecvMsg_ParseVer := ParseField1 E_PARSE_STATUS_CODE E_PARSE_STATUS_PHRASE.
Definition HttpCliRecvMsg_ParseStatusCode := ParseField2 E_PARSE_STATUS_PHRASE.
Definition HttpCliRecvMsg_ParseStatusPhrase := ParseField3.
Definition GetMethod (m : HttpMsg) := get_pos m (_p1 m).
Definition GetUrl (m : HttpMsg) := get_pos m (_p2 m).
Definition GetVersion (m : HttpMsg) := get_pos m (_p3 m).
Definition HttpCliRecvMsg_GetVersion (m : HttpMsg) := get_pos m (_p1 m).
Definition GetStatusCode (m : HttpMsg) := get_pos m (_p2 m).
Definition GetStatusPhrase (m : HttpMsg) := get_pos m (_p3 m).

(** [Swap(other)] of two distinct messages: (this, other).  The exchange of the
    flags is that of [swap_xor] on their enumerators. *)
Definition HttpMsg_Swap (m o : HttpMsg) : HttpMsg * HttpMsg :=
  let (ob, mb) := Buffer_Swap (_buffer o) (_buffer m) in
  let (o1, m1) := strpos_Swap (_p1 o) (_p1 m) in
  let (o2, m2) := strpos_Swap (_p2 o) (_p2 m) in
  let (o3, m3) := strpos_Swap (_p3 o) (_p3 m) in
  let (oh, mh) := strpos_Swap (_header o) (_header m) in
  let (oh2, mh2) := strpos_Swap (_header2 o) (_header2 m) in
  let (obd, mbd) := strpos_Swap (_body o) (_body m) in
  let (ovec, mvec) := (_header_vec m, _header_vec o) in
  let (oflag, mflag) := (_mflag m, _mflag o) in
  let (oit, mit) := swap_xor (Z.of_nat (_header_iter o)) (Z.of_nat (_header_iter m)) in
  let (osz, msz) := swap_xor (_bodysize o) (_bodysize m) in
  (mkMsg mb m1 m2 m3 mh mh2 mbd mflag (_assistflag o) (Z.to_nat mit) msz mvec,
   mkMsg ob o1 o2 o3 oh oh2 obd oflag (_assistflag m) (Z.to_nat oit) osz ovec).

Definition HttpSvrRecvMsg_Swap := HttpMsg_Swap.
Definition HttpCliRecvMsg_Swap := HttpMsg_Swap.

(** ** [HttpSvrSendMsg]

    A response under construction.  The setters test and set bits of [_flag]; a
    call out of order runs into [assert(0)], which is [None]. *)

Definition E_VER : Z := Z.shiftl 1 0.
Definition E_STATUS_CODE : Z := Z.shiftl 1 1.
Definition E_STATUS_PHRASE : Z := Z.shiftl 1 2.
Definition E_LOCATION : Z := Z.shiftl 1 3.
Definition E_CONT_CODING : Z := Z.shiftl 1 4.
Definition E_CONT_TYPE : Z := Z.shiftl 1 5.
Definition E_CONT_LANGUAGE : Z := Z.shiftl 1 6.
Definition E_DATE : Z := Z.shiftl 1 7.
Definition E_SERVER : Z := Z.shiftl 1 8.
Definition E_BODY : Z := Z.shiftl 1 9.

Record HttpSvrSendMsg := mkSend { _pbuffer : Buffer; _sflag : Z }.

Definition HttpSvrSendMsg_new : HttpSvrSendMsg := mkSend Buffer_new 0.

(** [_flag & bit] *)
Definition has (m : HttpSvrSendMsg) (bit : Z) : bool := negb (Z.land (_sflag m) bit =? 0).

(** [_pbuffer->Write((void* )s, strlen(s))] of several strings, then the bit. *)
Fixpoint write_all (b : Buffer) (parts : list (list byte)) : option Buffer :=
  match parts with
  | [] => Some b
  | s :: parts => b ← Buffer_Write b s (u32 (Z.of_nat (length s))); write_all b parts
  end.

Definition put (m : HttpSvrSendMsg) (bit : Z) (parts : list (list byte)) : option HttpSvrSendMsg :=
  b ← write_all (_pbuffer m) parts;
  Some (mkSend b (Z.lor (_sflag m) bit)).

Definition SetHttpVersion (m : HttpSvrSendMsg) (ver : list byte) : option HttpSvrSendMsg :=
  if negb (has m E_VER) then put m E_VER [ver; [SP]] else None.

Definition SetStatusCode (m : HttpSvrSendMsg) (status : list byte) : option HttpSvrSendMsg :=
  if negb (has m E_STATUS_CODE) && has m E_VER then put m E_STATUS_CODE [status; [SP]] else None.

Definition SetStatusPhrase (m : HttpSvrSendMsg) (phrase : list byte) : option HttpSvrSendMsg :=
  if negb (has m E_STATUS_PHRASE) && has m E_VER && has m E_STATUS_CODE
  then put m E_STATUS_PHRASE [phrase; [CR; LF]] else None.

(** The guard of the header setters. *)
Definition may_set (m : HttpSvrSendMsg) (bit : Z) : bool :=
  negb (has m bit) && has m E_VER && has m E_STATUS_CODE && has m E_STATUS_PHRASE.

Definition SetLocation (m : HttpSvrSendMsg) (location : list byte) : option HttpSvrSendMsg :=
  if may_set m E_LOCATION then put m E_LOCATION [B["Location: "]; location; [CR; LF]] else None.

Definition SetContentEncode (m : HttpSvrSendMsg) (encode : list byte) : option HttpSvrSendMsg :=
  if may_set m E_CONT_CODING then put m E_CONT_CODING [B["Content-Encoding: "]; encode; [CR; LF]]
  else None.

Definition SetContentType (m : HttpSvrSendMsg) (type : list byte) : option HttpSvrSendMsg :=
  if may_set m E_CONT_TYPE then put m E_CONT_TYPE [B["Content-Type: "]; type; [CR; LF]] else None.

Definition SetContentLanguage (m : HttpSvrSendMsg) (language : list byte) : option HttpSvrSendMsg :=
  if may_set m E_CONT_LANGUAGE
  then put m E_CONT_LANGUAGE [B["Content-Language: "]; language; [CR; LF]] else None.

(** [SetBody(body, len)], [body] being the memory at the pointer. *)
Definition SetBody (m : HttpSvrSendMsg) (body : list byte) (len : Z) : option HttpSvrSendMsg :=
  if negb (has m E_BODY) then
    m ← (if negb (has m E_VER) then SetHttpVersion m B["HTTP/1.1"] else Some m);
    m ← (if negb (has m E_STATUS_CODE) then SetStatusCode m B["200"] else Some m);
    m ← (if negb (has m E_STATUS_PHRASE) then SetStatusPhrase m B["OK"] else Some m);
    m ← (if negb (has m E_CONT_TYPE) then SetContentType m B["text/html;charset=utf-8"] else Some m);
    b ← write_all (_pbuffer m) [B["Content-Length: "]; print_int len; [CR; LF; CR; LF]];
    b ← Buffer_Write b body (u32 len);
    Some (mkSend b (Z.lor (_sflag m) E_BODY))
  else None.

(** [SetSever] and [SetDate] write their literals with the one-argument
    [Write((void* )s)]: the eight bytes of the pointers [p1] and [p2], whatever
    the address, not the string. *)
Definition SetSever (p1 p2 : Z) (m : HttpSvrSendMsg) (svr : list byte) : option HttpSvrSendMsg :=
  if may_set m E_SERVER then put m E_SERVER [le_bytes 8 p1; svr; le_bytes 8 p2] else None.

Definition SetDate (p1 p2 : Z) (m : HttpSvrSendMsg) (date : list byte) : option HttpSvrSendMsg :=
  if may_set m E_DATE then put m E_DATE [le_bytes 8 p1; date; le_bytes 8 p2] else None.

Definition ToString (m : HttpSvrSendMsg) : option (list byte) :=
  load (Buffer_Data (_pbuffer m)) 0 (Z.to_nat (Buffer_Size (_pbuffer m))).
End http.
