(* ===== verification/HttpSpec.v ===== *)
(** * The HTTP parsers against a byte-at-a-time reference

    [rstep] consumes one byte; [run] consumes a chunk.  [Parse_refines_run] is the
    equivalence of [Parse] with [run], from which the independence of the parse
    from the chunking follows. *)

From Stdlib Require Import ZArith Lia List Strings.String Strings.Byte Init.Byte.
From stdpp Require Import base numbers list option sets.
From S2P Require Import Prelude Buffer HttpMsg.

#[local] Set Warnings "-clear-no-such-hyp".

(** The state of the reference parser: a message whose buffer is its bytes. *)
Record RMsg := mkR {
  r_bytes : list byte;
  r_p1 : strpos; r_p2 : strpos; r_p3 : strpos;
  r_header : strpos; r_header2 : strpos; r_body : strpos;
  r_flag : parse_flag; r_assist : bool; r_iter : nat; r_bodysize : Z; r_vec : list strpos
}.

Definition pos_of (bs : list byte) : Z := Z.of_nat (length bs).

Section reference.
Variables F1 F2 F3 : parse_flag.

(** The bytes [bs] are in and nothing ended; whether the last byte was CR. *)
Definition pend_line (r : RMsg) (bs : list byte) (assist : bool) : RMsg :=
  mkR bs (r_p1 r) (r_p2 r) (r_p3 r) (r_header r) (r_header2 r) (r_body r) (r_flag r)
    assist (r_iter r) (r_bodysize r) (r_vec r).

(** The first field, then the second, ended with [bs]. *)
Definition end_field1 (r : RMsg) (bs : list byte) : RMsg :=
  mkR bs (mkPos (beg (r_p1 r)) (pos_of bs - 1)) (mkPos (pos_of bs) (end_ (r_p2 r))) (r_p3 r)
    (r_header r) (r_header2 r) (r_body r) F2 (r_assist r) (r_iter r) (r_bodysize r) (r_vec r).

Definition end_field2 (r : RMsg) (bs : list byte) : RMsg :=
  mkR bs (r_p1 r) (mkPos (beg (r_p2 r)) (pos_of bs - 1)) (mkPos (pos_of bs) (end_ (r_p3 r)))
    (r_header r) (r_header2 r) (r_body r) F3 (r_assist r) (r_iter r) (r_bodysize r) (r_vec r).

Definition step_field (fin : RMsg → list byte → RMsg) (r : RMsg) (b : byte) : RMsg :=
  let bs := r_bytes r ++ [b] in
  if decide (b = SP) then fin r bs else pend_line r bs (r_assist r).

(** The first line ended with [bs]. *)
Definition end_line (r : RMsg) (bs : list byte) : RMsg :=
  mkR bs (r_p1 r) (r_p2 r) (mkPos (beg (r_p3 r)) (pos_of bs - 2))
    (mkPos (pos_of bs) (end_ (r_header r))) (mkPos (pos_of bs) (end_ (r_header2 r))) (r_body r)
    E_PARSE_HEAD false (r_iter r) (r_bodysize r) (r_vec r).

(** A header line ended with [bs]; an empty one ends the header. *)
Definition end_header (r : RMsg) (bs : list byte) : RMsg :=
  let h2 := mkPos (beg (r_header2 r)) (pos_of bs) in
  let last := beg h2 + 2 =? end_ h2 in
  mkR bs (r_p1 r) (r_p2 r) (r_p3 r) (mkPos (beg (r_header r)) (pos_of bs))
    (if last then h2 else mkPos (pos_of bs) 0) (r_body r)
    (if last then E_PARSE_BODY else E_PARSE_HEAD) false (r_iter r) (r_bodysize r) (r_vec r ++ [h2]).

Definition step_line (fin : RMsg → list byte → RMsg) (r : RMsg) (b : byte) : RMsg :=
  let bs := r_bytes r ++ [b] in
  if r_assist r && bool_decide (b = LF) then fin r bs
  else pend_line r bs (bool_decide (b = CR)).

(** The length of the body is looked up when its first byte arrives. *)
Definition body_start (r : RMsg) : option RMsg :=
  if r_bodysize r =? -1 then
    sz ← CheckContentLen_loop (r_bytes r) (r_vec r);
    Some (mkR (r_bytes r) (r_p1 r) (r_p2 r) (r_p3 r) (r_header r) (r_header2 r)
            (if sz =? 0 then r_body r else mkPos (pos_of (r_bytes r)) (end_ (r_body r)))
            (if sz =? 0 then E_PARSE_OVER else r_flag r) (r_assist r) (r_iter r) sz (r_vec r))
  else Some r.

Definition body_add (r : RMsg) (bs : list byte) : RMsg :=
  let over := pos_of bs - beg (r_body r) =? r_bodysize r in
  mkR bs (r_p1 r) (r_p2 r) (r_p3 r) (r_header r) (r_header2 r)
    (if over then mkPos (beg (r_body r)) (pos_of bs) else r_body r)
    (if over then E_PARSE_OVER else r_flag r) (r_assist r) (r_iter r) (r_bodysize r) (r_vec r).

(** One byte: whether it is consumed, and the new state; [None] is a fault (a
    negative length, or a length that does not fit its buffer). *)
Definition rstep (r : RMsg) (b : byte) : option (bool * RMsg) :=
  if decide (r_flag r = F1) then Some (true, step_field end_field1 r b)
  else if decide (r_flag r = F2) then Some (true, step_field end_field2 r b)
  else if decide (r_flag r = F3) then Some (true, step_line end_line r b)
  else match r_flag r with
       | E_PARSE_HEAD => Some (true, step_line end_header r b)
       | E_PARSE_BODY =>
           r ← body_start r;
           if r_bodysize r =? 0 then Some (false, r)
           else if r_bodysize r <? 0 then None
           else Some (true, body_add r (r_bytes r ++ [b]))
       | _ => Some (false, r)
       end.

Fixpoint run (r : RMsg) (buf : list byte) : option (nat * RMsg) :=
  match buf with
  | [] => Some (0%nat, r)
  | b :: rest =>
      '(used, r') ← rstep r b;
      if used : bool then '(n, r'') ← run r' rest; Some (S n, r'') else Some (0%nat, r')
  end.
End reference.

(** The message [m] is in the reference state [r]. *)
Definition hrel (m : HttpMsg) (r : RMsg) : Prop :=
  buf_at (_buffer m) (r_bytes r) 0 ∧
  r = mkR (r_bytes r) (_p1 m) (_p2 m) (_p3 m) (_header m) (_header2 m) (_body m) (_mflag m)
        (_assistflag m) (_header_iter m) (_bodysize m) (_header_vec m).

(** The positions of a body that is being read. *)
Definition rinv (r : RMsg) : Prop :=
  (r_flag r = E_PARSE_BODY → r_bodysize r = -1 ∨
     0 < r_bodysize r < 2 ^ 31 ∧ 0 <= beg (r_body r) <= pos_of (r_bytes r) ∧
     pos_of (r_bytes r) - beg (r_body r) < r_bodysize r) ∧
  (r_flag r ≠ E_PARSE_BODY → r_flag r ≠ E_PARSE_OVER → r_bodysize r = -1).

Definition shift (k : nat) (res : option (nat * RMsg)) : option (nat * RMsg) :=
  '(n, r) ← res; Some ((k + n)%nat, r).

Definition res_rel (x : option (nat * HttpMsg)) (y : option (nat * RMsg)) : Prop :=
  match x, y with
  | None, None => True
  | Some (n, m), Some (n', r) => n = n' ∧ hrel m r ∧ rinv r
  | _, _ => False
  end.

Definition fits (r : RMsg) (buf : list byte) : Prop :=
  pos_of (r_bytes r) + Z.of_nat (length buf) < 2 ^ 31 - 1024.

(** ** Scanning *)

Lemma Parse1_spec chr buf n hit :
  Parse1 chr buf = (n, hit) →
  (n ≤ length buf)%nat ∧
  if hit then ∃ pre, take n buf = pre ++ [chr] ∧ chr ∉ pre else n = length buf ∧ chr ∉ buf.
Proof.
  unfold Parse1.
  assert (∀ buf, let (pos, hit) := Parse1_loop chr buf in
    if hit then (pos < length buf)%nat ∧ ∃ pre, take (S pos) buf = pre ++ [chr] ∧ chr ∉ pre
    else pos = length buf ∧ chr ∉ buf) as Hl.
  { clear. induction buf as [|b buf IH]; simpl; [split; [done|apply not_elem_of_nil]|].
    destruct (decide (b = chr)) as [->|Hb].
    - split; [simpl; lia|]. exists []. split; [done|apply not_elem_of_nil].
    - destruct (Parse1_loop chr buf) as [pos [|]].
      + destruct IH as (Hp & pre & E & Hn). split; [simpl; lia|]. exists (b :: pre).
        rewrite <- app_comm_cons, <- E. split; [done|]. rewrite not_elem_of_cons. auto.
      + destruct IH as [-> Hn]. split; [done|]. rewrite not_elem_of_cons. auto. }
  specialize (Hl buf). destruct (Parse1_loop chr buf) as [pos h]. intros [= <- <-].
  destruct h.
  - destruct Hl as [Hp Hl]. rewrite decide_True by lia. rewrite Nat.add_1_r. split; [lia|done].
  - destruct Hl as [-> Hn]. rewrite decide_False by (intros Hc; by apply Hc). done.
Qed.

(** What a scan for CR LF finds, byte by byte. *)
Fixpoint crlf_ref (a : bool) (buf : list byte) : nat * bool * bool :=
  match buf with
  | [] => (0%nat, false, a)
  | b :: rest =>
      if a && bool_decide (b = LF) then (1%nat, true, false)
      else let '(n, hit, a') := crlf_ref (bool_decide (b = CR)) rest in (S n, hit, a')
  end.

Lemma Parse2_spec buf : buf ≠ [] →
  (let '(n, hit, _) := crlf_ref false buf in Parse2 CR LF buf = (n, hit)) ∧
  (let (pos, hit) := Parse2_loop CR LF buf in
   if hit then (pos + 1 < length buf)%nat else (pos + 1)%nat = length buf).
Proof.
  induction buf as [|b1 rest IH]; [done|]. intros _. destruct rest as [|b2 rest'].
  - split; [|done]. simpl. by destruct (bool_decide (b1 = CR)).
  - destruct IH as [IH1 IH2]; [done|].
    unfold Parse2 in *.
    change (Parse2_loop CR LF (b1 :: b2 :: rest')) with
      (if decide (b1 = CR ∧ b2 = LF) then (0%nat, true)
       else let (pos, hit) := Parse2_loop CR LF (b2 :: rest') in (S pos, hit)).
    destruct (decide (b1 = CR ∧ b2 = LF)) as [[-> ->]|Hne].
    + split; [|simpl; lia]. simpl. done.
    + change (crlf_ref false (b1 :: b2 :: rest')) with
        (let '(n, hit, a') := crlf_ref (bool_decide (b1 = CR)) (b2 :: rest') in (S n, hit, a')).
      assert (crlf_ref (bool_decide (b1 = CR)) (b2 :: rest') = crlf_ref false (b2 :: rest')) as ->.
      { cbn [crlf_ref]. destruct (bool_decide_reflect (b1 = CR)); [|done].
        destruct (bool_decide_reflect (b2 = LF)); [|done]. by destruct Hne. }
      destruct (crlf_ref false (b2 :: rest')) as [[n hit] a'].
      destruct (Parse2_loop CR LF (b2 :: rest')) as [pos h]. cbn [length] in *. simplify_eq.
      destruct hit; cbv beta iota in *; (split; [|lia]); f_equal; [rewrite !decide_True by lia; lia|].
      rewrite !decide_False by (intros Hc; apply Hc; lia). lia.
Qed.

Lemma scan_crlf_spec a buf : buf ≠ [] →
  let '(n, hit, a') := crlf_ref a buf in
  ∃ a1, scan_crlf a buf = (n, hit, a1) ∧ (hit = false → a1 = false).
Proof.
  intros Hne. destruct (Parse2_spec buf Hne) as [Hp _]. destruct buf as [|b rest]; [done|].
  unfold scan_crlf. destruct a.
  - cbn [crlf_ref andb]. destruct (bool_decide_reflect (b = LF)) as [->|Hb].
    + rewrite decide_True by done. eauto.
    + rewrite decide_False by done. cbn [crlf_ref andb] in Hp.
      destruct (crlf_ref (bool_decide (b = CR)) rest) as [[n hit] a']. rewrite Hp. eauto.
  - destruct (crlf_ref false (b :: rest)) as [[n hit] a']. rewrite Hp. eauto.
Qed.

Lemma crlf_ref_bounds a buf :
  let '(n, hit, a') := crlf_ref a buf in
  (n ≤ length buf)%nat ∧ (buf ≠ [] → (0 < n)%nat) ∧
  (hit = false → n = length buf ∧ (buf ≠ [] → list.last buf = Some CR ↔ a' = true)) ∧
  (hit = true → a' = false).
Proof.
  revert a. induction buf as [|b rest IH]; intros a; cbn [crlf_ref]; [split_and!; done|].
  destruct (a && bool_decide (b = LF)); [simpl; split_and!; try done; lia|].
  specialize (IH (bool_decide (b = CR))).
  destruct (crlf_ref _ rest) as [[n hit] a'] eqn:E. destruct IH as (H1 & H2 & H3 & H4).
  simpl length. split_and!; [lia|lia| |done]. intros Hh. destruct (H3 Hh) as [-> H5].
  split; [done|]. intros _. destruct rest as [|c rest].
  - simpl in E. simplify_eq. simpl. destruct (bool_decide_reflect (b = CR)); split; congruence.
  - rewrite last_cons_cons. by apply H5.
Qed.

(** ** Runs up to the end of a field or a line *)

Section runs.
Variables F1 F2 F3 : parse_flag.
Abbreviation run := (run F1 F2 F3).
Abbreviation rstep := (rstep F1 F2 F3).

Lemma shift_shift j k res : shift j (shift k res) = shift (j + k) res.
Proof. unfold shift. destruct res as [[n r]|]; [|done]. cbn. by rewrite Nat.add_assoc. Qed.

Lemma run_cons r b rest r' : rstep r b = Some (true, r') → run r (b :: rest) = shift 1 (run r' rest).
Proof. intros E. cbn [HttpSpec.run]. rewrite E. cbn [mbind option_bind]. done. Qed.

Lemma run_line fin f buf r :
  (∀ r b, r_flag r = f → rstep r b = Some (true, step_line fin r b)) →
  (∀ r bs a bs', fin (pend_line r bs a) bs' = fin r bs') → r_flag r = f →
  run r buf =
    let '(n, hit, a') := crlf_ref (r_assist r) buf in
    if hit then shift n (run (fin r (r_bytes r ++ take n buf)) (drop n buf))
    else Some (length buf, pend_line r (r_bytes r ++ buf) a').
Proof.
  intros Hstep Hfin. revert r. induction buf as [|b rest IH]; intros r Hf.
  - simpl. rewrite app_nil_r. by destruct r.
  - rewrite (run_cons _ _ _ _ (Hstep r b Hf)). unfold step_line. cbn [crlf_ref].
    destruct (r_assist r && bool_decide (b = LF)); [done|].
    rewrite IH by done. cbn [pend_line r_assist r_bytes].
    destruct (crlf_ref _ rest) as [[n hit] a']. destruct hit.
    + rewrite shift_shift. cbn [drop firstn Nat.add]. do 2 f_equal.
      rewrite Hfin. by rewrite <- app_assoc.
    + unfold shift. cbn. unfold pend_line. cbn. by rewrite <- app_assoc.
Qed.

Lemma run_field fin f buf r :
  (∀ r b, r_flag r = f → rstep r b = Some (true, step_field fin r b)) →
  (∀ r bs bs', fin (pend_line r bs (r_assist r)) bs' = fin r bs') → r_flag r = f →
  run r buf =
    let '(n, hit) := Parse1 SP buf in
    if hit : bool then shift n (run (fin r (r_bytes r ++ take n buf)) (drop n buf))
    else Some (length buf, pend_line r (r_bytes r ++ buf) (r_assist r)).
Proof.
  intros Hstep Hfin Hf. destruct (Parse1 SP buf) as [n hit] eqn:E.
  apply Parse1_spec in E as [Hn Hs].
  assert (∀ pre rest r, r_flag r = f → SP ∉ pre →
    run r (pre ++ rest) = shift (length pre) (run (pend_line r (r_bytes r ++ pre) (r_assist r)) rest))
    as Hpre.
  { clear Hn Hs Hf r. induction pre as [|b pre IH]; intros rest r Hf Hni.
    - simpl. rewrite app_nil_r. unfold shift, pend_line. destruct r; simpl.
      by destruct (run _ rest) as [[??]|].
    - apply not_elem_of_cons in Hni as [Hb Hni]. rewrite <- app_comm_cons.
      rewrite (run_cons _ _ _ _ (Hstep r b Hf)). unfold step_field. rewrite decide_False by done.
      rewrite IH by done. rewrite shift_shift. cbn [pend_line r_bytes r_assist length Nat.add].
      by rewrite <- app_assoc. }
  destruct hit.
  - destruct Hs as (pre & Ht & Hni). rewrite <- (take_drop n buf) at 1. rewrite Ht, <- app_assoc.
    rewrite Hpre by done. cbn [app].
    rewrite (run_cons _ _ _ _ (Hstep (pend_line r _ _) SP Hf)). unfold step_field.
    rewrite decide_True by done. cbn [pend_line r_bytes]. rewrite shift_shift.
    apply (f_equal length) in Ht as Hl. rewrite length_app, length_take in Hl. simpl in Hl.
    replace (length pre + 1)%nat with n by lia. rewrite <- app_assoc. do 2 f_equal. apply Hfin.
  - destruct Hs as [-> Hni]. rewrite <- (app_nil_r buf) at 1. rewrite Hpre by done.
    unfold shift. cbn. by rewrite Nat.add_0_r.
Qed.
End runs.

(** ** The parser against the reference *)

Section refine.
Context `{Malloc}.

Lemma buf_data_lookup b xs i c : buf_at b xs 0 → xs !! i = Some c → Buffer_Data b !! i = Some c.
Proof.
  intros Hb Hi. pose proof (lookup_lt_Some _ _ _ Hi) as Hl.
  destruct (buf_at_pos _ _ _ Hb) as (Hp & Ho & _). destruct Hb as (_ & Hx & _).
  unfold Buffer_Data. rewrite Ho. cbn [drop Z.to_nat Z.of_nat].
  rewrite <- Hx in Hi. by apply lookup_take_Some in Hi as [Hi _].
Qed.

Lemma end_assist_spec b xs buf a :
  buf_at b (xs ++ buf) 0 → buf ≠ [] → pos_of (xs ++ buf) < 2 ^ 31 →
  (list.last buf = Some CR ↔ a = true) → end_assist b false = Some a.
Proof.
  intros Hb Hne Hl Ha. unfold end_assist. rewrite (buf_at_size _ _ _ Hb).
  unfold pos_of in Hl. rewrite s32_small by lia.
  destruct (last_is_Some buf) as [_ Hs]. destruct (Hs Hne) as [c Hc]. clear Hs.
  assert (0 < length buf)%nat by (destruct buf; [done|simpl; lia]).
  assert ((xs ++ buf) !! (length (xs ++ buf) - 1)%nat = Some c) as Hlk.
  { rewrite lookup_app_r by (len; lia). rewrite last_lookup in Hc. rewrite <- Hc. f_equal. len. lia. }
  destruct (Z.leb_spec 1 (Z.of_nat (length (xs ++ buf)))); [|len; lia].
  replace (Z.to_nat (Z.of_nat (length (xs ++ buf)) - 1)) with (length (xs ++ buf) - 1)%nat by lia.
  rewrite (buf_data_lookup _ _ _ _ Hb Hlk). cbn [mbind option_bind]. f_equal.
  rewrite Hc in Ha. destruct a.
  - apply bool_decide_true. destruct Ha as [_ Ha]. specialize (Ha eq_refl). congruence.
  - apply bool_decide_false. intros ->. by destruct Ha as [Ha _]; specialize (Ha eq_refl).
Qed.

(** A write of a prefix of the chunk. *)
Lemma hrel_write m r buf n :
  hrel m r → fits r buf → (n ≤ length buf)%nat →
  ∃ b, Buffer_Write (_buffer m) buf (Z.of_nat n) = Some b ∧
       buf_at b (r_bytes r ++ take n buf) 0 ∧
       s32 (Buffer_Size b) = pos_of (r_bytes r ++ take n buf).
Proof.
  intros [Hb _] Hf Hn. unfold fits, pos_of in *.
  destruct (buf_at_write _ _ _ buf n Hb Hn) as (b & E & Hb'); [unfold buf_room; lia|].
  exists b. split; [done|]. split; [done|]. rewrite (buf_at_size _ _ _ Hb').
  apply s32_small. len. lia.
Qed.

Lemma res_rel_shift k x y :
  res_rel x y → res_rel ('(n, m) ← x; Some ((k + n)%nat, m)) (shift k y).
Proof.
  unfold res_rel, shift. destruct x as [[n m]|], y as [[n' r]|]; try done.
  intros (-> & ? & ?). done.
Qed.

Variables F1 F2 F3 : parse_flag.
Hypothesis HF1 : F1 ∉ [E_PARSE_HEAD; E_PARSE_BODY; E_PARSE_OVER].
Hypothesis HF2 : F2 ∉ [F1; E_PARSE_HEAD; E_PARSE_BODY; E_PARSE_OVER].
Hypothesis HF3 : F3 ∉ [F1; F2; E_PARSE_HEAD; E_PARSE_BODY; E_PARSE_OVER].
Abbreviation run := (run F1 F2 F3).
Abbreviation rstep := (rstep F1 F2 F3).

Lemma rstep_F1 r b : r_flag r = F1 → rstep r b = Some (true, step_field (end_field1 F2) r b).
Proof. intros Hf. unfold HttpSpec.rstep. by rewrite decide_True. Qed.

Lemma rstep_F2 r b : r_flag r = F2 → rstep r b = Some (true, step_field (end_field2 F3) r b).
Proof. intros Hf. unfold HttpSpec.rstep. rewrite decide_False, decide_True by set_solver. done. Qed.

Lemma rstep_F3 r b : r_flag r = F3 → rstep r b = Some (true, step_line end_line r b).
Proof.
  intros Hf. unfold HttpSpec.rstep. rewrite decide_False, decide_False, decide_True by set_solver. done.
Qed.

Lemma rstep_head r b : r_flag r = E_PARSE_HEAD → rstep r b = Some (true, step_line end_header r b).
Proof.
  intros Hf. unfold HttpSpec.rstep. rewrite !decide_False by (rewrite Hf; set_solver). by rewrite Hf.
Qed.

Lemma rstep_body r b : r_flag r = E_PARSE_BODY →
  rstep r b = (r ← body_start r;
    if r_bodysize r =? 0 then Some (false, r) else if r_bodysize r <? 0 then None
    else Some (true, body_add r (r_bytes r ++ [b]))).
Proof.
  intros Hf. unfold HttpSpec.rstep. rewrite !decide_False by (rewrite Hf; set_solver). by rewrite Hf.
Qed.

Lemma run_over r buf : r_flag r = E_PARSE_OVER → run r buf = Some (0%nat, r).
Proof.
  intros Hf. destruct buf as [|b buf]; [done|]. cbn [HttpSpec.run]. unfold HttpSpec.rstep.
  rewrite !decide_False by (rewrite Hf; set_solver). by rewrite Hf.
Qed.

Lemma run_unfold r b rest :
  run r (b :: rest) = ('(used, r') ← rstep r b;
    if used : bool then '(n, r'') ← run r' rest; Some (S n, r'') else Some (0%nat, r')).
Proof. done. Qed.

(** The bytes of a body whose length is known. *)
Lemma run_body buf r :
  r_flag r = E_PARSE_BODY → 0 < r_bodysize r → pos_of (r_bytes r) - beg (r_body r) < r_bodysize r →
  let k := Z.to_nat (r_bodysize r - (pos_of (r_bytes r) - beg (r_body r))) in
  run r buf = if (k <=? length buf)%nat then Some (k, body_add r (r_bytes r ++ take k buf))
              else Some (length buf, pend_line r (r_bytes r ++ buf) (r_assist r)).
Proof.
  revert r. induction buf as [|b rest IH]; intros r Hf Hpos Hlt k.
  - cbn [length]. destruct (Nat.leb_spec k 0); [unfold k in *; lia|]. cbn. rewrite app_nil_r. by destruct r.
  - rewrite run_unfold, rstep_body by done. unfold body_start.
    replace (r_bodysize r =? -1) with false by lia. cbn [mbind option_bind].
    replace (r_bodysize r =? 0) with false by lia. replace (r_bodysize r <? 0) with false by lia.
    cbn [length mbind option_bind]. assert (pos_of (r_bytes r ++ [b]) = pos_of (r_bytes r) + 1) as Hp
      by (unfold pos_of; len; simpl; lia).
    assert (Z.of_nat k = r_bodysize r - (pos_of (r_bytes r) - beg (r_body r))) as Hkz
      by (unfold k; lia). clearbody k.
    destruct (decide (k = 1%nat)) as [Hk|Hk].
    + rewrite Hk. cbn [Nat.leb firstn]. rewrite run_over; [done|].
      unfold body_add. cbn [r_flag]. rewrite Hp.
      by replace (_ =? r_bodysize r) with true by lia.
    + assert (body_add r (r_bytes r ++ [b]) = pend_line r (r_bytes r ++ [b]) (r_assist r)) as ->.
      { unfold body_add. rewrite Hp. by replace (_ =? r_bodysize r) with false by lia. }
      rewrite IH; cbn [pend_line r_bytes r_body r_bodysize r_flag r_assist]; [|done|lia|lia].
      rewrite Hp.
      replace (Z.to_nat (r_bodysize r - (pos_of (r_bytes r) + 1 - beg (r_body r)))) with (k - 1)%nat by lia.
      destruct k as [|[|k']] eqn:Ek; [lia|lia|].
      replace (S (S k') - 1)%nat with (S k') by lia.
      change (S (S k') <=? S (length rest))%nat with (S k' <=? length rest)%nat.
      destruct (S k' <=? length rest)%nat; cbn [mbind option_bind]; rewrite <- app_assoc; reflexivity.
Qed.

Lemma hrel_mk b xs m' r' :
  buf_at b xs 0 → r' = mkR xs (_p1 m') (_p2 m') (_p3 m') (_header m') (_header2 m') (_body m')
                      (_mflag m') (_assistflag m') (_header_iter m') (_bodysize m') (_header_vec m') →
  _buffer m' = b → hrel m' r'.
Proof. intros Hb -> <-. by split. Qed.

(** [atoi] gives an [int]. *)
Lemma atoi_bound bs v : atoi bs = Some v → - 2 ^ 31 <= v < 2 ^ 31.
Proof.
  assert (∀ z, - 2 ^ 31 <= s32 z < 2 ^ 31) as Hs.
  { intros z. unfold s32. pose proof (Z.mod_pos_bound (z + 2 ^ 31) (2 ^ 32)). lia. }
  induction bs as [|c bs IH]; [done|]. cbn [atoi]. destruct (is_space c); [done|].
  destruct (decide _); [|destruct (decide _)]; destruct (atoi_digits _ _); cbn; try done;
    intros [= <-]; apply Hs.
Qed.

Lemma CheckContentLen_bound data vec v :
  CheckContentLen_loop data vec = Some v → - 2 ^ 31 <= v < 2 ^ 31.
Proof.
  induction vec as [|it vec IH]; cbn [CheckContentLen_loop]; [by intros [= <-]|].
  destruct (_ <? 18); [done|]. destruct (cmp_constr _ _ _); [|done]. cbn [mbind option_bind].
  destruct (decide _); [|done]. destruct (copy_value _ _ _); [|done]. cbn. apply atoi_bound.
Qed.

(** The second half of [_ParseBody]. *)
Definition ParseBody_rest (m : HttpMsg) (buffer : list byte) : option (nat * HttpMsg) :=
  if negb (_bodysize m =? 0) then
    let copy_len := s32 (_bodysize m - u32 (Buffer_Size (_buffer m) - beg (_body m))) in
    let len := Z.of_nat (length buffer) in
    let over := negb (copy_len >? len) in
    let copy_len := if over then copy_len else len in
    let flag := if over then E_PARSE_OVER else _mflag m in
    b ← Buffer_Write (_buffer m) buffer (u32 copy_len);
    let body := if decide (flag = E_PARSE_OVER) then mkPos (beg (_body m)) (s32 (Buffer_Size b))
                else _body m in
    Some (Z.to_nat copy_len,
          mkMsg b (_p1 m) (_p2 m) (_p3 m) (_header m) (_header2 m) body flag (_assistflag m)
            (_header_iter m) (_bodysize m) (_header_vec m))
  else Some (0%nat, m).

Lemma hrel_inv m r :
  hrel m r → ∃ bs, buf_at (_buffer m) bs 0 ∧
    r = mkR bs (_p1 m) (_p2 m) (_p3 m) (_header m) (_header2 m) (_body m) (_mflag m)
          (_assistflag m) (_header_iter m) (_bodysize m) (_header_vec m).
Proof. intros [Hb Hr]. by exists (r_bytes r). Qed.

Ltac hrel_open Hm bs Hb :=
  let Hm' := fresh in pose proof Hm as Hm'; apply hrel_inv in Hm' as (bs & Hb & ->);
  cbn [r_bytes r_p1 r_p2 r_p3 r_header r_header2 r_body r_flag r_assist r_iter r_bodysize r_vec] in *.

Lemma ParseBody_rest_pos m r buf :
  hrel m r → fits r buf → r_flag r = E_PARSE_BODY →
  0 < r_bodysize r < 2 ^ 31 → 0 <= beg (r_body r) <= pos_of (r_bytes r) →
  pos_of (r_bytes r) - beg (r_body r) < r_bodysize r →
  res_rel (ParseBody_rest m buf) (run r buf).
Proof.
  intros Hm Hfit Hf Hbs Hbeg Hlt.
  rewrite (run_body buf r Hf) by lia. hrel_open Hm bs Hb.
  unfold ParseBody_rest. rewrite (buf_at_size _ _ _ Hb). fold (pos_of bs).
  replace (_bodysize m =? 0) with false by lia. cbn [negb].
  pose proof Hfit as Hfit'. unfold fits in Hfit'. cbn [r_bytes] in Hfit'.
  assert (0 <= pos_of bs) by (unfold pos_of; lia).
  rewrite (u32_small (pos_of _ - _)), (s32_small (_bodysize m - _)) by lia.
  set (K := _bodysize m - (pos_of bs - beg (_body m))).
  destruct (Z.gtb_spec K (Z.of_nat (length buf))) as [Hgt|Hle]; cbn [negb].
  - destruct (Nat.leb_spec (Z.to_nat K) (length buf)); [lia|].
    rewrite u32_small by lia.
    destruct (hrel_write m _ buf (length buf) Hm Hfit) as (b & -> & Hb' & Hsz); [done|].
    cbn [mbind option_bind r_bytes] in *. rewrite decide_False by (by rewrite Hf).
    rewrite take_ge in * by done.
    rewrite Nat2Z.id. split; [done|]. split; [by split|].
    split; cbn [pend_line r_flag r_bodysize r_body r_bytes]; [|by rewrite Hf]. intros _. right.
    unfold pos_of in *. len. lia.
  - destruct (Nat.leb_spec (Z.to_nat K) (length buf)); [|lia].
    assert (0 < K) by lia. rewrite u32_small by lia.
    destruct (hrel_write m _ buf (Z.to_nat K) Hm Hfit) as (b & Ew & Hb' & Hsz); [done|].
    rewrite Z2Nat.id in Ew by lia. rewrite Ew. cbn [mbind option_bind r_bytes] in *.
    rewrite decide_True by done. rewrite Hsz. split; [done|].
    assert (pos_of (bs ++ take (Z.to_nat K) buf) = pos_of bs + K) as Hp.
    { unfold pos_of. len. lia. }
    unfold body_add. cbn [r_body r_bodysize]. rewrite Hp.
    replace (_ =? _bodysize m) with true by lia. split; [by split|by split].
Qed.

Lemma Buffer_Write_huge b src len : Z.of_nat (length src) < len → Buffer_Write b src len = None.
Proof.
  intros Hl. unfold Buffer_Write.
  assert (load src 0 (Z.to_nat len) = None) as E.
  { unfold load. by rewrite (proj2 (Nat.leb_gt _ _)) by lia. }
  match goal with |- mbind _ ?x = _ => destruct x; [|done] end. cbn [mbind option_bind]. by rewrite E.
Qed.

Lemma ParseBody_refines m r buf :
  hrel m r → rinv r → fits r buf → r_flag r = E_PARSE_BODY →
  res_rel (ParseBody m buf) (run r buf).
Proof.
  intros Hm Hinv Hfit Hf. 
  unfold ParseBody. destruct (decide (buf = [])) as [->|Hne]; [done|].
  destruct (Z.eqb_spec (_bodysize m) (-1)) as [Hbs|Hbs].
  2: { cbn [mbind option_bind]. destruct Hinv as [Hinv _].
       assert (_bodysize m = r_bodysize r) as E1 by (by destruct Hm as [_ ->]).
       destruct (Hinv Hf) as [|(H1 & H2 & H3)]; [congruence|].
       change (res_rel (ParseBody_rest m buf) (run r buf)). by apply ParseBody_rest_pos. }
  hrel_open Hm bs Hb.
  unfold CheckContentLen. rewrite (buf_at_view _ _ _ Hb), drop_0.
  destruct buf as [|b0 rest]; [done|].
  rewrite run_unfold, rstep_body by done. unfold body_start. cbn [r_bodysize r_bytes r_vec]. rewrite Hbs.
  cbn [Z.eqb Pos.eqb].
  destruct (CheckContentLen_loop bs (_header_vec m)) as [sz|] eqn:Esz; [|done].
  apply CheckContentLen_bound in Esz.
  assert (size32 m = pos_of bs) as Esz32.
  { unfold size32. rewrite (buf_at_size _ _ _ Hb). fold (pos_of bs). unfold fits, pos_of in *.
    cbn [r_bytes] in *. apply s32_small. lia. }
  cbn [mbind option_bind r_bytes r_p1 r_p2 r_p3 r_header r_header2 r_body r_flag r_assist r_iter r_bodysize r_vec].
  rewrite Esz32.
  set (m1 := mkMsg (_buffer m) _ _ _ _ _ _ _ _ _ sz _).
  set (r1 := mkR bs _ _ _ _ _ _ _ _ _ sz _).
  change (res_rel (ParseBody_rest m1 (b0 :: rest))
    ('(used, r') ← (if sz =? 0 then Some (false, r1) else if sz <? 0 then None
       else Some (true, body_add r1 (bs ++ [b0])));
     if used : bool then '(n, r'') ← run r' rest; Some (S n, r'') else Some (0%nat, r'))).
  assert (hrel m1 r1) as Hm1 by (by split).
  destruct (Z.eqb_spec sz 0) as [->|Hsz].
  { cbn [mbind option_bind]. unfold ParseBody_rest. cbn. split; [done|]. split; [done|]. by split. }
  destruct (Z.ltb_spec sz 0).
  { cbn [mbind option_bind]. unfold ParseBody_rest. cbn [m1 _bodysize _buffer _body].
    replace (sz =? 0) with false by lia. cbn [negb].
    rewrite (buf_at_size _ _ _ Hb). fold (pos_of bs). cbn [beg]. rewrite Z.sub_diag.
    rewrite (u32_small 0), Z.sub_0_r, (s32_small sz) by lia.
    rewrite (Z.gtb_ltb sz), (proj2 (Z.ltb_ge _ _)) by lia. cbn [negb].
    rewrite Buffer_Write_huge; [done|].
    assert (u32 sz = sz + 2 ^ 32) as ->.
    { unfold u32. rewrite <- (Z_mod_plus_full _ 1), Z.mod_small; lia. }
    unfold fits, pos_of in Hfit. cbn [r_bytes] in Hfit. lia. }
  cbn [mbind option_bind].
  pose proof (ParseBody_rest_pos m1 r1 (b0 :: rest) Hm1 Hfit Hf) as HX.
  cbn [r1 r_bodysize r_body r_bytes beg] in HX. fold r1 in HX.
  assert (run r1 (b0 :: rest) = ('(n, r'') ← run (body_add r1 (bs ++ [b0])) rest; Some (S n, r''))) as Er.
  { rewrite run_unfold, rstep_body by done. unfold body_start. cbn [r1 r_bodysize r_bytes]. fold r1.
    replace (sz =? -1) with false by lia. cbn [mbind option_bind].
    cbn [r1 r_bodysize r_bytes]. fold r1. replace (sz =? 0) with false by lia.
    by replace (sz <? 0) with false by lia. }
  rewrite <- Er. apply HX; unfold pos_of; lia.
Qed.

(** A line that goes on after the chunk. *)
Lemma line_pending m bs b n a1 buf :
  buf_at b (bs ++ buf) 0 → buf ≠ [] → pos_of (bs ++ buf) < 2 ^ 31 →
  (∀ a', crlf_ref n buf = (length buf, false, a') → a1 = false →
     end_assist b a1 = Some a' ∧ hrel (with_buffer m b a')
       (pend_line (mkR bs (_p1 m) (_p2 m) (_p3 m) (_header m) (_header2 m) (_body m) (_mflag m)
          (_assistflag m) (_header_iter m) (_bodysize m) (_header_vec m)) (bs ++ buf) a')).
Proof.
  intros Hb Hne Hl a' E ->. pose proof (crlf_ref_bounds n buf) as Hc. rewrite E in Hc.
  destruct Hc as (_ & _ & Hc & _). destruct (Hc eq_refl) as [_ Hc'].
  split; [|by split]. apply (end_assist_spec _ bs buf); auto.
Qed.

Lemma fits_drop r r' buf n :
  fits r buf → r_bytes r' = r_bytes r ++ take n buf → fits r' (drop n buf).
Proof. unfold fits, pos_of. intros Hf ->. len. lia. Qed.

Lemma fits_bound r buf : fits r buf → pos_of (r_bytes r ++ buf) < 2 ^ 31.
Proof. unfold fits, pos_of. len. lia. Qed.

Lemma ParseHead_refines fuel : ∀ m r buf,
  (length buf < fuel)%nat → hrel m r → rinv r → fits r buf → r_flag r = E_PARSE_HEAD →
  res_rel (ParseHead fuel m buf) (run r buf).
Proof.
  induction fuel as [|fuel IH]; [lia|]. intros m r buf Hlen Hm Hinv Hfit Hf. cbn [ParseHead].
  destruct (decide (buf = [])) as [->|Hne]; [done|].
  rewrite (run_line _ _ _ end_header E_PARSE_HEAD buf r rstep_head) by done.
  pose proof (scan_crlf_spec (r_assist r) buf Hne) as Hs.
  pose proof (crlf_ref_bounds (r_assist r) buf) as Hc.
  assert (_assistflag m = r_assist r) as -> by (by destruct Hm as [_ ->]).
  destruct (crlf_ref (r_assist r) buf) as [[n hit] a'] eqn:Ec.
  destruct Hs as (a1 & -> & Ha1). destruct Hc as (Hn & Hn0 & Hmiss & _). specialize (Hn0 Hne).
  destruct (hrel_write m r buf n Hm Hfit Hn) as (b & -> & Hb' & Hsz). cbn [mbind option_bind].
  destruct hit.
  - rewrite Hsz. pose proof (fits_drop r (end_header r (r_bytes r ++ take n buf)) buf n Hfit eq_refl) as Hfit'.
    assert (rinv (end_header r (r_bytes r ++ take n buf))) as Hinv'.
    { destruct Hinv as [_ Hinv]. unfold rinv, end_header. cbn [r_flag r_bodysize r_body r_bytes].
      rewrite Hinv by (rewrite Hf; done). split; [by left|done]. }
    hrel_open Hm bs Hb. cbn [beg end_]. 
    set (bs' := bs ++ take n buf) in *.
    destruct (beg (_header2 m) + 2 =? pos_of bs') eqn:Eend; apply res_rel_shift.
    + apply ParseBody_refines; [|done|done|].
      * split; [done|]. unfold end_header. cbn. by rewrite Eend.
      * unfold end_header. cbn. by rewrite Eend.
    + apply IH; [|..|done|done|].
      * rewrite length_drop. lia.
      * split; [done|]. unfold end_header. cbn. by rewrite Eend.
      * unfold end_header. cbn. by rewrite Eend.
  - destruct (Hmiss eq_refl) as [-> _]. rewrite take_ge in * by done. 
    pose proof (fits_bound _ _ Hfit) as Hbd. specialize (Ha1 eq_refl). hrel_open Hm bs Hb.
    edestruct (line_pending m) as [-> Hrel]; [exact Hb'|done|done|exact Ec|done|].
    cbn [mbind option_bind]. split; [done|]. split; [done|].
    destruct Hinv as [_ Hinv]. unfold rinv. cbn in *. rewrite Hf in *. split; [done|intros; by apply Hinv].
Qed.

(** The third field of the first line. *)
Lemma ParseField3_refines m r buf :
  hrel m r → rinv r → fits r buf → r_flag r = F3 → res_rel (ParseField3 m buf) (run r buf).
Proof.
  intros Hm Hinv Hfit Hf. unfold ParseField3.
  destruct (decide (buf = [])) as [->|Hne]; [done|].
  rewrite (run_line _ _ _ end_line F3 buf r rstep_F3) by done.
  pose proof (scan_crlf_spec (r_assist r) buf Hne) as Hs.
  pose proof (crlf_ref_bounds (r_assist r) buf) as Hc.
  assert (_assistflag m = r_assist r) as -> by (by destruct Hm as [_ ->]).
  assert (r_bodysize r = -1) as Hbs by (destruct Hinv as [_ Hinv]; apply Hinv; rewrite Hf; set_solver).
  destruct (crlf_ref (r_assist r) buf) as [[n hit] a'] eqn:Ec.
  destruct Hs as (a1 & -> & Ha1). destruct Hc as (Hn & Hn0 & Hmiss & _).
  destruct (hrel_write m r buf n Hm Hfit Hn) as (b & -> & Hb' & Hsz). cbn [mbind option_bind].
  destruct hit.
  - rewrite Hsz. apply res_rel_shift.
    pose proof (fits_drop r (end_line r (r_bytes r ++ take n buf)) buf n Hfit eq_refl) as Hfit'.
    hrel_open Hm bs Hb. apply ParseHead_refines; [|by split|by split|done|done].
    rewrite length_drop. lia.
  - destruct (Hmiss eq_refl) as [-> _]. rewrite take_ge in * by done.
    pose proof (fits_bound _ _ Hfit) as Hbd. specialize (Ha1 eq_refl). hrel_open Hm bs Hb.
    edestruct (line_pending m) as [-> Hrel]; [exact Hb'|done|done|exact Ec|done|].
    cbn [mbind option_bind]. split; [done|]. split; [done|].
    unfold rinv. cbn. rewrite Hf. split; [intros Hf'; exfalso; set_solver|done].
Qed.

(** A field ended by a space. *)
Lemma field_refines m r buf fin f (mk : Buffer → HttpMsg) (next : HttpMsg → list byte → option (nat * HttpMsg)) :
  (∀ r b, r_flag r = f → rstep r b = Some (true, step_field fin r b)) →
  (∀ r bs bs', fin (pend_line r bs (r_assist r)) bs' = fin r bs') →
  f ≠ E_PARSE_BODY → f ≠ E_PARSE_OVER →
  hrel m r → rinv r → fits r buf → r_flag r = f →
  (∀ bs, r_bytes (fin r bs) = bs) →
  (∀ b bs buf', buf_at b bs 0 → s32 (Buffer_Size b) = pos_of bs → r_bodysize r = -1 →
     fits (fin r bs) buf' →
     res_rel (next (mk b) buf') (run (fin r bs) buf')) →
  res_rel (let (copy_len, hit) := Parse1 SP buf in
    b ← Buffer_Write (_buffer m) buf (Z.of_nat copy_len);
    if hit : bool then '(n, m) ← next (mk b) (drop copy_len buf); Some ((copy_len + n)%nat, m)
    else Some (copy_len, with_buffer m b (_assistflag m))) (run r buf).
Proof.
  intros Hstep Hfin Hf1 Hf2 Hm Hinv Hfit Hf Hbytes Hnext.
  assert (r_bodysize r = -1) as Hbs by (destruct Hinv as [_ Hinv]; apply Hinv; by rewrite Hf).
  rewrite (run_field _ _ _ fin f buf r Hstep Hfin Hf).
  destruct (Parse1 SP buf) as [n hit] eqn:E. apply Parse1_spec in E as [Hn Hs].
  destruct (hrel_write m r buf n Hm Hfit Hn) as (b & -> & Hb' & Hsz). cbn [mbind option_bind].
  destruct hit.
  - apply res_rel_shift. apply Hnext; try done. eapply fits_drop; [done|apply Hbytes].
  - destruct Hs as [-> _]. rewrite take_ge in Hb' by done. split; [done|]. hrel_open Hm bs Hb. split; [by split|].
    unfold rinv. cbn. rewrite Hf. by split.
Qed.

Lemma ParseField2_refines m r buf :
  hrel m r → rinv r → fits r buf → r_flag r = F2 → res_rel (ParseField2 F3 m buf) (run r buf).
Proof.
  intros Hm Hinv Hfit Hf. unfold ParseField2.
  destruct (decide (buf = [])) as [->|Hne]; [done|].
  apply (field_refines m r buf (end_field2 F3) F2
    (λ b, mkMsg b (_p1 m) (mkPos (beg (_p2 m)) (s32 (Buffer_Size b) - 1))
       (mkPos (s32 (Buffer_Size b)) (end_ (_p3 m))) (_header m) (_header2 m) (_body m) F3
       (_assistflag m) (_header_iter m) (_bodysize m) (_header_vec m)) ParseField3);
    try done; [exact rstep_F2|set_solver|set_solver|].
  intros b bs buf' Hb Hs Hbs Hfit'. hrel_open Hm xs Hb0. rewrite Hs.
  apply ParseField3_refines; [by split| |done|done].
  unfold rinv, end_field2. cbn [r_flag r_bodysize]. split; [set_solver|done].
Qed.

Lemma ParseField1_refines m r buf :
  hrel m r → rinv r → fits r buf → r_flag r = F1 → res_rel (ParseField1 F2 F3 m buf) (run r buf).
Proof.
  intros Hm Hinv Hfit Hf. unfold ParseField1.
  apply (field_refines m r buf (end_field1 F2) F1
    (λ b, mkMsg b (mkPos (beg (_p1 m)) (s32 (Buffer_Size b) - 1))
       (mkPos (s32 (Buffer_Size b)) (end_ (_p2 m))) (_p3 m) (_header m) (_header2 m) (_body m) F2
       (_assistflag m) (_header_iter m) (_bodysize m) (_header_vec m)) (ParseField2 F3));
    try done; [exact rstep_F1|set_solver|set_solver|].
  intros b bs buf' Hb Hs Hbs Hfit'. hrel_open Hm xs Hb0. rewrite Hs.
  apply ParseField2_refines; [by split| |done|done].
  unfold rinv, end_field1. cbn [r_flag r_bodysize]. split; [set_solver|done].
Qed.

Definition rflags (f : parse_flag) : Prop := f ∈ [F1; F2; F3; E_PARSE_HEAD; E_PARSE_BODY; E_PARSE_OVER].

Lemma Parse_refines_run m r buf :
  hrel m r → rinv r → fits r buf → rflags (r_flag r) →
  res_rel (Parse F1 F2 F3 m buf) (run r buf).
Proof.
  intros Hm Hinv Hfit Hfl. unfold Parse.
  assert (_mflag m = r_flag r) as -> by (by destruct Hm as [_ ->]).
  destruct (decide (r_flag r = F1)); [by apply ParseField1_refines|].
  destruct (decide (r_flag r = F2)); [by apply ParseField2_refines|].
  destruct (decide (r_flag r = F3)); [by apply ParseField3_refines|].
  unfold rflags in Hfl. rewrite !elem_of_cons in Hfl.
  destruct Hfl as [?|[?|[?|[E|[E|[E|Hfl]]]]]]; [done|done|done|..]; [..|by apply not_elem_of_nil in Hfl].
  - rewrite E. apply ParseHead_refines; [lia|done..].
  - rewrite E. by apply ParseBody_refines.
  - rewrite E, run_over by done. by split.
Qed.
(** ** Runs over several chunks *)

(** What the reference keeps: its flag is one of the class's, a body that is being
    read is not empty, and no length is known before the header ends. *)
Definition rok (r : RMsg) : Prop :=
  rflags (r_flag r) ∧ (r_flag r = E_PARSE_BODY → r_bodysize r ≠ 0) ∧
  (r_flag r ≠ E_PARSE_BODY → r_flag r ≠ E_PARSE_OVER → r_bodysize r = -1).

Lemma rok_flag r : rok r →
  r_flag r = F1 ∨ r_flag r = F2 ∨ r_flag r = F3 ∨ r_flag r = E_PARSE_HEAD ∨
  r_flag r = E_PARSE_BODY ∨ r_flag r = E_PARSE_OVER.
Proof. intros [Hr _]. unfold rflags in Hr. set_solver. Qed.

Lemma rok_line r bs a : r_bodysize r = -1 → rflags (r_flag r) → rok (pend_line r bs a).
Proof. intros Hbs Hfl. unfold rok. cbn. rewrite Hbs. by split_and!. Qed.

Lemma rstep_ok r b used r' : rok r → rstep r b = Some (used, r') →
  rok r' ∧ if used then r_bytes r' = r_bytes r ++ [b] else r_bytes r' = r_bytes r ∧ r_flag r' = E_PARSE_OVER.
Proof.
  intros Hok. pose proof Hok as (Hfl & Hb0 & Hb1).
  destruct (rok_flag r Hok) as [E|[E|[E|[E|[E|E]]]]].
  - rewrite rstep_F1 by done. intros [= <- <-].
    assert (r_bodysize r = -1) as Hbs by (apply Hb1; rewrite E; set_solver).
    unfold step_field. destruct (decide _); (split; [|done]); [|by apply rok_line].
    unfold rok, end_field1. cbn. rewrite Hbs. split_and!; [unfold rflags; set_solver|done|done].
  - rewrite rstep_F2 by done. intros [= <- <-].
    assert (r_bodysize r = -1) as Hbs by (apply Hb1; rewrite E; set_solver).
    unfold step_field. destruct (decide _); (split; [|done]); [|by apply rok_line].
    unfold rok, end_field2. cbn. rewrite Hbs. split_and!; [unfold rflags; set_solver|done|done].
  - rewrite rstep_F3 by done. intros [= <- <-].
    assert (r_bodysize r = -1) as Hbs by (apply Hb1; rewrite E; set_solver).
    unfold step_line. destruct (_ && _); (split; [|done]); [|by apply rok_line].
    unfold rok, end_line. cbn. rewrite Hbs. split_and!; [unfold rflags; set_solver|done|done].
  - rewrite rstep_head by done. intros [= <- <-].
    assert (r_bodysize r = -1) as Hbs by (apply Hb1; by rewrite E).
    unfold step_line. destruct (_ && _); (split; [|done]); [|by apply rok_line].
    unfold rok, end_header. cbn. rewrite Hbs.
    split_and!; [unfold rflags; destruct (_ =? _); set_solver|done|done].
  - rewrite rstep_body by done. specialize (Hb0 E). unfold body_start.
    destruct (Z.eqb_spec (r_bodysize r) (-1)) as [Hm|Hm].
    + destruct (CheckContentLen_loop _ _) as [sz|]; [|done]. cbn [mbind option_bind r_bodysize r_bytes].
      destruct (Z.eqb_spec sz 0) as [->|Hz].
      * intros [= <- <-]. split; [|by split]. unfold rok. cbn. split_and!; [unfold rflags; set_solver|done|done].
      * destruct (sz <? 0); [done|]. intros [= <- <-]. split; [|done].
        unfold rok, body_add. cbn. destruct (_ =? sz); rewrite ?E; split_and!; try done; unfold rflags; set_solver.
    + cbn [mbind option_bind]. destruct (Z.eqb_spec (r_bodysize r) 0) as [|_]; [done|].
      destruct (_ <? 0); [done|]. intros [= <- <-]. split; [|done].
      unfold rok, body_add. cbn. destruct (_ =? _); rewrite ?E; split_and!; try done; unfold rflags; set_solver.
  - destruct (rstep r b) as [[u r1]|] eqn:Es; [|done]. unfold HttpSpec.rstep in Es.
    rewrite !decide_False in Es by (rewrite E; set_solver). rewrite E in Es. simplify_eq.
    intros [= <- <-]. by split.
Qed.

Lemma run_ok buf : ∀ r n r', rok r → run r buf = Some (n, r') →
  rok r' ∧ r_bytes r' = r_bytes r ++ take n buf ∧ (n ≤ length buf)%nat ∧
  ((n < length buf)%nat → r_flag r' = E_PARSE_OVER).
Proof.
  induction buf as [|b rest IH]; intros r n r' Hok Hrun.
  - injection Hrun as <- <-. rewrite app_nil_r. split_and!; [done|done|simpl; lia|simpl; lia].
  - rewrite run_unfold in Hrun. destruct (rstep r b) as [[used r1]|] eqn:Es; [|done].
    cbn [mbind option_bind] in Hrun. apply rstep_ok in Es as [Hok1 Hb1]; [|done]. destruct used.
    + destruct (run r1 rest) as [[k r2]|] eqn:Er; [|done]. cbn in Hrun. injection Hrun as <- <-.
      destruct (IH _ _ _ Hok1 Er) as (H1 & H2 & H3 & H4). split; [done|].
      rewrite H2, Hb1, <- app_assoc. cbn [length]. split_and!; [done|lia|]. intros. apply H4. lia.
    + injection Hrun as <- <-. destruct Hb1 as [H1 H2]. cbn [firstn]. rewrite app_nil_r.
      split_and!; [done|done|lia|done].
Qed.

Lemma run_app a b : ∀ r, rok r →
  run r (a ++ b) = ('(n, r') ← run r a; '(k, r'') ← run r' b; Some ((n + k)%nat, r'')).
Proof.
  induction a as [|x a IH]; intros r Hok.
  - cbn [app HttpSpec.run mbind option_bind]. by destruct (run r b) as [[??]|].
  - rewrite <- app_comm_cons, !run_unfold. destruct (rstep r x) as [[used r1]|] eqn:Es; [|done].
    cbn [mbind option_bind]. apply rstep_ok in Es as [Hok1 Hb1]; [|done]. destruct used.
    + rewrite IH by done. destruct (run r1 a) as [[n r2]|]; [|done]. cbn [mbind option_bind].
      by destruct (run r2 b) as [[k r3]|].
    + cbn [mbind option_bind]. by rewrite (run_over r1 b) by apply Hb1.
Qed.

(** The parser fed chunk by chunk, as the reads of a socket deliver them. *)
Fixpoint Parse_chunks (m : HttpMsg) (chunks : list (list byte)) : option (nat * HttpMsg) :=
  match chunks with
  | [] => Some (0%nat, m)
  | c :: cs => '(n, m) ← Parse F1 F2 F3 m c; '(k, m) ← Parse_chunks m cs; Some ((n + k)%nat, m)
  end.

Lemma Parse_chunks_refines chunks : ∀ m r, hrel m r → rinv r → rok r → fits r (concat chunks) →
  res_rel (Parse_chunks m chunks) (run r (concat chunks)).
Proof.
  induction chunks as [|c cs IH]; intros m r Hm Hinv Hok Hfit; [done|].
  cbn [Parse_chunks concat]. rewrite run_app by done. cbn [concat] in Hfit.
  assert (fits r c) as Hfc by (unfold fits in *; rewrite length_app in Hfit; lia).
  pose proof (Parse_refines_run m r c Hm Hinv Hfc (proj1 Hok)) as Hp.
  destruct (Parse F1 F2 F3 m c) as [[n m1]|], (run r c) as [[n' r1]|] eqn:Er; try done.
  destruct Hp as (<- & Hm1 & Hinv1). cbn [mbind option_bind].
  destruct (run_ok _ _ _ _ Hok Er) as (Hok1 & Hb1 & Hn & _).
  assert (fits r1 (concat cs)) as Hf1.
  { unfold fits, pos_of in *. rewrite Hb1. rewrite length_app in Hfit. len. lia. }
  specialize (IH m1 r1 Hm1 Hinv1 Hok1 Hf1).
  destruct (Parse_chunks m1 cs) as [[k m2]|], (run r1 (concat cs)) as [[k' r2]|]; try done.
  destruct IH as (<- & ? & ?). done.
Qed.

(** The state after [Clear]. *)
Definition r_init : RMsg := mkR [] pos0 pos0 pos0 pos0 pos0 pos0 F1 false 0 (-1) [].

Lemma hrel_new : hrel (HttpMsg_new F1) r_init ∧ rinv r_init ∧ rok r_init.
Proof.
  split_and!.
  - split; [|done]. cbn [r_bytes r_init HttpMsg_new HttpMsg_Clear _buffer].
    eapply buf_at_clear. apply buf_at_new.
  - unfold rinv. cbn. split; [intros Hf; exfalso; set_solver|done].
  - unfold rok, rflags. cbn. split_and!; [set_solver|done|done].
Qed.

Lemma Parse_chunks_new chunks :
  Z.of_nat (length (concat chunks)) < 2 ^ 31 - 1024 →
  res_rel (Parse_chunks (HttpMsg_new F1) chunks) (run r_init (concat chunks)).
Proof. intros Hl. destruct hrel_new as (?&?&?). apply Parse_chunks_refines; try done. Qed.
End refine.
