(* ===== verification/HttpProps.v ===== *)
(** * What the HTTP parsers and the response builder promise

    [Parse_refines_reference]: fed with any chunks, the parsers compute the
    byte-at-a-time reference of [HttpSpec.v].  [request_parsed]: a well-formed
    request is cut into its fields.  [response_roundtrip]: what [HttpSvrSendMsg]
    builds, [HttpCliRecvMsg] reads back.  The last theorems state where the
    parsers fail. *)

From Stdlib Require Import ZArith Lia List Strings.String Strings.Byte Init.Byte.
From stdpp Require Import base numbers list option sets.
From S2P Require Import Prelude Buffer HttpMsg HttpSpec.

#[local] Set Warnings "-clear-no-such-hyp".
#[local] Existing Instance zero_malloc.

(** ** Messages as byte strings *)

Record http_text := mkText {
  t_1 : list byte; t_2 : list byte; t_3 : list byte;
  t_headers : list (list byte); t_body : list byte
}.

Definition first_line (t : http_text) : list byte :=
  t_1 t ++ [SP] ++ t_2 t ++ [SP] ++ t_3 t ++ [CR; LF].
Definition header_text (hs : list (list byte)) : list byte := concat (map (λ h, h ++ [CR; LF]) hs).
Definition encode (t : http_text) : list byte :=
  first_line t ++ header_text (t_headers t) ++ [CR; LF] ++ t_body t.

Definition line_ok (h : list byte) : Prop := h ≠ [] ∧ CR ∉ h.

Definition text_ok (t : http_text) : Prop :=
  (SP ∉ t_1 t) ∧ (SP ∉ t_2 t) ∧ (CR ∉ t_3 t) ∧ Forall line_ok (t_headers t).

(** The value of a string of digits. *)
Definition dec_val (ds : list byte) : Z := fold_left (λ a c, 10 * a + (byte_val c - 48)) ds 0.

(** The first header that looks like a length is one, and it is that of the body. *)
Definition length_ok (t : http_text) : Prop :=
  ∃ pre ds post, t_headers t = pre ++ (B["Content-Length: "] ++ ds) :: post ∧
    Forall (λ h, ¬ B["Content-Length"] `prefix_of` h) pre ∧
    ds ≠ [] ∧ (length ds ≤ 10)%nat ∧ Forall (λ c, is_digit c = true) ds ∧
    dec_val ds = Z.of_nat (length (t_body t)) ∧ t_body t ≠ [].

(** ** Scanning well-formed pieces *)

Lemma Parse1_found pre rest : SP ∉ pre → Parse1 SP (pre ++ SP :: rest) = (S (length pre), true).
Proof.
  intros Hn. unfold Parse1.
  assert (Parse1_loop SP (pre ++ SP :: rest) = (length pre, true)) as ->.
  { induction pre as [|c pre IH]; cbn [app Parse1_loop]; [done|].
    apply not_elem_of_cons in Hn as [Hc Hn]. rewrite decide_False by done. by rewrite IH. }
  rewrite decide_True by (len; simpl; lia). f_equal. lia.
Qed.

Lemma crlf_ref_found pre rest a : CR ∉ pre → (a = false ∨ pre = []) →
  crlf_ref false (pre ++ CR :: LF :: rest) = (length pre + 2, true, false)%nat.
Proof.
  intros Hn _. induction pre as [|c pre IH]; cbn [app crlf_ref andb]; [done|].
  apply not_elem_of_cons in Hn as [Hc Hn]. rewrite bool_decide_false by done. by rewrite IH.
Qed.

Lemma prefix_cons_iff (x y : byte) l1 l2 :
  (x :: l1) `prefix_of` (y :: l2) ↔ x = y ∧ l1 `prefix_of` l2.
Proof.
  split; [intros Hp; split; [by eapply prefix_cons_inv_1|by eapply prefix_cons_inv_2]|].
  intros [-> Hp]. by apply prefix_cons.
Qed.

Lemma cmp_constr_spec key c : SP ∉ key → c ≠ SP → ∀ line k,
  (length key + 1 ≤ length line)%nat →
  ∃ at_, cmp_constr line (key ++ [c; SP]) k = Some at_ ∧ (at_ ≤ k + length key + 1)%nat ∧
    (at_ = (k + length key + 1)%nat ↔ key `prefix_of` line).
Proof.
  intros Hn Hc. induction key as [|s key IH]; intros line k Hl.
  - destruct line as [|l line]; [simpl in Hl; lia|]. cbn [app cmp_constr].
    rewrite decide_False by done. exists (S k).
    assert ((if decide (l = c) then cmp_constr line [SP] (S k) else Some (S k)) = Some (S k)) as ->
      by (destruct (decide (l = c)); [|done]; destruct line; cbn [cmp_constr]; by destruct (decide (SP = SP))).
    split_and!; [done|simpl; lia|].
    split; [intros; apply prefix_nil|intros; simpl; lia].
  - apply not_elem_of_cons in Hn as [Hs Hn]. destruct line as [|l line]; [simpl in Hl; lia|].
    cbn [app cmp_constr]. rewrite decide_False by done. simpl in Hl.
    destruct (decide (l = s)) as [->|Hls].
    + destruct (IH Hn line (S k)) as (at_ & E & H1 & H2); [lia|]. exists at_. simpl.
      split_and!; [done|lia|]. rewrite prefix_cons_iff. replace (k + S (length key) + 1)%nat
        with (S k + length key + 1)%nat by lia. rewrite H2. naive_solver.
    + exists (S k). split_and!; [done|simpl; lia|]. rewrite prefix_cons_iff. simpl.
      split; [lia|naive_solver].
Qed.

Lemma constr_space at_ : (at_ ≤ 15)%nat → constr !! at_ = Some SP ↔ at_ = 15%nat.
Proof.
  intros Hl. do 16 (destruct at_ as [|at_]; [by split|]). lia.
Qed.

Lemma store_one pre p d post : store (pre ++ p :: post) (length pre) [d] = Some ((pre ++ [d]) ++ post).
Proof.
  rewrite store_ok by (len; simpl; lia). rewrite take_app_length, drop_app_ge by lia. simpl.
  replace (length pre + 1 - length pre)%nat with 1%nat by lia. by rewrite <- app_assoc.
Qed.

Lemma copy_value_spec ds rest : CR ∉ ds → ∀ pre post,
  (length ds ≤ length post)%nat →
  copy_value (ds ++ CR :: rest) (pre ++ post) (length pre) = Some (pre ++ ds ++ drop (length ds) post).
Proof.
  induction ds as [|d ds IH]; intros Hn pre post Hl; cbn [app copy_value].
  - rewrite decide_True by done. done.
  - apply not_elem_of_cons in Hn as [Hd Hn]. rewrite decide_False by done.
    destruct post as [|p post]; [simpl in Hl; lia|]. simpl in Hl.
    rewrite store_one. cbn [mbind option_bind].
    replace (S (length pre)) with (length (pre ++ [d])) by (len; simpl; lia).
    rewrite IH by (done || lia). rewrite <- app_assoc. done.
Qed.

Lemma atoi_digits_spec ds t : Forall (λ c, is_digit c = true) ds → ∀ acc,
  atoi_digits (ds ++ x00 :: t) acc = Some (fold_left (λ a c, 10 * a + (byte_val c - 48)) ds acc).
Proof.
  induction 1 as [|d ds Hd _ IH]; intros acc; [done|]. cbn [app atoi_digits fold_left]. by rewrite Hd.
Qed.

Lemma digit_not d : is_digit d = true → is_space d = false ∧ d ≠ x2d ∧ d ≠ x2b ∧ d ≠ CR.
Proof.
  unfold is_digit, is_space. intros Hd. split_and!; [lia|..]; intros ->; by vm_compute in Hd.
Qed.

Lemma atoi_spec ds t : ds ≠ [] → Forall (λ c, is_digit c = true) ds →
  0 <= dec_val ds < 2 ^ 31 → atoi (ds ++ x00 :: t) = Some (dec_val ds).
Proof.
  intros Hne Hd Hb. destruct ds as [|d ds]; [done|].
  pose proof (atoi_digits_spec (d :: ds) t Hd 0) as E. inversion Hd as [|?? Hd0 _]; subst.
  destruct (digit_not d Hd0) as (H1 & H2 & H3 & _).
  cbn [app atoi] in *. rewrite H1. rewrite !decide_False by done. rewrite E. cbn [mbind option_bind].
  by rewrite s32_small by (unfold dec_val in Hb; lia).
Qed.

(** ** The length of the body *)

(** The positions of the header lines from [at_] on, the empty one included. *)
Fixpoint hvec (at_ : Z) (hs : list (list byte)) : list strpos :=
  match hs with
  | [] => [mkPos at_ (at_ + 2)]
  | h :: hs => let e := at_ + pos_of h + 2 in mkPos at_ e :: hvec e hs
  end.

Lemma prefix_app_short (k h x : list byte) :
  k `prefix_of` (h ++ x) → (length k ≤ length h)%nat → k `prefix_of` h.
Proof.
  intros [y E] Hl. exists (drop (length k) h). rewrite <- (take_drop (length k) h) at 1. f_equal.
  apply (f_equal (take (length k))) in E. rewrite take_app_le, take_app_length in E by done. done.
Qed.

Lemma constr_split : constr = B["Content-Length"] ++ [x3a; SP].
Proof. done. Qed.

Lemma header_line_drop (front : list byte) x : drop (Z.to_nat (pos_of front)) (front ++ x) = x.
Proof. unfold pos_of. by rewrite Nat2Z.id, drop_app_length. Qed.

Lemma check_skip h front x vec :
  CR ∉ h → ¬ B["Content-Length"] `prefix_of` h →
  CheckContentLen_loop (front ++ h ++ [CR; LF] ++ x)
    (mkPos (pos_of front) (pos_of front + pos_of h + 2) :: vec) =
  CheckContentLen_loop (front ++ h ++ [CR; LF] ++ x) vec.
Proof.
  intros Hn Hp. cbn [CheckContentLen_loop beg end_]. destruct (Z.ltb_spec (pos_of front + pos_of h + 2 - pos_of front) 18) as [|Hl]; [done|].
  rewrite header_line_drop, constr_split.
  assert (16 ≤ length h)%nat as Hlh by (unfold pos_of in Hl; lia).
  destruct (cmp_constr_spec B["Content-Length"] x3a) with (line := h ++ [CR; LF] ++ x) (k := 0%nat)
    as (at_ & -> & H1 & H2); [vm_compute; set_solver|done|len; simpl; lia|].
  cbn [mbind option_bind]. rewrite <- constr_split. rewrite decide_False; [done|].
  rewrite constr_space by (simpl in H1; lia). intros ->. apply Hp.
  eapply prefix_app_short; [by apply H2|simpl; lia].
Qed.

Lemma check_found ds front x vec :
  ds ≠ [] → (length ds ≤ 10)%nat → Forall (λ c, is_digit c = true) ds → 0 <= dec_val ds < 2 ^ 31 →
  let h := B["Content-Length: "] ++ ds in
  CheckContentLen_loop (front ++ h ++ [CR; LF] ++ x)
    (mkPos (pos_of front) (pos_of front + pos_of h + 2) :: vec) = Some (dec_val ds).
Proof.
  intros Hne Hl Hd Hb h. cbn [CheckContentLen_loop beg end_].
  destruct (Z.ltb_spec (pos_of front + pos_of h + 2 - pos_of front) 18) as [Hlt|_].
  { destruct ds; [done|]. unfold h, pos_of in Hlt. rewrite length_app in Hlt. simpl in Hlt. lia. }
  rewrite header_line_drop, constr_split.
  destruct (cmp_constr_spec B["Content-Length"] x3a) with (line := h ++ [CR; LF] ++ x) (k := 0%nat)
    as (at_ & -> & H1 & H2); [vm_compute; set_solver|done|unfold h; len; simpl; lia|].
  assert (at_ = 15%nat) as ->.
  { apply H2. unfold h. exists ([x3a; SP] ++ ds ++ [CR; LF] ++ x).
    change B["Content-Length: "] with (B["Content-Length"] ++ [x3a; SP]). by rewrite <- !app_assoc. }
  cbn [mbind option_bind]. rewrite decide_True by done.
  replace (drop (15 + 1) (h ++ [CR; LF] ++ x)) with (ds ++ CR :: LF :: x) by done.
  assert (CR ∉ ds) as Hcr.
  { intros Hin. rewrite Forall_forall in Hd. apply Hd in Hin. by vm_compute in Hin. }
  pose proof (copy_value_spec ds (LF :: x) Hcr [] (replicate 11 x00)) as E. cbn [app length] in E.
  rewrite E by (len; lia). cbn [mbind option_bind].
  rewrite drop_replicate. replace (11 - length ds)%nat with (S (10 - length ds)) by lia.
  cbn [replicate]. by apply atoi_spec.
Qed.

Lemma check_headers pre ds post tl : 
  Forall line_ok pre → Forall (λ h, ¬ B["Content-Length"] `prefix_of` h) pre →
  ds ≠ [] → (length ds ≤ 10)%nat → Forall (λ c, is_digit c = true) ds → 0 <= dec_val ds < 2 ^ 31 →
  let hs := pre ++ (B["Content-Length: "] ++ ds) :: post in
  ∀ front, CheckContentLen_loop (front ++ header_text hs ++ tl) (hvec (pos_of front) hs) = Some (dec_val ds).
Proof.
  intros Hok Hp H1 H2 H3 H4. induction pre as [|h pre IH]; intros hs front.
  - unfold hs, header_text. cbn [app map concat hvec]. rewrite <- !app_assoc. by apply check_found.
  - unfold hs, header_text. cbn [app map concat hvec]. rewrite <- !app_assoc.
    apply Forall_cons in Hok as [Hh Hok]. apply Forall_cons in Hp as [Hph Hp].
    rewrite check_skip; [|apply Hh|done].
    specialize (IH Hok Hp (front ++ h ++ [CR; LF])). cbn zeta in IH.
    rewrite <- !app_assoc in IH. unfold header_text in IH.
    replace (pos_of (front ++ h ++ [CR; LF])) with (pos_of front + pos_of h + 2) in IH
      by (unfold pos_of; len; simpl; lia).
    exact IH.
Qed.

(** ** Runs on well-formed messages *)

Section text.
Variables F1 F2 F3 : parse_flag.
Hypothesis HF1 : F1 ∉ [E_PARSE_HEAD; E_PARSE_BODY; E_PARSE_OVER].
Hypothesis HF2 : F2 ∉ [F1; E_PARSE_HEAD; E_PARSE_BODY; E_PARSE_OVER].
Hypothesis HF3 : F3 ∉ [F1; F2; E_PARSE_HEAD; E_PARSE_BODY; E_PARSE_OVER].
Abbreviation run := (run F1 F2 F3).

Lemma run_field_found fin f a rest r :
  (∀ r b, r_flag r = f → rstep F1 F2 F3 r b = Some (true, step_field fin r b)) →
  (∀ r bs bs', fin (pend_line r bs (r_assist r)) bs' = fin r bs') → r_flag r = f → SP ∉ a →
  run r (a ++ [SP] ++ rest) = shift (length (a ++ [SP])) (run (fin r (r_bytes r ++ a ++ [SP])) rest).
Proof.
  intros Hs Hfin Hf Ha. rewrite (run_field _ _ _ fin f _ _ Hs Hfin Hf). cbn [app].
  rewrite Parse1_found by done.
  replace (S (length a)) with (length (a ++ [SP])) by (len; simpl; lia).
  replace (a ++ SP :: rest) with ((a ++ [SP]) ++ rest) by by rewrite <- app_assoc.
  by rewrite take_app_length, drop_app_length.
Qed.

Lemma run_line_found fin f a rest r :
  (∀ r b, r_flag r = f → rstep F1 F2 F3 r b = Some (true, step_line fin r b)) →
  (∀ r bs a bs', fin (pend_line r bs a) bs' = fin r bs') → r_flag r = f → r_assist r = false → CR ∉ a →
  run r (a ++ [CR; LF] ++ rest) =
    shift (length (a ++ [CR; LF])) (run (fin r (r_bytes r ++ a ++ [CR; LF])) rest).
Proof.
  intros Hs Hfin Hf Has Ha. rewrite (run_line _ _ _ fin f _ _ Hs Hfin Hf), Has. cbn [app].
  rewrite (crlf_ref_found a rest false) by auto.
  replace (length a + 2)%nat with (length (a ++ [CR; LF])) by (len; simpl; lia).
  replace (a ++ CR :: LF :: rest) with ((a ++ [CR; LF]) ++ rest) by by rewrite <- app_assoc.
  by rewrite take_app_length, drop_app_length.
Qed.

(** After the first line. *)
Definition r_head (t : http_text) : RMsg :=
  let l := pos_of (first_line t) in
  let b2 := pos_of (t_1 t) + 1 in
  let b3 := b2 + pos_of (t_2 t) + 1 in
  mkR (first_line t) (mkPos 0 (pos_of (t_1 t))) (mkPos b2 (b2 + pos_of (t_2 t)))
    (mkPos b3 (b3 + pos_of (t_3 t))) (mkPos l 0) (mkPos l 0) pos0 E_PARSE_HEAD false 0 (-1) [].

Lemma run_first_line t rest : text_ok t →
  run (r_init F1) (first_line t ++ rest) = shift (length (first_line t)) (run (r_head t) rest).
Proof.
  intros (H1 & H2 & H3 & _). unfold first_line. rewrite <- !(app_assoc (t_1 t)), <- !app_assoc.
  rewrite (run_field_found _ F1 (t_1 t) _ _ (rstep_F1 F1 F2 F3)) by done.
  rewrite (run_field_found _ F2 (t_2 t) _ _ (rstep_F2 F1 F2 F3 HF1 HF2 HF3)) by done.
  rewrite (run_line_found _ F3 (t_3 t) rest _ (rstep_F3 F1 F2 F3 HF1 HF2 HF3)) by done.
  rewrite !shift_shift. f_equal; [len; simpl; lia|].
  f_equal. unfold r_head, end_line, end_field2, end_field1, r_init, first_line. cbn.
  rewrite <- !app_assoc. cbn [app]. f_equal; f_equal; unfold pos_of; len; simpl; lia.
Qed.

(** After the header [hs], in the state [r] at its start. *)
Definition r_end (r : RMsg) (hs : list (list byte)) : RMsg :=
  let bs := r_bytes r ++ header_text hs ++ [CR; LF] in
  mkR bs (r_p1 r) (r_p2 r) (r_p3 r) (mkPos (beg (r_header r)) (pos_of bs))
    (mkPos (pos_of bs - 2) (pos_of bs)) (r_body r) E_PARSE_BODY false (r_iter r) (r_bodysize r)
    (r_vec r ++ hvec (pos_of (r_bytes r)) hs).

Lemma run_headers hs rest : Forall line_ok hs → ∀ r,
  r_flag r = E_PARSE_HEAD → r_assist r = false → r_header2 r = mkPos (pos_of (r_bytes r)) 0 →
  run r (header_text hs ++ [CR; LF] ++ rest) =
    shift (length (header_text hs ++ [CR; LF])) (run (r_end r hs) rest).
Proof.
  induction 1 as [|h hs [Hne Hcr] _ IH]; intros r Hf Ha Hh2.
  - cbn [header_text map concat app].
    rewrite (run_line_found end_header _ [] rest _ (rstep_head F1 F2 F3 HF1 HF2 HF3))
      by (done || apply not_elem_of_nil).
    cbn [app]. do 2 f_equal. unfold end_header, r_end. rewrite Hh2. cbn [beg end_ hvec header_text map concat app].
    assert (pos_of (r_bytes r ++ [CR; LF]) = pos_of (r_bytes r) + 2) as -> by (unfold pos_of; len; simpl; lia).
    rewrite Z.eqb_refl. do 2 f_equal. lia.
  - unfold header_text. cbn [map concat]. fold (header_text hs). rewrite <- !app_assoc.
    rewrite (run_line_found end_header _ h _ _ (rstep_head F1 F2 F3 HF1 HF2 HF3)) by done.
    assert (pos_of (r_bytes r ++ h ++ [CR; LF]) = pos_of (r_bytes r) + pos_of h + 2) as Hp
      by (unfold pos_of; len; simpl; lia).
    assert (0 < pos_of h) by (unfold pos_of; destruct h; [done|simpl; lia]).
    assert ((beg (r_header2 r) + 2 =? pos_of (r_bytes r ++ h ++ [CR; LF])) = false) as He
      by (rewrite Hh2, Hp; cbn [beg]; lia).
    rewrite IH; unfold end_header; cbn [r_flag r_assist r_header2 r_bytes beg end_]; rewrite ?He; try done.
    rewrite shift_shift. f_equal; [len; simpl; lia|]. f_equal.
    unfold r_end. cbn. rewrite Hh2, Hp. cbn [beg]. rewrite <- !app_assoc. done.
Qed.

Lemma run_body_known r body rest :
  r_flag r = E_PARSE_BODY → r_bodysize r = -1 →
  CheckContentLen_loop (r_bytes r) (r_vec r) = Some (pos_of body) → body ≠ [] →
  run r (body ++ rest) =
    Some (length body,
      let bs := r_bytes r ++ body in
      mkR bs (r_p1 r) (r_p2 r) (r_p3 r) (r_header r) (r_header2 r)
        (mkPos (pos_of (r_bytes r)) (pos_of bs)) E_PARSE_OVER (r_assist r) (r_iter r) (pos_of body) (r_vec r)).
Proof.
  intros Hf Hbs Hc Hne. assert (0 < pos_of body) as Hpos by (unfold pos_of; destruct body; [done|simpl; lia]).
  set (r1 := mkR (r_bytes r) (r_p1 r) (r_p2 r) (r_p3 r) (r_header r) (r_header2 r)
    (mkPos (pos_of (r_bytes r)) (end_ (r_body r))) (r_flag r) (r_assist r) (r_iter r) (pos_of body) (r_vec r)).
  assert (run r (body ++ rest) = run r1 (body ++ rest)) as ->.
  { destruct body as [|b0 body]; [done|]. rewrite <- app_comm_cons, !run_unfold.
    rewrite !(rstep_body F1 F2 F3 HF1 HF2 HF3) by done. unfold body_start. rewrite Hbs. cbn [Z.eqb Pos.eqb].
    rewrite Hc. cbn [mbind option_bind r1 r_bodysize].
    replace (pos_of (b0 :: body) =? 0) with false by lia.
    replace (pos_of (b0 :: body) =? -1) with false by lia. done. }
  rewrite (run_body F1 F2 F3 HF1 HF2 HF3) by (done || cbn; lia).
  cbn [r1 r_bytes r_body r_bodysize beg]. rewrite Z.sub_diag, Z.sub_0_r.
  assert (Z.to_nat (pos_of body) = length body) as -> by (unfold pos_of; lia).
  rewrite (proj2 (Nat.leb_le _ _)) by (len; lia). rewrite take_app_length. f_equal. f_equal.
  unfold body_add. cbn [r1 r_bytes r_p1 r_p2 r_p3 r_header r_header2 r_body r_flag r_assist r_iter r_bodysize r_vec beg].
  assert ((pos_of (r_bytes r ++ body) - pos_of (r_bytes r) =? pos_of body) = true) as ->
    by (apply Z.eqb_eq; unfold pos_of; len; lia). done.
Qed.
(** The state when the whole message is in. *)
Definition r_final (t : http_text) : RMsg :=
  let r := r_end (r_head t) (t_headers t) in
  let bs := r_bytes r ++ t_body t in
  mkR bs (r_p1 r) (r_p2 r) (r_p3 r) (r_header r) (r_header2 r) (mkPos (pos_of (r_bytes r)) (pos_of bs))
    E_PARSE_OVER (r_assist r) (r_iter r) (pos_of (t_body t)) (r_vec r).

Lemma run_head t rest : text_ok t →
  run (r_init F1) (first_line t ++ header_text (t_headers t) ++ [CR; LF] ++ rest) =
    shift (length (first_line t ++ header_text (t_headers t) ++ [CR; LF]))
      (run (r_end (r_head t) (t_headers t)) rest).
Proof.
  intros Ht. rewrite run_first_line by done. rewrite run_headers by (done || apply Ht).
  rewrite shift_shift. f_equal. len. lia.
Qed.

Lemma length_check t : text_ok t → length_ok t → pos_of (t_body t) < 2 ^ 31 →
  CheckContentLen_loop (r_bytes (r_end (r_head t) (t_headers t))) (r_vec (r_end (r_head t) (t_headers t)))
    = Some (pos_of (t_body t)).
Proof.
  intros (_ & _ & _ & Hok) (pre & ds & post & Eh & Hp & H1 & H2 & H3 & H4 & H5) Hb.
  unfold r_end. cbn [r_bytes r_vec r_head app]. rewrite Eh.
  rewrite check_headers; try done; [by f_equal| |unfold pos_of in Hb; lia].
  rewrite Eh in Hok. by apply Forall_app in Hok as [Hok _].
Qed.

Lemma run_message t rest : text_ok t → length_ok t → pos_of (t_body t) < 2 ^ 31 →
  run (r_init F1) (encode t ++ rest) = Some (length (encode t), r_final t).
Proof.
  intros Ht Hl Hb. unfold encode. rewrite <- !app_assoc. rewrite run_head by done.
  rewrite run_body_known; [|done|done|by apply length_check|].
  - cbn [shift mbind option_bind]. unfold shift. cbn [mbind option_bind]. f_equal. f_equal. len. simpl. lia.
  - by destruct Hl as (? & ? & ? & _ & _ & _ & _ & _ & _ & ?).
Qed.
End text.

(** ** Reading the fields back *)

Lemma substr_at b x y z :
  buf_at b (x ++ y ++ z) 0 → substr b (pos_of x) (pos_of x + pos_of y) = Some y.
Proof.
  intros Hb. unfold substr. assert (0 <= pos_of x) by (unfold pos_of; lia).
  assert (0 <= pos_of y) by (unfold pos_of; lia).
  rewrite (proj2 (Z.leb_le 0 _)), (proj2 (Z.leb_le _ _)) by lia. cbn [andb].
  replace (pos_of x + pos_of y - pos_of x) with (pos_of y) by lia. unfold pos_of. rewrite !Nat2Z.id.
  destruct (buf_at_pos _ _ _ Hb) as (Hp & Ho & _). destruct Hb as ((_ & Hw & Hd) & Hx & _).
  unfold Buffer_Data. rewrite Ho. change (Z.to_nat (Z.of_nat 0)) with 0%nat. rewrite drop_0.
  rewrite !length_app in Hp.
  rewrite load_ok by lia. rewrite <- (take_drop (Z.to_nat (_pos b)) (_data b)), Hx.
  rewrite <- !app_assoc, drop_app_length, take_app_length. done.
Qed.

Lemma get_pos_at m p bs x y z :
  buf_at (_buffer m) bs 0 → bs = x ++ y ++ z → beg p = pos_of x → end_ p = pos_of x + pos_of y →
  get_pos m p = Some y.
Proof.
  intros Hb -> Hbeg Hend. unfold get_pos. rewrite Hbeg, Hend.
  destruct (Z.eqb_spec (pos_of x + pos_of y) 0) as [E|_]; [|by eapply substr_at].
  f_equal. destruct y; [done|]. unfold pos_of in E. simpl in E. lia.
Qed.

(** [n] calls of [NextHeader]. *)
Fixpoint next_headers (n : nat) (m : HttpMsg) : option (list (list byte)) :=
  match n with
  | O => Some []
  | S n => '(h, m) ← NextHeader m; hs ← next_headers n m; Some (h :: hs)
  end.

Lemma next_headers_at hs z : ∀ m vs front,
  buf_at (_buffer m) (front ++ header_text hs ++ [CR; LF] ++ z) 0 →
  _header_vec m = vs ++ hvec (pos_of front) hs → _header_iter m = length vs →
  next_headers (S (length hs)) m = Some (hs ++ [[]]).
Proof.
  induction hs as [|h hs IH]; intros m vs front Hb Hv Hi.
  - cbn [length next_headers]. unfold NextHeader. rewrite Hv, Hi. cbn [hvec].
    rewrite list_lookup_middle by done. cbn [mbind option_bind beg end_].
    replace (pos_of front + 2 - 2) with (pos_of front + pos_of []) by (unfold pos_of; simpl; lia).
    by rewrite (substr_at _ front [] _ Hb).
  - cbn [length]. change (next_headers (S (S (length hs))) m) with
      ('(h, m) ← NextHeader m; hs ← next_headers (S (length hs)) m; Some (h :: hs)).
    unfold NextHeader. rewrite Hv, Hi. cbn [hvec]. rewrite list_lookup_middle by done.
    cbn [mbind option_bind beg end_].
    replace (pos_of front + pos_of h + 2 - 2) with (pos_of front + pos_of h) by lia.
    unfold header_text in Hb. cbn [map concat] in Hb. fold (header_text hs) in Hb.
    rewrite <- !app_assoc in Hb. rewrite (substr_at _ front h _ Hb). cbn [mbind option_bind].
    rewrite (IH _ (vs ++ [mkPos (pos_of front) (pos_of front + pos_of h + 2)]) (front ++ h ++ [CR; LF])).
    + done.
    + cbn [_buffer]. by rewrite <- !app_assoc.
    + cbn [_header_vec]. rewrite <- app_assoc. cbn [app]. do 3 f_equal.
      unfold pos_of. len. simpl. lia.
    + cbn [_header_iter]. len. simpl. lia.
Qed.

(** The message [m] carries the text [t]. *)
Definition carries (m : HttpMsg) (t : http_text) : Prop :=
  get_pos m (_p1 m) = Some (t_1 t) ∧ get_pos m (_p2 m) = Some (t_2 t) ∧
  get_pos m (_p3 m) = Some (t_3 t) ∧ GetBody m = Some (t_body t) ∧
  GetHeader m = Some (header_text (t_headers t) ++ [CR; LF]) ∧
  next_headers (S (length (t_headers t))) m = Some (t_headers t ++ [[]]).

Ltac field_at H x z :=
  eapply (get_pos_at _ _ _ x _ z); [exact H|rewrite ?app_nil_r, <- ?app_assoc; reflexivity|..];
  cbn [beg end_ r_end r_head r_bytes r_header]; unfold pos_of, first_line; len; simpl; lia.

Lemma carries_final m t : hrel m (r_final t) → carries m t.
Proof.
  intros [Hb Hr]. injection Hr as E1 E2 E3 Eh _ Ebd _ _ Ei _ Ev. unfold r_final in Hb.
  cbn [r_bytes r_end r_head] in Hb. unfold carries, GetBody, GetHeader.
  rewrite <- E1, <- E2, <- E3, <- Ebd, <- Eh.
  pose proof Hb as Hb'. unfold first_line in Hb'.
  rewrite <- !(app_assoc (t_1 t)), <- !app_assoc in Hb'.
  cbn [r_end r_head r_p1 r_p2 r_p3 r_bytes r_header app]. split_and!.
  - field_at Hb' (@nil byte) ([SP] ++ t_2 t ++ [SP] ++ t_3 t ++ [CR; LF] ++ header_text (t_headers t) ++ [CR; LF] ++ t_body t).
  - field_at Hb' (t_1 t ++ [SP]) ([SP] ++ t_3 t ++ [CR; LF] ++ header_text (t_headers t) ++ [CR; LF] ++ t_body t).
  - field_at Hb' (t_1 t ++ [SP] ++ t_2 t ++ [SP]) ([CR; LF] ++ header_text (t_headers t) ++ [CR; LF] ++ t_body t).
  - field_at Hb (first_line t ++ header_text (t_headers t) ++ [CR; LF]) (@nil byte).
  - field_at Hb (first_line t) (t_body t).
  - apply (next_headers_at _ (t_body t) _ [] (first_line t)).
    + by rewrite <- !app_assoc in Hb.
    + by rewrite <- Ev.
    + by rewrite <- Ei.
Qed.

(** ** Building a response *)

Section builder.
Context `{Malloc}.

(** [m] holds the bytes [xs] and exactly the bits at the positions [fs] are set. *)
Definition sending (m : HttpSvrSendMsg) (xs : list byte) (fs : list Z) : Prop :=
  buf_at (_pbuffer m) xs 0 ∧ ∀ k, 0 <= k → Z.testbit (_sflag m) k = bool_decide (k ∈ fs).

Lemma has_spec m xs fs k : sending m xs fs → 0 <= k → has m (Z.shiftl 1 k) = bool_decide (k ∈ fs).
Proof.
  intros [_ Hf] Hk. rewrite <- Hf by done. unfold has. rewrite Z.shiftl_1_l.
  destruct (Z.testbit (_sflag m) k) eqn:E.
  - destruct (Z.eqb_spec (Z.land (_sflag m) (2 ^ k)) 0) as [E0|]; [|done].
    apply (f_equal (λ z, Z.testbit z k)) in E0.
    by rewrite Z.land_spec, E, Z.pow2_bits_true, Z.bits_0 in E0.
  - assert (Z.land (_sflag m) (2 ^ k) = 0) as ->; [|done]. apply Z.bits_inj'. intros n Hn.
    rewrite Z.land_spec, Z.bits_0, Z.pow2_bits_eqb by done.
    destruct (Z.eqb_spec k n) as [->|]; [by rewrite E|apply andb_false_r].
Qed.

Lemma write_all_spec parts : ∀ b xs, buf_at b xs 0 →
  Z.of_nat (length xs) + Z.of_nat (length (concat parts)) < 2 ^ 32 - 1024 →
  ∃ b', write_all b parts = Some b' ∧ buf_at b' (xs ++ concat parts) 0.
Proof.
  induction parts as [|s parts IH]; intros b xs Hb Hl.
  - exists b. by rewrite app_nil_r.
  - cbn [concat] in Hl. rewrite length_app in Hl. cbn [write_all concat].
    rewrite u32_small by lia.
    destruct (buf_at_append b xs 0 s Hb) as (b1 & -> & Hb1); [unfold buf_room; lia|].
    cbn [mbind option_bind].
    destruct (IH b1 (xs ++ s) Hb1) as (b' & -> & Hb'); [len; lia|]. rewrite <- app_assoc in Hb'. eauto.
Qed.

Lemma put_spec m xs fs k parts :
  sending m xs fs → 0 <= k → Z.of_nat (length xs) + Z.of_nat (length (concat parts)) < 2 ^ 32 - 1024 →
  ∃ m', put m (Z.shiftl 1 k) parts = Some m' ∧ sending m' (xs ++ concat parts) (k :: fs).
Proof.
  intros [Hb Hf] Hk Hl. unfold put. destruct (write_all_spec parts _ _ Hb Hl) as (b' & -> & Hb').
  cbn [mbind option_bind]. eexists; split; [done|]. split; [done|]. intros n Hn. cbn [_sflag].
  rewrite Z.lor_spec, Hf, Z.shiftl_1_l, Z.pow2_bits_eqb by done.
  destruct (Z.eqb_spec k n) as [->|Hne].
  - rewrite orb_true_r. by rewrite bool_decide_true by by left.
  - rewrite orb_false_r. apply bool_decide_ext. rewrite elem_of_cons. naive_solver.
Qed.

(** The setters of header lines, as operations. *)
Inductive hdr_op := OpLocation (s : list byte) | OpEncode (s : list byte)
  | OpType (s : list byte) | OpLanguage (s : list byte).

Definition hdr_apply (m : HttpSvrSendMsg) (op : hdr_op) : option HttpSvrSendMsg :=
  match op with
  | OpLocation s => SetLocation m s
  | OpEncode s => SetContentEncode m s
  | OpType s => SetContentType m s
  | OpLanguage s => SetContentLanguage m s
  end.

Definition hdr_bit (op : hdr_op) : Z :=
  match op with OpLocation _ => 3 | OpEncode _ => 4 | OpType _ => 5 | OpLanguage _ => 6 end.

Definition hdr_line (op : hdr_op) : list byte :=
  match op with
  | OpLocation s => B["Location: "] ++ s
  | OpEncode s => B["Content-Encoding: "] ++ s
  | OpType s => B["Content-Type: "] ++ s
  | OpLanguage s => B["Content-Language: "] ++ s
  end.

Definition hdr_value (op : hdr_op) : list byte :=
  match op with OpLocation s | OpEncode s | OpType s | OpLanguage s => s end.

Lemma may_set_spec m xs fs k :
  sending m xs fs → 0 <= k → k ∉ fs → 0 ∈ fs → 1 ∈ fs → 2 ∈ fs → may_set m (Z.shiftl 1 k) = true.
Proof.
  intros Hm Hk Hn H0 H1 H2. unfold may_set, E_VER, E_STATUS_CODE, E_STATUS_PHRASE.
  rewrite !(has_spec m xs fs) by (done || lia).
  by rewrite bool_decide_false, !bool_decide_true.
Qed.

Lemma hdr_apply_spec op m xs fs :
  sending m xs fs → hdr_bit op ∉ fs → 0 ∈ fs → 1 ∈ fs → 2 ∈ fs →
  Z.of_nat (length xs) + Z.of_nat (length (hdr_line op)) < 2 ^ 32 - 2048 →
  ∃ m', hdr_apply m op = Some m' ∧ sending m' (xs ++ hdr_line op ++ [CR; LF]) (hdr_bit op :: fs).
Proof.
  intros Hm Hn H0 H1 H2 Hl.
  assert (∀ name s k, 0 <= k → k ∉ fs →
    Z.of_nat (length xs) + Z.of_nat (length (name ++ s)) < 2 ^ 32 - 2048 →
    ∃ m', (if may_set m (Z.shiftl 1 k) then put m (Z.shiftl 1 k) [name; s; [CR; LF]] else None) = Some m' ∧
      sending m' (xs ++ (name ++ s) ++ [CR; LF]) (k :: fs)) as Hgen.
  { intros name s k Hk Hkn Hlen. rewrite (may_set_spec m xs fs) by done.
    destruct (put_spec m xs fs k [name; s; [CR; LF]] Hm Hk) as (m' & -> & Hm').
    - cbn [concat]. rewrite length_app in Hlen. len. simpl. lia.
    - exists m'. split; [done|]. cbn [concat] in Hm'. rewrite <- !app_assoc. done. }
  destruct op as [s|s|s|s]; apply Hgen; done || lia.
Qed.

Definition hdr_text (ops : list hdr_op) : list byte := header_text (map hdr_line ops).

Fixpoint hdr_run (m : HttpSvrSendMsg) (ops : list hdr_op) : option HttpSvrSendMsg :=
  match ops with
  | [] => Some m
  | op :: ops => m ← hdr_apply m op; hdr_run m ops
  end.

Lemma hdr_run_spec ops : ∀ m xs fs,
  sending m xs fs → NoDup (map hdr_bit ops) → (∀ op, op ∈ ops → hdr_bit op ∉ fs) →
  0 ∈ fs → 1 ∈ fs → 2 ∈ fs →
  Z.of_nat (length xs) + Z.of_nat (length (hdr_text ops)) < 2 ^ 32 - 4096 →
  ∃ m', hdr_run m ops = Some m' ∧ sending m' (xs ++ hdr_text ops) (rev (map hdr_bit ops) ++ fs).
Proof.
  induction ops as [|op ops IH]; intros m xs fs Hm Hnd Hfr H0 H1 H2 Hl.
  - exists m. split; [done|]. by rewrite app_nil_r.
  - cbn [map] in Hnd. apply NoDup_cons in Hnd as [Hop Hnd].
    unfold hdr_text, header_text in Hl. cbn [map concat] in Hl. rewrite !length_app in Hl.
    fold (header_text (map hdr_line ops)) in Hl. fold (hdr_text ops) in Hl.
    destruct (hdr_apply_spec op m xs fs Hm) as (m1 & E & Hm1); [apply Hfr; by left|done|done|done|lia|].
    cbn [hdr_run]. rewrite E. cbn [mbind option_bind].
    destruct (IH m1 _ _ Hm1 Hnd) as (m' & -> & Hm'); [|by right|by right|by right|len; simpl; simpl in Hl; lia|].
    + intros op' Hin. rewrite not_elem_of_cons. split; [|apply Hfr; by right].
      intros E'. apply Hop. rewrite <- E'. by apply list_elem_of_In, in_map, list_elem_of_In.
    + exists m'. split; [done|]. cbn [map rev]. rewrite <- (app_assoc (rev _)). cbn [app].
      unfold hdr_text at 1, header_text. cbn [map concat]. rewrite <- !app_assoc in *. exact Hm'.
Qed.

(** ** Printing the length *)

Lemma dec_val_app ds d : dec_val (ds ++ [d]) = 10 * dec_val ds + (byte_val d - 48).
Proof. unfold dec_val. by rewrite fold_left_app. Qed.

Lemma dec_digits_spec fuel : ∀ z, 0 <= z < 10 ^ Z.of_nat fuel → (0 < fuel)%nat →
  let ds := dec_digits fuel z in
  ds ≠ [] ∧ (length ds ≤ fuel)%nat ∧ Forall (λ c, is_digit c = true) ds ∧ dec_val ds = z.
Proof.
  induction fuel as [|fuel IH]; [lia|]. intros z Hz _. cbn [dec_digits].
  pose proof (Z.mod_pos_bound z 10 ltac:(lia)) as Hm. pose proof (Z.div_mod z 10 ltac:(lia)) as Hdm.
  assert (byte_val (byte_of (48 + z mod 10)) = 48 + z mod 10) as Hv
    by (rewrite byte_val_of, Z.mod_small; lia).
  assert (is_digit (byte_of (48 + z mod 10)) = true) as Hd by (unfold is_digit; rewrite Hv; lia).
  destruct (Z.ltb_spec z 10) as [Hlt|Hge].
  - cbn [app length]. split_and!; [done|lia|by constructor|].
    unfold dec_val. cbn [fold_left]. rewrite Hv, Z.mod_small by lia. lia.
  - destruct (decide (fuel = 0%nat)) as [->|]; [simpl in Hz; lia|].
    rewrite Nat2Z.inj_succ, Z.pow_succ_r in Hz by lia.
    destruct (IH (z / 10)) as (H1 & H2 & H3 & H4); [|lia|].
    { split; [apply Z.div_pos; lia|apply Z.div_lt_upper_bound; lia]. }
    split_and!; [by destruct (dec_digits fuel (z / 10))|len; simpl; lia| |].
    + apply Forall_app. split; [done|by constructor].
    + rewrite dec_val_app, H4, Hv. lia.
Qed.

Lemma print_int_spec z : 0 <= z < 2 ^ 31 →
  let ds := print_int z in
  ds ≠ [] ∧ (length ds ≤ 10)%nat ∧ Forall (λ c, is_digit c = true) ds ∧ dec_val ds = z.
Proof.
  intros Hz. unfold print_int. destruct (Z.ltb_spec z 0); [lia|]. apply dec_digits_spec; lia.
Qed.

(** ** The whole response *)

Definition build (v c p : list byte) (ops : list hdr_op) (body : list byte) : option HttpSvrSendMsg :=
  m ← SetHttpVersion HttpSvrSendMsg_new v;
  m ← SetStatusCode m c;
  m ← SetStatusPhrase m p;
  m ← hdr_run m ops;
  SetBody m body (Z.of_nat (length body)).

(** The headers it has: those asked for, a default type, the length. *)
Definition default_type (ops : list hdr_op) : list hdr_op :=
  if decide (5 ∈ map hdr_bit ops) then [] else [OpType B["text/html;charset=utf-8"]].

Definition built_text (v c p : list byte) (ops : list hdr_op) (body : list byte) : http_text :=
  mkText v c p
    (map hdr_line (ops ++ default_type ops) ++ [B["Content-Length: "] ++ print_int (Z.of_nat (length body))])
    body.

Lemma header_text_app a b : header_text (a ++ b) = header_text a ++ header_text b.
Proof. unfold header_text. by rewrite map_app, concat_app. Qed.

Lemma SetBody_spec m xs fs ops body :
  sending m xs fs → 0 ∈ fs → 1 ∈ fs → 2 ∈ fs → 9 ∉ fs → (5 ∈ fs ↔ 5 ∈ map hdr_bit ops) →
  pos_of xs + pos_of body < 2 ^ 31 - 8192 →
  ∃ m', SetBody m body (Z.of_nat (length body)) = Some m' ∧
    buf_at (_pbuffer m') (xs ++ hdr_text (default_type ops) ++ B["Content-Length: "] ++
      print_int (Z.of_nat (length body)) ++ [CR; LF; CR; LF] ++ body) 0.
Proof.
  intros Hm H0 H1 H2 H9 H5 Hl. unfold SetBody, E_BODY, E_VER, E_STATUS_CODE, E_STATUS_PHRASE.
  rewrite !(has_spec m xs fs) by (done || lia).
  rewrite (bool_decide_false (9 ∈ fs)), !bool_decide_true by done. cbn [negb mbind option_bind].
  rewrite !(has_spec m xs fs) by (done || lia). rewrite !bool_decide_true by done. cbn [negb mbind option_bind].
  rewrite !(has_spec m xs fs) by (done || lia). rewrite !bool_decide_true by done. cbn [negb mbind option_bind].
  unfold E_CONT_TYPE. rewrite (has_spec m xs fs) by (done || lia).
  assert (∃ m1 fs1, (if negb (bool_decide (5 ∈ fs)) then SetContentType m B["text/html;charset=utf-8"] else Some m)
    = Some m1 ∧ sending m1 (xs ++ hdr_text (default_type ops)) fs1) as (m1 & fs1 & -> & Hm1).
  { unfold pos_of in Hl. unfold default_type.
    destruct (bool_decide_reflect (5 ∈ fs)) as [Hin|Hin]; cbn [negb].
    - rewrite decide_True by (by apply H5). exists m, fs. by rewrite app_nil_r.
    - rewrite decide_False by (by rewrite <- H5).
      destruct (hdr_apply_spec (OpType B["text/html;charset=utf-8"]) m xs fs Hm) as (m1 & E & Hm1);
        try done; [simpl; lia|]. exists m1. eexists. split; [exact E|].
      unfold hdr_text, header_text. cbn [map concat]. by rewrite app_nil_r. }
  cbn [mbind option_bind]. destruct Hm1 as [Hb1 _].
  destruct (print_int_spec (Z.of_nat (length body))) as (_ & Hp & _); [unfold pos_of in Hl; lia|].
  assert ((length (hdr_text (default_type ops)) ≤ 100)%nat) as Hdt
    by (unfold default_type; destruct (decide _); vm_compute; lia).
  unfold pos_of in Hl.
  edestruct (write_all_spec [B["Content-Length: "]; print_int (Z.of_nat (length body)); [CR; LF; CR; LF]])
    as (b2 & -> & Hb2); [exact Hb1|cbn [concat]; len; simpl; lia|].
  cbn [mbind option_bind]. rewrite u32_small by lia.
  edestruct (buf_at_append b2) as (b3 & -> & Hb3); [exact Hb2|unfold buf_room; cbn [concat]; len; simpl; lia|].
  cbn [mbind option_bind]. eexists; split; [done|]. cbn [_pbuffer concat] in *.
  rewrite <- !app_assoc in Hb3. exact Hb3.
Qed.

Lemma elem_of_rev_bits x ops fs :
  x ∈ rev (map hdr_bit ops) ++ fs ↔ x ∈ map hdr_bit ops ∨ x ∈ fs.
Proof. by rewrite elem_of_app, !list_elem_of_In, <- in_rev. Qed.

Lemma hdr_bits_range x ops : x ∈ map hdr_bit ops → 3 <= x <= 6.
Proof. rewrite list_elem_of_In, in_map_iff. intros (op & <- & _). destruct op; simpl; lia. Qed.

Lemma build_spec v c p ops body :
  NoDup (map hdr_bit ops) →
  pos_of v + pos_of c + pos_of p + pos_of (hdr_text ops) + pos_of body < 2 ^ 31 - 2 ^ 14 →
  ∃ m, build v c p ops body = Some m ∧ buf_at (_pbuffer m) (encode (built_text v c p ops body)) 0.
Proof.
  intros Hnd Hl. unfold pos_of in Hl. unfold build.
  assert (sending HttpSvrSendMsg_new [] []) as Hm0.
  { split; [apply buf_at_new|]. intros k _. cbn [_sflag HttpSvrSendMsg_new]. by rewrite Z.bits_0. }
  unfold SetHttpVersion, E_VER. rewrite (has_spec _ _ _ 0 Hm0) by lia. cbn [bool_decide decide negb].
  rewrite bool_decide_false by apply not_elem_of_nil. cbn [negb].
  destruct (put_spec _ _ _ 0 [v; [SP]] Hm0) as (m1 & -> & Hm1); [lia|cbn [concat]; len; simpl; lia|].
  cbn [mbind option_bind].
  unfold SetStatusCode, E_STATUS_CODE, E_VER. rewrite !(has_spec _ _ _ _ Hm1) by lia.
  rewrite bool_decide_false, bool_decide_true by set_solver. cbn [negb andb].
  destruct (put_spec _ _ _ 1 [c; [SP]] Hm1) as (m2 & -> & Hm2); [lia|cbn [concat app]; len; simpl; lia|].
  cbn [mbind option_bind].
  unfold SetStatusPhrase, E_STATUS_PHRASE, E_STATUS_CODE, E_VER. rewrite !(has_spec _ _ _ _ Hm2) by lia.
  rewrite bool_decide_false, !bool_decide_true by set_solver. cbn [negb andb].
  destruct (put_spec _ _ _ 2 [p; [CR; LF]] Hm2) as (m3 & -> & Hm3); [lia|cbn [concat app]; len; simpl; lia|].
  cbn [mbind option_bind].
  destruct (hdr_run_spec ops _ _ _ Hm3 Hnd) as (m4 & -> & Hm4); try set_solver.
  { intros op _. destruct op; set_solver. }
  { cbn [concat app]; len; simpl; lia. }
  cbn [mbind option_bind].
  destruct (SetBody_spec _ _ _ ops body Hm4) as (m5 & -> & Hb5).
  - rewrite elem_of_rev_bits. set_solver.
  - rewrite elem_of_rev_bits. set_solver.
  - rewrite elem_of_rev_bits. set_solver.
  - rewrite elem_of_rev_bits. intros [Hx|Hx]; [apply hdr_bits_range in Hx; lia|set_solver].
  - rewrite elem_of_rev_bits. set_solver.
  - unfold pos_of. cbn [concat app]. len. simpl. lia.
  - exists m5. split; [done|]. unfold encode, first_line, built_text. cbn [t_1 t_2 t_3 t_headers t_body].
    rewrite header_text_app, map_app, header_text_app. fold (hdr_text ops). fold (hdr_text (default_type ops)).
    unfold header_text. cbn [map concat app] in *. rewrite <- ?app_assoc in Hb5. cbn [app] in Hb5.
    repeat (rewrite <- ?app_assoc; cbn [app]). exact Hb5.
Qed.

Lemma elem_of_app_lit (c : byte) (a b : list byte) : (c ∉ a) → (c ∉ b) → c ∉ a ++ b.
Proof. rewrite not_elem_of_app. done. Qed.

Lemma hdr_line_ok op : (CR ∉ hdr_value op) → line_ok (hdr_line op).
Proof.
  intros Hn. split; [by destruct op|].
  destruct op; (apply elem_of_app_lit; [vm_compute; set_solver|exact Hn]).
Qed.

Lemma hdr_line_other op : ¬ B["Content-Length"] `prefix_of` hdr_line op.
Proof. intros [y E]. destruct op; cbn in E; discriminate E. Qed.

Lemma digits_no_cr ds : Forall (λ c, is_digit c = true) ds → CR ∉ ds.
Proof. intros Hd Hin. rewrite Forall_forall in Hd. apply Hd in Hin. by vm_compute in Hin. Qed.

(** The texts that responses carry. *)
Lemma built_text_ok v c p ops body :
  (SP ∉ v) → (SP ∉ c) → (CR ∉ p) → Forall (λ op, CR ∉ hdr_value op) ops → body ≠ [] →
  pos_of body < 2 ^ 31 →
  text_ok (built_text v c p ops body) ∧ length_ok (built_text v c p ops body).
Proof.
  intros Hv Hc Hp Hops Hne Hl. unfold pos_of in Hl.
  destruct (print_int_spec (Z.of_nat (length body))) as (H1 & H2 & H3 & H4); [lia|].
  assert (Forall (λ op, CR ∉ hdr_value op) (ops ++ default_type ops)) as Hall.
  { apply Forall_app. split; [done|]. unfold default_type. destruct (decide _); constructor; [|done].
    vm_compute. set_solver. }
  split.
  - split_and!; try done. cbn [t_headers built_text]. apply Forall_app. split.
    + rewrite Forall_map. eapply Forall_impl; [exact Hall|]. intros op. apply hdr_line_ok.
    + constructor; [|done]. split; [done|]. apply elem_of_app_lit; [vm_compute; set_solver|].
      by apply digits_no_cr.
  - exists (map hdr_line (ops ++ default_type ops)), (print_int (Z.of_nat (length body))), [].
    split_and!; try done. rewrite Forall_map. apply Forall_true. intros op. apply hdr_line_other.
Qed.
End builder.

(** ** The properties *)

Section properties.
Context `{Malloc}.

Lemma svr_flags : (E_PARSE_METHOD ∉ [E_PARSE_HEAD; E_PARSE_BODY; E_PARSE_OVER]) ∧
  (E_PARSE_URL ∉ [E_PARSE_METHOD; E_PARSE_HEAD; E_PARSE_BODY; E_PARSE_OVER]) ∧
  (E_PARSE_VER ∉ [E_PARSE_METHOD; E_PARSE_URL; E_PARSE_HEAD; E_PARSE_BODY; E_PARSE_OVER]).
Proof. split_and!; set_solver. Qed.

Lemma cli_flags : (E_PARSE_VER ∉ [E_PARSE_HEAD; E_PARSE_BODY; E_PARSE_OVER]) ∧
  (E_PARSE_STATUS_CODE ∉ [E_PARSE_VER; E_PARSE_HEAD; E_PARSE_BODY; E_PARSE_OVER]) ∧
  (E_PARSE_STATUS_PHRASE ∉ [E_PARSE_VER; E_PARSE_STATUS_CODE; E_PARSE_HEAD; E_PARSE_BODY; E_PARSE_OVER]).
Proof. split_and!; set_solver. Qed.

Abbreviation svr_parse := (Parse_chunks E_PARSE_METHOD E_PARSE_URL E_PARSE_VER HttpSvrRecvMsg_new).
Abbreviation cli_parse := (Parse_chunks E_PARSE_VER E_PARSE_STATUS_CODE E_PARSE_STATUS_PHRASE HttpCliRecvMsg_new).
Abbreviation svr_run := (run E_PARSE_METHOD E_PARSE_URL E_PARSE_VER (r_init E_PARSE_METHOD)).
Abbreviation cli_run := (run E_PARSE_VER E_PARSE_STATUS_CODE E_PARSE_STATUS_PHRASE (r_init E_PARSE_VER)).

Lemma svr_parse_run chunks : pos_of (concat chunks) < 2 ^ 31 - 1024 →
  res_rel (svr_parse chunks) (svr_run (concat chunks)).
Proof. destruct svr_flags as (?&?&?). by apply Parse_chunks_new. Qed.

Lemma cli_parse_run chunks : pos_of (concat chunks) < 2 ^ 31 - 1024 →
  res_rel (cli_parse chunks) (cli_run (concat chunks)).
Proof. destruct cli_flags as (?&?&?). by apply Parse_chunks_new. Qed.

(** C8: whatever the chunks its bytes arrive in, a request or a response is parsed
    as the byte-at-a-time reference parses the concatenation: the same number of
    bytes used, the same fields and flags, and a fault in the same cases. *)
Theorem Parse_refines_reference (chunks : list (list byte)) :
  pos_of (concat chunks) < 2 ^ 31 - 1024 →
  res_rel (Parse_chunks E_PARSE_METHOD E_PARSE_URL E_PARSE_VER HttpSvrRecvMsg_new chunks)
    (run E_PARSE_METHOD E_PARSE_URL E_PARSE_VER (r_init E_PARSE_METHOD) (concat chunks)) ∧
  res_rel (Parse_chunks E_PARSE_VER E_PARSE_STATUS_CODE E_PARSE_STATUS_PHRASE HttpCliRecvMsg_new chunks)
    (run E_PARSE_VER E_PARSE_STATUS_CODE E_PARSE_STATUS_PHRASE (r_init E_PARSE_VER) (concat chunks)).
Proof. intros Hl. split; [by apply svr_parse_run|by apply cli_parse_run]. Qed.

(** What a message shows: its bytes, fields and flags. *)
Definition msg_view (m : HttpMsg) : list byte * list strpos * parse_flag * bool * nat * Z * list strpos :=
  (buf_raw (_buffer m), [_p1 m; _p2 m; _p3 m; _header m; _header2 m; _body m], _mflag m,
   _assistflag m, _header_iter m, _bodysize m, _header_vec m).

Lemma hrel_view m m' r : hrel m r → hrel m' r → msg_view m = msg_view m'.
Proof.
  intros [Hb ->] [Hb' Hr]. cbn [r_bytes] in *. unfold msg_view.
  rewrite (buf_at_raw _ _ _ Hb), (buf_at_raw _ _ _ Hb'). by injection Hr as -> -> -> -> -> -> -> -> -> -> ->.
Qed.

(** The outcome of a parse does not depend on how the bytes were cut. *)
Theorem parse_chunking_irrelevant (cs1 cs2 : list (list byte)) :
  concat cs1 = concat cs2 → pos_of (concat cs1) < 2 ^ 31 - 1024 →
  match svr_parse cs1, svr_parse cs2 with
  | Some (n1, m1), Some (n2, m2) => n1 = n2 ∧ msg_view m1 = msg_view m2
  | None, None => True
  | _, _ => False
  end.
Proof.
  intros E Hl. pose proof (svr_parse_run cs1 Hl) as H1. rewrite E in Hl, H1.
  pose proof (svr_parse_run cs2 Hl) as H2.
  destruct (svr_parse cs1) as [[n1 m1]|], (svr_parse cs2) as [[n2 m2]|], (svr_run _) as [[n r]|];
    try done. destruct H1 as (-> & H1 & _), H2 as (-> & H2 & _). split; [done|]. by eapply hrel_view.
Qed.

(** C17: a request with a body and its length - method and URL without SP, version
    without CR, header lines that are not empty and hold no CR ([text_ok]), a
    [Content-Length] header that is the first of its name and says, in at most ten
    digits, the length of a body that is not empty ([length_ok]) - followed by anything, in any chunks, is consumed
    exactly, marked complete, and its method, URL, version, headers (in order, by
    [NextHeader]) and body read back.  (A request without a body is never marked
    complete: [bodyless_request_waits].) *)
Theorem request_parsed (t : http_text) (rest : list byte) (chunks : list (list byte)) :
  text_ok t → length_ok t → concat chunks = encode t ++ rest →
  pos_of (concat chunks) < 2 ^ 31 - 1024 →
  ∃ m, svr_parse chunks = Some (length (encode t), m) ∧ _mflag m = E_PARSE_OVER ∧ carries m t.
Proof.
  intros Ht Hl E Hb. pose proof (svr_parse_run chunks Hb) as Hr. destruct svr_flags as (?&?&?).
  assert (pos_of (t_body t) < 2 ^ 31).
  { rewrite E in Hb. unfold pos_of, encode in *. rewrite !length_app in Hb. lia. }
  rewrite E, run_message in Hr by done.
  destruct (svr_parse chunks) as [[n m]|]; [|done]. destruct Hr as (-> & Hm & _).
  exists m. split_and!; [done| |by apply carries_final]. by destruct Hm as [_ [= _ _ _ _ _ _ <-]].
Qed.

(** C18: a response built by the setters of [HttpSvrSendMsg] in their order - the
    version and the code without SP, the phrase without CR, any of the headers but
    [Server] and [Date], each at most once and without CR in its value, and a body that
    is not empty - is built without a fault, and the peer's parser, fed its bytes in any
    chunks, finds it complete and reads back what was set.  ([SetSever] and [SetDate] put
    the bytes of pointers into the message: [SetSever_writes_pointers].) *)
Theorem response_roundtrip (v c p : list byte) (ops : list hdr_op) (body : list byte) :
  (SP ∉ v) → (SP ∉ c) → (CR ∉ p) → Forall (λ op, CR ∉ hdr_value op) ops →
  NoDup (map hdr_bit ops) → body ≠ [] →
  pos_of v + pos_of c + pos_of p + pos_of (hdr_text ops) + pos_of body < 2 ^ 31 - 2 ^ 15 →
  ∃ m bytes, build v c p ops body = Some m ∧ ToString m = Some bytes ∧
    ∀ chunks, concat chunks = bytes →
    ∃ r, cli_parse chunks = Some (length bytes, r) ∧ _mflag r = E_PARSE_OVER ∧
         carries r (built_text v c p ops body).
Proof.
  intros Hv Hc Hp Hops Hnd Hne Hl. 
  destruct (build_spec v c p ops body Hnd) as (m & Hm & Hb); [lia|].
  assert (pos_of body < 2 ^ 31) by (unfold pos_of in *; lia).
  destruct (built_text_ok v c p ops body) as [Ht Hlen]; try done.
  set (t := built_text v c p ops body) in *.
  exists m, (encode t). split_and!; [done| |].
  - unfold ToString. rewrite (buf_at_size _ _ _ Hb).
    pose proof (buf_at_length _ _ _ Hb) as Hln. pose proof (buf_at_view _ _ _ Hb) as Hvw.
    unfold buf_view in Hvw. rewrite Hln in Hvw. rewrite Nat.sub_0_r, drop_0 in Hvw.
    rewrite load_ok; [by rewrite drop_0, Hvw|].
    apply (f_equal length) in Hvw. rewrite length_take in Hvw. lia.
  - intros chunks E. destruct cli_flags as (?&?&?).
    assert (pos_of (concat chunks) < 2 ^ 31 - 1024) as Hbd.
    { rewrite E. pose proof (print_int_spec (pos_of body)) as (_ & Hpi & _); [unfold pos_of in *; lia|].
      assert ((length (hdr_text (default_type ops)) ≤ 100)%nat) as Hdt
        by (unfold default_type; destruct (decide _); vm_compute; lia).
      unfold t, built_text, encode, first_line, pos_of in *. cbn [t_1 t_2 t_3 t_headers t_body].
      rewrite header_text_app, map_app, header_text_app. fold (hdr_text ops). fold (hdr_text (default_type ops)).
      unfold header_text. cbn [map concat app]. len. simpl. rewrite ?length_app. simpl. lia. }
    pose proof (cli_parse_run chunks Hbd) as Hr.
    rewrite E in Hr. rewrite <- (app_nil_r (encode t)) in Hr at 1. rewrite run_message in Hr by done.
    destruct (cli_parse chunks) as [[n r]|]; [|done]. destruct Hr as (-> & Hrm & _).
    exists r. split_and!; [done| |by apply carries_final]. by destruct Hrm as [_ [= _ _ _ _ _ _ <-]].
Qed.

(** A well-formed request without a body is not complete when its last byte is
    in: the parser waits in [E_PARSE_BODY], although everything has been read. *)
Theorem bodyless_request_waits (t : http_text) (chunks : list (list byte)) :
  text_ok t → t_body t = [] → concat chunks = encode t → pos_of (encode t) < 2 ^ 31 - 1024 →
  ∃ m, svr_parse chunks = Some (length (encode t), m) ∧ _mflag m = E_PARSE_BODY ∧ _bodysize m = -1.
Proof.
  intros Ht Hbd E Hb. rewrite <- E in Hb. pose proof (svr_parse_run chunks Hb) as Hr.
  destruct svr_flags as (?&?&?).
  assert (svr_run (encode t) = Some (length (encode t), r_end (r_head t) (t_headers t))) as Er.
  { unfold encode. rewrite Hbd. rewrite run_head by done. unfold shift. cbn [HttpSpec.run mbind option_bind].
    f_equal. f_equal. rewrite Nat.add_0_r. by rewrite app_nil_r. }
  rewrite E, Er in Hr. destruct (svr_parse chunks) as [[n m]|]; [|done]. destruct Hr as (-> & Hm & _).
  exists m. split; [done|]. by destruct Hm as [_ [= _ _ _ _ _ _ <- _ _ <- _]].
Qed.
End properties.

(** ** Witnesses *)

Definition demo_request : http_text :=
  mkText B["POST"] B["/login?id=1"] B["HTTP/1.1"] [B["Host: a.b"]; B["Content-Length: 5"]; B["X-A: b c"]] B["hello"].

Lemma demo_request_ok : text_ok demo_request ∧ length_ok demo_request.
Proof.
  split.
  - split_and!; try (vm_compute; set_solver).
    repeat constructor; (try done); vm_compute; set_solver.
  - exists [B["Host: a.b"]], B["5"], [B["X-A: b c"]]. split_and!; try done.
    + constructor; [|done]. intros [y E]. discriminate E.
    + simpl. lia.
    + by repeat constructor.
Qed.

Definition demo_chunks : list (list byte) :=
  [take 9 (encode demo_request); take 20 (drop 9 (encode demo_request)); drop 29 (encode demo_request); B["GET"]].

Lemma demo_chunks_concat : concat demo_chunks = encode demo_request ++ B["GET"].
Proof. by vm_compute. Qed.

Lemma Parse_refines_reference_witness :
  res_rel (Parse_chunks E_PARSE_METHOD E_PARSE_URL E_PARSE_VER HttpSvrRecvMsg_new demo_chunks)
    (run E_PARSE_METHOD E_PARSE_URL E_PARSE_VER (r_init E_PARSE_METHOD) (concat demo_chunks)).
Proof. refine (proj1 (Parse_refines_reference demo_chunks _)). vm_compute. reflexivity. Defined.

Lemma parse_chunking_irrelevant_witness :
  match Parse_chunks E_PARSE_METHOD E_PARSE_URL E_PARSE_VER HttpSvrRecvMsg_new demo_chunks,
        Parse_chunks E_PARSE_METHOD E_PARSE_URL E_PARSE_VER HttpSvrRecvMsg_new [encode demo_request ++ B["GET"]] with
  | Some (n1, m1), Some (n2, m2) => n1 = n2 ∧ msg_view m1 = msg_view m2
  | None, None => True
  | _, _ => False
  end.
Proof.
  apply (parse_chunking_irrelevant demo_chunks [encode demo_request ++ B["GET"]]); [vm_compute; reflexivity|].
  vm_compute. reflexivity.
Defined.

Lemma request_parsed_witness : ∃ m,
  Parse_chunks E_PARSE_METHOD E_PARSE_URL E_PARSE_VER HttpSvrRecvMsg_new demo_chunks
    = Some (length (encode demo_request), m) ∧ _mflag m = E_PARSE_OVER ∧ carries m demo_request.
Proof.
  apply (request_parsed demo_request B["GET"] demo_chunks);
    [apply demo_request_ok|apply demo_request_ok|apply demo_chunks_concat|vm_compute; reflexivity].
Defined.

Definition demo_ops : list hdr_op := [OpLocation B["/a"]; OpLanguage B["en"]].

Lemma response_roundtrip_witness : ∃ m bytes,
  build B["HTTP/1.1"] B["302"] B["Found it"] demo_ops B["moved"] = Some m ∧ ToString m = Some bytes ∧
  ∀ chunks, concat chunks = bytes →
  ∃ r, Parse_chunks E_PARSE_VER E_PARSE_STATUS_CODE E_PARSE_STATUS_PHRASE HttpCliRecvMsg_new chunks
         = Some (length bytes, r) ∧ _mflag r = E_PARSE_OVER ∧
       carries r (built_text B["HTTP/1.1"] B["302"] B["Found it"] demo_ops B["moved"]).
Proof.
  apply (response_roundtrip B["HTTP/1.1"] B["302"] B["Found it"] demo_ops B["moved"]);
    [vm_compute; set_solver|vm_compute; set_solver|vm_compute; set_solver| | |done|vm_compute; reflexivity].
  - repeat constructor; vm_compute; set_solver.
  - apply (bool_decide_unpack _). vm_compute. exact I.
Defined.

Definition demo_get : http_text := mkText B["GET"] B["/"] B["HTTP/1.1"] [B["Host: a.b"]] [].

Lemma bodyless_request_waits_witness : ∃ m,
  Parse_chunks E_PARSE_METHOD E_PARSE_URL E_PARSE_VER HttpSvrRecvMsg_new [encode demo_get]
    = Some (length (encode demo_get), m) ∧ _mflag m = E_PARSE_BODY ∧ _bodysize m = -1.
Proof.
  apply (bodyless_request_waits demo_get [encode demo_get]); [|done|vm_compute; reflexivity|vm_compute; reflexivity].
  split_and!; try (vm_compute; set_solver). repeat constructor; [done|vm_compute; set_solver].
Defined.

(** A request with one header line and a body. *)
Definition one_header (h body : list byte) : list byte :=
  encode (mkText B["POST"] B["/"] B["HTTP/1.1"] [h] body).

Lemma svr_parse_none `{Malloc} x : pos_of x < 2 ^ 31 - 1024 →
  run E_PARSE_METHOD E_PARSE_URL E_PARSE_VER (r_init E_PARSE_METHOD) x = None →
  HttpSvrRecvMsg_Parse HttpSvrRecvMsg_new x = None.
Proof.
  intros Hl E. destruct svr_flags as (H1 & H2 & H3).
  destruct (hrel_new E_PARSE_METHOD E_PARSE_URL E_PARSE_VER H1) as (Hm & Hi & Hok); try done.
  pose proof (Parse_refines_run _ _ _ H1 H2 H3 _ _ x Hm Hi Hl (proj1 Hok)) as Hr.
  rewrite E in Hr. unfold HttpSvrRecvMsg_Parse, HttpSvrRecvMsg_new. by destruct (Parse _ _ _ _ _) as [[??]|].
Qed.

(** Examples of what [_CheckContentLen] does with odd lines: a length of eleven characters overruns the block of [_CheckContentLen], a
    negative one makes [_ParseBody] copy four gigabytes, and the name is compared up
    to its colon only: the value of any header [Content-Length?], whatever the
    character, is taken as the length. *)
Theorem content_length_faults :
  HttpSvrRecvMsg_Parse HttpSvrRecvMsg_new (one_header B["Content-Length: 000000000005"] B["hello"]) = None ∧
  HttpSvrRecvMsg_Parse HttpSvrRecvMsg_new (one_header B["Content-Length: -5"] B["hello"]) = None ∧
  ∃ m, HttpSvrRecvMsg_Parse HttpSvrRecvMsg_new (one_header B["Content-Length_ 5"] B["hello"])
         = Some (length (one_header B["Content-Length_ 5"] B["hello"]), m) ∧
       _mflag m = E_PARSE_OVER ∧ GetBody m = Some B["hello"].
Proof.
  split_and!; [apply svr_parse_none; [by vm_compute..]|apply svr_parse_none; [by vm_compute..]|].
  eexists. split_and!; by vm_compute.
Qed.

(** [SetSever] and [SetDate] put the bytes of two pointers around the value,
    where the header name and the line end should be. *)
Theorem SetSever_writes_pointers `{Malloc} m xs fs p1 p2 svr :
  sending m xs fs → 8 ∉ fs → 7 ∉ fs → 0 ∈ fs → 1 ∈ fs → 2 ∈ fs →
  pos_of xs + pos_of svr < 2 ^ 31 →
  (∃ m', SetSever p1 p2 m svr = Some m' ∧
     buf_at (_pbuffer m') (xs ++ le_bytes 8 p1 ++ svr ++ le_bytes 8 p2) 0) ∧
  (∃ m', SetDate p1 p2 m svr = Some m' ∧
     buf_at (_pbuffer m') (xs ++ le_bytes 8 p1 ++ svr ++ le_bytes 8 p2) 0).
Proof.
  intros Hm H8 H7 H0 H1 H2 Hl. unfold pos_of in Hl.
  unfold SetSever, SetDate, E_SERVER, E_DATE. rewrite !(may_set_spec m xs fs) by (done || lia).
  split.
  - destruct (put_spec m xs fs 8 [le_bytes 8 p1; svr; le_bytes 8 p2] Hm) as (m' & E & Hb & _);
      [lia|cbn [concat]; len; simpl; lia|]. exists m'. cbn [concat] in Hb. by rewrite app_nil_r in Hb.
  - destruct (put_spec m xs fs 7 [le_bytes 8 p1; svr; le_bytes 8 p2] Hm) as (m' & E & Hb & _);
      [lia|cbn [concat]; len; simpl; lia|]. exists m'. cbn [concat] in Hb. by rewrite app_nil_r in Hb.
Qed.

Lemma SetSever_writes_pointers_witness :
  (∃ m', SetSever 4198400 4198410 (mkSend Buffer_new 7) B["s"] = Some m' ∧
     buf_at (_pbuffer m') ([] ++ le_bytes 8 4198400 ++ B["s"] ++ le_bytes 8 4198410) 0) ∧
  (∃ m', SetDate 4198400 4198410 (mkSend Buffer_new 7) B["s"] = Some m' ∧
     buf_at (_pbuffer m') ([] ++ le_bytes 8 4198400 ++ B["s"] ++ le_bytes 8 4198410) 0).
Proof.
  apply (SetSever_writes_pointers (mkSend Buffer_new 7) [] [0; 1; 2] 4198400 4198410 B["s"]);
    [|set_solver|set_solver|set_solver|set_solver|set_solver|vm_compute; reflexivity].
  split; [apply buf_at_new|]. intros k Hk. cbn [_sflag].
  destruct (decide (k ∈ [0; 1; 2])) as [Hin|Hin].
  - rewrite bool_decide_true by done. set_unfold. destruct Hin as [->|[->|[->|[]]]]; reflexivity.
  - rewrite bool_decide_false by done. apply (Z.bits_above_log2 7); [lia|]. set_unfold. cbn. lia.
Defined.
