(* ===== verification/SList.v ===== *)
(** * base::slist

    The singly linked list of [src/slience/base/slist.hpp], which the socket layer
    queues its closes in and the coroutine layer its tasks: a count and pointers to
    the first and the last node.  The nodes live in a heap, a finite map from
    addresses; following a null or a freed pointer is a fault ([None]).

    [slist_refines_queue] is the contract: any sequence of the operations on two
    lists is memory safe and behaves as two sequences do, [join] with an empty list
    and [clear] aside.  The two theorems after it state what those do. *)

From Stdlib Require Import ZArith Lia List.
From stdpp Require Import base numbers list option gmap fin_maps sets.
From S2P Require Import Prelude.

#[local] Set Warnings "-clear-no-such-hyp".

Definition loc := positive.

Section slist.
Context {T : Type}.

Record Node := mkNode { val : T; next : option loc }.
Abbreviation heap := (gmap loc Node).
Record slist := mkList { _count : Z; _head : option loc; _tail : option loc }.

Definition slist_new : slist := mkList 0 None None.

Definition slist_empty (s : slist) : bool := _count s =? 0.
Definition slist_size (s : slist) : Z := _count s.

(** [new Node] gives an address that is not in use. *)
Definition slist_push_back (s : slist) (t : T) : ST heap slist := λ h,
  let pnode := fresh (dom h) in
  let h := <[pnode := mkNode t None]> h in
  h ← match _tail s with
      | Some tl => n ← h !! tl; Some (<[tl := mkNode (val n) (Some pnode)]> h)
      | None => Some h
      end;
  Some (mkList (s32 (_count s + 1))
          (match _head s with None => Some pnode | hd => hd end) (Some pnode), h).

Definition slist_front (s : slist) : ST heap T := λ h,
  hd ← _head s; n ← h !! hd; Some (val n, h).

Definition slist_pop_front (s : slist) : ST heap slist := λ h,
  match _head s with
  | None => Some (s, h)
  | Some hd =>
      n ← h !! hd;
      Some (mkList (s32 (_count s - 1)) (next n)
              (if decide (_head s = _tail s) then next n else _tail s), delete hd h)
  end.

(** Release the nodes from [p] on; the fuel bounds their number. *)
Fixpoint free_from (fuel : nat) (p : option loc) (h : heap) : option heap :=
  match p with
  | None => Some h
  | Some l => match fuel with
              | O => None
              | S fuel => n ← h !! l; free_from fuel (next n) (delete l h)
              end
  end.

(** The size of the heap is enough: every step removes a node from it. *)
Definition slist_clear (s : slist) : ST heap slist := λ h,
  h' ← free_from (S (size h)) (_head s) h; Some (mkList 0 None (_tail s), h').

Definition slist_delete (s : slist) : ST heap slist := λ h,
  h' ← free_from (S (size h)) (_head s) h; Some (mkList 0 None None, h').

(** [this.swap(other)], [this.join(other)] of two lists: (this, other). *)
Definition slist_swap (s o : slist) : slist * slist := (o, s).

Definition slist_join (s o : slist) : ST heap (slist * slist) := λ h,
  h ← match _tail s with
      | Some tl => n ← h !! tl; Some (<[tl := mkNode (val n) (_head o)]> h)
      | None => Some h
      end;
  Some ((mkList (s32 (_count s + _count o))
           (match _tail s with Some _ => _head s | None => _head o end) (_tail o),
         mkList 0 None None), h).

(** ** Representation *)

(** The nodes [ls], in order from [p], hold [xs]. *)
Fixpoint chain (h : heap) (p : option loc) (ls : list loc) (xs : list T) : Prop :=
  match ls, xs with
  | [], [] => p = None
  | l :: ls, x :: xs => p = Some l ∧ ∃ nx, h !! l = Some (mkNode x nx) ∧ chain h nx ls xs
  | _, _ => False
  end.

Definition rep (h : heap) (s : slist) (ls : list loc) (xs : list T) : Prop :=
  chain h (_head s) ls xs ∧ NoDup ls ∧ _tail s = list.last ls ∧ _count s = Z.of_nat (length xs).

Lemma chain_length h p ls xs : chain h p ls xs → length ls = length xs.
Proof.
  revert p xs. induction ls as [|l ls IH]; intros p [|x xs]; simpl; try done.
  intros (_ & nx & _ & Hc). f_equal. by eapply IH.
Qed.

Lemma chain_frame h h' p ls xs :
  (∀ l, l ∈ ls → h' !! l = h !! l) → chain h p ls xs → chain h' p ls xs.
Proof.
  revert p xs. induction ls as [|l ls IH]; intros p [|x xs] Hf; simpl; try done.
  intros (-> & nx & Hl & Hc). split; [done|]. exists nx. split; [rewrite Hf; [done|by left]|].
  apply IH; [|done]. intros l' Hl'. apply Hf. by right.
Qed.

Lemma chain_in h p ls xs l : chain h p ls xs → l ∈ ls → is_Some (h !! l).
Proof.
  revert p xs. induction ls as [|l' ls IH]; intros p [|x xs]; simpl; try done; [by intros _ ?%not_elem_of_nil|].
  intros (_ & nx & Hl & Hc) [->|Hin]%elem_of_cons; [by eexists|by eapply IH].
Qed.

(** Linking the chain [p2] behind the last node. *)
Lemma chain_link h p ls xs l x p2 ls2 xs2 :
  chain h p (ls ++ [l]) (xs ++ [x]) → NoDup (ls ++ [l]) → l ∉ ls2 → chain h p2 ls2 xs2 →
  chain (<[l := mkNode x p2]> h) p ((ls ++ [l]) ++ ls2) ((xs ++ [x]) ++ xs2).
Proof.
  revert p xs. induction ls as [|l' ls IH]; intros p xs Hc Hnd Hni H2.
  - destruct xs as [|x' xs].
    + destruct Hc as (-> & nx & Hl & _). simpl. split; [done|]. exists p2. rewrite lookup_insert_eq. split; [done|].
      eapply chain_frame; [|exact H2]. intros l' Hl'. rewrite lookup_insert_ne by (intros ->; done). done.
    + destruct Hc as (_ & nx & _ & Hc). destruct xs; destruct Hc.
  - rewrite <- !app_comm_cons in *. apply NoDup_cons in Hnd as [Hl' Hnd].
    destruct xs as [|x' xs]; cbn [app] in Hc.
    { destruct Hc as (_ & nx & _ & Hc). apply chain_length in Hc. rewrite length_app in Hc. simpl in Hc. lia. }
    destruct Hc as (-> & nx & Hl & Hc). cbn [app chain]. split; [done|]. exists nx.
    rewrite lookup_insert_ne by (intros ->; apply Hl'; set_solver). split; [done|]. by apply IH.
Qed.

Lemma rep_new h : rep h slist_new [] [].
Proof. by split_and!; [|apply NoDup_nil_2|..]. Qed.

Lemma rep_frame h h' s ls xs :
  (∀ l, l ∈ ls → h' !! l = h !! l) → rep h s ls xs → rep h' s ls xs.
Proof. intros Hf (Hc & ? & ? & ?). split_and!; try done. by eapply chain_frame. Qed.

(** A non-empty list ends with a node. *)
Lemma rep_snoc h s ls xs : rep h s ls xs → xs ≠ [] →
  ∃ ls' l xs' x nx, ls = ls' ++ [l] ∧ xs = xs' ++ [x] ∧ _tail s = Some l ∧ h !! l = Some (mkNode x nx).
Proof.
  intros (Hc & Hnd & Ht & _) Hne. pose proof (chain_length _ _ _ _ Hc) as Hl.
  destruct (exists_last Hne) as (xs' & x & ->).
  destruct ls as [|l0 ls0] using rev_ind; [by rewrite length_app in Hl; simpl in Hl; lia|].
  clear IHls0. rewrite last_snoc in Ht. rewrite !length_app in Hl. simpl in Hl.
  assert (∃ nx, h !! l0 = Some (mkNode x nx)) as [nx Hx].
  { clear -Hc Hl. revert Hc. generalize (_head s). revert xs' Hl.
    induction ls0 as [|l ls IH]; intros [|x' xs'] Hl p Hc; simpl in Hl; try lia.
    - destruct Hc as (_ & nx & Hx & _). eauto.
    - destruct Hc as (_ & nx & _ & Hc). eapply (IH xs'); [lia|exact Hc]. }
  exists ls0, l0, xs', x, nx. done.
Qed.

Lemma rep_nil h s ls : rep h s ls [] → ls = [] ∧ _head s = None ∧ _tail s = None.
Proof. intros (Hc & _ & Ht & _). destruct ls; [|destruct Hc]. done. Qed.

Lemma rep_push_back h s ls xs t :
  rep h s ls xs → Z.of_nat (length xs) < 2 ^ 31 - 1 →
  ∃ s' h' l, slist_push_back s t h = Some (s', h') ∧ rep h' s' (ls ++ [l]) (xs ++ [t]) ∧
    (l ∉ dom h) ∧ ∀ l', l' ∉ ls → l' ≠ l → h' !! l' = h !! l'.
Proof.
  intros Hr Hlen. unfold slist_push_back. set (l := fresh (dom h)).
  assert (l ∉ dom h) as Hfr by apply is_fresh.
  assert (∀ l', l' ∈ ls → l' ≠ l) as Hne.
  { intros l' Hin ->. destruct Hr as (Hc & _). destruct (chain_in _ _ _ _ _ Hc Hin) as [n Hn].
    apply Hfr. by eapply elem_of_dom_2. }
  assert (s32 (_count s + 1) = Z.of_nat (length (xs ++ [t]))) as Hcnt.
  { destruct Hr as (_ & _ & _ & ->). rewrite s32_small by lia. len. simpl. lia. }
  destruct (decide (xs = [])) as [->|Hxs].
  - destruct (rep_nil _ _ _ Hr) as (-> & Hh & Ht). rewrite Ht, Hh. cbn [mbind option_bind].
    eexists _, _, l. split; [reflexivity|]. split; [|split; [done|]].
    + split_and!; cbn [_head _tail _count app]; [|apply NoDup_singleton|done|done].
      split; [done|]. exists None. by rewrite lookup_insert_eq.
    + intros l' _ Hl'. by rewrite lookup_insert_ne.
  - destruct (rep_snoc _ _ _ _ Hr Hxs) as (ls' & tl & xs' & x & nx & -> & -> & Ht & Htl).
    assert (tl ≠ l) as Htne by (apply Hne; set_solver).
    rewrite Ht. rewrite lookup_insert_ne, Htl by done. cbn [mbind option_bind val].
    destruct Hr as (Hc & Hnd & _ & _).
    eexists _, _, l. split; [reflexivity|]. split; [|split; [done|]].
    + split_and!; cbn [_head _tail _count].
      * replace (match _head s with Some l0 => Some l0 | None => Some l end) with (_head s).
        2: { destruct ls', xs'; simpl in Hc; destruct Hc as [-> _]; done. }
        apply chain_link with (ls2 := [l]) (xs2 := [t]).
        -- eapply chain_frame; [|exact Hc]. intros l' Hin. by rewrite lookup_insert_ne by (intros <-; by apply (Hne l)).
        -- done.
        -- set_solver.
        -- split; [done|]. exists None. by rewrite lookup_insert_eq.
      * apply NoDup_app. split_and!; [done| |apply NoDup_singleton]. intros l' Hin. specialize (Hne l' Hin). set_solver.
      * by rewrite last_snoc.
      * done.
    + intros l' Hl' Hl''. rewrite lookup_insert_ne by set_solver. by rewrite lookup_insert_ne.
Qed.

Lemma rep_front h s l ls x xs : rep h s (l :: ls) (x :: xs) → slist_front s h = Some (x, h).
Proof.
  intros ((Hh & nx & Hl & _) & _). unfold slist_front. rewrite Hh. cbn [mbind option_bind].
  by rewrite Hl.
Qed.

Lemma rep_pop_front h s l ls x xs :
  rep h s (l :: ls) (x :: xs) → Z.of_nat (length xs) < 2 ^ 31 - 1 →
  ∃ s', slist_pop_front s h = Some (s', delete l h) ∧ rep (delete l h) s' ls xs.
Proof.
  intros ((Hh & nx & Hl & Hc) & Hnd & Ht & Hn) Hlen. unfold slist_pop_front. rewrite Hh, Hl.
  cbn [mbind option_bind next]. eexists; split; [reflexivity|].
  apply NoDup_cons in Hnd as [Hni Hnd].
  split_and!; cbn [_head _tail _count].
  - eapply chain_frame; [|exact Hc]. intros l' Hin. apply lookup_delete_ne. by intros ->.
  - done.
  - rewrite Ht. destruct ls as [|l2 ls].
    + rewrite decide_True by done. destruct xs; [exact Hc|destruct Hc].
    + rewrite last_cons_cons. rewrite decide_False; [done|]. intros E. symmetry in E.
      apply last_Some_elem_of in E. done.
  - rewrite Hn. cbn [length]. rewrite s32_small; lia.
Qed.

Lemma rep_join h s o ls xs ls2 xs2 :
  rep h s ls xs → rep h o ls2 xs2 → ls ## ls2 → (xs2 ≠ [] ∨ xs = []) →
  Z.of_nat (length xs) + Z.of_nat (length xs2) < 2 ^ 31 →
  ∃ s' o' h', slist_join s o h = Some ((s', o'), h') ∧ rep h' s' (ls ++ ls2) (xs ++ xs2) ∧
    rep h' o' [] [] ∧ dom h' = dom h ∧ ∀ l, l ∉ ls → h' !! l = h !! l.
Proof.
  intros Hs Ho Hd Hne Hlen. unfold slist_join.
  assert (s32 (_count s + _count o) = Z.of_nat (length (xs ++ xs2))) as Hcnt.
  { destruct Hs as (_ & _ & _ & ->), Ho as (_ & _ & _ & ->). rewrite s32_small by lia. len. lia. }
  destruct (decide (xs = [])) as [->|Hxs].
  - destruct (rep_nil _ _ _ Hs) as (-> & Hh & Ht). rewrite Ht. cbn [mbind option_bind].
    eexists _, _, _. split; [reflexivity|]. split_and!; [|apply rep_new|done|done].
    destruct Ho as (Hc & Hnd & Hto & _). by split_and!.
  - destruct Hne as [Hne|]; [|done].
    destruct (rep_snoc _ _ _ _ Hs Hxs) as (ls' & tl & xs' & x & nx & -> & -> & Ht & Htl).
    rewrite Ht, Htl. cbn [mbind option_bind val].
    eexists _, _, _. split; [reflexivity|]. split_and!; [|apply rep_new| |].
    + destruct Hs as (Hc & Hnd & _ & _), Ho as (Hc2 & Hnd2 & Ht2 & _).
      split_and!; cbn [_head _tail _count]; [|apply NoDup_app; split_and!; set_solver| |done].
      * apply chain_link; [done|done|set_solver|done].
      * rewrite Ht2, last_app. destruct (list.last ls2) eqn:E; [done|].
        apply last_None in E as ->. destruct xs2; [done|destruct Hc2].
    + rewrite dom_insert_L. apply (elem_of_dom_2 h) in Htl. set_solver.
    + intros l Hl. apply lookup_insert_ne. set_solver.
Qed.

Lemma free_chain fuel : ∀ h p ls xs,
  chain h p ls xs → NoDup ls → (length ls < fuel)%nat →
  ∃ h', free_from fuel p h = Some h' ∧ ∀ l, h' !! l = if decide (l ∈ ls) then None else h !! l.
Proof.
  induction fuel as [|fuel IH]; [lia|]. intros h p [|l ls] [|x xs] Hc Hnd Hl; try done.
  - rewrite Hc. exists h. split; [done|]. intros l. by rewrite decide_False by apply not_elem_of_nil.
  - destruct Hc as (-> & nx & Hx & Hc). apply NoDup_cons in Hnd as [Hni Hnd]. cbn [length] in Hl.
    cbn [free_from]. rewrite Hx. cbn [mbind option_bind next].
    destruct (IH (delete l h) nx ls xs) as (h' & -> & Hh'); [|done|lia|].
    { eapply chain_frame; [|exact Hc]. intros l' Hin. apply lookup_delete_ne. by intros ->. }
    exists h'. split; [done|]. intros l'. rewrite Hh'. destruct (decide (l' = l)) as [->|Hne].
    + rewrite decide_False by done. by rewrite lookup_delete_eq, decide_True by by left.
    + rewrite lookup_delete_ne by done. apply decide_ext. rewrite elem_of_cons. naive_solver.
Qed.

Lemma rep_size h s ls xs : rep h s ls xs → (length ls < S (size h))%nat.
Proof.
  intros (Hc & Hnd & _). rewrite <- size_dom. rewrite <- (size_list_to_set (C := gset loc) ls Hnd).
  apply Nat.lt_succ_r, subseteq_size. intros l. rewrite elem_of_list_to_set. intros Hin.
  apply elem_of_dom. by eapply chain_in.
Qed.

(** The destructor releases exactly the nodes of the list. *)
Lemma rep_delete h s ls xs : rep h s ls xs →
  ∃ h', slist_delete s h = Some (slist_new, h') ∧ ∀ l, h' !! l = if decide (l ∈ ls) then None else h !! l.
Proof.
  intros Hr. pose proof (rep_size _ _ _ _ Hr). destruct Hr as (Hc & Hnd & _).
  destruct (free_chain (S (size h)) h (_head s) ls xs Hc Hnd) as (h' & E & Hh'); [done|].
  exists h'. unfold slist_delete. by rewrite E.
Qed.

Lemma rep_dom h s ls xs l : rep h s ls xs → l ∈ ls → l ∈ dom h.
Proof. intros (Hc & _) Hin. apply elem_of_dom. by eapply chain_in. Qed.

(** ** Any number of lists in one heap

    [reps h l]: each list of [l] holds its elements, and no two share a node.  The
    operations are stated for the lists at the head; [reps_perm] brings others there. *)

Definition reps (h : heap) (l : list (slist * list T)) : Prop :=
  ∃ lss, Forall2 (λ p ls, rep h p.1 ls p.2) l lss ∧ NoDup (concat lss).

Lemma reps_nil h : reps h [].
Proof. exists []. split; [done|apply NoDup_nil_2]. Qed.

Lemma reps_perm h l l' : reps h l → l ≡ₚ l' → reps h l'.
Proof.
  intros (lss & Hf & Hnd) Hp. destruct (Permutation_Forall2 Hp Hf) as (lss' & Hp' & Hf').
  exists lss'. split; [done|]. by rewrite <- Hp'.
Qed.

Lemma reps_frame h h' l (keep : list loc) :
  (∀ lss, Forall2 (λ p ls, rep h p.1 ls p.2) l lss → concat lss ## keep →
     (∀ a, a ∉ keep → a ∈ concat lss → h' !! a = h !! a) →
     Forall2 (λ p ls, rep h' p.1 ls p.2) l lss).
Proof.
  intros lss Hf. induction Hf as [|p ls l lss Hr Hf IH]; intros Hd Heq; constructor.
  - eapply rep_frame; [|exact Hr]. intros a Ha. apply Heq; [|simpl; set_solver].
    intros Hk. apply (Hd a); [simpl; set_solver|done].
  - apply IH; [simpl in Hd; set_solver|]. intros a Hk Ha. apply Heq; [done|simpl; set_solver].
Qed.

Lemma reps_cons h p l :
  reps h (p :: l) ↔ ∃ ls lss, rep h p.1 ls p.2 ∧ Forall2 (λ p ls, rep h p.1 ls p.2) l lss ∧
    NoDup ls ∧ NoDup (concat lss) ∧ ls ## concat lss.
Proof.
  split.
  - intros (lss & Hf & Hnd). destruct lss as [|ls lss]; inversion Hf as [|? ? ? ? Hr Hf']; subst.
    simpl in Hnd. apply NoDup_app in Hnd as (H1 & H2 & H3). exists ls, lss. split_and!; try done.
  - intros (ls & lss & Hr & Hf & H1 & H2 & H3). exists (ls :: lss). split; [by constructor|].
    simpl. apply NoDup_app. split_and!; try done.
Qed.

Lemma reps_count h s xs l : reps h ((s, xs) :: l) → _count s = Z.of_nat (length xs).
Proof. intros (ls & lss & (_ & _ & _ & Hc) & _)%reps_cons. done. Qed.

Lemma reps_size h s xs l : reps h ((s, xs) :: l) → slist_size s = Z.of_nat (length xs).
Proof. apply reps_count. Qed.

Lemma concat_dom h l lss a :
  Forall2 (λ p ls, rep h p.1 ls p.2) l lss → a ∈ concat lss → a ∈ dom h.
Proof.
  induction 1 as [|p ls l lss Hr _ IH]; simpl; [by intros ?%not_elem_of_nil|].
  intros [Ha|Ha]%elem_of_app; [by eapply rep_dom|by apply IH].
Qed.

Lemma reps_push h s xs l t :
  reps h ((s, xs) :: l) → Z.of_nat (length xs) < 2 ^ 31 - 1 →
  ∃ s' h', slist_push_back s t h = Some (s', h') ∧ reps h' ((s', xs ++ [t]) :: l).
Proof.
  intros (ls & lss & Hr & Hf & H1 & H2 & H3)%reps_cons Hl. cbn [fst snd] in Hr.
  destruct (rep_push_back h s ls xs t Hr Hl) as (s' & h' & a & E & Hr' & Hfr & Heq).
  exists s', h'. split; [done|]. apply reps_cons. exists (ls ++ [a]), lss. cbn [fst snd].
  assert (a ∉ concat lss) as Ha by (intros Ha; apply Hfr; by eapply concat_dom).
  split_and!; try done.
  - eapply (reps_frame h h' l ls); [done|set_solver|]. intros b Hb Hin. apply Heq; set_solver.
  - destruct Hr' as (_ & ? & _). done.
  - set_solver.
Qed.

Lemma reps_pop h s x xs l :
  reps h ((s, x :: xs) :: l) → Z.of_nat (length xs) < 2 ^ 31 - 1 →
  slist_front s h = Some (x, h) ∧
  ∃ s' h', slist_pop_front s h = Some (s', h') ∧ reps h' ((s', xs) :: l).
Proof.
  intros (ls & lss & Hr & Hf & H1 & H2 & H3)%reps_cons Hl. cbn [fst snd] in Hr.
  destruct ls as [|a ls]; [by destruct Hr as (Hc & _)|]. split; [by eapply rep_front|].
  destruct (rep_pop_front _ _ _ _ _ _ Hr Hl) as (s' & E & Hr'). exists s', (delete a h). split; [done|].
  apply reps_cons. exists ls, lss. cbn [fst snd]. apply NoDup_cons in H1 as [_ H1]. split_and!; try done.
  - eapply (reps_frame h _ l [a]); [done|set_solver|]. intros b Hb _. apply lookup_delete_ne. set_solver.
  - set_solver.
Qed.

Lemma reps_join h s xs o ys l :
  reps h ((s, xs) :: (o, ys) :: l) → (ys ≠ [] ∨ xs = []) →
  Z.of_nat (length xs) + Z.of_nat (length ys) < 2 ^ 31 →
  ∃ s' o' h', slist_join s o h = Some ((s', o'), h') ∧ reps h' ((s', xs ++ ys) :: (o', []) :: l).
Proof.
  intros (ls & lss & Hr & Hf & H1 & H2 & H3)%reps_cons Hne Hl.
  destruct lss as [|ls2 lss]; inversion Hf as [|? ? ? ? Hr2 Hf']; subst. cbn [fst snd] in *. simpl in H2, H3.
  apply NoDup_app in H2 as (H21 & H22 & H23).
  destruct (rep_join h s o ls xs ls2 ys Hr Hr2) as (s' & o' & h' & E & Hs' & Ho' & Hdom & Heq);
    [set_solver|done|done|]. exists s', o', h'. split; [done|].
  apply reps_cons. exists (ls ++ ls2), ([] :: lss). cbn [fst snd]. split_and!; try done.
  - constructor; [done|]. eapply (reps_frame h h' l ls); [done|set_solver|]. intros b Hb _. by apply Heq.
  - destruct Hs' as (_ & ? & _). done.
  - simpl. set_solver.
Qed.

(** ** Two queues *)

Inductive qop := QPush (t : T) | QPop | QSwap | QJoin.

(** An operation on (this, other); [QPop] is the loop body [if (size()) { front();
    pop_front(); }] and yields the value. *)
Definition q_step (st : slist * slist) (op : qop) : ST heap (option T * (slist * slist)) :=
  let (s, o) := st in
  match op with
  | QPush t => s ← slist_push_back s t; mret (None, (s, o))
  | QPop => if slist_empty s then mret (None, (s, o))
            else x ← slist_front s; s ← slist_pop_front s; mret (Some x, (s, o))
  | QSwap => mret (None, slist_swap s o)
  | QJoin => st ← slist_join s o; mret (None, st)
  end.

(** The same on sequences; joining an empty list to a non-empty one has no meaning. *)
Definition q_spec (st : list T * list T) (op : qop) : option (option T * (list T * list T)) :=
  let (xs, ys) := st in
  match op with
  | QPush t => Some (None, (xs ++ [t], ys))
  | QPop => match xs with [] => Some (None, ([], ys)) | x :: xs => Some (Some x, (xs, ys)) end
  | QSwap => Some (None, (ys, xs))
  | QJoin => match ys, xs with [], _ :: _ => None | _, _ => Some (None, (xs ++ ys, [])) end
  end.

Fixpoint q_run (st : slist * slist) (ops : list qop) : ST heap (list T * (slist * slist)) :=
  match ops with
  | [] => mret ([], st)
  | op :: ops => '(x, st) ← q_step st op; '(out, st) ← q_run st ops; mret (option_list x ++ out, st)
  end.

Fixpoint q_spec_run (st : list T * list T) (ops : list qop) : option (list T * (list T * list T)) :=
  match ops with
  | [] => Some ([], st)
  | op :: ops => '(x, st) ← q_spec st op; '(out, st) ← q_spec_run st ops; Some (option_list x ++ out, st)
  end.

(** Two lists in one heap. *)
Definition rep2 (h : heap) (st : slist * slist) (xys : list T * list T) : Prop :=
  ∃ ls ls2, rep h st.1 ls xys.1 ∧ rep h st.2 ls2 xys.2 ∧ ls ## ls2.

Lemma q_step_refines h st xys op x xys' :
  rep2 h st xys → q_spec xys op = Some (x, xys') →
  Z.of_nat (length xys.1) + Z.of_nat (length xys.2) < 2 ^ 31 - 1 →
  ∃ st' h', q_step st op h = Some ((x, st'), h') ∧ rep2 h' st' xys' ∧
    (length xys'.1 + length xys'.2 ≤ S (length xys.1 + length xys.2))%nat.
Proof.
  destruct st as [s o], xys as [xs ys]. intros (ls & ls2 & Hs & Ho & Hd) Hsp Hl. cbn [fst snd] in *.
  destruct op as [t| | |]; cbn [q_spec] in Hsp; cbn [q_step].
  - injection Hsp as <- <-.
    destruct (rep_push_back h s ls xs t Hs) as (s' & h' & l & E & Hs' & Hfr & Hf); [lia|].
    rewrite (st_bind_some _ _ _ _ _ E). eexists _, h'. split; [reflexivity|].
    split; [|cbn [fst snd]; len; simpl; lia]. exists (ls ++ [l]), ls2. cbn [fst snd].
    split_and!; [done| |].
    + eapply rep_frame; [|exact Ho]. intros l' Hin. apply Hf; [set_solver|].
      intros ->. apply Hfr. by eapply rep_dom.
    + pose proof (rep_dom _ _ _ _ l Ho). set_solver.
  - destruct xs as [|x0 xs]; injection Hsp as <- <-.
    + unfold slist_empty. destruct Hs as (? & ? & ? & Hc). rewrite Hc. cbn [Z.eqb length Z.of_nat].
      eexists _, h. split; [reflexivity|]. split; [|cbn; lia]. exists ls, ls2. by split_and!.
    + assert (slist_empty s = false) as ->.
      { unfold slist_empty. destruct Hs as (_ & _ & _ & ->). apply Z.eqb_neq. cbn [length]. lia. }
      destruct ls as [|l ls]; [by destruct Hs as (Hc & _)|].
      rewrite (st_bind_some _ _ _ _ _ (rep_front _ _ _ _ _ _ Hs)).
      destruct (rep_pop_front _ _ _ _ _ _ Hs) as (s' & E & Hs'); [cbn in Hl; lia|].
      rewrite (st_bind_some _ _ _ _ _ E). eexists _, _. split; [reflexivity|].
      split; [|cbn; lia]. exists ls, ls2. cbn [fst snd]. split_and!; [done| |intros l' H1 H2; apply (Hd l'); [by right|done]].
      eapply rep_frame; [|exact Ho]. intros l' Hin. apply lookup_delete_ne.
      intros <-. apply (Hd l); [by left|done].
  - injection Hsp as <- <-. eexists _, h. split; [reflexivity|]. split; [|cbn; lia].
    exists ls2, ls. split_and!; [done|done|]. intros l' H1 H2. by apply (Hd l').
  - assert ((ys ≠ [] ∨ xs = []) ∧ x = None ∧ xys' = (xs ++ ys, [])) as (Hne & -> & ->).
    { destruct ys, xs; simplify_eq; split_and!; (by left) || (by right) || done. }
    destruct (rep_join h s o ls xs ls2 ys Hs Ho Hd Hne) as (s' & o' & h' & E & H1 & H2 & _); [lia|].
    rewrite (st_bind_some _ _ _ _ _ E). eexists _, h'. split; [reflexivity|].
    split; [|cbn [fst snd length]; len; lia]. exists (ls ++ ls2), []. cbn [fst snd].
    split_and!; [done|done|]. intros l _ Hin. by apply not_elem_of_nil in Hin.
Qed.

Lemma q_run_refines ops : ∀ h st xys out xys',
  rep2 h st xys → q_spec_run xys ops = Some (out, xys') →
  Z.of_nat (length xys.1 + length xys.2 + length ops) < 2 ^ 31 - 1 →
  ∃ st' h', q_run st ops h = Some ((out, st'), h') ∧ rep2 h' st' xys'.
Proof.
  induction ops as [|op ops IH]; intros h st xys out xys' Hr Hsp Hl.
  - injection Hsp as <- <-. by exists st, h.
  - cbn [q_spec_run] in Hsp. cbn [length] in Hl.
    destruct (q_spec xys op) as [[x xys1]|] eqn:E1; [|done]. cbn [mbind option_bind] in Hsp.
    destruct (q_spec_run xys1 ops) as [[out1 xys2]|] eqn:E2; [|done]. injection Hsp as <- <-.
    destruct (q_step_refines h st xys op x xys1 Hr E1) as (st1 & h1 & Es & Hr1 & Hl1); [lia|].
    destruct (IH h1 st1 xys1 out1 xys2 Hr1 E2) as (st2 & h2 & Er & Hr2); [lia|].
    exists st2, h2. split; [|done]. cbn [q_run]. rewrite (st_bind_some _ _ _ _ _ Es).
    by rewrite (st_bind_some _ _ _ _ _ Er).
Qed.

(** C22: any sequence of [push_back], [front]/[pop_front], [swap] and [join] on two
    lists, no empty list being joined to a non-empty one and [clear] not being used, is
    memory safe and yields the elements that two sequences yield, in the same order.
    (Outside this contract the list breaks: [slist_join_empty_loses],
    [slist_clear_dangles].) *)
Theorem slist_refines_queue (ops : list qop) (out : list T) (xys : list T * list T) :
  q_spec_run ([], []) ops = Some (out, xys) → Z.of_nat (length ops) < 2 ^ 31 - 1 →
  ∃ st h, q_run (slist_new, slist_new) ops ∅ = Some ((out, st), h) ∧ rep2 h st xys.
Proof.
  intros Hs Hl. apply (q_run_refines ops ∅ (slist_new, slist_new) ([], [])); [|done|cbn; lia].
  exists [], []. split_and!; [apply rep_new|apply rep_new|]. intros l Hin. by apply not_elem_of_nil in Hin.
Qed.

(** [clear] leaves [_tail] on a released node: the next [push_back] writes to
    freed memory, or, if the allocator returns that very node, links it to itself. *)
Theorem slist_clear_dangles (h : heap) (s : slist) (ls : list loc) (xs : list T) (t : T) :
  rep h s ls xs → xs ≠ [] →
  ∃ s' h', slist_clear s h = Some (s', h') ∧ slist_empty s' = true ∧
    match slist_push_back s' t h' with
    | None => True
    | Some (s2, h2) => ∃ l, _head s2 = Some l ∧ h2 !! l = Some (mkNode t (Some l))
    end.
Proof.
  intros Hr Hne. pose proof (rep_size _ _ _ _ Hr) as Hsz.
  destruct (rep_snoc _ _ _ _ Hr Hne) as (ls' & tl & xs' & x & nx & -> & -> & Ht & Htl).
  destruct Hr as (Hc & Hnd & _). destruct (free_chain _ _ _ _ _ Hc Hnd Hsz) as (h' & E & Hh').
  unfold slist_clear. rewrite E. cbn [mbind option_bind]. eexists _, h'. split_and!; [done|done|].
  unfold slist_push_back. cbn [_tail _head _count]. rewrite Ht.
  set (l := fresh (dom h')). destruct (decide (tl = l)) as [->|Hl].
  - rewrite lookup_insert_eq. cbn [mbind option_bind val]. exists l. split; [done|]. apply lookup_insert_eq.
  - rewrite lookup_insert_ne by done. rewrite Hh', decide_True by set_solver. done.
Qed.

(** Joining an empty list forgets the last node: the next element pushed is
    counted but cannot be reached from [_head]. *)
Theorem slist_join_empty_loses (h : heap) (s o : slist) (ls : list loc) (xs : list T) (t : T) :
  rep h s ls xs → xs ≠ [] → rep h o [] [] → Z.of_nat (length xs) < 2 ^ 31 - 1 →
  ∃ s1 o1 h1 s2 h2, slist_join s o h = Some ((s1, o1), h1) ∧ slist_push_back s1 t h1 = Some (s2, h2) ∧
    _count s2 = Z.of_nat (length xs) + 1 ∧ chain h2 (_head s2) ls xs.
Proof.
  intros Hr Hne (Ho & _ & Hto & Hco) Hl. cbn in Ho, Hto, Hco.
  destruct (rep_snoc _ _ _ _ Hr Hne) as (ls' & tl & xs' & x & nx & -> & -> & Ht & Htl).
  destruct Hr as (Hc & Hnd & _ & Hcnt).
  unfold slist_join. rewrite Ht, Htl, Ho, Hto, Hco. cbn [mbind option_bind val].
  eexists _, _, _, _, _. split; [reflexivity|]. unfold slist_push_back. cbn [_tail _head _count].
  cbn [mbind option_bind]. split; [reflexivity|]. cbn [_count _head].
  assert (chain (<[tl := mkNode x None]> h) (_head s) ((ls' ++ [tl]) ++ []) ((xs' ++ [x]) ++ [])) as Hc1
    by (apply chain_link; [done|done|apply not_elem_of_nil|done]).
  rewrite !app_nil_r in Hc1. split.
  - rewrite Hcnt. rewrite Z.add_0_r, (s32_small (Z.of_nat _)) by lia. rewrite s32_small; lia.
  - replace (match _head s with Some l0 => Some l0 | None => Some _ end) with (_head s)
      by (destruct ls', xs'; simpl in Hc; destruct Hc as [-> _]; done).
    eapply chain_frame; [|exact Hc1]. intros l' Hin. apply lookup_insert_ne. intros <-.
    destruct (chain_in _ _ _ _ _ Hc1 Hin) as [n Hn]. apply elem_of_dom_2 in Hn.
    by apply is_fresh in Hn.
Qed.
End slist.

Arguments slist : clear implicits.
Arguments qop : clear implicits.

Lemma slist_refines_queue_witness :
  ∃ st h, q_run (slist_new, slist_new)
    [QPush 1; QPush 2; QSwap; QPush 3; QJoin; QPop; QPush 4; QPop; QPop; QPop; QPop] ∅
    = Some (([3; 1; 2; 4], st), h) ∧ rep2 (T := Z) h st ([], []).
Proof.
  apply (slist_refines_queue
    [QPush 1; QPush 2; QSwap; QPush 3; QJoin; QPop; QPush 4; QPop; QPop; QPop; QPop]); [reflexivity|simpl; lia].
Defined.

(** The list of [push_back 7] on an empty heap. *)
Lemma one_rep : rep {[1%positive := mkNode 7 None]} (mkList 1 (Some 1%positive) (Some 1%positive)) [1%positive] [7].
Proof.
  split_and!; [|apply NoDup_singleton|done|done]. split; [done|]. exists None.
  split; [by rewrite lookup_singleton_eq|done].
Qed.

Lemma slist_clear_dangles_witness :
  ∃ s' h', slist_clear (mkList 1 (Some 1%positive) (Some 1%positive)) {[1%positive := mkNode 7 None]} = Some (s', h') ∧
    slist_empty s' = true ∧
    match slist_push_back s' 8 h' with
    | None => True
    | Some (s2, h2) => ∃ l, _head s2 = Some l ∧ h2 !! l = Some (mkNode 8 (Some l))
    end.
Proof. apply (slist_clear_dangles _ _ [1%positive] [7] 8); [apply one_rep|done]. Defined.

Lemma slist_join_empty_loses_witness :
  ∃ s1 o1 h1 s2 h2,
    slist_join (mkList 1 (Some 1%positive) (Some 1%positive)) slist_new {[1%positive := mkNode 7 None]}
      = Some ((s1, o1), h1) ∧
    slist_push_back s1 8 h1 = Some (s2, h2) ∧
    _count s2 = Z.of_nat (length [7]) + 1 ∧ chain h2 (_head s2) [1%positive] [7].
Proof.
  apply (slist_join_empty_loses _ _ slist_new [1%positive] [7] 8); [apply one_rep|done|apply rep_new|simpl; lia].
Defined.
