(* ===== verification/Containers.v ===== *)
(** * base::circular_queue and base::svector

    The two array containers of [src/slience/base/circular_queue.hpp] and
    [src/slience/base/svector.hpp].  A block of [malloc] is a list of slots, [None]
    being raw memory; an index outside it is a fault.

    [circular_queue_refines_deque]: the ring is a bounded double-ended queue.
    [svector_refines_stack] and [svector_overruns]: the vector is a stack up to twice
    its first capacity, which [push_back] never updates, and faults beyond. *)

From Stdlib Require Import ZArith Lia List.
From stdpp Require Import base numbers list option.
From S2P Require Import Prelude.

#[local] Set Warnings "-clear-no-such-hyp".

Section containers.
Context {T : Type}.

(** The slot at an index of type [size_t]. *)
Definition slot (blk : list (option T)) (i : Z) : option (option T) := blk !! Z.to_nat i.
Definition set_slot (blk : list (option T)) (i : Z) (x : option T) : option (list (option T)) :=
  _ ← slot blk i; Some (<[Z.to_nat i := x]> blk).

(** ** circular_queue *)

Record circular_queue := mkQueue { q_cap : Z; q_head : Z; q_tail : Z; q_element : list (option T) }.

Definition cq_new (cap : Z) : circular_queue :=
  let c := u64 (cap + 1) in mkQueue c 0 0 (replicate (Z.to_nat c) None).

Definition cq_new_default : circular_queue := mkQueue (1024 + 1) 0 0 (replicate 1025 None).

Definition cq_capacity (q : circular_queue) : Z := u64 (q_cap q - 1).
Definition cq_size (q : circular_queue) : Z := u64 (u64 (q_cap q - q_head q) + q_tail q) mod q_cap q.
Definition cq_full (q : circular_queue) : bool := cq_size q =? u64 (q_cap q - 1).
Definition cq_empty (q : circular_queue) : bool := q_head q =? q_tail q.

(** A value is read from a slot that holds one. *)
Definition cq_front (q : circular_queue) : option T := x ← slot (q_element q) (q_head q); x.
Definition cq_back (q : circular_queue) : option T :=
  x ← slot (q_element q) (u64 (u64 (q_cap q + q_tail q) - 1) mod q_cap q); x.

Definition next_ix (q : circular_queue) (i : Z) : Z := u64 (i + 1) mod q_cap q.
Definition prev_ix (q : circular_queue) (i : Z) : Z := u64 (u64 (q_cap q + i) - 1) mod q_cap q.

Definition cq_pop_front (q : circular_queue) : option circular_queue :=
  if negb (q_head q =? q_tail q) then
    e ← set_slot (q_element q) (q_head q) None;
    Some (mkQueue (q_cap q) (next_ix q (q_head q)) (q_tail q) e)
  else Some q.

Definition cq_pop_front_val (q : circular_queue) : option (option T * circular_queue) :=
  if negb (q_head q =? q_tail q) then
    t ← cq_front q; q ← cq_pop_front q; Some (Some t, q)
  else Some (None, q).

Definition cq_pop_back (q : circular_queue) : option circular_queue :=
  if negb (q_head q =? q_tail q) then
    let tail := prev_ix q (q_tail q) in
    e ← set_slot (q_element q) tail None;
    Some (mkQueue (q_cap q) (q_head q) tail e)
  else Some q.

(** The branch that pops ends with the statement [true;] and returns no value:
    undefined behaviour. *)
Definition cq_pop_back_val (q : circular_queue) : option (bool * circular_queue) :=
  if negb (q_head q =? q_tail q) then None else Some (false, q).

Definition cq_push_back (q : circular_queue) (t : T) : option (bool * circular_queue) :=
  if cq_full q then Some (false, q)
  else
    e ← set_slot (q_element q) (q_tail q) (Some t);
    Some (true, mkQueue (q_cap q) (q_head q) (next_ix q (q_tail q)) e).

(** The loop of [clear]; the capacity bounds its rounds. *)
Fixpoint cq_clear_loop (fuel : nat) (q : circular_queue) : option circular_queue :=
  if q_head q =? q_tail q then Some q
  else match fuel with
       | O => None
       | S fuel => e ← set_slot (q_element q) (q_head q) None;
                   cq_clear_loop fuel (mkQueue (q_cap q) (next_ix q (q_head q)) (q_tail q) e)
       end.
Definition cq_clear (q : circular_queue) : option circular_queue :=
  cq_clear_loop (Z.to_nat (q_cap q)) q.

Definition cq_swap (q o : circular_queue) : circular_queue * circular_queue := (o, q).

(** *** Representation *)

Definition qrep (q : circular_queue) (xs : list T) : Prop :=
  1 <= q_cap q < 2 ^ 62 ∧ 0 <= q_head q < q_cap q ∧
  Z.of_nat (length xs) < q_cap q ∧ q_tail q = (q_head q + Z.of_nat (length xs)) mod q_cap q ∧
  Z.of_nat (length (q_element q)) = q_cap q ∧
  ∀ i x, xs !! i = Some x → slot (q_element q) ((q_head q + Z.of_nat i) mod q_cap q) = Some (Some x).

Lemma mod_offset c h i : 0 < c → 0 <= i < c → (c - h + (h + i) mod c) mod c = i.
Proof.
  intros Hc Hi. rewrite Zplus_mod_idemp_r. replace (c - h + (h + i)) with (i + 1 * c) by lia.
  rewrite Z_mod_plus_full. by apply Z.mod_small.
Qed.

Lemma mod_inj c h i j : 0 < c → 0 <= i < c → 0 <= j < c → (h + i) mod c = (h + j) mod c → i = j.
Proof. intros Hc Hi Hj E. rewrite <- (mod_offset c h i), <- (mod_offset c h j) by lia. by rewrite E. Qed.

Lemma u64_s z : 0 <= z < 2 ^ 63 → u64 z = z.
Proof. intros. apply u64_small. lia. Qed.

Lemma qrep_tail q xs : qrep q xs → 0 <= q_tail q < q_cap q.
Proof. intros (Hc & _ & _ & -> & _). apply Z.mod_pos_bound. lia. Qed.

Lemma qrep_size q xs : qrep q xs → cq_size q = Z.of_nat (length xs).
Proof.
  intros Hr. pose proof (qrep_tail q xs Hr). destruct Hr as (Hc & Hh & Hl & Ht & _). unfold cq_size.
  rewrite (u64_s (_ - _)), u64_s by lia. rewrite Ht. apply mod_offset; lia.
Qed.

Lemma qrep_empty q xs : qrep q xs → (q_head q =? q_tail q) = bool_decide (xs = []).
Proof.
  intros (Hc & Hh & Hl & Ht & _). rewrite Ht. destruct xs as [|x xs].
  - rewrite Z.add_0_r, Z.mod_small by lia. by rewrite Z.eqb_refl.
  - rewrite bool_decide_false by done. apply Z.eqb_neq. intros E.
    assert (0 = Z.of_nat (length (x :: xs))) as E0; [|simpl in E0; lia].
    apply (mod_inj (q_cap q) (q_head q)); [lia|lia|lia|]. rewrite Z.add_0_r, Z.mod_small; lia.
Qed.

Lemma set_slot_ok blk i x : 0 <= i < Z.of_nat (length blk) →
  set_slot blk i x = Some (<[Z.to_nat i := x]> blk).
Proof.
  intros Hi. unfold set_slot, slot.
  destruct (lookup_lt_is_Some_2 blk (Z.to_nat i)) as [y ->]; [lia|done].
Qed.

Lemma slot_insert_ne blk i j x : 0 <= i → 0 <= j → i ≠ j → slot (<[Z.to_nat i := x]> blk) j = slot blk j.
Proof. intros. unfold slot. rewrite list_lookup_insert_ne; [done|lia]. Qed.

Lemma slot_insert_eq blk i x : 0 <= i < Z.of_nat (length blk) → slot (<[Z.to_nat i := x]> blk) i = Some x.
Proof. intros. unfold slot. apply list_lookup_insert_eq. lia. Qed.

Lemma qrep_new cap : 0 <= cap < 2 ^ 61 → qrep (cq_new cap) [].
Proof.
  intros Hc. unfold cq_new. rewrite u64_s by lia. split_and!; cbn; try lia; [by rewrite Z.mod_0_l by lia| |done].
  rewrite length_replicate. lia.
Qed.

Lemma qrep_push_back q xs t : qrep q xs →
  if decide (Z.of_nat (length xs) + 1 = q_cap q) then cq_push_back q t = Some (false, q)
  else ∃ q', cq_push_back q t = Some (true, q') ∧ qrep q' (xs ++ [t]) ∧ q_cap q' = q_cap q.
Proof.
  intros Hr. pose proof (qrep_tail q xs Hr) as Htl. pose proof (qrep_size q xs Hr) as Hsz.
  unfold cq_push_back, cq_full. rewrite Hsz. destruct Hr as (Hc & Hh & Hl & Ht & He & Hx).
  rewrite u64_s by lia. destruct (decide _) as [Hf|Hf].
  - replace (_ =? _) with true by lia. done.
  - replace (Z.of_nat (length xs) =? q_cap q - 1) with false by lia.
    rewrite set_slot_ok by lia. cbn [mbind option_bind]. eexists; split; [done|]. split; [|done].
    
    split_and!; cbn [q_cap q_head q_tail q_element]; rewrite ?length_app; cbn [length]; try lia; [|by rewrite length_insert|].
    + unfold next_ix. rewrite u64_s by lia. rewrite Ht, Zplus_mod_idemp_l. f_equal. lia.
    + intros i x Hi. apply lookup_app_Some in Hi as [Hi|[Hi1 Hi2]].
      * rewrite slot_insert_ne; [by apply Hx|lia|apply Z.mod_pos_bound; lia|].
        apply lookup_lt_Some in Hi. rewrite Ht. intros E. apply mod_inj in E; lia.
      * destruct (i - length xs)%nat eqn:E; [|done]. injection Hi2 as <-.
        replace i with (length xs) by lia. rewrite <- Ht. apply slot_insert_eq. lia.
Qed.

Lemma qrep_front q x xs : qrep q (x :: xs) → cq_front q = Some x.
Proof.
  intros (Hc & Hh & Hl & Ht & He & Hx). unfold cq_front. specialize (Hx 0%nat x eq_refl).
  rewrite Z.add_0_r, Z.mod_small in Hx by lia. by rewrite Hx.
Qed.

Lemma qrep_drop_front q x xs : qrep q (x :: xs) →
  qrep (mkQueue (q_cap q) (next_ix q (q_head q)) (q_tail q) (<[Z.to_nat (q_head q) := None]> (q_element q))) xs.
Proof.
  intros (Hc & Hh & Hl & Ht & He & Hx). unfold next_ix. rewrite u64_s by lia. cbn [length] in *.
  assert (∀ i, ((q_head q + 1) mod q_cap q + i) mod q_cap q = (q_head q + (i + 1)) mod q_cap q) as Hix.
  { intros i. rewrite Zplus_mod_idemp_l. f_equal. lia. }
  split_and!; cbn [q_cap q_head q_tail q_element]; try lia.
  - apply Z.mod_pos_bound. lia.
  - apply Z.mod_pos_bound. lia.
  - rewrite Hix, Ht. f_equal. lia.
  - by rewrite length_insert.
  - intros i y Hi. rewrite Hix. pose proof (lookup_lt_Some _ _ _ Hi).
    rewrite slot_insert_ne; [|lia|apply Z.mod_pos_bound; lia|].
    + specialize (Hx (S i) y Hi). by rewrite Nat2Z.inj_succ in Hx.
    + intros E. rewrite <- (Z.mod_small (q_head q) (q_cap q)) in E at 1 by lia.
      rewrite <- (Z.add_0_r (q_head q)) in E at 1. apply mod_inj in E; lia.
Qed.

Lemma qrep_pop_front q x xs : qrep q (x :: xs) → ∃ q', cq_pop_front q = Some q' ∧ qrep q' xs ∧ q_cap q' = q_cap q.
Proof.
  intros Hr. unfold cq_pop_front. rewrite (qrep_empty _ _ Hr), bool_decide_false by done. cbn [negb].
  rewrite set_slot_ok by (destruct Hr as (?&?&?&?&?&?); lia). cbn [mbind option_bind].
  eexists; split; [done|]. split; [by eapply qrep_drop_front|done].
Qed.

Lemma qrep_prev q xs x : qrep q (xs ++ [x]) →
  prev_ix q (q_tail q) = (q_head q + Z.of_nat (length xs)) mod q_cap q.
Proof.
  intros Hr. pose proof (qrep_tail _ _ Hr). destruct Hr as (Hc & Hh & Hl & Ht & He & Hx).
  unfold prev_ix. rewrite (u64_s (_ + _)), u64_s by lia. rewrite Ht. rewrite length_app in *. simpl in *.
  replace (q_cap q + (q_head q + Z.of_nat (length xs + 1)) mod q_cap q - 1)
    with ((q_cap q - 1) + (q_head q + Z.of_nat (length xs + 1)) mod q_cap q) by lia.
  rewrite Zplus_mod_idemp_r.
  replace (q_cap q - 1 + (q_head q + Z.of_nat (length xs + 1))) with (q_head q + Z.of_nat (length xs) + 1 * q_cap q) by lia.
  apply Z_mod_plus_full.
Qed.

Lemma qrep_back q xs x : qrep q (xs ++ [x]) → cq_back q = Some x.
Proof.
  intros Hr. unfold cq_back. fold (prev_ix q (q_tail q)). rewrite (qrep_prev _ _ _ Hr).
  destruct Hr as (Hc & Hh & Hl & Ht & He & Hx). rewrite (Hx (length xs) x); [done|].
  by rewrite lookup_app_r, Nat.sub_diag by lia.
Qed.

Lemma qrep_pop_back q xs x : qrep q (xs ++ [x]) →
  ∃ q', cq_pop_back q = Some q' ∧ qrep q' xs ∧ q_cap q' = q_cap q.
Proof.
  intros Hr. unfold cq_pop_back. rewrite (qrep_empty _ _ Hr), bool_decide_false by (by destruct xs).
  cbn [negb]. rewrite (qrep_prev _ _ _ Hr). destruct Hr as (Hc & Hh & Hl & Ht & He & Hx).
  rewrite length_app in Hl. simpl in Hl.
  assert (0 <= (q_head q + Z.of_nat (length xs)) mod q_cap q < q_cap q) by (apply Z.mod_pos_bound; lia).
  rewrite set_slot_ok by lia. cbn [mbind option_bind]. eexists; split; [done|]. split; [|done].
  split_and!; cbn [q_cap q_head q_tail q_element]; try lia; [by rewrite length_insert|].
  intros i y Hi. pose proof (lookup_lt_Some _ _ _ Hi).
  rewrite slot_insert_ne; [|lia|apply Z.mod_pos_bound; lia|].
  - apply Hx. by rewrite lookup_app_l.
  - intros E. apply mod_inj in E; lia.
Qed.

Lemma qrep_clear_loop fuel : ∀ q xs, qrep q xs → (length xs ≤ fuel)%nat →
  ∃ q', cq_clear_loop fuel q = Some q' ∧ qrep q' [] ∧ q_cap q' = q_cap q.
Proof.
  induction fuel as [|fuel IH]; intros q xs Hr Hl; cbn [cq_clear_loop];
    rewrite (qrep_empty _ _ Hr); destruct xs as [|x xs]; cbn [length] in Hl; try lia.
  - by exists q.
  - by exists q.
  - rewrite bool_decide_false by done. rewrite set_slot_ok by (destruct Hr as (?&?&?&?&?&?); lia).
    cbn [mbind option_bind]. destruct (IH _ xs (qrep_drop_front _ _ _ Hr)) as (q' & -> & ? & Hc); [lia|].
    eauto.
Qed.

Lemma qrep_clear q xs : qrep q xs → ∃ q', cq_clear q = Some q' ∧ qrep q' [] ∧ q_cap q' = q_cap q.
Proof. intros Hr. apply (qrep_clear_loop _ q xs Hr). destruct Hr as (?&?&?&?); lia. Qed.

(** *** The deque *)

Inductive dop := DPush (t : T) | DPopFront | DPopFrontVal | DPopBack | DFront | DBack | DClear | DSize.
Inductive dout := OBool (b : bool) | OVal (x : option T) | OSize (n : Z) | ODone.

Definition d_step (q : circular_queue) (op : dop) : option (dout * circular_queue) :=
  match op with
  | DPush t => '(b, q) ← cq_push_back q t; Some (OBool b, q)
  | DPopFront => q ← cq_pop_front q; Some (ODone, q)
  | DPopFrontVal => '(x, q) ← cq_pop_front_val q; Some (OVal x, q)
  | DPopBack => q ← cq_pop_back q; Some (ODone, q)
  | DFront => x ← cq_front q; Some (OVal (Some x), q)
  | DBack => x ← cq_back q; Some (OVal (Some x), q)
  | DClear => q ← cq_clear q; Some (ODone, q)
  | DSize => Some (OSize (cq_size q), q)
  end.

(** A sequence of at most [cap] elements; [front] and [back] of an empty one have
    no meaning. *)
Definition d_spec (cap : Z) (xs : list T) (op : dop) : option (dout * list T) :=
  match op with
  | DPush t => Some (if decide (Z.of_nat (length xs) = cap) then (OBool false, xs) else (OBool true, xs ++ [t]))
  | DPopFront => Some (ODone, tail xs)
  | DPopFrontVal => Some (OVal (head xs), tail xs)
  | DPopBack => Some (ODone, removelast xs)
  | DFront => x ← head xs; Some (OVal (Some x), xs)
  | DBack => x ← list.last xs; Some (OVal (Some x), xs)
  | DClear => Some (ODone, [])
  | DSize => Some (OSize (Z.of_nat (length xs)), xs)
  end.

Fixpoint run_ops {S O : Type} (step : S → dop → option (O * S)) (s : S) (ops : list dop) : option (list O * S) :=
  match ops with
  | [] => Some ([], s)
  | op :: ops => '(o, s) ← step s op; '(os, s) ← run_ops step s ops; Some (o :: os, s)
  end.

Lemma d_step_refines q xs op o xs' :
  qrep q xs → d_spec (q_cap q - 1) xs op = Some (o, xs') →
  ∃ q', d_step q op = Some (o, q') ∧ qrep q' xs' ∧ q_cap q' = q_cap q.
Proof.
  intros Hr Hs. destruct op; cbn [d_spec d_step] in *.
  - pose proof (qrep_push_back q xs t Hr) as Hp. destruct (decide (Z.of_nat (length xs) = q_cap q - 1)).
    + rewrite decide_True in Hp by lia. rewrite Hp. injection Hs as <- <-. by exists q.
    + rewrite decide_False in Hp by lia. destruct Hp as (q' & -> & ? & ?). injection Hs as <- <-. by exists q'.
  - injection Hs as <- <-. destruct xs as [|x xs].
    + exists q. unfold cq_pop_front. by rewrite (qrep_empty _ _ Hr).
    + destruct (qrep_pop_front _ _ _ Hr) as (q' & -> & ?). by exists q'.
  - injection Hs as <- <-. unfold cq_pop_front_val. rewrite (qrep_empty _ _ Hr). destruct xs as [|x xs].
    + by exists q.
    + rewrite bool_decide_false by done. cbn [negb]. rewrite (qrep_front _ _ _ Hr).
      destruct (qrep_pop_front _ _ _ Hr) as (q' & E & ?). cbn [mbind option_bind]. rewrite E. by exists q'.
  - injection Hs as <- <-. destruct (decide (xs = [])) as [->|Hne].
    + exists q. unfold cq_pop_back. by rewrite (qrep_empty _ _ Hr).
    + destruct (exists_last Hne) as (xs' & x & ->). rewrite removelast_last.
      destruct (qrep_pop_back _ _ _ Hr) as (q' & -> & ?). by exists q'.
  - destruct xs as [|x xs]; [done|]. injection Hs as <- <-. rewrite (qrep_front _ _ _ Hr). by exists q.
  - destruct (decide (xs = [])) as [->|Hne]; [done|]. destruct (exists_last Hne) as (ys & x & ->).
    rewrite last_snoc in Hs. injection Hs as <- <-. rewrite (qrep_back _ _ _ Hr). by exists q.
  - injection Hs as <- <-. destruct (qrep_clear _ _ Hr) as (q' & -> & ?). by exists q'.
  - injection Hs as <- <-. rewrite (qrep_size _ _ Hr). by exists q.
Qed.

Lemma d_run_refines ops : ∀ q xs os xs',
  qrep q xs → run_ops (d_spec (q_cap q - 1)) xs ops = Some (os, xs') →
  ∃ q', run_ops d_step q ops = Some (os, q') ∧ qrep q' xs' ∧ q_cap q' = q_cap q.
Proof.
  induction ops as [|op ops IH]; intros q xs os xs' Hr Hs; cbn [run_ops] in *.
  - injection Hs as <- <-. by exists q.
  - destruct (d_spec _ xs op) as [[o xs1]|] eqn:E1; [|done]. cbn [mbind option_bind] in Hs.
    destruct (run_ops _ xs1 ops) as [[os1 xs2]|] eqn:E2; [|done]. injection Hs as <- <-.
    destruct (d_step_refines _ _ _ _ _ Hr E1) as (q1 & -> & Hr1 & Hc). rewrite <- Hc in E2.
    destruct (IH _ _ _ _ Hr1 E2) as (q2 & E & ? & Hc2). cbn [mbind option_bind]. rewrite E.
    exists q2. split_and!; [done|done|congruence].
Qed.

(** C30: a [circular_queue] of capacity [cap] behaves as a double-ended queue of at most
    [cap] elements under any sequence of [push_back], [pop_front()], [pop_front(T&)],
    [pop_back()], [front], [back], [clear] and [size]: [push_back] is refused exactly when
    it is full, nothing is read or written outside the block, and each gives the
    sequence's answer ([front] and [back] of an empty one excepted, which have none).
    [full], [empty] and [capacity] answer for the sequence too, and [swap] exchanges two
    queues.  [pop_back(T&)] is the exception: of a queue that is not empty it returns no
    value ([circular_queue.hpp:95-105]). *)
Theorem circular_queue_refines_deque (cap : Z) (ops : list dop) (os : list dout) (xs : list T) :
  0 <= cap < 2 ^ 61 → run_ops (d_spec cap) [] ops = Some (os, xs) →
  ∃ q, run_ops d_step (cq_new cap) ops = Some (os, q) ∧ qrep q xs ∧
    cq_full q = bool_decide (Z.of_nat (length xs) = cap) ∧ cq_empty q = bool_decide (xs = []) ∧
    cq_capacity q = cap ∧
    (∀ q2 ys, qrep q2 ys → qrep (cq_swap q q2).1 ys ∧ qrep (cq_swap q q2).2 xs) ∧
    cq_pop_back_val q = (if decide (xs = []) then Some (false, q) else None).
Proof.
  intros Hc Hs. destruct (d_run_refines ops (cq_new cap) [] os xs) as (q & E & Hr & Hq).
  - by apply qrep_new.
  - cbn [cq_new q_cap]. rewrite u64_s by lia. by replace (cap + 1 - 1) with cap by lia.
  - cbn [cq_new q_cap] in Hq. rewrite u64_s in Hq by lia.
    assert (cq_capacity q = cap) as Hcap by (unfold cq_capacity; rewrite u64_s; lia).
    exists q. split; [done|]. split; [done|]. split; [|split; [apply (qrep_empty _ _ Hr)|split; [done|split; [done|]]]].
    + unfold cq_full. unfold cq_capacity in Hcap. rewrite (qrep_size _ _ Hr), Hcap.
      destruct (Z.eqb_spec (Z.of_nat (length xs)) cap); [by rewrite bool_decide_true|by rewrite bool_decide_false].
    + unfold cq_pop_back_val. rewrite (qrep_empty _ _ Hr). destruct (decide (xs = [])) as [->|Hne]; [done|].
      by rewrite bool_decide_false.
Qed.

(** ** svector *)

Record svector := mkVec { v_cap : Z; v_size : Z; v_head : list (option T) }.

Definition sv_new_cap (cap : Z) : svector := mkVec cap 0 (replicate (Z.to_nat cap) None).
Definition sv_new : svector := sv_new_cap 100.

Definition sv_empty (v : svector) : bool := v_size v =? 0.
Definition sv_back (v : svector) : option T := x ← slot (v_head v) (u64 (v_size v - 1)); x.

Definition sv_pop_back (v : svector) : option svector :=
  if v_size v >? 0 then
    let sz := u64 (v_size v - 1) in
    h ← set_slot (v_head v) sz None;
    Some (mkVec (v_cap v) sz h)
  else Some v.

Definition realloc (blk : list (option T)) (n : nat) : list (option T) :=
  take n blk ++ replicate (n - length blk) None.

(** [_cap] stays what it was. *)
Definition sv_push_back (v : svector) (t : T) : option svector :=
  let h := if v_size v >=? v_cap v then realloc (v_head v) (Z.to_nat (u64 (v_cap v * 2))) else v_head v in
  h ← set_slot h (v_size v) (Some t);
  Some (mkVec (v_cap v) (u64 (v_size v + 1)) h).

(** The destructors run on [0 .. _size - 1]. *)
Definition sv_clear (v : svector) : option svector :=
  if v_size v <=? Z.of_nat (length (v_head v)) then
    Some (mkVec (v_cap v) 0 (replicate (Z.to_nat (v_size v)) None ++ drop (Z.to_nat (v_size v)) (v_head v)))
  else None.

Definition sv_swap (v o : svector) : svector * svector := (o, v).

Definition vrep (v : svector) (xs : list T) : Prop :=
  1 <= v_cap v < 2 ^ 61 ∧ v_size v = Z.of_nat (length xs) ∧
  (Z.of_nat (length (v_head v)) = v_cap v ∧ v_size v <= v_cap v ∨
   Z.of_nat (length (v_head v)) = 2 * v_cap v ∧ v_size v <= 2 * v_cap v) ∧
  ∀ i x, xs !! i = Some x → v_head v !! i = Some (Some x).

Lemma vrep_new cap : 1 <= cap < 2 ^ 61 → vrep (sv_new_cap cap) [].
Proof. intros Hc. split_and!; cbn; try lia; [|done]. rewrite length_replicate. left. lia. Qed.

Lemma vrep_push_back v xs t : vrep v xs → Z.of_nat (length xs) < 2 * v_cap v →
  ∃ v', sv_push_back v t = Some v' ∧ vrep v' (xs ++ [t]) ∧ v_cap v' = v_cap v.
Proof.
  intros (Hc & Hs & Hl & Hx) Hlt. unfold sv_push_back.
  set (h := if v_size v >=? v_cap v then _ else _).
  assert ((∀ i x, xs !! i = Some x → h !! i = Some (Some x)) ∧
    (Z.of_nat (length h) = v_cap v ∧ v_size v < v_cap v ∨ Z.of_nat (length h) = 2 * v_cap v)) as [Hx' Hl'].
  { unfold h. rewrite Z.geb_leb. destruct (Z.leb_spec (v_cap v) (v_size v)) as [Hge|Hlt'].
    - rewrite u64_s by lia. unfold realloc. split.
      + intros i x Hi. pose proof (lookup_lt_Some _ _ _ Hi). rewrite lookup_app_l, lookup_take_lt by (len; lia).
        by apply Hx.
      + right. len. lia.
    - split; [done|]. destruct Hl; [left; lia|right; lia]. }
  rewrite set_slot_ok by lia. cbn [mbind option_bind]. eexists; split; [done|]. split; [|done].
  rewrite u64_s by lia. split_and!; cbn [v_cap v_size v_head]; rewrite ?length_app, ?length_insert; cbn [length]; try lia.
  intros i x Hi. apply lookup_app_Some in Hi as [Hi|[Hi1 Hi2]].
  - rewrite list_lookup_insert_ne; [by apply Hx'|]. apply lookup_lt_Some in Hi. lia.
  - destruct (i - length xs)%nat eqn:E; [|done]. injection Hi2 as <-.
    replace i with (Z.to_nat (v_size v)) by lia. apply list_lookup_insert_eq. lia.
Qed.

Lemma vrep_pop_back v xs : vrep v xs →
  ∃ v', sv_pop_back v = Some v' ∧ vrep v' (removelast xs) ∧ v_cap v' = v_cap v.
Proof.
  intros (Hc & Hs & Hl & Hx). unfold sv_pop_back. destruct (decide (xs = [])) as [->|Hne].
  - exists v. rewrite Hs. by split_and!.
  - destruct (exists_last Hne) as (ys & y & ->). rewrite removelast_last. rewrite length_app in Hs. simpl in Hs.
    destruct (Z.gtb_spec (v_size v) 0); [|lia]. rewrite u64_s by lia. rewrite set_slot_ok by lia.
    cbn [mbind option_bind]. eexists; split; [done|]. split; [|done].
    split_and!; cbn [v_cap v_size v_head]; rewrite ?length_insert; try lia.
    intros i x Hi. rewrite list_lookup_insert_ne by (apply lookup_lt_Some in Hi; lia).
    apply Hx. apply lookup_lt_Some in Hi as Hi'. by rewrite lookup_app_l.
Qed.

Lemma vrep_back v xs x : vrep v xs → list.last xs = Some x → sv_back v = Some x.
Proof.
  intros (Hc & Hs & Hl & Hx) Hla. unfold sv_back, slot. apply last_Some in Hla as [ys ->].
  rewrite length_app in Hs. simpl in Hs. rewrite u64_s by lia.
  rewrite (Hx (Z.to_nat (v_size v - 1)) x); [done|]. replace (Z.to_nat (v_size v - 1)) with (length ys) by lia.
  by rewrite lookup_app_r, Nat.sub_diag by lia.
Qed.

Lemma vrep_clear v xs : vrep v xs → ∃ v', sv_clear v = Some v' ∧ vrep v' [] ∧ v_cap v' = v_cap v.
Proof.
  intros (Hc & Hs & Hl & Hx). unfold sv_clear. rewrite (proj2 (Z.leb_le _ _)) by lia.
  eexists; split; [done|]. split; [|done]. split_and!; cbn [v_cap v_size v_head]; try done; try lia.
  len. lia.
Qed.

(** The operations used as a stack; the others are not the vector's. *)
Definition v_step (v : svector) (op : dop) : option (dout * svector) :=
  match op with
  | DPush t => v ← sv_push_back v t; Some (ODone, v)
  | DPopBack => v ← sv_pop_back v; Some (ODone, v)
  | DBack => x ← sv_back v; Some (OVal (Some x), v)
  | DClear => v ← sv_clear v; Some (ODone, v)
  | DSize => Some (OSize (v_size v), v)
  | _ => None
  end.

Definition v_spec (cap : Z) (xs : list T) (op : dop) : option (dout * list T) :=
  match op with
  | DPush t => if decide (Z.of_nat (length xs) < 2 * cap) then Some (ODone, xs ++ [t]) else None
  | DPopBack => Some (ODone, removelast xs)
  | DBack => x ← list.last xs; Some (OVal (Some x), xs)
  | DClear => Some (ODone, [])
  | DSize => Some (OSize (Z.of_nat (length xs)), xs)
  | _ => None
  end.

Lemma v_step_refines v xs op o xs' :
  vrep v xs → v_spec (v_cap v) xs op = Some (o, xs') →
  ∃ v', v_step v op = Some (o, v') ∧ vrep v' xs' ∧ v_cap v' = v_cap v.
Proof.
  intros Hr Hs. destruct op; cbn [v_spec v_step] in *; try done.
  - destruct (decide _) as [Hl|]; [|done]. injection Hs as <- <-.
    destruct (vrep_push_back v xs t Hr Hl) as (v' & -> & ?). by exists v'.
  - injection Hs as <- <-. destruct (vrep_pop_back v xs Hr) as (v' & -> & ?). by exists v'.
  - destruct (list.last xs) as [x|] eqn:E; [|done]. injection Hs as <- <-.
    rewrite (vrep_back _ _ _ Hr E). by exists v.
  - injection Hs as <- <-. destruct (vrep_clear v xs Hr) as (v' & -> & ?). by exists v'.
  - injection Hs as <- <-. exists v. split; [|done]. by destruct Hr as (_ & -> & _).
Qed.

Lemma v_run_refines ops : ∀ v xs os xs',
  vrep v xs → run_ops (v_spec (v_cap v)) xs ops = Some (os, xs') →
  ∃ v', run_ops v_step v ops = Some (os, v') ∧ vrep v' xs'.
Proof.
  induction ops as [|op ops IH]; intros v xs os xs' Hr Hs; cbn [run_ops] in *.
  - injection Hs as <- <-. by exists v.
  - destruct (v_spec _ xs op) as [[o xs1]|] eqn:E1; [|done]. cbn [mbind option_bind] in Hs.
    destruct (run_ops _ xs1 ops) as [[os1 xs2]|] eqn:E2; [|done]. injection Hs as <- <-.
    destruct (v_step_refines _ _ _ _ _ Hr E1) as (v1 & -> & Hr1 & Hc). rewrite <- Hc in E2.
    destruct (IH _ _ _ _ Hr1 E2) as (v2 & E & ?). cbn [mbind option_bind]. rewrite E. by exists v2.
Qed.

(** An [svector] is a stack as long as it never holds more than twice the capacity
    it was made with. *)
Theorem svector_refines_stack (cap : Z) (ops : list dop) (os : list dout) (xs : list T) :
  1 <= cap < 2 ^ 61 → run_ops (v_spec cap) [] ops = Some (os, xs) →
  ∃ v, run_ops v_step (sv_new_cap cap) ops = Some (os, v) ∧ vrep v xs.
Proof. intros Hc Hs. apply (v_run_refines ops (sv_new_cap cap) []); [by apply vrep_new|done]. Qed.

(** [push_back] reallocates to [_cap * 2] without updating [_cap]: one element more
    than that is written past the end of the block. *)
Lemma svector_overruns (v : svector) (xs : list T) (t : T) :
  vrep v xs → Z.of_nat (length xs) = 2 * v_cap v → sv_push_back v t = None.
Proof.
  intros (Hc & Hs & Hl & Hx) Hlen. unfold sv_push_back.
  destruct (Z.geb_spec (v_size v) (v_cap v)); [|lia]. rewrite (u64_s (v_cap v * 2)) by lia.
  unfold set_slot, slot. rewrite lookup_ge_None_2; [done|]. unfold realloc. len. lia.
Qed.
End containers.

Arguments dop : clear implicits.
Arguments dout : clear implicits.

Lemma circular_queue_refines_deque_witness :
  ∃ q, run_ops d_step (cq_new 2) [DPush 1; DPush 2; DPush 3; DPopFrontVal; DPush 4; DBack; DSize; DPopBack; DFront]
    = Some ([OBool true; OBool true; OBool false; OVal (Some 1); OBool true; OVal (Some 4); OSize 2; ODone; OVal (Some 2)], q)
    ∧ qrep q [2].
Proof.
  destruct (circular_queue_refines_deque 2
    [DPush 1; DPush 2; DPush 3; DPopFrontVal; DPush 4; DBack; DSize; DPopBack; DFront]
    [OBool true; OBool true; OBool false; OVal (Some 1); OBool true; OVal (Some 4); OSize 2; ODone; OVal (Some 2)] [2])
    as (q & E & Hq & _); [lia|reflexivity|]. exists q. split; [exact E|exact Hq].
Defined.

Lemma svector_refines_stack_witness :
  ∃ v, run_ops v_step (sv_new_cap 1) [DPush 1; DPush 2; DBack; DPopBack; DSize; DPush 5]
    = Some ([ODone; ODone; OVal (Some 2); ODone; OSize 1; ODone], v) ∧ vrep v [1; 5].
Proof. apply svector_refines_stack; [lia|reflexivity]. Defined.

Lemma svector_overruns_witness :
  sv_push_back (mkVec 1 2 [Some 1; Some 2]) 3 = None.
Proof.
  apply (svector_overruns _ [1; 2]); [|reflexivity]. split_and!; cbn; try lia.
  intros [|[|i]] x Hi; by simplify_eq/=.
Defined.
