(* ===== verification/SyncConnector.v ===== *)
(** * netio::SyncConnector

    The blocking client of [src/slience/netio/sync_connector.cpp].  It frames its
    packets as the asynchronous sockets do (Frame.v) with a limit of 0xFFFF - 8
    bytes, and waits in [Recv] until one packet is complete.

    The socket is a script: what [RecvSome] and [SendSome] return, call after call.
    A script that ends is a call that blocks for ever.

    [sync_Send_frame] and [sync_Recv_packet] are the contract for a peer that sends
    one packet and waits; [sync_Recv_repeats] is what happens otherwise. *)

From Stdlib Require Import ZArith Lia List Strings.Byte Init.Byte.
From stdpp Require Import base numbers list option.
From S2P Require Import Prelude Buffer Frame.

#[local] Existing Instance zero_malloc.
#[local] Set Warnings "-clear-no-such-hyp".

Inductive sync_state := E_STATE_STOP | E_STATE_START.

(** [sc_reader] is [_rcvbuffer] with [_curheader]. *)
Record SyncConnector := mkSync {
  sc_flag : sync_state;
  sc_reader : reader;
  sc_readbuf : list byte;
  sc_readsize : Z;
  sc_sndbuffer : Buffer
}.

(** What a call of [RecvSome] does: bytes (none of them: the peer closed), or an
    error.  What a call of [SendSome] does: the number of bytes taken, or an error. *)
Inductive recv_res := RecvBytes (d : list byte) | RecvError.
Inductive send_res := SendCount (n : Z) | SendError.

Definition SYNC_LIMIT : Z := 65535 - hdrlen.

Section sync.
Context `{Malloc}.

Definition SyncConnector_new : SyncConnector :=
  mkSync E_STATE_STOP reader_new (replicate (Z.to_nat M_SOCKET_READ_SIZE) x00) 0 Buffer_new.

(** [Connect]: the outcome of the socket's [Connect] is given. *)
Definition SyncConnector_Connect (c : SyncConnector) (ok : bool) : bool * SyncConnector :=
  if ok then (true, mkSync E_STATE_START (sc_reader c) (sc_readbuf c) (sc_readsize c) (sc_sndbuffer c))
  else (false, c).

Definition SyncConnector_Close (c : SyncConnector) : SyncConnector :=
  mkSync E_STATE_STOP (sc_reader c) (sc_readbuf c) (sc_readsize c) (sc_sndbuffer c).

Definition SyncConnector_IsConnected (c : SyncConnector) : bool :=
  match sc_flag c with E_STATE_START => true | E_STATE_STOP => false end.

(** ** [Send] *)

Inductive outcome (A : Type) := Returns (a : A) | Blocks.
Arguments Returns {A}. Arguments Blocks {A}.

Definition with_snd (c : SyncConnector) (b : Buffer) : SyncConnector :=
  mkSync (sc_flag c) (sc_reader c) (sc_readbuf c) (sc_readsize c) b.

(** The loop: the result, the connector, what is on the wire, the rest of the script. *)
Fixpoint Send_loop (script : list send_res) (c : SyncConnector) (wire : list byte)
  : outcome (bool * SyncConnector * list byte * list send_res) :=
  match script with
  | [] => Blocks
  | SendError :: script => Returns (false, SyncConnector_Close c, wire, script)
  | SendCount n :: script =>
      let b := sc_sndbuffer c in
      let wire := wire ++ take (Z.to_nat n) (buf_view b) in
      let b := Buffer_CutData b n in
      let c := with_snd c b in
      if Buffer_Length b =? 0 then Returns (true, c, wire, script) else Send_loop script c wire
  end.

Definition SyncConnector_Send (now : Z) (script : list send_res) (c : SyncConnector)
    (data : list byte) (len : Z) : option (outcome (bool * SyncConnector * list byte * list send_res)) :=
  match sc_flag c with
  | E_STATE_STOP => Some (Returns (false, c, [], script))
  | E_STATE_START =>
      if (0 <? len) && (len <=? u32 (65535 - hdrlen)) then
        let b := Buffer_Clear (sc_sndbuffer c) in
        b ← Buffer_Write b (hdr_bytes (MessageHeader_h2n (mkHdr now len))) hdrlen;
        b ← Buffer_Write b data len;
        Some (Send_loop script (with_snd c b) [])
      else Some (Returns (false, c, [], script))
  end.

(** ** [Recv] *)

(** [_CutMsgPack]: the new [tran_byte] when a packet is complete.  [buf] is the part
    of the read buffer that holds received bytes: reading beyond is a fault. *)
Definition SyncConnector_CutMsgPack (r : reader) (buf : list byte) (tran_byte : Z)
  : option (option Z * reader) :=
  h ← cut_header SYNC_LIMIT r buf tran_byte;
  match h with
  | HdrReturn _ r => Some (None, r)
  | HdrGo r buf tran_byte =>
      let datalen := Buffer_Length (msgbuffer r) in
      let sz := size (curheader r) in
      if u32 (tran_byte + datalen) <? sz then
        mb ← Buffer_Write (msgbuffer r) buf tran_byte;
        Some (None, mkReader mb (curheader r))
      else
        mb ← Buffer_Write (msgbuffer r) buf (u32 (sz - datalen));
        Some (Some (u32 (tran_byte - u32 (sz - datalen))), mkReader mb (mkHdr (timestamp (curheader r)) 0))
  end.

(** Cut from the start of [_readbuf]. *)
Definition sync_cut (c : SyncConnector) : option (bool * SyncConnector) :=
  '(res, r) ← SyncConnector_CutMsgPack (sc_reader c) (take (Z.to_nat (sc_readsize c)) (sc_readbuf c)) (sc_readsize c);
  Some (match res with
        | Some n => (true, mkSync (sc_flag c) r (sc_readbuf c) n (sc_sndbuffer c))
        | None => (false, mkSync (sc_flag c) r (sc_readbuf c) (sc_readsize c) (sc_sndbuffer c))
        end).

(** The bytes [d] are stored at the start of [_readbuf]. *)
Definition sync_read (c : SyncConnector) (d : list byte) : option SyncConnector :=
  rb ← store (sc_readbuf c) 0 d;
  Some (mkSync (sc_flag c) (sc_reader c) rb (Z.of_nat (length d)) (sc_sndbuffer c)).

(** A failed call returns -1, which [_readsize] keeps as an [s_uint32_t]. *)
Definition with_readsize (c : SyncConnector) (n : Z) : SyncConnector :=
  mkSync (sc_flag c) (sc_reader c) (sc_readbuf c) n (sc_sndbuffer c).

Fixpoint Recv_loop (script : list recv_res) (c : SyncConnector)
  : option (outcome (bool * SyncConnector * list recv_res)) :=
  match script with
  | [] => Some Blocks
  | RecvError :: script => Some (Returns (false, SyncConnector_Close (with_readsize c (2 ^ 32 - 1)), script))
  | RecvBytes d :: script =>
      c ← sync_read c d;
      if sc_readsize c =? 0 then Some (Returns (false, SyncConnector_Close c, script))
      else
        '(ok, c) ← sync_cut c;
        if ok : bool then Some (Returns (true, c, script)) else Recv_loop script c
  end.

(** [true]: the caller gets [_rcvbuffer]. *)
Definition SyncConnector_Recv (script : list recv_res) (c : SyncConnector)
  : option (outcome (bool * SyncConnector * list recv_res)) :=
  match sc_flag c with
  | E_STATE_STOP => Some (Returns (false, c, script))
  | E_STATE_START =>
      let c := mkSync (sc_flag c) (mkReader (Buffer_Clear (msgbuffer (sc_reader c))) (curheader (sc_reader c)))
                 (sc_readbuf c) (sc_readsize c) (sc_sndbuffer c) in
      '(ok, c) ← (if sc_readsize c >? 0 then sync_cut c else Some (false, c));
      if ok : bool then Some (Returns (true, c, script)) else Recv_loop script c
  end.

(** ** Sending *)

(** The counts of a script of successful sends, each within what is left. *)
Fixpoint counts_ok (left : nat) (ns : list nat) : Prop :=
  match ns with
  | [] => left = 0%nat
  | n :: ns => (0 < n ≤ left)%nat ∧ counts_ok (left - n) ns
  end.

Lemma Send_loop_ok ns : ∀ c wire bs o rest,
  buf_at (sc_sndbuffer c) bs o → Z.of_nat (length bs) < 2 ^ 31 → ns ≠ [] →
  counts_ok (length bs - o) ns →
  ∃ b', Send_loop (map (λ n, SendCount (Z.of_nat n)) ns ++ rest) c wire
          = Returns (true, with_snd c b', wire ++ drop o bs, rest) ∧ buf_wf b'.
Proof.
  induction ns as [|n ns IH]; [done|]. intros c wire bs o rest Hb Hl _ [Hn Hns].
  cbn [map app Send_loop]. rewrite (buf_at_view _ _ _ Hb), Nat2Z.id.
  destruct (buf_at_pos _ _ _ Hb) as (_ & _ & Ho).
  pose proof (buf_at_cut _ _ _ (Z.of_nat n) Hb ltac:(lia)) as Hb'.
  replace (Z.to_nat (Z.of_nat o + Z.of_nat n)) with (o + n)%nat in Hb' by lia.
  rewrite (buf_at_length _ _ _ Hb'). destruct ns as [|n2 ns].
  - cbn [counts_ok] in Hns. rewrite (proj2 (Z.eqb_eq _ 0)) by lia.
    eexists. split; [by rewrite take_ge by (rewrite length_drop; lia)|by eapply buf_at_wf].
  - destruct Hns as [Hn2 Hns].
    rewrite (proj2 (Z.eqb_neq _ 0)) by lia.
    destruct (IH (with_snd c (Buffer_CutData (sc_sndbuffer c) (Z.of_nat n)))
      (wire ++ take n (drop o bs)) bs (o + n)%nat rest Hb' Hl) as (b' & -> & Hf); [done| |].
    + split; [lia|]. replace (length bs - (o + n) - n2)%nat with (length bs - o - n - n2)%nat by lia. done.
    + exists b'. split; [|done]. rewrite <- app_assoc. do 4 f_equal.
      rewrite <- drop_drop. by rewrite take_drop.
Qed.

(** Whatever the sends do, the wire holds a prefix of the packet; all of it when the
    result is [true]. *)
Lemma Send_loop_prefix script : ∀ c wire bs o res c' wire' rest,
  buf_at (sc_sndbuffer c) bs o → Z.of_nat (length bs) < 2 ^ 31 →
  Forall (λ s, match s with SendCount n => 0 <= n <= Z.of_nat (length bs) | SendError => True end) script →
  Send_loop script c wire = Returns (res, c', wire', rest) →
  ∃ k, (k ≤ length bs - o)%nat ∧ wire' = wire ++ take k (drop o bs) ∧
    (res = true → k = (length bs - o)%nat) ∧ (res = false → sc_flag c' = E_STATE_STOP).
Proof.
  induction script as [|s script IH]; [done|]. intros c wire bs o res c' wire' rest Hb Hl Hall Hs.
  apply Forall_cons_1 in Hall as [Hn Hall]. cbn [Send_loop] in Hs. destruct s as [n|].
  2: { injection Hs as <- <- <- <-. exists 0%nat. cbn [firstn]. rewrite app_nil_r. split_and!; (done || lia). }
  rewrite (buf_at_view _ _ _ Hb) in Hs. destruct (buf_at_pos _ _ _ Hb) as (_ & _ & Ho).
  destruct (decide (n <= Z.of_nat (length bs) - Z.of_nat o)) as [Hle|Hgt].
  - pose proof (buf_at_cut _ _ _ n Hb ltac:(lia)) as Hb'.
    replace (Z.to_nat (Z.of_nat o + n)) with (o + Z.to_nat n)%nat in Hb' by lia.
    rewrite (buf_at_length _ _ _ Hb') in Hs. destruct (Z.eqb_spec (Z.of_nat (length bs - (o + Z.to_nat n))) 0) as [E|E].
    + injection Hs as <- <- <- <-. exists (Z.to_nat n). split_and!; (done || lia).
    + destruct (IH (with_snd c (Buffer_CutData (sc_sndbuffer c) n)) _ bs _ _ _ _ _ Hb' Hl Hall Hs) as (k & Hk & -> & Ht & Hff).
      exists (Z.to_nat n + k)%nat. split_and!; [lia| |intros Hr; specialize (Ht Hr); lia|done].
      rewrite <- app_assoc. f_equal. rewrite <- drop_drop, take_take_drop. done.
  - pose proof (buf_at_cut_out _ _ _ n Hb ltac:(lia) Hl ltac:(lia)) as Hb'.
    rewrite (buf_at_length _ _ _ Hb'), Nat.sub_diag in Hs. cbn [Z.of_nat Z.eqb] in Hs.
    injection Hs as <- <- <- <-. exists (length bs - o)%nat. split_and!; try done.
    f_equal. rewrite !take_ge; (done || len; lia).
Qed.

(** ** Receiving *)

(** The size a header announces, once it is there. *)
Definition hdr_sz (xs : list byte) : Z := be_val (take 4 (drop 4 xs)).

(** What one cut of the pending bytes [xs] gives. *)
Definition cut_result (xs : list byte) (res : option (option Z * reader)) : Prop :=
  if decide ((8 ≤ length xs)%nat ∧ 8 + hdr_sz xs <= Z.of_nat (length xs)) then
    ∃ r', res = Some (Some (Z.of_nat (length xs) - (8 + hdr_sz xs)), r') ∧
      buf_at (msgbuffer r') (take (8 + Z.to_nat (hdr_sz xs)) xs) 8 ∧ size (curheader r') = 0
  else ∃ r', res = Some (None, r') ∧ reader_at SYNC_LIMIT r' xs.

Lemma sync_body_ok mb h q rest :
  buf_at mb q 8 → size h = hdr_sz q → 0 < size h <= SYNC_LIMIT → (8 ≤ length q)%nat →
  Z.of_nat (length q) <= 8 + size h → Z.of_nat (length rest) < 2 ^ 31 →
  cut_result (q ++ rest)
    (let datalen := Buffer_Length mb in
     if u32 (Z.of_nat (length rest) + datalen) <? size h then
       mb ← Buffer_Write mb rest (Z.of_nat (length rest)); Some (None, mkReader mb h)
     else
       mb ← Buffer_Write mb rest (u32 (size h - datalen));
       Some (Some (u32 (Z.of_nat (length rest) - u32 (size h - datalen))), mkReader mb (mkHdr (timestamp h) 0))).
Proof.
  intros H1 H2 H3 H4 H5 H6. unfold SYNC_LIMIT, hdrlen in H3. cbv zeta.
  rewrite (buf_at_length _ _ _ H1), u32_small by lia.
  assert (hdr_sz (q ++ rest) = size h) as Hsz by (unfold hdr_sz; by rewrite take_4_4_app).
  unfold cut_result. rewrite Hsz.
  destruct (Z.ltb_spec (Z.of_nat (length rest) + Z.of_nat (length q - 8)) (size h)).
  - rewrite decide_False by (rewrite length_app; lia).
    destruct (buf_at_append _ _ _ rest H1) as (mb' & -> & H7); [unfold buf_room; lia|].
    cbn [mbind option_bind]. eexists; split; [done|].
    apply reader_body; cbn [msgbuffer curheader]; [done|by rewrite <- Hsz|unfold SYNC_LIMIT, hdrlen; lia|len; lia|len; lia].
  - rewrite decide_True by (rewrite length_app; lia).
    rewrite (u32_small (size h - _)) by lia. rewrite u32_small by lia.
    set (k := (Z.to_nat (size h) - (length q - 8))%nat).
    replace (size h - Z.of_nat (length q - 8)) with (Z.of_nat k) by lia.
    destruct (buf_at_write _ _ _ rest k H1) as (mb' & -> & H7); [lia|unfold buf_room; lia|].
    cbn [mbind option_bind]. eexists; split; [|split].
    + do 3 f_equal. rewrite length_app. lia.
    + cbn [msgbuffer]. rewrite firstn_app. rewrite (take_ge q) by lia.
      by replace (8 + Z.to_nat (size h) - length q)%nat with k by lia.
    + done.
Qed.

Lemma sync_cut_ok r p buf :
  reader_at SYNC_LIMIT r p → Z.of_nat (length buf) < 2 ^ 31 →
  ((8 ≤ length (p ++ buf))%nat → 0 < hdr_sz (p ++ buf) <= SYNC_LIMIT) →
  cut_result (p ++ buf) (SyncConnector_CutMsgPack r buf (Z.of_nat (length buf))).
Proof.
  intros Hr Hl Hsz. unfold SyncConnector_CutMsgPack. destruct Hr as [Hb Hs Hp|Hb Hs Hpos Hp1 Hp2].
  - destruct (decide (length p + length buf < 8)%nat).
    + destruct (cut_header_short SYNC_LIMIT r p buf Hb Hs) as (r' & -> & Hr'); [done|].
      unfold cut_result. rewrite decide_False by (rewrite length_app; lia). eauto.
    + destruct (cut_header_go SYNC_LIMIT r p buf Hb Hs) as (mb & h & H4 & H5 & H6 & ->); [lia|lia|lia|].
      fold (hdr_sz (p ++ buf)) in *. rewrite length_app in Hsz.
      assert (Hsplit : p ++ buf = take 8 (p ++ buf) ++ drop (8 - length p) buf).
      { rewrite <- (take_drop 8 (p ++ buf)) at 1. f_equal. by rewrite drop_app_ge by lia. }
      assert (hdr_sz (take 8 (p ++ buf)) = hdr_sz (p ++ buf)) as Hs8.
      { unfold hdr_sz. by rewrite skipn_firstn_comm, take_take. }
      destruct (Z.gtb_spec (hdr_sz (p ++ buf)) SYNC_LIMIT); [lia|]. cbn [mbind option_bind].
      rewrite Hsplit at 1. apply sync_body_ok; cbn [curheader msgbuffer]; rewrite ?H5, ?H6; try done; try lia.
      rewrite length_drop. lia.
  - unfold cut_header. rewrite (proj2 (Z.eqb_neq (size (curheader r)) 0)) by lia.
    cbn [mbind option_bind]. apply sync_body_ok; try done; lia.
Qed.

(** The connector waits for a packet of which it has the bytes [p]. *)
Definition sync_waiting (c : SyncConnector) (p : list byte) : Prop :=
  sc_flag c = E_STATE_START ∧ reader_at SYNC_LIMIT (sc_reader c) p ∧
  length (sc_readbuf c) = Z.to_nat M_SOCKET_READ_SIZE.

Lemma sync_read_ok c d : length (sc_readbuf c) = Z.to_nat M_SOCKET_READ_SIZE →
  (length d ≤ Z.to_nat M_SOCKET_READ_SIZE)%nat →
  sync_read c d = Some (mkSync (sc_flag c) (sc_reader c) (d ++ drop (length d) (sc_readbuf c))
                          (Z.of_nat (length d)) (sc_sndbuffer c)).
Proof. intros Hl Hd. unfold sync_read. rewrite store_ok by lia. done. Qed.

Lemma frame_prefix now data (xs ys : list byte) :
  xs ++ ys = frame_bytes now data → 0 < Z.of_nat (length data) <= SYNC_LIMIT → (8 ≤ length xs)%nat →
  hdr_sz xs = Z.of_nat (length data).
Proof.
  intros E Hd Hl. unfold hdr_sz. rewrite <- (take_4_4_app xs ys) by done. rewrite E.
  unfold frame_bytes, hdr_bytes, MessageHeader_h2n. cbn [timestamp size].
  rewrite <- app_assoc. rewrite drop_app_length' by (len; done).
  rewrite take_app_length' by (len; done). apply be_val_htonl. unfold SYNC_LIMIT, hdrlen in Hd. lia.
Qed.

Lemma frame_length now data : length (frame_bytes now data) = (8 + length data)%nat.
Proof. unfold frame_bytes, hdr_bytes. len. lia. Qed.

Lemma frame_data now data : drop 8 (frame_bytes now data) = data.
Proof. unfold frame_bytes, hdr_bytes. rewrite drop_app_length'; [done|len; done]. Qed.

(** The chunks of one packet, none of them empty, arrive one by one. *)
Lemma Recv_loop_packet now data chunks rest : ∀ c p,
  sync_waiting c p → 0 < Z.of_nat (length data) <= SYNC_LIMIT →
  Forall (λ d, d ≠ [] ∧ (length d ≤ Z.to_nat M_SOCKET_READ_SIZE)%nat) chunks → chunks ≠ [] →
  p ++ concat chunks = frame_bytes now data →
  ∃ c', Recv_loop (map RecvBytes chunks ++ rest) c = Some (Returns (true, c', rest)) ∧
    buf_view (msgbuffer (sc_reader c')) = data ∧ sc_readsize c' = 0 ∧ sc_flag c' = E_STATE_START ∧
    buf_wf (msgbuffer (sc_reader c')) ∧ size (curheader (sc_reader c')) = 0 ∧
    length (sc_readbuf c') = Z.to_nat M_SOCKET_READ_SIZE.
Proof.
  induction chunks as [|d chunks IH]; [done|]. intros c p (Hfl & Hr & Hrb) Hd Hall _ E.
  apply Forall_cons_1 in Hall as [[Hne Hdl] Hall]. cbn [map app Recv_loop concat] in *.
  rewrite sync_read_ok by done. cbn [mbind option_bind sc_readsize].
  assert (0 < length d)%nat by (destruct d; [done|simpl; lia]).
  rewrite (proj2 (Z.eqb_neq (Z.of_nat (length d)) 0)) by lia.
  unfold sync_cut. cbn [sc_reader sc_readsize sc_readbuf sc_flag sc_sndbuffer]. rewrite Nat2Z.id, take_app_length.
  rewrite app_assoc in E.
  assert (Z.of_nat (length d) < 2 ^ 31) by (unfold M_SOCKET_READ_SIZE in Hdl; lia).
  pose proof (sync_cut_ok (sc_reader c) p d Hr ltac:(done)) as Hcut.
  assert ((8 ≤ length (p ++ d))%nat → hdr_sz (p ++ d) = Z.of_nat (length data)) as Hsz
    by (intros; by eapply frame_prefix).
  specialize (Hcut ltac:(intros Hx; rewrite (Hsz Hx); done)). unfold cut_result in Hcut.
  assert (length (d ++ drop (length d) (sc_readbuf c)) = Z.to_nat M_SOCKET_READ_SIZE) as Hrb'
    by (rewrite length_app, length_drop; lia).
  apply (f_equal length) in E as El. rewrite length_app, frame_length in El.
  destruct (decide _) as [[H8 Hfull]|Hnf].
  - rewrite (Hsz H8) in *. destruct Hcut as (r' & -> & Hb & Hs0). cbn [mbind option_bind].
    assert (concat chunks = []) as Ec.
    { apply nil_length_inv. lia. }
    assert (chunks = []) as ->.
    { destruct chunks as [|d2 cs]; [done|]. apply Forall_cons_1 in Hall as [[Hd2 _] _].
      cbn [concat] in Ec. by apply app_eq_nil in Ec as [-> _]. }
    cbn [concat map app]. rewrite app_nil_r in E. rewrite E in *. rewrite frame_length in *.
    eexists; split; [done|]. cbn [sc_reader sc_readsize sc_flag sc_readbuf].
    rewrite take_ge in Hb by (rewrite frame_length; lia).
    rewrite (buf_at_view _ _ _ Hb), frame_data. split_and!; try done; [lia|by eapply buf_at_wf].
  - destruct Hcut as (r' & -> & Hr'). cbn [mbind option_bind].
    destruct (decide (chunks = [])) as [->|Hcs].
    { exfalso. rewrite app_nil_r in E. apply Hnf. rewrite Hsz; rewrite E, frame_length; lia. }
    apply (IH (mkSync _ _ _ _ _) (p ++ d)); try done.
Qed.

(** Between two packets: nothing received is left over. *)
Definition sync_clean (c : SyncConnector) : Prop :=
  sc_flag c = E_STATE_START ∧ sc_readsize c = 0 ∧ size (curheader (sc_reader c)) = 0 ∧
  buf_wf (msgbuffer (sc_reader c)) ∧ length (sc_readbuf c) = Z.to_nat M_SOCKET_READ_SIZE.

(** A packet of a legal size is queued as its frame. *)
Lemma Send_starts now c data script :
  sc_flag c = E_STATE_START → buf_wf (sc_sndbuffer c) → 0 < Z.of_nat (length data) <= SYNC_LIMIT →
  ∃ b, buf_at b (frame_bytes now data) 0 ∧
    SyncConnector_Send now script c data (Z.of_nat (length data)) = Some (Send_loop script (with_snd c b) []).
Proof.
  intros Hfl Hwf Hd. unfold SyncConnector_Send. rewrite Hfl. unfold SYNC_LIMIT, hdrlen in *.
  rewrite u32_small by lia. rewrite (proj2 (Z.ltb_lt _ _)), (proj2 (Z.leb_le _ _)) by lia. cbn [andb].
  pose proof (buf_at_clear _ _ _ (buf_wf_at _ Hwf)) as Hb0.
  destruct (buf_at_append _ _ _ (hdr_bytes (MessageHeader_h2n (mkHdr now (Z.of_nat (length data))))) Hb0)
    as (b1 & E1 & Hb1); [unfold buf_room; simpl; lia|].
  change (Z.of_nat (length (hdr_bytes _))) with 8 in E1. rewrite E1. cbn [mbind option_bind].
  destruct (buf_at_append _ _ _ data Hb1) as (b2 & -> & Hb2); [unfold buf_room; simpl; lia|].
  cbn [mbind option_bind]. by exists b2.
Qed.

(** A packet whose sends take the whole of it. *)
Lemma Send_counts now c data ns rest :
  sc_flag c = E_STATE_START → buf_wf (sc_sndbuffer c) → 0 < Z.of_nat (length data) <= SYNC_LIMIT →
  counts_ok (length (frame_bytes now data)) ns →
  ∃ b', SyncConnector_Send now (map (λ n, SendCount (Z.of_nat n)) ns ++ rest) c data (Z.of_nat (length data))
    = Some (Returns (true, with_snd c b', frame_bytes now data, rest)) ∧ buf_wf b'.
Proof.
  intros Hfl Hwf Hd Hns. pose proof (frame_length now data) as Hfr.
  destruct (Send_starts now c data (map (λ n, SendCount (Z.of_nat n)) ns ++ rest)) as (b & Hb & ->); try done.
  unfold SYNC_LIMIT, hdrlen in Hd.
  destruct (decide (ns = [])) as [->|Hne]; [simpl in Hns; lia|].
  destruct (Send_loop_ok ns (with_snd c b) [] (frame_bytes now data) 0 rest) as (b' & -> & Hb');
    rewrite ?Nat.sub_0_r; try done; [lia|]. exists b'. by rewrite drop_0, app_nil_l.
Qed.

(** One packet, in any chunks, after an earlier one. *)
Lemma Recv_packet now c data chunks rest :
  sync_clean c → 0 < Z.of_nat (length data) <= SYNC_LIMIT →
  Forall (λ d, d ≠ [] ∧ (length d ≤ Z.to_nat M_SOCKET_READ_SIZE)%nat) chunks →
  concat chunks = frame_bytes now data →
  ∃ c', SyncConnector_Recv (map RecvBytes chunks ++ rest) c = Some (Returns (true, c', rest)) ∧
    buf_view (msgbuffer (sc_reader c')) = data ∧ sync_clean c'.
Proof.
  intros (Hfl & Hrs & Hs & Hwf & Hrb) Hd Hall E. unfold SyncConnector_Recv. rewrite Hfl.
  cbn [sc_readsize]. rewrite Hrs. cbn [Z.gtb Z.compare mbind option_bind].
  destruct (Recv_loop_packet now data chunks rest (mkSync E_STATE_START
    (mkReader (Buffer_Clear (msgbuffer (sc_reader c))) (curheader (sc_reader c)))
    (sc_readbuf c) 0 (sc_sndbuffer c)) []) as (c' & -> & Hv & ?&?&?&?&?); try done.
  - split_and!; [done| |done]. apply reader_hdr; [|done|simpl; lia].
    by eapply buf_at_clear, buf_wf_at.
  - intros ->. apply (f_equal length) in E. rewrite frame_length in E. simpl in E. lia.
  - exists c'. split_and!; (done || by split_and!).
Qed.

(** Receiving leaves the send buffer alone. *)
Lemma cut_snd c ok c' : sync_cut c = Some (ok, c') → sc_sndbuffer c' = sc_sndbuffer c.
Proof.
  unfold sync_cut. destruct (SyncConnector_CutMsgPack _ _ _) as [[[n|] r]|]; [| |done];
    cbn [mbind option_bind]; by intros [= <- <-].
Qed.

Lemma Recv_loop_snd script : ∀ c ok c' rest,
  Recv_loop script c = Some (Returns (ok, c', rest)) → sc_sndbuffer c' = sc_sndbuffer c.
Proof.
  induction script as [|[d|] script IH]; intros c ok c' rest; cbn [Recv_loop]; [done| |by intros [= <- <- <-]].
  unfold sync_read. destruct (store _ _ _) as [rb|]; [|done]. cbn [mbind option_bind sc_readsize].
  destruct (_ =? 0); [by intros [= <- <- <-]|].
  destruct (sync_cut _) as [[[|] c2]|] eqn:E; [| |done]; cbn [mbind option_bind]; apply cut_snd in E.
  - intros [= <- <- <-]. by rewrite E.
  - intros E2%IH. by rewrite E2, E.
Qed.

Lemma Recv_snd script c ok c' rest :
  SyncConnector_Recv script c = Some (Returns (ok, c', rest)) → sc_sndbuffer c' = sc_sndbuffer c.
Proof.
  unfold SyncConnector_Recv. destruct (sc_flag c); [by intros [= <- <- <-]|].
  destruct (_ >? 0).
  - destruct (sync_cut _) as [[[|] c2]|] eqn:E; [| |done]; cbn [mbind option_bind]; apply cut_snd in E.
    + intros [= <- <- <-]. by rewrite E.
    + intros E2%Recv_loop_snd. by rewrite E2, E.
  - cbn [mbind option_bind]. by intros E%Recv_loop_snd.
Qed.

(** A packet sent on a started connector goes out as its frame: whatever the
    socket takes per call, the wire holds a prefix of the frame, all of it exactly
    when [Send] returns true, and the connector is closed when it returns false; and
    it does return true when the calls take the whole of it. *)
Theorem sync_Send_frame (now : Z) (c : SyncConnector) (data : list byte) (script : list send_res) :
  sc_flag c = E_STATE_START → buf_wf (sc_sndbuffer c) → 0 < Z.of_nat (length data) <= SYNC_LIMIT →
  Forall (λ s, match s with SendCount n => 0 <= n <= 8 + Z.of_nat (length data) | SendError => True end) script →
  ∃ o, SyncConnector_Send now script c data (Z.of_nat (length data)) = Some o ∧
    (∀ res c' wire rest, o = Returns (res, c', wire, rest) →
       wire `prefix_of` frame_bytes now data ∧
       (res = true → wire = frame_bytes now data) ∧ (res = false → sc_flag c' = E_STATE_STOP)) ∧
    (∀ ns rest, script = map (λ n, SendCount (Z.of_nat n)) ns ++ rest →
       counts_ok (length (frame_bytes now data)) ns →
       ∃ c', o = Returns (true, c', frame_bytes now data, rest)).
Proof.
  intros Hfl Hwf Hd Hall. pose proof (frame_length now data) as Hfr.
  destruct (Send_starts now c data script) as (b & Hb & E0); try done.
  rewrite E0. eexists; split; [done|]. split.
  - intros res c' wire rest E. unfold SYNC_LIMIT, hdrlen in Hd.
    destruct (Send_loop_prefix script (with_snd c b) [] (frame_bytes now data) 0 res c' wire rest Hb)
      as (k & Hk & -> & Ht & Hf); [lia| |exact E|].
    + eapply Forall_impl; [|exact Hall]. intros [n|]; [|done]. lia.
    + rewrite drop_0, app_nil_l. split_and!; [apply prefix_take| |done].
      intros Hr. rewrite take_ge; [done|]. rewrite (Ht Hr). lia.
  - intros ns rest -> Hns. destruct (Send_counts now c data ns rest Hfl Hwf Hd Hns) as (b' & E & _).
    rewrite E0 in E. injection E as E. by eexists.
Qed.

(** C29: one packet, in any non-empty chunks of at most the read size and nothing
    after it, is returned by [Recv] byte for byte, and leaves the connector ready
    for the next one. *)
Theorem sync_Recv_packet (now : Z) (c : SyncConnector) (data : list byte) (chunks : list (list byte))
    (rest : list recv_res) :
  sync_clean c → 0 < Z.of_nat (length data) <= SYNC_LIMIT →
  Forall (λ d, d ≠ [] ∧ (length d ≤ Z.to_nat M_SOCKET_READ_SIZE)%nat) chunks →
  concat chunks = frame_bytes now data →
  ∃ c', SyncConnector_Recv (map RecvBytes chunks ++ rest) c = Some (Returns (true, c', rest)) ∧
    buf_view (msgbuffer (sc_reader c')) = data ∧ sync_clean c'.
Proof.
  apply Recv_packet.
Qed.

(** Two packets that arrive in one read: the first [Recv] returns the first, and
    the second, which cuts from the start of the read buffer again, returns the
    first once more when the other packet is not shorter. *)
Theorem sync_Recv_repeats (t1 t2 : Z) (c : SyncConnector) (a b : list byte) :
  sync_clean c → 0 < Z.of_nat (length a) <= Z.of_nat (length b) →
  Z.of_nat (length a + length b) + 16 <= M_SOCKET_READ_SIZE →
  ∃ c1 c2, SyncConnector_Recv [RecvBytes (frame_bytes t1 a ++ frame_bytes t2 b)] c = Some (Returns (true, c1, [])) ∧
    buf_view (msgbuffer (sc_reader c1)) = a ∧
    SyncConnector_Recv [] c1 = Some (Returns (true, c2, [])) ∧
    buf_view (msgbuffer (sc_reader c2)) = a.
Proof.
  intros (Hfl & Hrs & Hs & Hwf & Hrb) Hab Hlen. unfold M_SOCKET_READ_SIZE in *.
  pose proof (frame_length t1 a) as Hla. pose proof (frame_length t2 b) as Hlb.
  set (chunk := frame_bytes t1 a ++ frame_bytes t2 b).
  assert (length chunk = (16 + length a + length b)%nat) as Hlc by (unfold chunk; len; lia).
  assert (∀ m, (8 + length a ≤ m)%nat → hdr_sz (take m chunk) = Z.of_nat (length a)) as Hsz.
  { intros m Hm. unfold chunk. rewrite firstn_app. rewrite take_ge by lia.
    unfold hdr_sz. rewrite take_4_4_app by lia.
    apply (frame_prefix t1 a (frame_bytes t1 a) []); [apply app_nil_r|unfold SYNC_LIMIT, hdrlen; lia|lia]. }
  assert (∀ r m, buf_at (msgbuffer r) [] 0 → size (curheader r) = 0 → (8 + length a ≤ m ≤ length chunk)%nat →
    ∃ r', SyncConnector_CutMsgPack r (take m chunk) (Z.of_nat m) = Some (Some (Z.of_nat m - (8 + Z.of_nat (length a))), r') ∧
      buf_at (msgbuffer r') (frame_bytes t1 a) 8 ∧ size (curheader r') = 0) as Hcut.
  { intros r m Hb Hsr Hm.
    assert (length (take m chunk) = m) as Hlm by (rewrite length_take; lia).
    pose proof (sync_cut_ok r [] (take m chunk)) as Hc. rewrite app_nil_l, Hlm in Hc. unfold cut_result in Hc.
    rewrite Hlm, !(Hsz m) in Hc by lia. rewrite decide_True in Hc by lia.
    destruct Hc as (r' & -> & Hb' & Hs'); [apply reader_hdr; [done|done|simpl; lia]|lia|unfold SYNC_LIMIT, hdrlen; lia|].
    exists r'. split_and!; try done. rewrite take_take in Hb'. unfold chunk in Hb'.
    replace ((8 + Z.to_nat (Z.of_nat (length a))) `min` m)%nat with (length (frame_bytes t1 a)) in Hb' by lia.
    by rewrite take_app_length in Hb'. }
  pose proof (buf_at_clear _ _ _ (buf_wf_at _ Hwf)) as Hb0.
  unfold SyncConnector_Recv at 1. rewrite Hfl. cbn [sc_readsize]. rewrite Hrs.
  cbn [Z.gtb Z.compare mbind option_bind Recv_loop]. rewrite sync_read_ok by (cbn [sc_readbuf]; unfold M_SOCKET_READ_SIZE in *; lia).
  cbn [mbind option_bind sc_readsize]. rewrite (proj2 (Z.eqb_neq _ 0)) by lia.
  unfold sync_cut. cbn [sc_reader sc_readsize sc_readbuf sc_flag sc_sndbuffer].
  rewrite Nat2Z.id, take_app_length.
  destruct (Hcut (mkReader (Buffer_Clear (msgbuffer (sc_reader c))) (curheader (sc_reader c))) (length chunk))
    as (r1 & E1 & Hb1 & Hs1); [done|done|lia|]. rewrite take_ge in E1 by done. rewrite E1.
  cbn [mbind option_bind]. eexists _.
  destruct (Hcut (mkReader (Buffer_Clear (msgbuffer r1)) (curheader r1)) (8 + length b)%nat) as (r2 & E2 & Hb2 & Hs2);
    [by eapply buf_at_clear|done|lia|].
  eexists _. split; [reflexivity|]. cbn [sc_reader sc_readsize sc_readbuf sc_flag sc_sndbuffer].
  split; [by rewrite (buf_at_view _ _ _ Hb1), frame_data|].
  unfold SyncConnector_Recv. cbn [sc_reader sc_readsize sc_readbuf sc_flag sc_sndbuffer].
  replace (Z.of_nat (length chunk) - (8 + Z.of_nat (length a))) with (Z.of_nat (8 + length b)) by lia.
  rewrite (proj2 (Z.gtb_gt (Z.of_nat (8 + length b)) 0)) by lia.
  unfold sync_cut. cbn [sc_reader sc_readsize sc_readbuf sc_flag sc_sndbuffer]. rewrite Nat2Z.id.
  rewrite take_app_le by lia. rewrite E2. cbn [mbind option_bind]. split; [reflexivity|].
  cbn [sc_reader]. by rewrite (buf_at_view _ _ _ Hb2), frame_data.
Qed.
End sync.
Arguments Returns {A}. Arguments Blocks {A}.

(** A connector whose [Connect] succeeded. *)
Definition demo_sync : SyncConnector := (SyncConnector_Connect SyncConnector_new true).2.

Lemma demo_sync_clean : sync_clean demo_sync.
Proof. by split_and!. Qed.

Lemma sync_Send_frame_witness :
  ∃ o, SyncConnector_Send 7 [SendCount 3; SendCount 7] demo_sync [x61; x62] 2 = Some o ∧
    (∀ res c' wire rest, o = Returns (res, c', wire, rest) →
       wire `prefix_of` frame_bytes 7 [x61; x62] ∧
       (res = true → wire = frame_bytes 7 [x61; x62]) ∧ (res = false → sc_flag c' = E_STATE_STOP)) ∧
    (∀ ns rest, [SendCount 3; SendCount 7] = map (λ n, SendCount (Z.of_nat n)) ns ++ rest →
       counts_ok (length (frame_bytes 7 [x61; x62])) ns →
       ∃ c', o = Returns (true, c', frame_bytes 7 [x61; x62], rest)).
Proof.
  apply (sync_Send_frame 7 demo_sync [x61; x62]); [done|apply (buf_at_wf _ [] 0), buf_at_new|by vm_compute|].
  repeat constructor; cbn; lia.
Defined.

Lemma sync_Recv_packet_witness :
  ∃ c', SyncConnector_Recv [RecvBytes (take 5 (frame_bytes 7 [x61])); RecvBytes (drop 5 (frame_bytes 7 [x61])); RecvError]
      demo_sync = Some (Returns (true, c', [RecvError])) ∧
    buf_view (msgbuffer (sc_reader c')) = [x61] ∧ sync_clean c'.
Proof.
  apply (sync_Recv_packet 7 demo_sync [x61] [take 5 (frame_bytes 7 [x61]); drop 5 (frame_bytes 7 [x61])] [RecvError]);
    [apply demo_sync_clean|by vm_compute| |by vm_compute].
  constructor; [split; [by vm_compute|apply Nat.leb_le; by vm_compute]|].
  constructor; [split; [by vm_compute|apply Nat.leb_le; by vm_compute]|constructor].
Defined.

Lemma sync_Recv_repeats_witness :
  ∃ c1 c2, SyncConnector_Recv [RecvBytes (frame_bytes 7 [x61] ++ frame_bytes 8 [x62])] demo_sync
      = Some (Returns (true, c1, [])) ∧
    buf_view (msgbuffer (sc_reader c1)) = [x61] ∧
    SyncConnector_Recv [] c1 = Some (Returns (true, c2, [])) ∧
    buf_view (msgbuffer (sc_reader c2)) = [x61].
Proof. apply (sync_Recv_repeats 7 8 demo_sync [x61] [x62]); [apply demo_sync_clean|by vm_compute|by vm_compute]. Defined.
