(* ===== verification/Hdr.v ===== *)
(** * IP and ICMP headers, the Internet checksum

    The accessors of [src/slience/socket/hdr_helper.hpp] over the structures of
    [src/slience/socket/pro_hdr.hpp], on a block of bytes; an access outside the
    block is a fault.  The host is little endian, so the 16- and 32-bit fields go
    through [htons] and [htonl].

    [ip_fields_independent] and [icmp_fields_independent]: each setter stores what
    its getter returns and changes no other field.  [checksum_verifies]: a block
    that carries the value of [CheckSum] in its checksum word sums to zero. *)

From Stdlib Require Import ZArith Lia List Sorting.Sorted Strings.Byte Init.Byte.
From stdpp Require Import base numbers list option.
From S2P Require Import Prelude.

#[local] Set Warnings "-clear-no-such-hyp".

(** ** Fields of a block *)

Definition get_n (blk : list byte) (off n : nat) : option Z := bs ← load blk off n; Some (le_val bs).
Definition set_n (blk : list byte) (off n : nat) (v : Z) : option (list byte) := store blk off (le_bytes n v).

Lemma store_lookup blk off src blk' i : store blk off src = Some blk' →
  blk' !! i = if decide (off ≤ i < off + length src)%nat then src !! (i - off)%nat else blk !! i.
Proof.
  unfold store. destruct (Nat.leb_spec (off + length src) (length blk)) as [Hl|]; [|done]. intros [= <-].
  destruct (decide _) as [Hi|Hi].
  - rewrite lookup_app_r by (len; lia). rewrite lookup_app_l by (len; lia). f_equal. len. lia.
  - destruct (decide (i < off)%nat).
    + rewrite lookup_app_l by (len; lia). by rewrite lookup_take_lt by lia.
    + rewrite lookup_app_r by (len; lia). rewrite lookup_app_r by (len; lia). rewrite lookup_drop.
      f_equal. len. lia.
Qed.

Lemma load_ext blk blk' off n : length blk' = length blk →
  (∀ i, (off ≤ i < off + n)%nat → blk' !! i = blk !! i) → load blk' off n = load blk off n.
Proof.
  intros Hl Hi. unfold load. rewrite Hl. destruct (Nat.leb_spec (off + n) (length blk)); [|done].
  f_equal. apply list_eq. intros i. destruct (decide (i < n)%nat).
  - rewrite !lookup_take_lt, !lookup_drop by done. apply Hi. lia.
  - rewrite !lookup_take_ge by lia. done.
Qed.

Lemma set_n_ok blk off n v : (off + n ≤ length blk)%nat →
  ∃ blk', set_n blk off n v = Some blk' ∧ length blk' = length blk.
Proof.
  intros Hl. unfold set_n. destruct (store blk off (le_bytes n v)) as [blk'|] eqn:E.
  - exists blk'. split; [done|]. by eapply store_length.
  - exfalso. rewrite store_ok in E; [done|]. len. lia.
Qed.

Lemma get_set_same blk off n v blk' : set_n blk off n v = Some blk' →
  get_n blk' off n = Some (v mod 256 ^ Z.of_nat n).
Proof.
  intros E. unfold get_n. unfold set_n, store in E. rewrite length_le_bytes in E.
  destruct (Nat.leb_spec (off + n) (length blk)); [|done]. injection E as <-.
  rewrite load_ok by (len; lia). cbn [mbind option_bind].
  rewrite drop_app_length' by (len; lia). rewrite take_app_length' by (len; lia).
  by rewrite le_val_bytes.
Qed.

Lemma get_set_other blk off n v blk' off' n' : set_n blk off n v = Some blk' →
  (off' + n' ≤ off ∨ off + n ≤ off')%nat → get_n blk' off' n' = get_n blk off' n'.
Proof.
  intros E Hd. unfold get_n. f_equal. apply load_ext; [by eapply store_length|].
  intros i Hi. rewrite (store_lookup _ _ _ _ i E). rewrite decide_False; [done|]. len. lia.
Qed.

(** ** [HdrHelper::CheckSum] *)

(** The sum of the 16-bit words at [pAddr], a last odd byte being the low byte of a
    word; the accumulator is an [s_uint32_t]. *)
Fixpoint sum_words (bs : list byte) (liSum : Z) : Z :=
  match bs with
  | b0 :: b1 :: bs => sum_words bs (u32 (liSum + le_val [b0; b1]))
  | [b0] => u32 (liSum + byte_val b0)
  | [] => liSum
  end.

Definition CheckSum (bs : list byte) : Z :=
  let liSum := sum_words bs 0 in
  let liSum := u32 (Z.shiftr liSum 16 + Z.land liSum 65535) in
  let liSum := u32 (liSum + Z.shiftr liSum 16) in
  u16 (Z.lnot liSum).

(** ** [IpHdrHelper] *)

Definition Ip_GetVersion (b : list byte) : option Z := v ← get_n b 0 1; Some (Z.shiftr v 4).
Definition Ip_SetVersion (b : list byte) (aiVer : Z) : option (list byte) :=
  let liVer := u8 (Z.shiftl (Z.land aiVer 15) 4) in
  v ← get_n b 0 1; set_n b 0 1 (Z.lor (Z.land v 15) liVer).
Definition Ip_GetHdrLen (b : list byte) : option Z := v ← get_n b 0 1; Some (Z.shiftl (Z.land v 15) 2).
Definition Ip_SetHdrLen (b : list byte) (aiLen : Z) : option (list byte) :=
  let liLen2 := Z.land (Z.shiftr aiLen 2) 15 in
  v ← get_n b 0 1; set_n b 0 1 (Z.lor (Z.land v 240) liLen2).
Definition Ip_GetTos (b : list byte) : option Z := get_n b 1 1.
Definition Ip_SetTos (b : list byte) (v : Z) : option (list byte) := set_n b 1 1 (u8 v).
Definition Ip_GetTotalLen (b : list byte) : option Z := v ← get_n b 2 2; Some (ntohs v).
Definition Ip_SetTotalLen (b : list byte) (v : Z) : option (list byte) := set_n b 2 2 (htons v).
Definition Ip_GetIdent (b : list byte) : option Z := v ← get_n b 4 2; Some (ntohs v).
Definition Ip_SetIdent (b : list byte) (v : Z) : option (list byte) := set_n b 4 2 (htons v).
Definition Ip_GetFragFlags (b : list byte) : option Z := v ← get_n b 6 2; Some (ntohs v).
Definition Ip_SetFragFlags (b : list byte) (v : Z) : option (list byte) := set_n b 6 2 (htons v).
Definition Ip_GetTtl (b : list byte) : option Z := get_n b 8 1.
Definition Ip_SetTtl (b : list byte) (v : Z) : option (list byte) := set_n b 8 1 (u8 v).
Definition Ip_GetProtocol (b : list byte) : option Z := get_n b 9 1.
Definition Ip_SetProtocol (b : list byte) (v : Z) : option (list byte) := set_n b 9 1 (u8 v).
Definition Ip_GetCheckSum (b : list byte) : option Z := v ← get_n b 10 2; Some (ntohs v).
Definition Ip_SetCheckSum (b : list byte) (v : Z) : option (list byte) := set_n b 10 2 (htons v).
Definition Ip_TetSrcIp (b : list byte) : option Z := v ← get_n b 12 4; Some (ntohl v).
Definition Ip_SetSrcIp (b : list byte) (v : Z) : option (list byte) := set_n b 12 4 (htonl v).
Definition Ip_GetDstIp (b : list byte) : option Z := v ← get_n b 16 4; Some (ntohl v).
Definition Ip_SetDstIp (b : list byte) (v : Z) : option (list byte) := set_n b 16 4 (htonl v).

(** ** The ICMP helpers *)

Definition Icmp_GetType (b : list byte) : option Z := get_n b 0 1.
Definition Icmp_SetType (b : list byte) (v : Z) : option (list byte) := set_n b 0 1 (u8 v).
Definition Icmp_GetCode (b : list byte) : option Z := get_n b 1 1.
Definition Icmp_SetCode (b : list byte) (v : Z) : option (list byte) := set_n b 1 1 (u8 v).
Definition Icmp_GetCheckSum (b : list byte) : option Z := v ← get_n b 2 2; Some (ntohs v).
Definition Icmp_SetCheckSum (b : list byte) (v : Z) : option (list byte) := set_n b 2 2 (htons v).
Definition IcmpEcho_GetIdent (b : list byte) : option Z := v ← get_n b 4 2; Some (ntohs v).
Definition IcmpEcho_SetIdent (b : list byte) (v : Z) : option (list byte) := set_n b 4 2 (htons v).
Definition IcmpEcho_GetSeq (b : list byte) : option Z := v ← get_n b 6 2; Some (ntohs v).
Definition IcmpEcho_SetSeq (b : list byte) (v : Z) : option (list byte) := set_n b 6 2 (htons v).

(** [strncpy(p, pOpt, aiLen)]: up to the first NUL, padded with NULs. *)
Fixpoint strncpy_bytes (src : list byte) (n : nat) : option (list byte) :=
  match n with
  | O => Some []
  | S n => match src with
           | [] => None
           | c :: src => if decide (c = x00) then Some (replicate (S n) x00)
                         else r ← strncpy_bytes src n; Some (c :: r)
           end
  end.
Definition IcmpEcho_GetOpt (b : list byte) : list byte := drop 8 b.
Definition IcmpEcho_SetOpt (b pOpt : list byte) (aiLen : Z) : option (list byte) :=
  d ← strncpy_bytes pOpt (Z.to_nat aiLen); store b 8 d.

Definition IcmpTStamp_GetIdent := IcmpEcho_GetIdent.
Definition IcmpTStamp_SetIdent := IcmpEcho_SetIdent.
Definition IcmpTStamp_GetSeq := IcmpEcho_GetSeq.
Definition IcmpTStamp_SetSeq := IcmpEcho_SetSeq.
Definition IcmpTStamp_GetReqTime (b : list byte) : option Z := v ← get_n b 8 4; Some (ntohl v).
Definition IcmpTStamp_SetReqTime (b : list byte) (v : Z) : option (list byte) := set_n b 8 4 (htonl v).
Definition IcmpTStamp_GetRecvTime (b : list byte) : option Z := v ← get_n b 12 4; Some (ntohl v).
Definition IcmpTStamp_SetRecvTime (b : list byte) (v : Z) : option (list byte) := set_n b 12 4 (htonl v).
Definition IcmpTStamp_GetTransTime (b : list byte) : option Z := v ← get_n b 16 4; Some (ntohl v).
Definition IcmpTStamp_SetTransTime (b : list byte) (v : Z) : option (list byte) := set_n b 16 4 (htonl v).
Definition IcmpMask_GetIdent := IcmpEcho_GetIdent.
Definition IcmpMask_SetIdent := IcmpEcho_SetIdent.
Definition IcmpMask_GetSeq := IcmpEcho_GetSeq.
Definition IcmpMask_SetSeq := IcmpEcho_SetSeq.
Definition IcmpMask_GetMask (b : list byte) : option Z := v ← get_n b 8 4; Some (ntohl v).
Definition IcmpMask_SetMask (b : list byte) (v : Z) : option (list byte) := set_n b 8 4 (htonl v).

(** ** Fields do not overlap *)

(** A field occupies [flen] bytes from [foff] and holds values below [fmax]. *)
Record field := mkField {
  foff : nat; flen : nat; fget : list byte → option Z; fset : list byte → Z → option (list byte); fok : Z → Prop
}.

(** Its accessors only depend on, and only change, its bytes, and agree. *)
Definition field_law (f : field) : Prop :=
  (∀ b b', length b' = length b → get_n b' (foff f) (flen f) = get_n b (foff f) (flen f) → fget f b' = fget f b) ∧
  (∀ b v, (foff f + flen f ≤ length b)%nat → fok f v →
     ∃ b' w, fset f b v = Some b' ∧ set_n b (foff f) (flen f) w = Some b' ∧ fget f b' = Some v).

Definition apart (f g : field) : Prop := (foff f + flen f ≤ foff g ∨ foff g + flen g ≤ foff f)%nat.

Lemma field_set_get f g b v : field_law f → field_law g → apart f g →
  (foff f + flen f ≤ length b)%nat → fok f v →
  ∃ b', fset f b v = Some b' ∧ length b' = length b ∧ fget f b' = Some v ∧ fget g b' = fget g b.
Proof.
  intros [_ Hf] [Hg _] Ha Hl Hv. destruct (Hf b v Hl Hv) as (b' & w & E1 & E2 & E3).
  exists b'. assert (length b' = length b) as Hl' by (by eapply store_length).
  split_and!; try done. apply Hg; [done|]. eapply get_set_other; [done|]. unfold apart in Ha. lia.
Qed.

Definition field8 off : field :=
  mkField off 1 (λ b, get_n b off 1) (λ b v, set_n b off 1 (u8 v)) (λ v, 0 <= v < 256).
Definition field16 off : field :=
  mkField off 2 (λ b, v ← get_n b off 2; Some (ntohs v)) (λ b v, set_n b off 2 (htons v)) (λ v, 0 <= v < 2 ^ 16).
Definition field32 off : field :=
  mkField off 4 (λ b, v ← get_n b off 4; Some (ntohl v)) (λ b v, set_n b off 4 (htonl v)) (λ v, 0 <= v < 2 ^ 32).

Lemma field8_law off : field_law (field8 off).
Proof.
  split; cbn [fget fset foff flen fok field8]; [done|]. intros b v Hl Hv.
  destruct (set_n_ok b off 1 (u8 v) Hl) as (b' & E & _). exists b', (u8 v). split_and!; try done.
  rewrite (get_set_same _ _ _ _ _ E). rewrite u8_small by lia. f_equal. by apply Z.mod_small.
Qed.

Lemma field16_law off : field_law (field16 off).
Proof.
  split; cbn [fget fset foff flen fok field16]; [by intros b b' _ ->|]. intros b v Hl Hv.
  destruct (set_n_ok b off 2 (htons v) Hl) as (b' & E & _). exists b', (htons v). split_and!; try done.
  rewrite (get_set_same _ _ _ _ _ E). cbn [mbind option_bind]. f_equal.
  rewrite Z.mod_small by apply htons_bound. by apply ntohs_htons.
Qed.

Lemma field32_law off : field_law (field32 off).
Proof.
  split; cbn [fget fset foff flen fok field32]; [by intros b b' _ ->|]. intros b v Hl Hv.
  destruct (set_n_ok b off 4 (htonl v) Hl) as (b' & E & _). exists b', (htonl v). split_and!; try done.
  rewrite (get_set_same _ _ _ _ _ E). cbn [mbind option_bind]. f_equal.
  rewrite Z.mod_small by apply htonl_bound. by apply ntohl_htonl.
Qed.
#[export] Hint Resolve field8_law field16_law field32_law : slience.

(** The two halves of the first byte. *)
Definition version_field : field := mkField 0 1 Ip_GetVersion Ip_SetVersion (λ v, 0 <= v < 16).
Definition hdrlen_field : field :=
  mkField 0 1 Ip_GetHdrLen Ip_SetHdrLen (λ v, 0 <= v < 64 ∧ v mod 4 = 0).

(** A statement about a byte and a half byte, by enumeration. *)
Lemma nibble_cases (P : Z → Z → bool) :
  forallb (λ x, forallb (P x) (seqZ 0 16)) (seqZ 0 256) = true →
  ∀ x v, 0 <= x < 256 → 0 <= v < 16 → P x v = true.
Proof.
  intros Hall x v Hx Hv. rewrite forallb_forall in Hall. specialize (Hall x). rewrite forallb_forall in Hall.
  apply Hall; apply list_elem_of_In, elem_of_seqZ; lia.
Qed.

Definition version_byte (x v : Z) : Z := Z.lor (Z.land x 15) (u8 (Z.shiftl (Z.land v 15) 4)) mod 256.
Definition hdrlen_byte (x w : Z) : Z := Z.lor (Z.land x 240) (Z.land (Z.shiftr (4 * w) 2) 15) mod 256.

Lemma version_byte_ok x v : 0 <= x < 256 → 0 <= v < 16 →
  Z.shiftr (version_byte x v) 4 = v ∧ Z.land (version_byte x v) 15 = Z.land x 15.
Proof.
  intros Hx Hv.
  pose proof (nibble_cases (λ x v, (Z.shiftr (version_byte x v) 4 =? v) && (Z.land (version_byte x v) 15 =? Z.land x 15))
    ltac:(by vm_compute) x v Hx Hv) as Hc. cbn beta in Hc. lia.
Qed.

Lemma hdrlen_byte_ok x w : 0 <= x < 256 → 0 <= w < 16 →
  Z.shiftl (Z.land (hdrlen_byte x w) 15) 2 = 4 * w ∧ Z.shiftr (hdrlen_byte x w) 4 = Z.shiftr x 4.
Proof.
  intros Hx Hv.
  pose proof (nibble_cases (λ x w, (Z.shiftl (Z.land (hdrlen_byte x w) 15) 2 =? 4 * w) && (Z.shiftr (hdrlen_byte x w) 4 =? Z.shiftr x 4))
    ltac:(by vm_compute) x w Hx Hv) as Hc. cbn beta in Hc. lia.
Qed.

Lemma get_byte b : (1 ≤ length b)%nat → ∃ x, get_n b 0 1 = Some x ∧ 0 <= x < 256.
Proof.
  intros Hl. unfold get_n. rewrite load_ok by lia. cbn [mbind option_bind]. eexists; split; [done|].
  pose proof (le_val_bound (take 1 (drop 0 b))) as Hb. rewrite length_take, length_drop in Hb.
  replace (1 `min` (length b - 0))%nat with 1%nat in Hb by lia. done.
Qed.

Lemma set_version b v : (1 ≤ length b)%nat → 0 <= v < 16 →
  ∃ b' w, Ip_SetVersion b v = Some b' ∧ set_n b 0 1 w = Some b' ∧ Ip_GetVersion b' = Some v ∧
    Ip_GetHdrLen b' = Ip_GetHdrLen b.
Proof.
  intros Hl Hv. destruct (get_byte b Hl) as (x & Ex & Hx). unfold Ip_SetVersion, Ip_GetVersion, Ip_GetHdrLen.
  rewrite Ex. cbn [mbind option_bind]. set (w := Z.lor _ _).
  destruct (set_n_ok b 0 1 w) as (b' & E & _); [lia|]. exists b', w. split_and!; [done|done|..].
  all: rewrite (get_set_same _ _ _ _ _ E); cbn [mbind option_bind]; change (w mod 256 ^ Z.of_nat 1) with (version_byte x v).
  - f_equal. by apply version_byte_ok.
  - do 2 f_equal. by apply version_byte_ok.
Qed.

Lemma set_hdrlen b v : (1 ≤ length b)%nat → 0 <= v < 64 ∧ v mod 4 = 0 →
  ∃ b' w, Ip_SetHdrLen b v = Some b' ∧ set_n b 0 1 w = Some b' ∧ Ip_GetHdrLen b' = Some v ∧
    Ip_GetVersion b' = Ip_GetVersion b.
Proof.
  intros Hl [Hv Hm]. assert (v = 4 * (v / 4)) as Ev by (apply Z_div_exact_full_2; lia).
  assert (0 <= v / 4 < 16) as Hw by lia. rewrite Ev. set (w := v / 4) in *. clearbody w. clear Hm Hv Ev.
  destruct (get_byte b Hl) as (x & Ex & Hx). unfold Ip_SetHdrLen, Ip_GetVersion, Ip_GetHdrLen.
  rewrite Ex. cbn [mbind option_bind]. set (y := Z.lor _ _).
  destruct (set_n_ok b 0 1 y) as (b' & E & _); [lia|]. exists b', y. split_and!; [done|done|..].
  all: rewrite (get_set_same _ _ _ _ _ E); cbn [mbind option_bind]; change (y mod 256 ^ Z.of_nat 1) with (hdrlen_byte x w).
  - f_equal. by apply hdrlen_byte_ok.
  - f_equal. by apply hdrlen_byte_ok.
Qed.

Lemma version_law : field_law version_field.
Proof.
  split; cbn [fget fset foff flen fok version_field].
  - intros b b' _ E. unfold Ip_GetVersion. by rewrite E.
  - intros b v Hl Hv. destruct (set_version b v) as (b' & w & ? & ? & ? & _); [lia|done|]. by exists b', w.
Qed.

Lemma hdrlen_law : field_law hdrlen_field.
Proof.
  split; cbn [fget fset foff flen fok hdrlen_field].
  - intros b b' _ E. unfold Ip_GetHdrLen. by rewrite E.
  - intros b v Hl Hv. destruct (set_hdrlen b v) as (b' & w & ? & ? & ? & _); [lia|done|]. by exists b', w.
Qed.
#[export] Hint Resolve version_law hdrlen_law : slience.

(** Setting [f] stores the value and leaves [g], in a header of [n] bytes. *)
Definition independent (n : nat) (f g : field) : Prop :=
  ∀ b v, (n ≤ length b)%nat → fok f v →
  ∃ b', fset f b v = Some b' ∧ length b' = length b ∧ fget f b' = Some v ∧ fget g b' = fget g b.

Lemma apart_independent n f g :
  field_law f → field_law g → apart f g → (foff f + flen f ≤ n)%nat → independent n f g.
Proof. intros Hf Hg Ha Hn b v Hl Hv. apply field_set_get; try done. lia. Qed.

(** The accessors of the helper classes, as fields. *)
Definition ip_fields : list field :=
  [ version_field; hdrlen_field;
    mkField 1 1 Ip_GetTos Ip_SetTos (λ v, 0 <= v < 256);
    mkField 2 2 Ip_GetTotalLen Ip_SetTotalLen (λ v, 0 <= v < 2 ^ 16);
    mkField 4 2 Ip_GetIdent Ip_SetIdent (λ v, 0 <= v < 2 ^ 16);
    mkField 6 2 Ip_GetFragFlags Ip_SetFragFlags (λ v, 0 <= v < 2 ^ 16);
    mkField 8 1 Ip_GetTtl Ip_SetTtl (λ v, 0 <= v < 256);
    mkField 9 1 Ip_GetProtocol Ip_SetProtocol (λ v, 0 <= v < 256);
    mkField 10 2 Ip_GetCheckSum Ip_SetCheckSum (λ v, 0 <= v < 2 ^ 16);
    mkField 12 4 Ip_TetSrcIp Ip_SetSrcIp (λ v, 0 <= v < 2 ^ 32);
    mkField 16 4 Ip_GetDstIp Ip_SetDstIp (λ v, 0 <= v < 2 ^ 32) ].

Definition icmp_tstamp_fields : list field :=
  [ mkField 0 1 Icmp_GetType Icmp_SetType (λ v, 0 <= v < 256);
    mkField 1 1 Icmp_GetCode Icmp_SetCode (λ v, 0 <= v < 256);
    mkField 2 2 Icmp_GetCheckSum Icmp_SetCheckSum (λ v, 0 <= v < 2 ^ 16);
    mkField 4 2 IcmpTStamp_GetIdent IcmpTStamp_SetIdent (λ v, 0 <= v < 2 ^ 16);
    mkField 6 2 IcmpTStamp_GetSeq IcmpTStamp_SetSeq (λ v, 0 <= v < 2 ^ 16);
    mkField 8 4 IcmpTStamp_GetReqTime IcmpTStamp_SetReqTime (λ v, 0 <= v < 2 ^ 32);
    mkField 12 4 IcmpTStamp_GetRecvTime IcmpTStamp_SetRecvTime (λ v, 0 <= v < 2 ^ 32);
    mkField 16 4 IcmpTStamp_GetTransTime IcmpTStamp_SetTransTime (λ v, 0 <= v < 2 ^ 32) ].

Definition icmp_mask_fields : list field :=
  [ mkField 0 1 Icmp_GetType Icmp_SetType (λ v, 0 <= v < 256);
    mkField 1 1 Icmp_GetCode Icmp_SetCode (λ v, 0 <= v < 256);
    mkField 2 2 Icmp_GetCheckSum Icmp_SetCheckSum (λ v, 0 <= v < 2 ^ 16);
    mkField 4 2 IcmpMask_GetIdent IcmpMask_SetIdent (λ v, 0 <= v < 2 ^ 16);
    mkField 6 2 IcmpMask_GetSeq IcmpMask_SetSeq (λ v, 0 <= v < 2 ^ 16);
    mkField 8 4 IcmpMask_GetMask IcmpMask_SetMask (λ v, 0 <= v < 2 ^ 32) ].

(** Pairwise independence of fields that obey the law and are laid out in order. *)
Lemma ordered_independent n fs :
  Forall field_law fs → Forall (λ f, (foff f + flen f ≤ n)%nat) fs → StronglySorted (λ f g, (foff f + flen f ≤ foff g)%nat) fs →
  ∀ i j f g, i ≠ j → fs !! i = Some f → fs !! j = Some g → independent n f g.
Proof.
  intros Hlaw Hn Hs i j f g Hij Hi Hj. rewrite Forall_lookup in Hlaw, Hn.
  assert (∀ i j f g, (i < j)%nat → fs !! i = Some f → fs !! j = Some g → (foff f + flen f ≤ foff g)%nat) as Hord.
  { clear -Hs. induction Hs as [|a fs Hs IH Ha]; intros i j f g Hij Hi Hj; [done|].
    destruct i, j; cbn in Hi, Hj; try lia; simplify_eq.
    - rewrite Forall_lookup in Ha. by eapply Ha.
    - eapply IH; [|done|done]. lia. }
  apply apart_independent; [by eapply Hlaw|by eapply Hlaw| |by eapply Hn].
  unfold apart. destruct (decide (i < j)%nat); [left; by eapply (Hord i j)|right; eapply (Hord j i); [lia|done|done]].
Qed.

Ltac lists_ok :=
  repeat match goal with
         | |- Forall _ _ => constructor
         | |- StronglySorted _ _ => constructor
         end.

Definition ip_rest : list field := drop 2 ip_fields.

Lemma ip_rest_laws : Forall field_law ip_rest.
Proof.
  unfold ip_rest, ip_fields. cbn [drop].
  lists_ok; first [apply (field8_law _)|apply (field16_law _)|apply (field32_law _)].
Qed.

Lemma ip_rest_sorted f0 : foff f0 = 0%nat → flen f0 = 1%nat →
  Forall (λ f, (foff f + flen f ≤ 20)%nat) (f0 :: ip_rest) ∧
  StronglySorted (λ f g, (foff f + flen f ≤ foff g)%nat) (f0 :: ip_rest).
Proof.
  intros H1 H2. unfold ip_rest, ip_fields. cbn [drop].
  split; lists_ok; rewrite ?H1, ?H2; cbn; lia.
Qed.

(** In an IP header of at least twenty bytes, each setter of [IpHdrHelper] given a
    value of its field succeeds, its getter then returns that value, and no other
    getter's answer changes; the two halves of the first byte included. *)
Theorem ip_fields_independent (i j : nat) (f g : field) :
  i ≠ j → ip_fields !! i = Some f → ip_fields !! j = Some g → independent 20 f g.
Proof.
  intros Hij Hi Hj.
  assert (∀ f0, field_law f0 → foff f0 = 0%nat → flen f0 = 1%nat → ∀ i j f g, i ≠ j →
    (f0 :: ip_rest) !! i = Some f → (f0 :: ip_rest) !! j = Some g → independent 20 f g) as Hrest.
  { intros f0 Hl H1 H2. destruct (ip_rest_sorted f0 H1 H2) as [Hn Hs].
    apply ordered_independent; [|done|done]. apply Forall_cons; [done|apply ip_rest_laws]. }
  pose proof (Hrest version_field version_law eq_refl eq_refl) as Hv.
  pose proof (Hrest hdrlen_field hdrlen_law eq_refl eq_refl) as Hh.
  destruct i as [|[|i]], j as [|[|j]]; try done.
  - injection Hi as <-. injection Hj as <-. intros b v Hl Hok.
    destruct (set_version b v) as (b' & w & E1 & E2 & E3 & E4); [lia|done|].
    exists b'. split_and!; try done. by eapply store_length.
  - injection Hi as <-. apply (Hv 0%nat (S j)); done.
  - injection Hi as <-. injection Hj as <-. intros b v Hl Hok.
    destruct (set_hdrlen b v) as (b' & w & E1 & E2 & E3 & E4); [lia|done|].
    exists b'. split_and!; try done. by eapply store_length.
  - injection Hi as <-. apply (Hh 0%nat (S j)); done.
  - injection Hj as <-. apply (Hv (S i) 0%nat); done.
  - injection Hj as <-. apply (Hh (S i) 0%nat); done.
  - apply (Hv (S i) (S j)); [congruence|done|done].
Qed.

Lemma icmp_laws : Forall field_law icmp_tstamp_fields ∧ Forall field_law icmp_mask_fields.
Proof.
  split; unfold icmp_tstamp_fields, icmp_mask_fields;
  lists_ok; first [apply (field8_law _)|apply (field16_law _)|apply (field32_law _)].
Qed.

(** The same for the fields of an ICMP timestamp header of twenty bytes and of an
    ICMP mask header of twelve, whose first four fields are those of an echo. *)
Theorem icmp_fields_independent (i j : nat) (f g : field) : i ≠ j →
  (icmp_tstamp_fields !! i = Some f → icmp_tstamp_fields !! j = Some g → independent 20 f g) ∧
  (icmp_mask_fields !! i = Some f → icmp_mask_fields !! j = Some g → independent 12 f g).
Proof.
  intros Hij. destruct icmp_laws as [Ht Hm]. split.
  - apply ordered_independent; [done|lists_ok; cbn; lia|lists_ok; cbn; lia|done].
  - apply ordered_independent; [done|lists_ok; cbn; lia|lists_ok; cbn; lia|done].
Qed.

(** ** The checksum *)

(** The 16-bit words of a block of even length. *)
Fixpoint words (bs : list byte) : list Z :=
  match bs with b0 :: b1 :: bs => le_val [b0; b1] :: words bs | _ => [] end.

Definition sumz (l : list Z) : Z := fold_right Z.add 0 l.

Lemma word_bound b0 b1 : 0 <= le_val [b0; b1] < 65536.
Proof. pose proof (le_val_bound [b0; b1]). done. Qed.

Lemma words_bound n : ∀ bs, (length bs ≤ n)%nat → 0 <= sumz (words bs) <= 65535 * (Z.of_nat (length bs) / 2).
Proof.
  induction n as [|n IH]; intros bs Hl; [by destruct bs; [|simpl in Hl; lia]|].
  destruct bs as [|b0 [|b1 bs]]; [by split; vm_compute|by split; vm_compute|]. cbn [words sumz fold_right length].
  simpl in Hl. specialize (IH bs ltac:(lia)). fold (sumz (words bs)). pose proof (word_bound b0 b1).
  replace (Z.of_nat (S (S (length bs)))) with (Z.of_nat (length bs) + 1 * 2) by lia.
  rewrite Z.div_add by lia. lia.
Qed.

Lemma sum_words_even n : ∀ bs acc, (length bs ≤ n)%nat → Nat.Even (length bs) → 0 <= acc →
  acc + 65535 * (Z.of_nat (length bs) / 2) < 2 ^ 32 → sum_words bs acc = acc + sumz (words bs).
Proof.
  induction n as [|n IH]; intros bs acc Hl He Ha Hb; [destruct bs; [cbn; lia|simpl in Hl; lia]|].
  destruct bs as [|b0 [|b1 bs]]; [cbn; lia|by destruct He as [k Hk]; simpl in Hk; lia|].
  cbn [sum_words words sumz fold_right]. fold (sumz (words bs)). simpl in Hl. pose proof (word_bound b0 b1).
  cbn [length] in Hb.
  replace (Z.of_nat (S (S (length bs)))) with (Z.of_nat (length bs) + 1 * 2) in Hb by lia.
  rewrite Z.div_add in Hb by lia. pose proof (Z.div_pos (Z.of_nat (length bs)) 2 ltac:(lia) ltac:(lia)).
  rewrite u32_small by lia. rewrite IH; [lia|lia| |lia|lia].
  destruct He as [k Hk]. exists (k - 1)%nat. simpl in Hk. lia.
Qed.

(** The folded sum: congruent modulo 65535, and zero only for zero. *)
Definition fold16 (s : Z) : Z := let s1 := s / 65536 + s mod 65536 in (s1 + s1 / 65536) mod 65536.

Lemma fold16_spec s : 0 <= s < 2 ^ 32 →
  0 <= fold16 s < 65536 ∧ (fold16 s) mod 65535 = s mod 65535 ∧ (fold16 s = 0 → s = 0).
Proof.
  intros Hs. unfold fold16. pose proof (Z.div_mod s 65536 ltac:(lia)) as Hd.
  pose proof (Z.mod_pos_bound s 65536 ltac:(lia)). assert (0 <= s / 65536 < 65536) as Hq by lia.
  set (q := s / 65536) in *. set (r := s mod 65536) in *. clearbody q r.
  assert (s mod 65535 = (q + r) mod 65535) as ->.
  { replace s with (q + r + q * 65535) by lia. apply Z_mod_plus_full. }
  destruct (decide (q + r < 65536)) as [Hlt|Hge].
  - rewrite (Z.div_small (q + r)) by lia. rewrite Z.add_0_r, Z.mod_small by lia. split_and!; lia.
  - assert ((q + r) / 65536 = 1) as -> by (symmetry; apply (Z.div_unique _ _ _ (q + r - 65536)); lia).
    assert ((q + r + 1) mod 65536 = q + r - 65535) as ->.
    { symmetry. apply (Z.mod_unique _ _ 1); lia. }
    split_and!; [lia|lia| |lia]. replace (q + r) with (q + r - 65535 + 1 * 65535) at 2 by lia.
    by rewrite Z_mod_plus_full.
Qed.

Lemma land_65535 z : Z.land z 65535 = z mod 65536.
Proof. exact (Z.land_ones z 16 ltac:(lia)). Qed.

Lemma CheckSum_even bs : Nat.Even (length bs) → Z.of_nat (length bs) <= 131072 →
  CheckSum bs = 65535 - fold16 (sumz (words bs)).
Proof.
  intros He Hl. unfold CheckSum.
  assert (Z.of_nat (length bs) / 2 <= 65536) by (apply Z.div_le_upper_bound; lia).
  rewrite (sum_words_even (length bs)) by (done || lia). rewrite Z.add_0_l.
  pose proof (words_bound (length bs) bs ltac:(lia)) as Hb. set (s := sumz (words bs)) in *. clearbody s.
  rewrite land_65535, Z.shiftr_div_pow2 by lia. change (2 ^ 16) with 65536.
  unfold fold16. pose proof (Z.div_mod s 65536 ltac:(lia)) as Hd.
  pose proof (Z.mod_pos_bound s 65536 ltac:(lia)). assert (0 <= s / 65536 < 65536) as Hq by lia.
  rewrite (u32_small (s / 65536 + _)) by lia. rewrite Z.shiftr_div_pow2 by lia. change (2 ^ 16) with 65536.
  set (s1 := s / 65536 + s mod 65536) in *.
  assert (0 <= s1 / 65536 < 65536) by (split; [apply Z.div_pos; lia|apply Z.div_lt_upper_bound; lia]).
  rewrite u32_small by lia. set (s2 := s1 + s1 / 65536). unfold u16, Z.lnot.
  replace (Z.pred (- s2)) with (-1 - s2) by lia. change (2 ^ 16) with 65536.
  pose proof (Z.div_mod s2 65536 ltac:(lia)) as Hd2. pose proof (Z.mod_pos_bound s2 65536 ltac:(lia)).
  symmetry. apply (Z.mod_unique _ _ (- (s2 / 65536) - 1)); lia.
Qed.

(** Storing a word at an even offset changes one word. *)
Lemma words_app_even n : ∀ a b, (length a ≤ n)%nat → Nat.Even (length a) → words (a ++ b) = words a ++ words b.
Proof.
  induction n as [|n IH]; intros a b Hl He; [destruct a; [done|simpl in Hl; lia]|].
  destruct a as [|x [|y a]]; [done|by destruct He as [k Hk]; simpl in Hk; lia|].
  cbn [app words]. f_equal. apply IH; [simpl in Hl; lia|]. destruct He as [k Hk]. exists (k - 1)%nat. simpl in Hk. lia.
Qed.

Lemma sumz_app a b : sumz (a ++ b) = sumz a + sumz b.
Proof. unfold sumz. induction a as [|x a IH]; cbn [app fold_right]; [lia|]. rewrite IH. lia. Qed.

(** C31: let the checksum word of a block of even length (at most 128 KB) be zero: after
    the value of [CheckSum] is stored in it, [CheckSum] of the block is zero, which
    is how the receiver verifies it. *)
Theorem checksum_verifies (a b : list byte) :
  Nat.Even (length a) → Nat.Even (length b) → Z.of_nat (length a + 2 + length b) <= 131072 →
  ∃ blk, store (a ++ [x00; x00] ++ b) (length a) (le_bytes 2 (CheckSum (a ++ [x00; x00] ++ b))) = Some blk ∧
    CheckSum blk = 0.
Proof.
  intros Ha Hb Hl. set (z := a ++ [x00; x00] ++ b).
  assert (Nat.Even (length z)) as Hz.
  { unfold z. rewrite !length_app. destruct Ha as [i Hi], Hb as [j Hj]. exists (i + 1 + j)%nat. simpl. lia. }
  assert (Z.of_nat (length z) <= 131072) as Hlz by (unfold z; rewrite !length_app; simpl; lia).
  assert (∀ w, length w = 2%nat → sumz (words (a ++ w ++ b)) = sumz (words a) + sumz (words w) + sumz (words b)) as Hsum.
  { intros w Hw. rewrite (words_app_even (length a)) by (done || lia).
    rewrite (words_app_even 2 w) by (try lia; by exists 1%nat; lia). rewrite !sumz_app. lia. }
  set (s := sumz (words a) + sumz (words b)).
  assert (0 <= s < 2 ^ 32 - 65536) as Hs.
  { pose proof (words_bound (length a) a ltac:(lia)) as Ha'. pose proof (words_bound (length b) b ltac:(lia)) as Hb'.
    assert (Z.of_nat (length a) / 2 + Z.of_nat (length b) / 2 <= 65535).
    { destruct Ha as [i Hi], Hb as [j Hj]. rewrite Hi, Hj in *. rewrite !Nat2Z.inj_mul.
      rewrite !(Z.mul_comm (Z.of_nat 2)), !Z.div_mul by done. lia. }
    unfold s. lia. }
  assert (CheckSum z = 65535 - fold16 s) as Hc.
  { rewrite CheckSum_even by done. unfold z. rewrite Hsum by done. do 2 f_equal. unfold s. cbn. lia. }
  destruct (fold16_spec s) as (Hf & Hm & H0); [lia|].
  set (c := CheckSum z) in *. 
  assert (store z (length a) (le_bytes 2 c) = Some (a ++ le_bytes 2 c ++ b)) as Est.
  { unfold z. rewrite store_ok by (len; simpl; lia). rewrite take_app_length. do 3 f_equal.
    rewrite length_le_bytes. rewrite drop_app_ge by lia.
    replace (length a + 2 - length a)%nat with 2%nat by lia. done. }
  exists (a ++ le_bytes 2 c ++ b). split; [exact Est|].
  assert (length (a ++ le_bytes 2 c ++ b) = length z) as Hlen by (unfold z; len; simpl; lia).
  rewrite CheckSum_even by (by rewrite Hlen). rewrite Hsum by (by rewrite length_le_bytes).
  assert (sumz (words (le_bytes 2 c)) = c) as ->.
  { cbn [le_bytes words sumz fold_right]. rewrite Z.add_0_r.
    change [byte_of c; byte_of (c / 256)] with (le_bytes 2 c). rewrite le_val_bytes.
    apply Z.mod_small. change (256 ^ Z.of_nat 2) with 65536. lia. }
  replace (sumz (words a) + c + sumz (words b)) with (s + c) by (unfold s; lia).
  destruct (fold16_spec (s + c)) as (Hf' & Hm' & H0'); [lia|].
  assert ((s + c) mod 65535 = 0) as Hz0.
  { rewrite Hc. replace (s + (65535 - fold16 s)) with (s - fold16 s + 1 * 65535) by lia.
    rewrite Z_mod_plus_full. rewrite Zminus_mod, Hm, Z.sub_diag. done. }
  rewrite Hz0 in Hm'. assert (s + c ≠ 0) as Hsc.
  { intros Hx. assert (s = 0) as Es by lia. rewrite Es in Hc. change (fold16 0) with 0 in Hc. lia. }
  assert (fold16 (s + c) ≠ 0) by (intros Hx; specialize (H0' Hx); lia).
  destruct (decide (fold16 (s + c) = 65535)) as [->|Hne]; [lia|].
  rewrite Z.mod_small in Hm' by lia. lia.
Qed.

(** [SetCheckSum] stores its argument in network order, while the value of
    [CheckSum] is already in the order of memory: a header whose checksum is set
    through it does not verify. *)
Theorem SetCheckSum_swaps_the_checksum :
  ∃ hdr b, length hdr = 20%nat ∧ Ip_SetCheckSum hdr (CheckSum hdr) = Some b ∧ CheckSum b ≠ 0 ∧
    (∃ b', store hdr 10 (le_bytes 2 (CheckSum hdr)) = Some b' ∧ CheckSum b' = 0).
Proof.
  set (h := x45 :: replicate 19 x00).
  exists h, (default [] (Ip_SetCheckSum h (CheckSum h))). split_and!; [by vm_compute..|].
  exists (default [] (store h 10 (le_bytes 2 (CheckSum h)))). split; by vm_compute.
Qed.

Lemma ip_fields_independent_witness : independent 20 version_field hdrlen_field.
Proof. apply (ip_fields_independent 0 1); [done|reflexivity|reflexivity]. Defined.

Lemma icmp_fields_independent_witness :
  independent 20 (mkField 0 1 Icmp_GetType Icmp_SetType (λ v, 0 <= v < 256))
    (mkField 4 2 IcmpTStamp_GetIdent IcmpTStamp_SetIdent (λ v, 0 <= v < 2 ^ 16)).
Proof. refine (proj1 (icmp_fields_independent 0 3 _ _ _) _ _); [done|reflexivity|reflexivity]. Defined.

Lemma checksum_verifies_witness :
  ∃ blk, store ([x45; x00] ++ [x00; x00] ++ [x01; xff]) 2 (le_bytes 2 (CheckSum ([x45; x00] ++ [x00; x00] ++ [x01; xff]))) = Some blk ∧
    CheckSum blk = 0.
Proof. apply (checksum_verifies [x45; x00] [x01; xff]); [by exists 1%nat|by exists 1%nat|simpl; lia]. Defined.
