(* ===== verification/HttpSocket.v ===== *)
(** * HTTP sockets and connectors

    [HttpBaseSocket] of [src/slience/netio/hsocket_impl.hpp], [HttpSocket] of
    [netio.hpp], and the connectors of [tcp_connector.cpp] and
    [http_connector.cpp].

    [_CutMsgPack] hands the message to the application after every call of [Parse]
    and clears it.  [HttpSocket_whole_requests]: requests that arrive whole in one
    read are delivered complete, one by one.  [HttpSocket_splits_requests]: one that
    arrives in two reads is delivered incomplete and forgotten. *)

From Stdlib Require Import ZArith Lia List Strings.String Strings.Byte Init.Byte.
From stdpp Require Import base numbers list option sets.
From S2P Require Import Prelude Buffer Frame TcpSocket HttpMsg HttpSpec HttpProps.

#[local] Set Warnings "-clear-no-such-hyp".
#[local] Existing Instance zero_malloc.

(** The application callback: it may do anything with the message it is lent as long
    as it leaves a well-formed buffer; its effect depends on what the message shows. *)
Class HttpHandler `{Malloc} (St : Type) := {
  OnHttpData : St → HttpMsg → option (St * HttpMsg);
  http_deliver : St → list byte * list strpos * parse_flag * bool * nat * Z * list strpos → St;
  OnHttpData_ok st m : buf_wf (_buffer m) →
    ∃ m', OnHttpData st m = Some (http_deliver st (msg_view m), m') ∧ buf_wf (_buffer m')
}.

Section socket.
Context `{Malloc} `{!HttpHandler St}.
Variables F1 F2 F3 : parse_flag.

(** [_CutMsgPack(buf, tran_byte)]; one unit of fuel per round. *)
Fixpoint Http_CutMsgPack (fuel : nat) (st : St) (m : HttpMsg) (buf : list byte) (tran_byte : Z)
  : option (bool * St * HttpMsg) :=
  match fuel with
  | O => None
  | S fuel =>
      '(n, m) ← Parse F1 F2 F3 m (take (Z.to_nat tran_byte) buf);
      let copy_len := u32 (Z.of_nat n) in
      '(st, m) ← (if (copy_len =? 0) || (copy_len <=? tran_byte) then
                    '(st, m) ← OnHttpData st m; Some (st, HttpMsg_Clear F1 m)
                  else Some (st, m));
      let tran_byte := u32 (tran_byte - copy_len) in
      if tran_byte =? 0 then Some (true, st, m)
      else Http_CutMsgPack fuel st m (drop (Z.to_nat copy_len) buf) tran_byte
  end.

(** [_TryRecvData()] *)
Definition Http_TryRecvData (recv_err : bool) (s : BaseSocket) : BaseSocket * list sock_act :=
  if recv_err then let (s, acts) := TcpBaseSocket_Close s in (s, ActRecvSome :: acts)
  else (s, [ActRecvSome]).

(** [_ReadHandler(tran_byte, error)] *)
Definition Http_ReadHandler (recv_err : bool) (st : St) (s : BaseSocket) (m : HttpMsg)
    (readbuf : list byte) (tran_byte : Z) (error : bool)
  : option (St * BaseSocket * HttpMsg * list sock_act) :=
  if error then let (s, acts) := TcpBaseSocket_Close s in Some (st, s, m, acts)
  else if tran_byte <=? 0 then let (s, acts) := TcpBaseSocket_Close s in Some (st, s, m, acts)
  else if TcpBaseSocket_IsConnected s then
    '(ok, st, m) ← Http_CutMsgPack (S (Z.to_nat tran_byte)) st m readbuf tran_byte;
    if ok : bool then let (s, acts) := Http_TryRecvData recv_err s in Some (st, s, m, acts)
    else let (s, acts) := TcpBaseSocket_Close s in Some (st, s, m, ActShutdown E_Shutdown_RD :: acts)
  else let (s, acts) := TcpBaseSocket_Close s in Some (st, s, m, acts).

(** [SendHttpMsg()]: the message is sent as it is, and cleared. *)
Definition SendHttpMsg (send_err : bool) (s : BaseSocket) (hm : HttpSvrSendMsg)
  : option (BaseSocket * HttpSvrSendMsg * list sock_act) :=
  '(_, s, acts) ← TcpBaseSocket_SendBuffer send_err s (Some (_pbuffer hm));
  Some (s, mkSend (Buffer_Clear (_pbuffer hm)) 0, acts).
End socket.

(** ** Connecting *)

(** What a connector does besides the calls on its socket. *)
Inductive connect_act := CallOnConnected (error : bool) | CallSock (a : sock_act) | SetLastError.

Section connect.
Context `{Malloc}.

Definition set_start (s : BaseSocket) : BaseSocket :=
  mkSocket E_STATE_START (writing s) (msgbuffer1 s) (msgbuffer2 s).

(** [Init()] of an accepted socket; [ep_err] is whether asking for its end points throws. *)
Definition HttpSocket_Init (ep_err recv_err : bool) (s : BaseSocket) : BaseSocket * list connect_act :=
  if ep_err then (s, [SetLastError])
  else
    let (s, acts) := Http_TryRecvData recv_err (set_start s) in
    (s, CallOnConnected false :: map CallSock acts).

(** [TcpConnector::Connect]: the socket's [Connect], [RemoteEndPoint] and
    [AsyncRecvSome] throw or not. *)
Definition TcpConnector_Connect (conn_err ep_err recv_err : bool) (s : BaseSocket)
  : bool * BaseSocket * list connect_act :=
  if conn_err then (false, s, [SetLastError])
  else if ep_err then (false, set_start s, [SetLastError])
  else if recv_err then (false, set_start s, [CallSock ActRecvSome; SetLastError])
  else (true, set_start s, [CallSock ActRecvSome]).

(** [HttpConnector::Connect] only connects the socket. *)
Definition HttpConnector_Connect (conn_err : bool) (s : BaseSocket) : bool * BaseSocket * list connect_act :=
  if conn_err then (false, s, [SetLastError]) else (true, s, []).

(** [_ConnectHandler], the same code in both connectors. *)
Definition TcpConnector_ConnectHandler (error ep_err recv_err : bool) (s : BaseSocket)
  : BaseSocket * list connect_act :=
  if error then (s, [SetLastError; CallOnConnected true])
  else if ep_err then (s, [SetLastError])
  else (set_start s, CallOnConnected false :: CallSock ActRecvSome :: (if recv_err then [SetLastError] else [])).

Definition HttpConnector_ConnectHandler := TcpConnector_ConnectHandler.
End connect.

(** ** What a chunk is cut into *)

Section cut.
Context `{Malloc}.
Abbreviation svr_run := (run E_PARSE_METHOD E_PARSE_URL E_PARSE_VER).
Abbreviation SParse := (Parse E_PARSE_METHOD E_PARSE_URL E_PARSE_VER).
Abbreviation r0 := (r_init E_PARSE_METHOD).

(** A message just cleared. *)
Definition msg_clean (m : HttpMsg) : Prop := hrel m r0.

Lemma Clear_clean m : buf_wf (_buffer m) → msg_clean (HttpMsg_Clear E_PARSE_METHOD m).
Proof.
  intros Hw. split; [|done]. cbn [r_bytes r_init HttpMsg_Clear _buffer].
  eapply buf_at_clear. by apply buf_wf_at.
Qed.

Lemma r0_ok : rinv r0 ∧ rok E_PARSE_METHOD E_PARSE_URL E_PARSE_VER r0.
Proof. destruct svr_flags as (?&?&?). by destruct (hrel_new E_PARSE_METHOD E_PARSE_URL E_PARSE_VER) as (_&?&?). Qed.

Lemma parse_clean m x : msg_clean m → pos_of x < 2 ^ 31 - 1024 → res_rel (SParse m x) (svr_run r0 x).
Proof.
  intros Hm Hl. destruct svr_flags as (?&?&?), r0_ok as [Hi Hok].
  apply Parse_refines_run; try done. apply Hok.
Qed.

(** A message that starts consumes at least a byte. *)
Lemma run_progress x n r : x ≠ [] → svr_run r0 x = Some (n, r) → (0 < n ≤ length x)%nat.
Proof.
  intros Hne E. destruct svr_flags as (?&?&?), r0_ok as [Hi Hok].
  destruct (run_ok _ _ _ ltac:(done) ltac:(done) ltac:(done) x r0 n r Hok E) as (_ & _ & Hn & _).
  split; [|done]. destruct x as [|b x]; [done|]. cbn [HttpSpec.run] in E.
  rewrite rstep_F1 in E by done. cbn [mbind option_bind] in E.
  destruct (svr_run _ x) as [[k r']|]; [|done]. cbn in E. injection E as <- _. lia.
Qed.

Definition r_view (r : RMsg) : list byte * list strpos * parse_flag * bool * nat * Z * list strpos :=
  (r_bytes r, [r_p1 r; r_p2 r; r_p3 r; r_header r; r_header2 r; r_body r], r_flag r, r_assist r,
   r_iter r, r_bodysize r, r_vec r).

Lemma hrel_r_view m r : hrel m r → msg_view m = r_view r.
Proof. intros [Hb ->]. cbn [r_bytes] in Hb. unfold msg_view. by rewrite (buf_at_raw _ _ _ Hb). Qed.

(** The messages a chunk is cut into, each from a fresh parser. *)
Fixpoint http_split (fuel : nat) (x : list byte) : option (list RMsg) :=
  match fuel, x with
  | _, [] => Some []
  | O, _ => None
  | S fuel, _ => '(n, r) ← svr_run r0 x; rs ← http_split fuel (drop n x); Some (r :: rs)
  end.

Context `{!HttpHandler St}.
Abbreviation Cut := (Http_CutMsgPack E_PARSE_METHOD E_PARSE_URL E_PARSE_VER).

(** One call of [_CutMsgPack] on a chunk, the parser being clear before and after. *)
Lemma Http_CutMsgPack_split fuel : ∀ st m x,
  msg_clean m → x ≠ [] → (length x < fuel)%nat → pos_of x < 2 ^ 31 - 1024 →
  match http_split (length x) x with
  | Some rs => ∃ m', Cut fuel st m x (pos_of x) = Some (true, fold_left http_deliver (map r_view rs) st, m') ∧ msg_clean m'
  | None => Cut fuel st m x (pos_of x) = None
  end.
Proof.
  assert (∀ f1 f2 x, (length x ≤ f1)%nat → (length x ≤ f2)%nat → http_split f1 x = http_split f2 x) as Hfuel.
  { induction f1 as [|f1 IH]; intros [|f2] [|b x] H1 H2; simpl in H1, H2; try lia; try done.
    cbn [http_split]. destruct (svr_run r0 (b :: x)) as [[n r]|] eqn:E; [|done]. cbn [mbind option_bind].
    apply run_progress in E; [|done]. cbn [length] in E.
    rewrite (IH f2 (drop n (b :: x))); [done|rewrite length_drop; simpl; lia..]. }
  induction fuel as [|fuel IH]; [lia|]. intros st m x Hm Hne Hf Hl. cbn [Http_CutMsgPack].
  assert (take (Z.to_nat (pos_of x)) x = x) as -> by (apply take_ge; unfold pos_of; lia).
  pose proof (parse_clean m x Hm Hl) as Hp.
  destruct x as [|b x]; [done|]. set (y := b :: x) in *.
  change (length y) with (S (length x)). change (http_split (S (length x)) y) with
    ('(n, r) ← svr_run r0 y; rs ← http_split (length x) (drop n y); Some (r :: rs)).
  destruct (svr_run r0 y) as [[n r]|] eqn:Er; destruct (SParse m y) as [[n' m1]|]; try done.
  destruct Hp as (-> & Hm1 & _). cbn [mbind option_bind].
  apply run_progress in Er as Hn; [|done].
  rewrite (u32_small (Z.of_nat n)) by (unfold pos_of in Hl; lia).
  rewrite (proj2 (Z.leb_le _ _)) by (unfold pos_of; lia). rewrite orb_true_r.
  assert (buf_wf (_buffer m1)) as Hw1 by (destruct Hm1 as [Hb1 _]; by eapply buf_at_wf).
  destruct (OnHttpData_ok st m1 Hw1) as (m2 & -> & Hw2).
  cbn [mbind option_bind]. rewrite (hrel_r_view _ _ Hm1). rewrite Nat2Z.id.
  assert (pos_of y - Z.of_nat n = pos_of (drop n y)) as Hpos by (unfold pos_of; rewrite length_drop; lia).
  rewrite Hpos. assert (pos_of (drop n y) <= pos_of y) by lia.
  rewrite u32_small by (unfold pos_of in *; lia).
  assert (length x = S (length x) - 1)%nat as Hlx by lia. cbn [length y] in Hf, Hn.
  assert (length y = S (length x)) as Hly by done.
  destruct (decide (drop n y = [])) as [Hd|Hd].
  - rewrite Hd. cbn [pos_of Z.of_nat length Z.eqb].
    replace (http_split (length x) []) with (Some (@nil RMsg)) by (by destruct (length x)).
    cbn [mbind option_bind map fold_left]. eexists. split; [done|]. by apply Clear_clean.
  - rewrite (proj2 (Z.eqb_neq _ 0)) by (unfold pos_of; destruct (drop n y); [done|simpl; lia]).
    specialize (IH (http_deliver st (r_view r)) (HttpMsg_Clear E_PARSE_METHOD m2) (drop n y)
      (Clear_clean _ Hw2) Hd). rewrite length_drop, Hly in IH.
    specialize (IH ltac:(lia) ltac:(lia)).
    rewrite (Hfuel (S (length x) - n)%nat (length x)) in IH by (rewrite length_drop, Hly; lia).
    destruct (http_split (length x) (drop n y)) as [rs|]; cbn [mbind option_bind map fold_left]; exact IH.
Qed.
End cut.

(** ** The properties *)

Section properties.
Context `{Malloc} `{!HttpHandler St}.
Abbreviation Cut := (Http_CutMsgPack E_PARSE_METHOD E_PARSE_URL E_PARSE_VER).
Abbreviation svr_run := (run E_PARSE_METHOD E_PARSE_URL E_PARSE_VER).
Abbreviation r0 := (r_init E_PARSE_METHOD).

Lemma encode_pos t : (0 < length (encode t))%nat.
Proof. unfold encode, first_line. len. simpl. lia. Qed.

Lemma http_split_requests ts : Forall (λ t, text_ok t ∧ length_ok t ∧ pos_of (t_body t) < 2 ^ 31) ts →
  ∀ fuel, (length (concat (map encode ts)) ≤ fuel)%nat →
  http_split fuel (concat (map encode ts)) = Some (map r_final ts).
Proof.
  induction 1 as [|t ts (Ht & Hl & Hb) _ IH]; intros fuel Hf; [by destruct fuel|].
  cbn [map concat] in *. pose proof (encode_pos t) as Hp. rewrite length_app in Hf.
  destruct fuel as [|fuel]; [lia|]. destruct svr_flags as (?&?&?).
  assert (encode t ++ concat (map encode ts) ≠ []) as Hne by (destruct (encode t); [simpl in Hp; lia|done]).
  cbn [http_split]. destruct (encode t ++ concat (map encode ts)) eqn:E; [done|]. rewrite <- E.
  rewrite run_message by done. cbn [mbind option_bind]. rewrite drop_app_length.
  rewrite IH by lia. done.
Qed.

Lemma final_view m t : hrel m (r_final t) → msg_view m = r_view (r_final t).
Proof. apply hrel_r_view. Qed.

(** Well-formed requests with bodies that arrive whole in one read, however many,
    are handed to [OnReceiveData] one by one, in order, each complete, and the
    reader is clear again: the state after is the fold of their deliveries. *)
Theorem HttpSocket_whole_requests (st : St) (m : HttpMsg) (ts : list http_text) :
  msg_clean m → ts ≠ [] → Forall (λ t, text_ok t ∧ length_ok t) ts →
  let x := concat (map encode ts) in pos_of x < 2 ^ 31 - 1024 →
  ∃ m', Cut (S (length x)) st m x (pos_of x) =
      Some (true, fold_left http_deliver (map (λ t, r_view (r_final t)) ts) st, m') ∧ msg_clean m' ∧
    Forall (λ t, r_flag (r_final t) = E_PARSE_OVER ∧ ∀ m1, hrel m1 (r_final t) → carries m1 t) ts.
Proof.
  intros Hm Hne Hts x Hl.
  assert (Forall (λ t, text_ok t ∧ length_ok t ∧ pos_of (t_body t) < 2 ^ 31) ts) as Hts'.
  { apply Forall_forall. intros t Hin. rewrite Forall_forall in Hts. destruct (Hts t Hin) as [Ht Hlo].
    split_and!; [done|done|]. apply list_elem_of_split in Hin as (l1 & l2 & ->).
    unfold x, pos_of, encode in *. rewrite map_app, concat_app in Hl. cbn [map concat] in Hl.
    rewrite !length_app in Hl. lia. }
  assert (x ≠ []) as Hx.
  { destruct ts as [|t ts]; [done|]. unfold x. cbn [map concat]. pose proof (encode_pos t).
    destruct (encode t); [simpl in *; lia|done]. }
  pose proof (Http_CutMsgPack_split (S (length x)) st m x Hm Hx ltac:(lia) Hl) as Hc.
  replace (http_split (length x) x) with (Some (map r_final ts)) in Hc
    by (symmetry; by apply http_split_requests).
  destruct Hc as (m' & E & Hm'). exists m'. rewrite E, map_map. split_and!; [done|done|].
  apply Forall_forall. intros t _. split; [done|]. intros m1 H1. by apply carries_final.
Qed.

(** A well-formed request with a body whose bytes arrive in two reads: the first
    piece is handed to [OnReceiveData] as a message that is not complete, and the
    parser is cleared, so the second piece is parsed from the start of a request. *)
Theorem HttpSocket_splits_requests (st : St) (m : HttpMsg) (t : http_text) (p q : list byte) :
  msg_clean m → text_ok t → length_ok t → encode t = p ++ q → p ≠ [] → q ≠ [] →
  pos_of (encode t) < 2 ^ 31 - 1024 →
  ∃ r m', Cut (S (length p)) st m p (pos_of p) = Some (true, http_deliver st (r_view r), m') ∧
    r_flag r ≠ E_PARSE_OVER ∧ msg_clean m'.
Proof.
  intros Hm Ht Hlo E Hp Hq Hl. destruct svr_flags as (?&?&?). destruct r0_ok as [_ Hok].
  assert (pos_of (t_body t) < 2 ^ 31) as Hb.
  { unfold pos_of, encode in *. rewrite !length_app in Hl. lia. }
  pose proof (run_message E_PARSE_METHOD E_PARSE_URL E_PARSE_VER ltac:(done) ltac:(done) ltac:(done) t [] Ht Hlo Hb) as Hr.
  rewrite app_nil_r, E in Hr. rewrite run_app in Hr by done.
  destruct (svr_run r0 p) as [[n r]|] eqn:Er; [|done]. cbn [mbind option_bind] in Hr.
  destruct (run_ok _ _ _ ltac:(done) ltac:(done) ltac:(done) p r0 n r Hok Er) as (Hokr & _ & Hn & Hover).
  destruct (svr_run r q) as [[k r2]|] eqn:Eq; [|done]. cbn in Hr. injection Hr as Hnk _.
  rewrite length_app in Hnk.
  assert (0 < length q)%nat by (destruct q; [done|simpl; lia]).
  assert (r_flag r ≠ E_PARSE_OVER) as Hno.
  { intros Ho. rewrite run_over in Eq by done. injection Eq as <- _. lia. }
  assert (n = length p) as -> by (destruct (decide (n < length p)%nat) as [Hlt|]; [by destruct (Hno (Hover Hlt))|lia]).
  rewrite E in Hl. assert (pos_of p < 2 ^ 31 - 1024) as Hlp by (unfold pos_of in *; rewrite length_app in Hl; lia).
  pose proof (Http_CutMsgPack_split (S (length p)) st m p Hm Hp ltac:(lia) Hlp) as Hc.
  assert (http_split (length p) p = Some [r]) as Es.
  { destruct p as [|b p]; [done|]. cbn [length http_split]. rewrite Er. cbn [mbind option_bind].
    rewrite drop_ge by (simpl; lia). by destruct (length p). }
  rewrite Es in Hc. destruct Hc as (m' & Ec & Hm'). by exists r, m'.
Qed.

(** [HttpConnector::Connect] leaves the connector stopped although the socket is
    connected: everything sent on it is refused and no read is posted;
    [TcpConnector::Connect] starts it and posts one. *)
Theorem HttpConnector_Connect_is_inert :
  HttpConnector_Connect false TcpBaseSocket_new = (true, TcpBaseSocket_new, []) ∧
  (∀ err now data len, 0 < len <= M_SOCKET_PACK_SIZE →
     TcpBaseSocket_Send err now TcpBaseSocket_new data len = Some (false, TcpBaseSocket_new, [])) ∧
  TcpConnector_Connect false false false TcpBaseSocket_new =
    (true, set_start TcpBaseSocket_new, [CallSock ActRecvSome]).
Proof.
  split_and!; [done| |done]. intros err now data len Hl. unfold TcpBaseSocket_Send.
  rewrite (proj2 (Z.leb_gt _ _)) by lia. rewrite Z.gtb_ltb, (proj2 (Z.ltb_ge _ _)) by lia. done.
Qed.
End properties.

(** The handler that records what it is shown. *)
#[export] Program Instance http_recorder `{Malloc} :
  HttpHandler (list (list byte * list strpos * parse_flag * bool * nat * Z * list strpos)) := {|
  OnHttpData st m := Some (st ++ [msg_view m], m);
  http_deliver st v := st ++ [v]
|}.
Next Obligation. simpl. eauto. Qed.

Lemma new_clean : msg_clean HttpSvrRecvMsg_new.
Proof. destruct svr_flags as (?&?&?). by destruct (hrel_new E_PARSE_METHOD E_PARSE_URL E_PARSE_VER). Qed.

Lemma HttpSocket_whole_requests_witness :
  ∃ m', Http_CutMsgPack E_PARSE_METHOD E_PARSE_URL E_PARSE_VER
      (S (length (concat (map encode [demo_request; demo_request])))) [] HttpSvrRecvMsg_new
      (concat (map encode [demo_request; demo_request])) (pos_of (concat (map encode [demo_request; demo_request]))) =
      Some (true, fold_left http_deliver (map (λ t, r_view (r_final t)) [demo_request; demo_request]) [], m') ∧
    msg_clean m' ∧
    Forall (λ t, r_flag (r_final t) = E_PARSE_OVER ∧ ∀ m1, hrel m1 (r_final t) → carries m1 t) [demo_request; demo_request].
Proof.
  apply (HttpSocket_whole_requests [] HttpSvrRecvMsg_new [demo_request; demo_request]);
    [apply new_clean|done| |vm_compute; reflexivity].
  constructor; [apply demo_request_ok|]. constructor; [apply demo_request_ok|constructor].
Defined.

Lemma HttpSocket_splits_requests_witness :
  ∃ r m', Http_CutMsgPack E_PARSE_METHOD E_PARSE_URL E_PARSE_VER (S (length (take 9 (encode demo_request)))) []
      HttpSvrRecvMsg_new (take 9 (encode demo_request)) (pos_of (take 9 (encode demo_request))) =
      Some (true, http_deliver [] (r_view r), m') ∧ r_flag r ≠ E_PARSE_OVER ∧ msg_clean m'.
Proof.
  apply (HttpSocket_splits_requests [] HttpSvrRecvMsg_new demo_request (take 9 (encode demo_request)) (drop 9 (encode demo_request)));
    [apply new_clean|apply demo_request_ok|apply demo_request_ok|symmetry; apply take_drop
    |by vm_compute|by vm_compute|vm_compute; reflexivity].
Defined.
