(* ===== verification/SyncCall.v ===== *)
(** * synccall: remote calls over the framed sockets

    [src/slience/synccall]: the blocking client [ScClient], the coroutine client
    [CoScClient] and the dispatch of [ScServer].  A request is the packet
    [way, msg_type, pack_idx, payload] (three words in host order), its reply the
    same three words and what the handler appended.

    What the network does is an argument: an [attempt] holds, for one round of
    [_Sync], whether the connection can be made, what the socket's calls return, and
    the clock.  The application's handlers are the interface [ServerHandler].  A pointer to the
    read buffer of a connector is the number of that connector, so that one kept after
    the connector was deleted can be told.

    [sync_call_roundtrip] is the composition of client, framing, server and writer:
    a call returns 0 and the handler's answer.  [sync_call_codes] is the contract of the
    result on every execution, and [ScServer_answers] that of the server. *)

From Stdlib Require Import ZArith Lia List Strings.Byte Init.Byte.
From stdpp Require Import base numbers list option.
From S2P Require Import Prelude Buffer Frame TcpSocket SyncConnector HttpSocket.

#[local] Set Warnings "-clear-no-such-hyp".

Definition M_ONEWAY_TYPE : Z := 666.
Definition M_TWOWAY_TYPE : Z := 999.
Definition M_KEEPALIVE_ID : Z := 1.
Definition M_KEEPALIVE_ACK_ID : Z := 2.

Section keepalive.
Context `{Malloc}.
(** [ScKeepAlive] and [ScKeepAliveAck]: one word. *)
Definition ScKeepAlive_Write (buffer : Buffer) : option Buffer := Buffer_Write_u32 buffer M_KEEPALIVE_ID.
Definition ScKeepAliveAck_Write (buffer : Buffer) : option Buffer := Buffer_Write_u32 buffer M_KEEPALIVE_ACK_ID.
Definition ScKeepAlive_Read (buffer : Buffer) : option (Z * Buffer) := Buffer_Read_u32 buffer M_KEEPALIVE_ID.
Definition ScKeepAliveAck_Read (buffer : Buffer) : option (Z * Buffer) := Buffer_Read_u32 buffer M_KEEPALIVE_ACK_ID.
End keepalive.

(** ** Requests and replies, common to both clients *)

(** [BaseScClient]. *)
Record BaseScClient := mkBase {
  _ip : list byte;
  _port : Z;
  _timeo_c : Z;
  _timeo_rw : Z;
  _packidx : Z;
  _request : Buffer
}.

Section base.
Context `{Malloc}.

Definition BaseScClient_new : BaseScClient := mkBase [] 0 (u32 (-1)) 3 0 Buffer_new.

Definition FillRequest (c : BaseScClient) (way msg_type : Z) (msg : list byte) (len : Z)
  : option BaseScClient :=
  let b := Buffer_Clear (_request c) in
  b ← Buffer_Write_u32 b (u32 way);
  b ← Buffer_Write_u32 b (u32 msg_type);
  let idx := u32 (_packidx c + 1) in
  b ← Buffer_Write_u32 b idx;
  b ← Buffer_Write b msg len;
  Some (mkBase (_ip c) (_port c) (_timeo_c c) (_timeo_rw c) idx b).

(** The reply is read in place. *)
Definition CheckReply (c : BaseScClient) (reply : option Buffer) : option (bool * option Buffer) :=
  match reply with
  | Some b =>
      '(way_type, b) ← Buffer_Read_u32 b 0;
      '(msg_type, b) ← Buffer_Read_u32 b 0;
      '(pack_idx, b) ← Buffer_Read_u32 b 0;
      if negb (pack_idx =? _packidx c) then Some (false, Some b) else Some (true, Some b)
  | None => Some (false, None)
  end.
End base.

(** ** [ScClient] *)

(** [sc_made] counts the connectors made: the current one, if any, is the last. *)
Record ScClient := mkSc { sc_base : BaseScClient; sc_socket : option SyncConnector; sc_made : nat }.

(** What the outside does in one round of [_Sync]. *)
Record attempt := mkAttempt {
  at_connect : bool;
  at_now : Z;
  at_send : list send_res;
  at_recv : list recv_res
}.

Section client.
Context `{Malloc}.

Definition ScClient_new : ScClient := mkSc BaseScClient_new None 0.

Definition sc_set (c : ScClient) (s : option SyncConnector) : ScClient := mkSc (sc_base c) s (sc_made c).

Definition ScClient_IsConnected (c : ScClient) : bool :=
  match sc_socket c with Some s => SyncConnector_IsConnected s | None => false end.

(** [Close]: the connector is closed and deleted. *)
Definition ScClient_Close (c : ScClient) : ScClient :=
  match sc_socket c with Some _ => sc_set c None | None => c end.

Definition ScClient_SetTimeOut (c : ScClient) (timeout : Z) : ScClient :=
  match sc_socket c with
  | Some s => mkSc (mkBase (_ip (sc_base c)) (_port (sc_base c)) (_timeo_c (sc_base c)) timeout
                      (_packidx (sc_base c)) (_request (sc_base c))) (Some s) (sc_made c)
  | None => c
  end.

Definition ScClient_Reconnect (ok : bool) (c : ScClient) : bool * ScClient :=
  let '(r, s) := SyncConnector_Connect SyncConnector_new ok in
  let c := mkSc (sc_base c) (Some s) (S (sc_made c)) in
  if r : bool then (true, ScClient_SetTimeOut c (_timeo_rw (sc_base c)))
  else (false, ScClient_Close c).

Definition ScClient_Connect (ok : bool) (c : ScClient) (ip : list byte) (port timeout : Z) : bool * ScClient :=
  match sc_socket c with
  | Some _ => (false, c)
  | None =>
      ScClient_Reconnect ok
        (mkSc (mkBase ip port timeout (_timeo_rw (sc_base c)) (_packidx (sc_base c)) (_request (sc_base c)))
           None (sc_made c))
  end.

(** The loop of [_Sync], [n] rounds left of which the next is [cnt]: the code, the
    client, [preply], and the bytes each round put on its connection. *)
Fixpoint Sync_loop (env : nat → attempt) (n cnt : nat) (code way msg_type : Z) (msg : list byte) (len : Z)
    (c : ScClient) (preply : option nat) (wires : list (list byte))
  : option (outcome (Z * ScClient * option nat * list (list byte))) :=
  match n with
  | O => Some (Returns (code, c, preply, wires))
  | S n =>
      let '(ready, c) := if ScClient_IsConnected c then (true, c)
                         else ScClient_Reconnect (at_connect (env cnt)) c in
      if negb ready then Sync_loop env n (S cnt) (-2) way msg_type msg len c preply wires
      else
        base ← FillRequest (sc_base c) way msg_type msg len;
        s ← sc_socket c;
        o ← SyncConnector_Send (at_now (env cnt)) (at_send (env cnt)) s
              (Buffer_Data (_request base)) (Buffer_Length (_request base));
        match o with
        | Blocks => Some Blocks
        | Returns (sent, s, w, _) =>
            let wires := wires ++ [w] in
            if negb sent then
              Sync_loop env n (S cnt) (-3) way msg_type msg len
                (ScClient_Close (mkSc base (Some s) (sc_made c))) preply wires
            else
              r ← SyncConnector_Recv (at_recv (env cnt)) s;
              match r with
              | Blocks => Some Blocks
              | Returns (got, s, _) =>
                  let preply := if got : bool then Some (sc_made c) else None in
                  '(ok, b) ← CheckReply base (if got : bool then Some (msgbuffer (sc_reader s)) else None);
                  let s := match b with
                           | Some b => mkSync (sc_flag s) (mkReader b (curheader (sc_reader s)))
                                         (sc_readbuf s) (sc_readsize s) (sc_sndbuffer s)
                           | None => s
                           end in
                  if ok : bool then Some (Returns (0, mkSc base (Some s) (sc_made c), preply, wires))
                  else Sync_loop env n (S cnt) (-3) way msg_type msg len
                         (ScClient_Close (mkSc base (Some s) (sc_made c))) preply wires
              end
        end
  end.

Definition ScClient_Sync (env : nat → attempt) (way msg_type : Z) (msg : list byte) (len : Z) (c : ScClient)
    (preply : option nat) : option (outcome (Z * ScClient * option nat * list (list byte))) :=
  Sync_loop env 2 0 0 way msg_type msg len c preply [].

(** [SyncCall] with and without a reply. *)
Definition ScClient_SyncCall (env : nat → attempt) (msg_type : Z) (msg : list byte) (len : Z) (c : ScClient) :=
  ScClient_Sync env M_TWOWAY_TYPE msg_type msg len c None.
Definition ScClient_SyncCall_oneway (env : nat → attempt) (msg_type : Z) (msg : list byte) (len : Z) (c : ScClient) :=
  ScClient_Sync env M_ONEWAY_TYPE msg_type msg len c None.
End client.

(** ** [ScServer] *)

(** The application's [IServerHandler]s: [Hd] tells them apart, [St] is what they share.
    A handler may do anything with the request it is lent, and appends to the reply.  That it
    appends only, and does not fault, is an assumption about the application: the header hands it
    both buffers and says no more (the buffer of the reply could be cleared). *)
Class ServerHandler `{Malloc} (Hd St : Type) := {
  OnOneWayDealer : Hd → St → Z → Buffer → option (St * Buffer);
  OnTwoWayDealer : Hd → St → Z → Buffer → Buffer → option (St * Buffer * Buffer);
  serve_oneway : Hd → St → Z → list byte → St;
  serve : Hd → St → Z → list byte → St * list byte;
  OnOneWayDealer_ok h st t req : buf_wf req →
    ∃ req', OnOneWayDealer h st t req = Some (serve_oneway h st t (buf_view req), req') ∧ buf_wf req';
  OnTwoWayDealer_ok h st t req rep xs : buf_wf req → buf_at rep xs 0 →
    buf_room xs (length (serve h st t (buf_view req)).2) →
    ∃ req' rep', OnTwoWayDealer h st t req rep = Some ((serve h st t (buf_view req)).1, req', rep') ∧
      buf_wf req' ∧ buf_at rep' (xs ++ (serve h st t (buf_view req)).2) 0
}.

(** [_ScInfo_] and [_CoScInfo_] (its mutex is held around each access). *)
Record ScInfo := mkScInfo { si_id : Z; si_buffer : Buffer }.
Record CoScInfo := mkCoInfo { co_valid : bool; co_thr_id : Z; co_co_id : Z; co_buffer : Buffer }.

(** The calls a connector's callback makes. *)
Inductive co_act := HeartData | AddResume (thr_id co_id : Z).

Section server.
Context `{Malloc} {Hd St : Type} `{!ServerHandler Hd St}.

(** [_handlers[0xFFFF]]: an index out of the array is a fault. *)
Definition handlers_new : list (option Hd) := replicate (Z.to_nat 0xFFFF) None.

Definition UniqueId (port : Z) : Z := port.

(** [Register]: whether [ListenOne] succeeds is given. *)
Definition ScServer_Register (hs : list (option Hd)) (listened : bool) (port : Z) (h : Hd)
  : option (bool * list (option Hd)) :=
  if listened then
    let id := UniqueId port in
    _ ← hs !! Z.to_nat id;
    Some (true, <[Z.to_nat id := Some h]> hs)
  else Some (false, hs).

(** The callbacks for accepted sockets.  The data of the socket is the [ScInfo]. *)
Definition ScServer_OnConnected (port : Z) : ScInfo := mkScInfo (UniqueId port) Buffer_new.
Definition ScServer_OnDisconnected (info : option ScInfo) : option ScInfo := None.

Definition sock_send (send_err : bool) (now : Z) (sock : BaseSocket) (b : Buffer)
  : option (BaseSocket * list sock_act) :=
  '(_, s, acts) ← TcpBaseSocket_Send send_err now sock (Buffer_Data b) (Buffer_Length b);
  Some (s, acts).

Definition ScServer_OnReceiveData (hs : list (option Hd)) (send_err : bool) (now : Z) (st : St)
    (pscinfo : option ScInfo) (sock : BaseSocket) (buffer : Buffer)
  : option (St * option ScInfo * BaseSocket * Buffer * list sock_act) :=
  match pscinfo with
  | None => Some (st, None, sock, buffer, [])
  | Some info =>
      '(msgid, buffer) ← Buffer_Read_u32 buffer 0;
      if msgid =? M_KEEPALIVE_ID then
        buffer ← ScKeepAliveAck_Write (Buffer_Clear buffer);
        '(sock, acts) ← sock_send send_err now sock buffer;
        Some (st, Some info, sock, buffer, acts)
      else
        slot ← hs !! Z.to_nat (si_id info);
        match slot with
        | None => Some (st, Some info, sock, buffer, [])
        | Some h =>
            let buffer := Buffer_CutData buffer (4 * -1) in
            '(way_type, buffer) ← Buffer_Read_u32 buffer 0;
            '(msg_type, buffer) ← Buffer_Read_u32 buffer 0;
            '(pack_idx, buffer) ← Buffer_Read_u32 buffer 0;
            let rep := Buffer_Clear (si_buffer info) in
            rep ← Buffer_Write_u32 rep way_type;
            rep ← Buffer_Write_u32 rep msg_type;
            rep ← Buffer_Write_u32 rep pack_idx;
            if way_type =? M_ONEWAY_TYPE then
              '(st, buffer) ← OnOneWayDealer h st (s32 msg_type) buffer;
              '(sock, acts) ← sock_send send_err now sock rep;
              Some (st, Some (mkScInfo (si_id info) rep), sock, buffer, acts)
            else if way_type =? M_TWOWAY_TYPE then
              '(st, buffer, rep) ← OnTwoWayDealer h st (s32 msg_type) buffer rep;
              '(sock, acts) ← sock_send send_err now sock rep;
              Some (st, Some (mkScInfo (si_id info) rep), sock, buffer, acts)
            else Some (st, Some (mkScInfo (si_id info) rep), sock, buffer, [])
        end
  end.

(** The callbacks for connectors: [co_id] is kept as the unsigned word of the struct
    and read into an [int]. *)
Definition ScServer_OnDisconnected_conn (info : CoScInfo) : CoScInfo * list co_act :=
  let co_id := s32 (co_co_id info) in
  let thr_id := s32 (co_thr_id info) in
  (mkCoInfo false 0 (u32 (-1)) (Buffer_Clear (co_buffer info)),
   if co_id =? -1 then [] else [AddResume thr_id co_id]).

Definition ScServer_OnReceiveData_conn (info : CoScInfo) (buffer : Buffer)
  : option (CoScInfo * Buffer * list co_act) :=
  '(msgid, buffer) ← Buffer_Read_u32 buffer 0;
  if negb (msgid =? M_KEEPALIVE_ACK_ID) then
    let buffer := Buffer_CutData buffer (4 * -1) in
    let co_id := s32 (co_co_id info) in
    let thr_id := s32 (co_thr_id info) in
    let '(mine, buffer) := Buffer_Swap (Buffer_Clear (co_buffer info)) buffer in
    Some (mkCoInfo (co_valid info) 0 (u32 (-1)) mine, buffer, [HeartData; AddResume thr_id co_id])
  else Some (info, buffer, [HeartData]).
End server.

(** ** [CoScClient] *)

(** What happens to the connector between the coroutine's [yield] and its resumption. *)
Inductive conn_ev := EvPacket (b : Buffer) | EvDisconnected.

Record co_attempt := mkCoAttempt {
  ca_connect : bool * bool * bool;
  ca_send_err : bool;
  ca_now : Z;
  ca_thr : Z;
  ca_co : Z;
  ca_events : list conn_ev;
  ca_sock : BaseSocket → BaseSocket
}.

(** [cc_io]: whether [ScServer::CreateCoScClient] made this client. *)
Record CoScClient := mkCo {
  cc_base : BaseScClient;
  cc_io : bool;
  cc_socket : option (BaseSocket * CoScInfo);
  cc_made : nat
}.

Section coclient.
Context `{Malloc}.

Definition CreateCoScClient : CoScClient :=
  mkCo (mkBase [] 0 (u32 (-1)) 10 0 Buffer_new) true None 0.

Definition CoScClient_IsConnected (c : CoScClient) : bool :=
  match cc_socket c with Some (s, _) => TcpBaseSocket_IsConnected s | None => false end.

Definition CoScClient_Close (c : CoScClient) : CoScClient :=
  match cc_socket c with
  | Some _ => mkCo (cc_base c) (cc_io c) None (cc_made c)
  | None => c
  end.

Definition CoScClient_Reconnect (conn : bool * bool * bool) (c : CoScClient) : bool * CoScClient :=
  if negb (cc_io c) then (false, c)
  else
    let info := mkCoInfo false 0 (u32 (-1)) Buffer_new in
    let '(conn_err, ep_err, recv_err) := conn in
    let '(ok, s, _) := TcpConnector_Connect conn_err ep_err recv_err TcpBaseSocket_new in
    let c := mkCo (cc_base c) (cc_io c) (Some (s, info)) (S (cc_made c)) in
    if ok : bool then
      (true, mkCo (cc_base c) (cc_io c)
               (Some (s, mkCoInfo true (co_thr_id info) (co_co_id info) (co_buffer info))) (cc_made c))
    else (false, CoScClient_Close c).

Definition CoScClient_Connect (conn : bool * bool * bool) (c : CoScClient) (ip : list byte)
    (port timeout : Z) : bool * CoScClient :=
  match cc_socket c with
  | Some _ => (false, c)
  | None =>
      CoScClient_Reconnect conn
        (mkCo (mkBase ip port timeout (_timeo_rw (cc_base c)) (_packidx (cc_base c)) (_request (cc_base c)))
           (cc_io c) None (cc_made c))
  end.

(** From [yield] to the resumption of coroutine [co] of thread [thr]: the callbacks run
    until one of them posts it. *)
Fixpoint co_wait (thr co : Z) (evs : list conn_ev) (info : CoScInfo) : option (outcome CoScInfo) :=
  match evs with
  | [] => Some Blocks
  | ev :: evs =>
      '(info, acts) ← (match ev with
                       | EvPacket b =>
                           '(info, _, acts) ← ScServer_OnReceiveData_conn info b; Some (info, acts)
                       | EvDisconnected => Some (ScServer_OnDisconnected_conn info)
                       end);
      if existsb (λ a, match a with
                       | AddResume t i => (t =? thr) && (i =? co)
                       | HeartData => false
                       end) acts
      then Some (Returns info) else co_wait thr co evs info
  end.

(** The loop of [_Sync]; the last component are the calls made on the sockets. *)
Fixpoint CoSync_loop (env : nat → co_attempt) (n cnt : nat) (code way msg_type : Z) (msg : list byte)
    (len : Z) (c : CoScClient) (preply : option nat) (calls : list sock_act)
  : option (outcome (Z * CoScClient * option nat * list sock_act)) :=
  match n with
  | O => Some (Returns (code, c, preply, calls))
  | S n =>
      let a := env cnt in
      let '(ready, c) := if CoScClient_IsConnected c then (true, c)
                         else CoScClient_Reconnect (ca_connect a) c in
      if negb ready then CoSync_loop env n (S cnt) (-2) way msg_type msg len c preply calls
      else
        '(sock, info) ← cc_socket c;
        if negb (co_valid info) then
          CoSync_loop env n (S cnt) (-3) way msg_type msg len (CoScClient_Close c) preply calls
        else
          let info := mkCoInfo (co_valid info) (u32 (ca_thr a)) (u32 (ca_co a)) (co_buffer info) in
          base ← FillRequest (cc_base c) M_TWOWAY_TYPE msg_type msg len;
          '(_, sock, acts) ← TcpBaseSocket_Send (ca_send_err a) (ca_now a) sock
             (Buffer_Data (_request base)) (Buffer_Length (_request base));
          let calls := calls ++ acts in
          w ← co_wait (ca_thr a) (ca_co a) (ca_events a) info;
          match w with
          | Blocks => Some Blocks
          | Returns info =>
              let sock := ca_sock a sock in
              '(ok, b) ← CheckReply base (Some (co_buffer info));
              let info := match b with
                          | Some b => mkCoInfo (co_valid info) (co_thr_id info) (co_co_id info) b
                          | None => info
                          end in
              let c := mkCo base (cc_io c) (Some (sock, info)) (cc_made c) in
              if ok : bool then Some (Returns (0, c, Some (cc_made c), calls))
              else CoSync_loop env n (S cnt) (-3) way msg_type msg len (CoScClient_Close c) preply calls
          end
  end.

Definition CoScClient_Sync (env : nat → co_attempt) (way msg_type : Z) (msg : list byte) (len : Z)
    (c : CoScClient) (preply : option nat) :=
  CoSync_loop env 2 0 0 way msg_type msg len c preply [].

Definition CoScClient_SyncCall (env : nat → co_attempt) (msg_type : Z) (msg : list byte) (len : Z)
    (c : CoScClient) := CoScClient_Sync env M_TWOWAY_TYPE msg_type msg len c None.
Definition CoScClient_SyncCall_oneway (env : nat → co_attempt) (msg_type : Z) (msg : list byte) (len : Z)
    (c : CoScClient) := CoScClient_Sync env M_ONEWAY_TYPE msg_type msg len c None.
End coclient.

(** ** Words and packets *)

(** A request or a reply on the wire. *)
Definition call_bytes (way msg_type pack_idx : Z) (d : list byte) : list byte :=
  le_bytes 4 way ++ le_bytes 4 msg_type ++ le_bytes 4 pack_idx ++ d.

Lemma length_call w t i d : length (call_bytes w t i d) = (12 + length d)%nat.
Proof. unfold call_bytes. len. lia. Qed.

Lemma s32_u32 z : - 2 ^ 31 <= z < 2 ^ 31 → s32 (u32 z) = z.
Proof. intros Hz. unfold s32, u32. rewrite Zplus_mod_idemp_l, Z.mod_small by lia. lia. Qed.

Section words.
Context `{Malloc}.

Lemma le4_val z : 0 <= z < 2 ^ 32 → le_val (le_bytes 4 z) = z.
Proof. intros. rewrite le_val_bytes. by apply Z.mod_small. Qed.

(** The next word of a buffer. *)
Lemma read_word b z d old :
  buf_wf b → buf_view b = le_bytes 4 z ++ d → 0 <= z < 2 ^ 32 →
  ∃ b', Buffer_Read_u32 b old = Some (z, b') ∧ buf_wf b' ∧ buf_view b' = d ∧
    Buffer_CutData b' (4 * -1) = b.
Proof.
  intros Hw Hv Hz. pose proof (buf_wf_at _ Hw) as Hb. rewrite (buf_at_view _ _ _ Hb) in Hv.
  set (xs := buf_raw b) in *. set (o := Z.to_nat (_offset b)) in *.
  destruct (buf_at_pos _ _ _ Hb) as (_ & Ho & Hle). pose proof (buf_at_bound _ _ _ Hb) as Hbd.
  assert (length (drop o xs) = 4 + length d)%nat as Hl by (rewrite Hv; len; done).
  rewrite length_drop in Hl.
  destruct (buf_at_read_u32 b xs o old Hb) as (b' & E & Hb'); [lia|].
  assert (le_val (take 4 (drop o xs)) = z) as Ez.
  { rewrite Hv, take_app_length' by (len; done). by apply le4_val. }
  rewrite Ez in E. exists b'. split; [done|]. split; [by eapply buf_at_wf|].
  rewrite (buf_at_view _ _ _ Hb'). split.
  { rewrite <- drop_drop, Hv. apply drop_app_length'. by len. }
  unfold Buffer_Read_u32, Buffer_Read in E. destruct (_ >? _).
  { cbn [mbind option_bind] in E. injection E as _ <-. destruct (buf_at_pos _ _ _ Hb') as (_ & Ho' & _). lia. }
  destruct (load _ _ _) as [x|]; [|done]. cbn [mbind option_bind] in E. injection E as _ <-.
  destruct (buf_at_pos _ _ _ Hb') as (Hp' & Ho' & _). cbn [_pos _offset] in *.
  unfold Buffer_CutData. cbn [_pos _offset _size _data]. rewrite Ho'.
  rewrite u32_small by lia. rewrite Z.gtb_ltb, (proj2 (Z.ltb_ge _ _)) by lia.
  destruct b as [sz ps ofs dt]. cbn [_size _pos _offset _data] in *. f_equal. lia.
Qed.

Lemma Send_view now script s b :
  buf_wf b → SyncConnector_Send now script s (Buffer_Data b) (Buffer_Length b) =
    SyncConnector_Send now script s (buf_view b) (Z.of_nat (length (buf_view b))).
Proof.
  intros Hw. unfold SyncConnector_Send. rewrite (view_length b Hw).
  destruct (sc_flag s); [done|]. destruct (_ && _); [|done].
  destruct (Buffer_Write _ _ _); [|done]. cbn [mbind option_bind].
  rewrite <- (view_length b Hw), Buffer_Write_view by done. by rewrite <- (view_length b Hw).
Qed.

Lemma sock_send_view err now s b :
  buf_wf b → TcpBaseSocket_Send err now s (Buffer_Data b) (Buffer_Length b) =
    TcpBaseSocket_Send err now s (buf_view b) (Z.of_nat (length (buf_view b))).
Proof.
  intros Hw. unfold TcpBaseSocket_Send. rewrite (view_length b Hw).
  destruct (_ <=? _); [done|]. destruct (_ >? _); [done|]. destruct (decide _); [done|].
  destruct (_ >? _); [done|]. destruct (Buffer_Write _ _ _); [|done]. cbn [mbind option_bind].
  by rewrite <- (view_length b Hw), Buffer_Write_view, <- (view_length b Hw) by done.
Qed.

(** What a client writes. *)
Lemma FillRequest_ok c way t msg :
  buf_wf (_request c) → Z.of_nat (length msg) + 12 < 2 ^ 32 - 1024 →
  ∃ b, FillRequest c way t msg (Z.of_nat (length msg)) =
      Some (mkBase (_ip c) (_port c) (_timeo_c c) (_timeo_rw c) (u32 (_packidx c + 1)) b) ∧
    buf_wf b ∧ buf_view b = call_bytes (u32 way) (u32 t) (u32 (_packidx c + 1)) msg.
Proof.
  intros Hw Hl. unfold FillRequest. pose proof (buf_at_clear _ _ _ (buf_wf_at _ Hw)) as Hb0.
  destruct (buf_at_write_u32 _ _ _ (u32 way) Hb0) as (b1 & -> & Hb1); [unfold buf_room; len; lia|]. cbn [mbind option_bind].
  destruct (buf_at_write_u32 _ _ _ (u32 t) Hb1) as (b2 & -> & Hb2); [unfold buf_room; len; lia|]. cbn [mbind option_bind].
  destruct (buf_at_write_u32 _ _ _ (u32 (_packidx c + 1)) Hb2) as (b3 & -> & Hb3); [unfold buf_room; len; lia|]. cbn [mbind option_bind].
  destruct (buf_at_append _ _ _ msg Hb3) as (b4 & -> & Hb4); [unfold buf_room; len; lia|]. cbn [mbind option_bind].
  exists b4. split; [done|]. split; [by eapply buf_at_wf|]. rewrite (buf_at_view _ _ _ Hb4), drop_0.
  unfold call_bytes. by rewrite <- !app_assoc.
Qed.

(** What a client makes of a reply. *)
Lemma CheckReply_ok c b w t i d :
  buf_wf b → buf_view b = call_bytes w t i d → 0 <= w < 2 ^ 32 → 0 <= t < 2 ^ 32 → 0 <= i < 2 ^ 32 →
  ∃ b', CheckReply c (Some b) = Some (i =? _packidx c, Some b') ∧ buf_wf b' ∧ buf_view b' = d.
Proof.
  intros Hw Hv Hw1 Ht Hi. unfold CheckReply.
  destruct (read_word b w _ 0 Hw Hv Hw1) as (b1 & -> & Hb1 & Hv1 & _). cbn [mbind option_bind].
  destruct (read_word b1 t _ 0 Hb1 Hv1 Ht) as (b2 & -> & Hb2 & Hv2 & _). cbn [mbind option_bind].
  destruct (read_word b2 i _ 0 Hb2 Hv2 Hi) as (b3 & -> & Hb3 & Hv3 & _). cbn [mbind option_bind].
  exists b3. destruct (i =? _packidx c); by split_and!.
Qed.

(** A connection whose writer is idle sends a packet at once. *)
Definition sock_idle (s : BaseSocket) : Prop :=
  _flag s = TcpSocket.E_STATE_START ∧ writing s = false ∧
  buf_wf (msgbuffer1 s) ∧ buf_view (msgbuffer1 s) = [] ∧ buf_at (msgbuffer2 s) [] 0.

Lemma Send_idle now s data :
  sock_idle s → 0 < Z.of_nat (length data) <= M_SOCKET_PACK_SIZE →
  ∃ s', TcpBaseSocket_Send false now s data (Z.of_nat (length data)) =
    Some (true, s', [ActSendSome (frame_bytes (u32 now) data)]).
Proof.
  intros (Hf & Hwr & Hw1 & Hv1 & Hb2) Hd. unfold M_SOCKET_PACK_SIZE in Hd.
  destruct (Send_spec false now s [] data Hb2) as [E|(mb2 & ok & s' & acts & _ & Hb & _ & E & ->)];
    [done|lia| |].
  - exfalso. unfold TcpBaseSocket_Send in E.
    rewrite (proj2 (Z.leb_gt _ _)) in E by lia. unfold M_SOCKET_PACK_SIZE in E.
    rewrite Z.gtb_ltb, (proj2 (Z.ltb_ge _ _)) in E by lia.
    rewrite decide_False in E by (by intros []). change hdrlen with 8 in E.
    rewrite (buf_at_size _ _ _ Hb2), s32_small, u32_add_r in E by lia. cbn [length Z.of_nat] in E.
    rewrite u32_small in E by lia. unfold E_MAX_BUFFER_SIZE in E. rewrite Z.gtb_ltb, (proj2 (Z.ltb_ge _ _)) in E by lia.
    destruct (Buffer_Write _ _ _) as [b1|]; [|done]. cbn [mbind option_bind] in E.
    destruct (Buffer_Write _ _ _) as [b2|]; [|done]. cbn [mbind option_bind] in E.
    by destruct (TrySendData _ _) as [[? ?] ?].
  - exists s'. do 2 f_equal. unfold TrySendData in E. cbn [writing msgbuffer1 msgbuffer2 _flag] in E. rewrite Hwr in E.
    rewrite (view_length _ Hw1), Hv1 in E. cbn [length Buffer_Swap] in E. change (Z.of_nat 0 =? 0) with true in E. cbv iota beta in E.
    assert (Buffer_Length mb2 = Z.of_nat (8 + length data)) as Hlen.
    { rewrite (buf_at_length _ _ _ Hb). len. unfold frame_bytes. len. rewrite hdr_bytes_length. lia. }
    destruct (Z.gtb_spec (Buffer_Length mb2) 0); [|lia]. injection E as _ _ <-. do 2 f_equal.
    fold (buf_view mb2). by rewrite (buf_at_view _ _ _ Hb).
Qed.
End words.

(** ** The server's contract *)

(** Word [k] of a packet, zero when it is not there: the variables start at zero. *)
Definition word (k : nat) (p : list byte) : Z :=
  if (4 * k + 4 <=? length p)%nat then le_val (take 4 (drop (4 * k) p)) else 0.

(** What a handler is shown: what is left after the words that are there. *)
Definition payload (p : list byte) : list byte := drop (4 * ((length p / 4) `min` 3)) p.

(** The packet's effect on the application, and the packet sent back. *)
Definition sc_answer `{ServerHandler Hd St} (slot : option Hd) (st : St) (p : list byte)
  : St * option (list byte) :=
  if (length p <? 4)%nat then (st, None)
  else if word 0 p =? M_KEEPALIVE_ID then (st, Some (le_bytes 4 M_KEEPALIVE_ACK_ID))
  else
    match slot with
    | None => (st, None)
    | Some h =>
        if word 0 p =? M_ONEWAY_TYPE then
          (serve_oneway h st (s32 (word 1 p)) (payload p),
           Some (call_bytes (word 0 p) (word 1 p) (word 2 p) []))
        else if word 0 p =? M_TWOWAY_TYPE then
          let (st', d) := serve h st (s32 (word 1 p)) (payload p) in
          (st', Some (call_bytes (word 0 p) (word 1 p) (word 2 p) d))
        else (st, None)
    end.

Section server_spec.
Context `{Malloc} {Hd St : Type} `{!ServerHandler Hd St}.

(** Reading a word at cursor [o], or leaving the variable alone. *)
Lemma read_at b xs o :
  buf_at b xs o → Z.of_nat (length xs) < 2 ^ 31 →
  ∃ b', Buffer_Read_u32 b 0 = Some (if (o + 4 <=? length xs)%nat then le_val (take 4 (drop o xs)) else 0, b') ∧
    buf_at b' xs (if (o + 4 <=? length xs)%nat then o + 4 else o).
Proof.
  intros Hb Hl. destruct (Nat.leb_spec (o + 4) (length xs)).
  - by apply buf_at_read_u32.
  - exists b. split; [|done]. apply (buf_at_read_u32_short b xs o 0 Hb); lia.
Qed.

Lemma write_words b xs o w t i :
  buf_at b xs o → Z.of_nat (length xs) < 2 ^ 31 →
  ∃ b', (b1 ← Buffer_Write_u32 b w; b2 ← Buffer_Write_u32 b1 t; Buffer_Write_u32 b2 i) = Some b' ∧
    buf_at b' (xs ++ call_bytes w t i []) o.
Proof.
  intros Hb Hl.
  destruct (buf_at_write_u32 _ _ _ w Hb) as (b1 & -> & Hb1); [unfold buf_room; lia|]. cbn [mbind option_bind].
  destruct (buf_at_write_u32 _ _ _ t Hb1) as (b2 & -> & Hb2); [unfold buf_room; len; lia|]. cbn [mbind option_bind].
  destruct (buf_at_write_u32 _ _ _ i Hb2) as (b3 & -> & Hb3); [unfold buf_room; len; lia|].
  exists b3. split; [done|]. unfold call_bytes. by rewrite app_nil_r, !app_assoc.
Qed.

Lemma sock_send_ok err now sock b ok sock' acts :
  buf_wf b →
  TcpBaseSocket_Send err now sock (buf_view b) (Z.of_nat (length (buf_view b))) = Some (ok, sock', acts) →
  sock_send err now sock b = Some (sock', acts).
Proof. intros Hw E. unfold sock_send. by rewrite sock_send_view, E by done. Qed.

(** The packet [p] of a frame, seen through the buffer that holds the frame. *)
Lemma frame_word now p o :
  drop (8 + o) (frame_bytes now p) = drop o p.
Proof. by rewrite <- drop_drop, frame_data. Qed.

(** The message dispatched once its first word is known and the cursor is back. *)
Lemma dispatch_words b now p :
  buf_at b (frame_bytes now p) 8 → (4 ≤ length p)%nat → Z.of_nat (length p) <= M_SOCKET_PACK_SIZE →
  ∃ b1 b2 b3, Buffer_Read_u32 b 0 = Some (word 0 p, b1) ∧ Buffer_Read_u32 b1 0 = Some (word 1 p, b2) ∧
    Buffer_Read_u32 b2 0 = Some (word 2 p, b3) ∧ buf_wf b3 ∧ buf_view b3 = payload p ∧
    buf_at (Buffer_CutData b1 (4 * -1)) (frame_bytes now p) 8.
Proof.
  intros Hb Hp Hm. unfold M_SOCKET_PACK_SIZE in Hm. pose proof (frame_length now p) as Hl.
  assert (Z.of_nat (length (frame_bytes now p)) < 2 ^ 31) as Hl31 by lia.
  destruct (read_at _ _ _ Hb Hl31) as (b1 & E1 & Hb1).
  rewrite Hl, (proj2 (Nat.leb_le _ _)) in E1, Hb1 by lia. change (8 + 4)%nat with 12%nat in Hb1.
  destruct (read_at _ _ _ Hb1 Hl31) as (b2 & E2 & Hb2). rewrite Hl in E2, Hb2.
  destruct (read_at _ _ _ Hb2 Hl31) as (b3 & E3 & Hb3). rewrite Hl in E3, Hb3.
  exists b1, b2, b3. unfold word, payload. rewrite (proj2 (Nat.leb_le (4 * 0 + 4) _)) by lia.
  rewrite E1, E2, E3. rewrite (frame_word now p 0 : drop 8 _ = _), (frame_word now p 4 : drop 12 _ = _).
  rewrite (buf_at_view _ _ _ Hb3). split; [done|].
  pose proof (buf_at_wf _ _ _ Hb3) as Hw3. 
  assert (buf_at (Buffer_CutData b1 (4 * -1)) (frame_bytes now p) 8) as Hcut.
  { apply (buf_at_cut _ _ _ (4 * -1) Hb1). lia. }
  destruct (Nat.leb_spec (12 + 4) (8 + length p)) as [H8|H8].
  - change (12 + 4)%nat with 16%nat in *.
    rewrite (proj2 (Nat.leb_le (4 * 1 + 4) _)) by lia.
    rewrite (frame_word now p 8 : drop 16 _ = _).
    destruct (Nat.leb_spec (16 + 4) (8 + length p)) as [H12|H12].
    + rewrite (proj2 (Nat.leb_le (4 * 2 + 4) _)) by lia. split_and!; try done.
      change (16 + 4)%nat with 20%nat. rewrite (frame_word now p 12 : drop 20 _ = _). f_equal.
      assert (3 ≤ length p / 4)%nat by (apply Nat.div_le_lower_bound; lia). lia.
    + rewrite (proj2 (Nat.leb_gt (4 * 2 + 4) _)) by lia. split_and!; try done.
      rewrite (frame_word now p 8 : drop 16 _ = _). f_equal.
      assert (length p / 4 = 2)%nat as ->; [|lia]. symmetry. apply (Nat.div_unique _ 4 2 (length p - 8)); lia.
  - rewrite (proj2 (Nat.leb_gt (4 * 1 + 4) _)) by lia.
    rewrite (proj2 (Nat.leb_gt (12 + 4) _)) by lia.
    rewrite (proj2 (Nat.leb_gt (4 * 2 + 4) _)) by lia. split_and!; try done.
    rewrite (frame_word now p 4 : drop 12 _ = _). f_equal.
    assert (length p / 4 = 1)%nat as ->; [|lia]. symmetry. apply (Nat.div_unique _ 4 1 (length p - 4)); lia.
Qed.

(** The server's step does what [sc_answer] says: it sends the answer, if there is one,
    and leaves everything well formed. *)
Definition answered (err : bool) (now : Z) (sock : BaseSocket) (id : Z) (ans : St * option (list byte))
    (res : option (St * option ScInfo * BaseSocket * Buffer * list sock_act)) : Prop :=
  match ans with
  | (st', None) =>
      ∃ info' b', res = Some (st', Some info', sock, b', []) ∧ si_id info' = id ∧
        buf_wf (si_buffer info') ∧ buf_wf b'
  | (st', Some r) =>
      ∀ ok sock' acts, TcpBaseSocket_Send err now sock r (Z.of_nat (length r)) = Some (ok, sock', acts) →
      ∃ info' b', res = Some (st', Some info', sock', b', acts) ∧ si_id info' = id ∧
        buf_wf (si_buffer info') ∧ buf_wf b'
  end.

(** A packet too short for a word makes the server read the frame's own size as the
    kind of call; no size is a kind of call. *)
Lemma answered_short err now now' hs slot st info sock p buffer :
  hs !! Z.to_nat (si_id info) = Some slot → buf_wf (si_buffer info) →
  (0 < length p < 4)%nat → buf_at buffer (frame_bytes now' p) 8 →
  answered err now sock (si_id info) (sc_answer slot st p)
    (ScServer_OnReceiveData hs err now st (Some info) sock buffer).
Proof.
  intros Hslot Hw Hp Hb. pose proof (frame_length now' p) as Hl.
  assert (Z.of_nat (length (frame_bytes now' p)) < 2 ^ 31) as Hl31 by lia.
  unfold sc_answer. rewrite (proj2 (Nat.ltb_lt _ _)) by lia. cbn [answered]. unfold ScServer_OnReceiveData.
  destruct (read_at _ _ _ Hb Hl31) as (b1 & -> & Hb1).
  rewrite Hl, (proj2 (Nat.leb_gt _ _)) in Hb1 |- * by lia. cbn [mbind option_bind].
  change (0 =? M_KEEPALIVE_ID) with false. cbv iota. rewrite Hslot. cbn [mbind option_bind].
  destruct slot as [h|]; [|eexists _, _; split_and!; try done; by eapply buf_at_wf].
  pose proof (buf_at_cut _ _ _ (4 * -1) Hb1 ltac:(lia)) as Hb2.
  change (Z.to_nat (Z.of_nat 8 + 4 * -1)) with 4%nat in Hb2.
  destruct (read_at _ _ _ Hb2 Hl31) as (b3 & -> & Hb3). rewrite Hl, (proj2 (Nat.leb_le _ _)) in Hb3 |- * by lia.
  cbn [mbind option_bind]. change (4 + 4)%nat with 8%nat in Hb3.
  destruct (read_at _ _ _ Hb3 Hl31) as (b4 & -> & Hb4). rewrite Hl, (proj2 (Nat.leb_gt _ _)) in Hb4 |- * by lia.
  cbn [mbind option_bind].
  destruct (read_at _ _ _ Hb4 Hl31) as (b5 & -> & Hb5). rewrite Hl, (proj2 (Nat.leb_gt _ _)) in Hb5 |- * by lia.
  cbn [mbind option_bind].
  set (w := le_val (take 4 (drop 4 (frame_bytes now' p)))).
  destruct (write_words _ _ _ w 0 0 (buf_at_clear _ _ _ (buf_wf_at _ Hw)) ltac:(done)) as (rep & Hrep & Hrw).
  destruct (Buffer_Write_u32 (Buffer_Clear _) w) as [r1|]; [|done]. cbn [mbind option_bind] in Hrep |- *.
  destruct (Buffer_Write_u32 r1 0) as [r2|]; [|done]. cbn [mbind option_bind] in Hrep |- *.
  rewrite Hrep. cbn [mbind option_bind].
  assert (w = htonl (Z.of_nat (length p))) as Hwv.
  { unfold w, frame_bytes, hdr_bytes, MessageHeader_h2n. cbn [timestamp size]. rewrite <- app_assoc.
    rewrite drop_app_length' by (len; done). rewrite take_app_length' by (len; done).
    apply le4_val, htonl_bound. }
  assert ((w =? M_ONEWAY_TYPE) = false ∧ (w =? M_TWOWAY_TYPE) = false) as [-> ->].
  { rewrite Hwv. destruct (length p) as [|[|[|[|?]]]]; [lia|by vm_compute|by vm_compute|by vm_compute|lia]. }
  eexists _, _. cbn [si_id si_buffer]. split_and!; try done; by eapply buf_at_wf.
Qed.

(** A keepalive and any packet of at least one word. *)
Lemma answered_word err now now' hs slot st info sock p buffer :
  hs !! Z.to_nat (si_id info) = Some slot → buf_wf (si_buffer info) →
  (4 ≤ length p)%nat → Z.of_nat (length p) <= M_SOCKET_PACK_SIZE → buf_at buffer (frame_bytes now' p) 8 →
  (∀ r, (sc_answer slot st p).2 = Some r → Z.of_nat (length r) < 2 ^ 31) →
  answered err now sock (si_id info) (sc_answer slot st p)
    (ScServer_OnReceiveData hs err now st (Some info) sock buffer).
Proof.
  intros Hslot Hw Hp Hm Hb Hans. unfold ScServer_OnReceiveData.
  destruct (dispatch_words buffer now' p Hb Hp Hm) as (b1 & b2 & b3 & E1 & _ & _ & _ & _ & Hcut).
  destruct (dispatch_words _ now' p Hcut Hp Hm) as (b4 & b5 & b6 & E4 & E5 & E6 & Hw6 & Hv6 & _).
  rewrite E1. cbn [mbind option_bind]. unfold sc_answer in *. rewrite (proj2 (Nat.ltb_ge _ _)) in Hans |- * by lia.
  assert (buf_wf b1) as Hw1.
  { destruct (read_at _ _ _ Hb ltac:(rewrite frame_length; unfold M_SOCKET_PACK_SIZE in Hm; lia)) as (b1' & E1' & Hb1').
    assert (b1' = b1) as -> by congruence. by eapply buf_at_wf. }
  destruct (word 0 p =? M_KEEPALIVE_ID).
  { intros ok sock' acts Es.
    destruct (buf_at_write_u32 _ _ _ M_KEEPALIVE_ACK_ID (buf_at_clear _ _ _ (buf_wf_at _ Hw1))) as (b & Eb & Hb'); [by unfold buf_room|].
    unfold ScKeepAliveAck_Write. rewrite Eb. cbn [mbind option_bind].
    rewrite (sock_send_ok err now sock b ok sock' acts); [|by eapply buf_at_wf|by rewrite (buf_at_view _ _ _ Hb')].
    cbn [mbind option_bind]. eexists _, _. split_and!; try done. by eapply buf_at_wf. }
  rewrite Hslot. cbn [mbind option_bind]. destruct slot as [h|]; [|eexists _, _; by split_and!].
  rewrite E4. cbn [mbind option_bind]. rewrite E5. cbn [mbind option_bind]. rewrite E6. cbn [mbind option_bind].
  destruct (write_words _ _ _ (word 0 p) (word 1 p) (word 2 p) (buf_at_clear _ _ _ (buf_wf_at _ Hw)) ltac:(done))
    as (rep & Hrep & Hrw).
  destruct (Buffer_Write_u32 (Buffer_Clear _) _) as [r1|]; [|done]. cbn [mbind option_bind] in Hrep |- *.
  destruct (Buffer_Write_u32 r1 _) as [r2|]; [|done]. cbn [mbind option_bind] in Hrep |- *.
  rewrite Hrep. cbn [mbind option_bind]. rewrite app_nil_l in Hrw.
  destruct (word 0 p =? M_ONEWAY_TYPE).
  { intros ok sock' acts Es. destruct (OnOneWayDealer_ok h st (s32 (word 1 p)) b6 Hw6) as (req' & -> & Hreq).
    cbn [mbind option_bind]. rewrite Hv6.
    rewrite (sock_send_ok err now sock rep ok sock' acts); [|by eapply buf_at_wf|by rewrite (buf_at_view _ _ _ Hrw)].
    cbn [mbind option_bind]. eexists _, _. split_and!; try done. by eapply buf_at_wf. }
  destruct (word 0 p =? M_TWOWAY_TYPE); [|eexists _, _; split_and!; try done; by eapply buf_at_wf].
  pose proof (OnTwoWayDealer_ok h st (s32 (word 1 p)) b6 rep _ Hw6 Hrw) as Ht. rewrite Hv6 in Ht.
  destruct (serve h st (s32 (word 1 p)) (payload p)) as [st' d]. cbn [fst snd] in *.
  intros ok sock' acts Es. specialize (Hans _ eq_refl). rewrite length_call in Hans.
  destruct Ht as (req' & rep' & -> & Hreq & Hrep'); [unfold buf_room; rewrite length_call; cbn [length]; lia|].
  cbn [mbind option_bind].
  rewrite (sock_send_ok err now sock rep' ok sock' acts); [|by eapply buf_at_wf|].
  - cbn [mbind option_bind]. eexists _, _. split_and!; try done. by eapply buf_at_wf.
  - rewrite (buf_at_view _ _ _ Hrep'), drop_0. unfold call_bytes in *. by rewrite <- !app_assoc, app_nil_l.
Qed.

(** The words of a request that has them all. *)
Lemma words_call w t i d :
  0 <= w < 2 ^ 32 → 0 <= t < 2 ^ 32 → 0 <= i < 2 ^ 32 →
  word 0 (call_bytes w t i d) = w ∧ word 1 (call_bytes w t i d) = t ∧ word 2 (call_bytes w t i d) = i ∧
  payload (call_bytes w t i d) = d.
Proof.
  intros Hw Ht Hi. unfold word, payload. rewrite length_call.
  rewrite !(proj2 (Nat.leb_le _ _)) by lia. unfold call_bytes.
  change (4 * 0)%nat with 0%nat. change (4 * 1)%nat with 4%nat. change (4 * 2)%nat with (4 + 4)%nat.
  rewrite <- drop_drop, drop_0, take_app_length' by (len; done).
  rewrite !(drop_app_length' (le_bytes 4 w)), take_app_length' by (len; done).
  rewrite (drop_app_length' (le_bytes 4 t)), take_app_length' by (len; done).
  rewrite !le4_val by done. split_and!; try done.
  assert (4 * (((12 + length d) / 4) `min` 3) = 12)%nat as ->.
  { assert (3 ≤ (12 + length d) / 4)%nat by (apply Nat.div_le_lower_bound; lia). lia. }
  rewrite !app_assoc. apply drop_app_length'. by len.
Qed.

Lemma sc_answer_call h st t i d :
  - 2 ^ 31 <= t < 2 ^ 31 → 0 <= i < 2 ^ 32 →
  sc_answer (Some h) st (call_bytes M_TWOWAY_TYPE (u32 t) i d) =
    ((serve h st t d).1, Some (call_bytes M_TWOWAY_TYPE (u32 t) i (serve h st t d).2)).
Proof.
  intros Ht Hi. unfold sc_answer. rewrite length_call, (proj2 (Nat.ltb_ge _ _)) by lia.
  destruct (words_call M_TWOWAY_TYPE (u32 t) i d) as (-> & -> & -> & ->); [done|apply u32_bound|done|].
  cbn [M_TWOWAY_TYPE M_ONEWAY_TYPE M_KEEPALIVE_ID Z.eqb Pos.eqb]. rewrite s32_u32 by done.
  by destruct (serve h st t d).
Qed.
End server_spec.

(** ** The client's rounds *)

Section rounds.
Context `{Malloc}.

(** The next round has a connection: the present one, between two packets, or a new one. *)
Definition prepared (a : attempt) (c : ScClient) : Prop :=
  buf_wf (_request (sc_base c)) ∧
  ((∃ s, sc_socket c = Some s ∧ sync_clean s ∧ buf_wf (sc_sndbuffer s)) ∨
   (ScClient_IsConnected c = false ∧ at_connect a = true)).

Lemma new_sync_clean : sync_clean (SyncConnector_Connect SyncConnector_new true).2.
Proof.
  split; [done|]. split; [done|]. split; [done|]. split; [apply (buf_at_wf _ [] 0), buf_at_new|].
  cbn [snd SyncConnector_Connect sc_readbuf SyncConnector_new]. apply length_replicate.
Qed.

Lemma prepared_ready a c :
  prepared a c →
  ∃ c1 s, (if ScClient_IsConnected c then (true, c) else ScClient_Reconnect (at_connect a) c) = (true, c1) ∧
    sc_socket c1 = Some s ∧ sync_clean s ∧ buf_wf (sc_sndbuffer s) ∧
    _packidx (sc_base c1) = _packidx (sc_base c) ∧ _request (sc_base c1) = _request (sc_base c).
Proof.
  intros [Hw [(s & Hs & Hc & Hsw)|[Hc Ha]]].
  - unfold ScClient_IsConnected. rewrite Hs. destruct Hc as (Hf & Hc). unfold SyncConnector_IsConnected. rewrite Hf.
    exists c, s. by split_and!.
  - rewrite Hc, Ha. eexists _, _. split; [done|]. cbn [sc_socket ScClient_SetTimeOut]. split; [done|].
    split; [apply new_sync_clean|]. split; [|done]. apply (buf_at_wf _ [] 0), buf_at_new.
Qed.

(** A round whose request goes out and whose reply comes back: the call ends with 0 when the
    reply carries the request's number, and the connection is dropped otherwise. *)
Lemma round_replied env n cnt code way t msg c preply wires ns srest chunks rrest rnow w rt i d :
  let a := env cnt in
  let idx := u32 (_packidx (sc_base c) + 1) in
  let req := call_bytes (u32 way) (u32 t) idx msg in
  prepared a c → 12 + Z.of_nat (length msg) <= SYNC_LIMIT →
  at_send a = map (λ n, SendCount (Z.of_nat n)) ns ++ srest →
  counts_ok (length (frame_bytes (at_now a) req)) ns →
  at_recv a = map RecvBytes chunks ++ rrest →
  Forall (λ d, d ≠ [] ∧ (length d ≤ Z.to_nat M_SOCKET_READ_SIZE)%nat) chunks →
  concat chunks = frame_bytes rnow (call_bytes w rt i d) → 12 + Z.of_nat (length d) <= SYNC_LIMIT →
  0 <= w < 2 ^ 32 → 0 <= rt < 2 ^ 32 → 0 <= i < 2 ^ 32 →
  ∃ c' s', sc_socket c' = Some s' ∧ sync_clean s' ∧ buf_wf (sc_sndbuffer s') ∧
    buf_view (msgbuffer (sc_reader s')) = d ∧
    buf_wf (_request (sc_base c')) ∧ _packidx (sc_base c') = idx ∧
    Sync_loop env (S n) cnt code way t msg (Z.of_nat (length msg)) c preply wires =
      if i =? idx then Some (Returns (0, c', Some (sc_made c'), wires ++ [frame_bytes (at_now a) req]))
      else Sync_loop env n (S cnt) (-3) way t msg (Z.of_nat (length msg)) (ScClient_Close c')
             (Some (sc_made c')) (wires ++ [frame_bytes (at_now a) req]).
Proof.
  intros a idx req Hp Hm Hsend Hns Hrecv Hch Hcat Hd Hwb Htb Hib. unfold SYNC_LIMIT, hdrlen in Hm, Hd.
  destruct (prepared_ready _ _ Hp) as (c1 & s & E1 & Hs & Hcl & Hsw & Hidx & Hreq).
  destruct Hp as [Hrw _]. cbn [Sync_loop]. fold a. rewrite E1. cbn [negb].
  rewrite <- Hreq in Hrw. destruct (FillRequest_ok (sc_base c1) way t msg Hrw) as (b & Eb & Hbw & Hbv); [lia|].
  rewrite Hidx in Eb, Hbv. fold idx in Eb, Hbv. fold req in Hbv. rewrite Eb, Hs. cbn [mbind option_bind _request].
  rewrite Send_view, Hbv, Hsend by done. pose proof (proj1 Hcl) as Hfl.
  assert (length req = 12 + length msg)%nat as Hlr by apply length_call.
  destruct (Send_counts (at_now a) s req ns srest Hfl Hsw) as (sb & Es & Hsb);
    [unfold SYNC_LIMIT, hdrlen; lia|done|]. rewrite Es. cbn [mbind option_bind negb].
  rewrite Hrecv.
  destruct (Recv_packet rnow (with_snd s sb) (call_bytes w rt i d) chunks rrest) as (s2 & Er & Hv2 & Hcl2);
    [done|rewrite length_call; unfold SYNC_LIMIT, hdrlen; lia|done|done|].
  pose proof (Recv_snd _ _ _ _ _ Er) as Hsb2. cbn [with_snd sc_sndbuffer] in Hsb2.
  rewrite Er. cbn [mbind option_bind]. pose proof Hcl2 as (Hf2 & Hrs2 & Hz2 & Hw2 & Hrb2).
  destruct (CheckReply_ok (mkBase (_ip (sc_base c1)) (_port (sc_base c1)) (_timeo_c (sc_base c1))
    (_timeo_rw (sc_base c1)) idx b) _ _ _ _ _ Hw2 Hv2 Hwb Htb Hib) as (b3 & E3 & Hw3 & Hv3).
  rewrite E3. cbn [mbind option_bind _packidx].
  exists (mkSc (mkBase (_ip (sc_base c1)) (_port (sc_base c1)) (_timeo_c (sc_base c1)) (_timeo_rw (sc_base c1)) idx b)
    (Some (mkSync (sc_flag s2) (mkReader b3 (curheader (sc_reader s2))) (sc_readbuf s2) (sc_readsize s2) (sc_sndbuffer s2)))
    (sc_made c1)), (mkSync (sc_flag s2) (mkReader b3 (curheader (sc_reader s2))) (sc_readbuf s2) (sc_readsize s2) (sc_sndbuffer s2)).
  cbn [sc_socket sc_base _request _packidx sc_made sc_sndbuffer sc_reader msgbuffer].
  split; [done|]. split; [by split_and!|]. split; [by rewrite Hsb2|]. split; [done|].
  split; [done|]. split; [done|]. destruct (i =? idx); reflexivity.
Qed.
End rounds.

(** ** The result codes, on every execution *)

Section codes.
Context `{Malloc}.

(** The two ways a call ends: with a live reply that passed the check, or without a
    connection. *)
Definition call_ended (code : Z) (c : ScClient) (preply : option nat) : Prop :=
  (code = 0 ∧ preply = Some (sc_made c) ∧
   ∃ s b, sc_socket c = Some s ∧ CheckReply (sc_base c) (Some b) = Some (true, Some (msgbuffer (sc_reader s)))) ∨
  ((code = -2 ∨ code = -3) ∧ sc_socket c = None).

Lemma Reconnect_false ok c c' : ScClient_Reconnect ok c = (false, c') → sc_socket c' = None.
Proof. unfold ScClient_Reconnect. destruct ok; cbn; [done|]. by intros [= <-]. Qed.

Lemma Close_socket c : sc_socket (ScClient_Close c) = None.
Proof. unfold ScClient_Close. destruct (sc_socket c) eqn:E; [done|by rewrite E]. Qed.

Lemma CheckReply_true base r b : CheckReply base r = Some (true, b) → is_Some r ∧ is_Some b.
Proof.
  unfold CheckReply. destruct r as [r|]; [|done].
  do 3 (destruct (Buffer_Read_u32 _ _) as [[? ?]|]; [|done]; cbn [mbind option_bind]).
  destruct (negb _); [done|]. intros [= <-]. by split; eexists.
Qed.

Lemma Sync_loop_ends env way t msg len n : ∀ cnt code c preply wires code' c' preply' wires',
  Sync_loop env n cnt code way t msg len c preply wires = Some (Returns (code', c', preply', wires')) →
  (n ≠ 0%nat ∨ (code = -2 ∨ code = -3) ∧ sc_socket c = None) →
  call_ended code' c' preply' ∧ (length wires' ≤ length wires + n)%nat.
Proof.
  induction n as [|n IH]; intros cnt code c preply wires code' c' preply' wires' E Hn.
  { injection E as <- <- <- <-. split; [right; naive_solver|lia]. }
  cbn [Sync_loop] in E.
  destruct (if ScClient_IsConnected c then _ else _) as [[|] c1] eqn:Er; cbn [negb] in E.
  2: { destruct (ScClient_IsConnected c); [done|]. apply Reconnect_false in Er.
       destruct (IH _ _ _ _ _ _ _ _ _ E) as [? ?]; [right; auto|]. split; [done|lia]. }
  destruct (FillRequest _ _ _ _ _) as [base|]; [|done]. destruct (sc_socket c1) as [s|]; [|done].
  cbn [mbind option_bind] in E.
  destruct (SyncConnector_Send _ _ _ _ _) as [[[[[[|] s1] w] ?]|]|]; [| |done|done]; cbn [mbind option_bind negb] in E.
  2: { destruct (IH _ _ _ _ _ _ _ _ _ E) as [? Hl]; [right; split; [auto|apply Close_socket]|].
       rewrite length_app in Hl. cbn [length] in Hl. split; [done|lia]. }
  destruct (SyncConnector_Recv _ _) as [[[[got s2] ?]|]|]; [|done|done]; cbn [mbind option_bind] in E.
  destruct (CheckReply base _) as [[[|] b]|] eqn:Ec; [| |done]; cbn [mbind option_bind] in E.
  - destruct (CheckReply_true _ _ _ Ec) as [[x Hx] [b' ->]]. destruct got; [|done].
    injection E as <- <- <- <-. split; [|rewrite length_app; cbn [length]; lia].
    left. split_and!; try done. eexists _, _. split; [done|]. cbn [sc_base sc_reader msgbuffer]. exact Ec.
  - destruct (IH _ _ _ _ _ _ _ _ _ E) as [? Hl]; [right; split; [auto|apply Close_socket]|].
    rewrite length_app in Hl. cbn [length] in Hl. split; [done|lia].
Qed.
End codes.

Section properties.
Context `{Malloc}.

(** C32: whatever the network does, a call that returns gives 0, -2 or -3 - never the -1 for a
    time-out that its comment promises - after at most two attempts; with 0 the reply pointer is
    that of the live connector, whose buffer passed the check of the request's number,
    and otherwise the client is left without a connection. *)
Theorem sync_call_codes env way t msg len c preply code c' preply' wires :
  ScClient_Sync env way t msg len c preply = Some (Returns (code, c', preply', wires)) →
  (code = 0 ∨ code = -2 ∨ code = -3) ∧ (length wires ≤ 2)%nat ∧
  (code = 0 → preply' = Some (sc_made c') ∧
     ∃ s b, sc_socket c' = Some s ∧
       CheckReply (sc_base c') (Some b) = Some (true, Some (msgbuffer (sc_reader s)))) ∧
  (code ≠ 0 → sc_socket c' = None).
Proof.
  intros E. destruct (Sync_loop_ends _ _ _ _ _ _ _ _ _ _ _ _ _ _ _ E) as [Hc Hl]; [by left|].
  cbn [length plus] in Hl. destruct Hc as [(-> & Hp & Hs)|[Hc Hs]]; split_and!; try done; naive_solver.
Qed.

(** C7: one call end to end.  The client's request goes out as one frame; a server that gets
    this frame answers, through its idle connection, with one frame; and a client that gets that
    frame, in any chunks, returns 0 with exactly the handler's answer to the message, ready
    for the next call. *)
Theorem sync_call_roundtrip `{!ServerHandler Hd St} env c t msg ns srest hs info h st sock snow buffer :
  let a := env 0%nat in
  let req := call_bytes M_TWOWAY_TYPE (u32 t) (u32 (_packidx (sc_base c) + 1)) msg in
  let ans := (serve h st t msg).2 in
  let rep := call_bytes M_TWOWAY_TYPE (u32 t) (u32 (_packidx (sc_base c) + 1)) ans in
  prepared a c → - 2 ^ 31 <= t < 2 ^ 31 →
  12 + Z.of_nat (length msg) <= SYNC_LIMIT → 12 + Z.of_nat (length ans) <= SYNC_LIMIT →
  at_send a = map (λ n, SendCount (Z.of_nat n)) ns ++ srest →
  counts_ok (length (frame_bytes (at_now a) req)) ns →
  hs !! Z.to_nat (si_id info) = Some (Some h) → buf_wf (si_buffer info) → sock_idle sock →
  buf_at buffer (frame_bytes (at_now a) req) 8 →
  (∃ info' sock' b', ScServer_OnReceiveData hs false snow st (Some info) sock buffer =
     Some ((serve h st t msg).1, Some info', sock', b', [ActSendSome (frame_bytes (u32 snow) rep)])) ∧
  (∀ chunks rrest, at_recv a = map RecvBytes chunks ++ rrest →
     Forall (λ d, d ≠ [] ∧ (length d ≤ Z.to_nat M_SOCKET_READ_SIZE)%nat) chunks →
     concat chunks = frame_bytes (u32 snow) rep →
     ∃ c' s', ScClient_SyncCall env t msg (Z.of_nat (length msg)) c =
         Some (Returns (0, c', Some (sc_made c'), [frame_bytes (at_now a) req])) ∧
       sc_socket c' = Some s' ∧ buf_view (msgbuffer (sc_reader s')) = ans ∧ ∀ a', prepared a' c').
Proof.
  intros a req ans rep Hp Ht Hm Hans Hsend Hns Hh Hi Hsock Hb. set (idx := u32 (_packidx (sc_base c) + 1)) in *.
  assert (0 <= u32 t < 2 ^ 32) as Htb by apply u32_bound. assert (0 <= idx < 2 ^ 32) as Hib by apply u32_bound.
  assert (length req = 12 + length msg)%nat as Hlr by apply length_call.
  assert (length rep = 12 + length ans)%nat as Hlp by apply length_call.
  unfold SYNC_LIMIT, hdrlen in Hm, Hans. split.
  - assert (sc_answer (Some h) st req = ((serve h st t msg).1, Some rep)) as Ea.
    { apply sc_answer_call; done. }
    pose proof (answered_word false snow (at_now a) hs (Some h) st info sock req buffer Hh Hi
      ltac:(lia) ltac:(unfold M_SOCKET_PACK_SIZE; lia) Hb) as Hx. rewrite Ea in Hx. cbn [snd fst answered] in Hx.
    destruct (Send_idle snow sock rep Hsock) as (s' & Es); [unfold M_SOCKET_PACK_SIZE; lia|].
    destruct (Hx ltac:(intros ? [= <-]; lia) _ _ _ Es) as (info' & b' & -> & _). by eexists _, _, _.
  - intros chunks rrest Hrecv Hch Hcat.
    destruct (round_replied env 1 0 0 M_TWOWAY_TYPE t msg c None [] ns srest chunks rrest (u32 snow)
      M_TWOWAY_TYPE (u32 t) idx ans) as (c' & s' & Hs' & Hcl & Hsb & Hv & Hrw & Hidx & E);
      try done.
    fold idx in E. rewrite Z.eqb_refl in E. exists c', s'. split; [exact E|]. split_and!; try done.
    intros a'. split; [done|]. left. by exists s'.
Qed.

(** A reply with another number is not taken for the answer: the client drops the
    connection, and asks again with a fresh number on a new one. *)
Theorem sync_call_stale_reply env c t msg ns1 sr1 ch1 rr1 now1 i1 d1 ns2 sr2 ch2 rr2 now2 d2 :
  let idx1 := u32 (_packidx (sc_base c) + 1) in
  let idx2 := u32 (idx1 + 1) in
  let req i := call_bytes M_TWOWAY_TYPE (u32 t) i msg in
  prepared (env 0%nat) c → at_connect (env 1%nat) = true → 12 + Z.of_nat (length msg) <= SYNC_LIMIT →
  at_send (env 0%nat) = map (λ n, SendCount (Z.of_nat n)) ns1 ++ sr1 →
  counts_ok (length (frame_bytes (at_now (env 0%nat)) (req idx1))) ns1 →
  at_recv (env 0%nat) = map RecvBytes ch1 ++ rr1 →
  Forall (λ d, d ≠ [] ∧ (length d ≤ Z.to_nat M_SOCKET_READ_SIZE)%nat) ch1 →
  concat ch1 = frame_bytes now1 (call_bytes M_TWOWAY_TYPE (u32 t) i1 d1) →
  12 + Z.of_nat (length d1) <= SYNC_LIMIT → 0 <= i1 < 2 ^ 32 → i1 ≠ idx1 →
  at_send (env 1%nat) = map (λ n, SendCount (Z.of_nat n)) ns2 ++ sr2 →
  counts_ok (length (frame_bytes (at_now (env 1%nat)) (req idx2))) ns2 →
  at_recv (env 1%nat) = map RecvBytes ch2 ++ rr2 →
  Forall (λ d, d ≠ [] ∧ (length d ≤ Z.to_nat M_SOCKET_READ_SIZE)%nat) ch2 →
  concat ch2 = frame_bytes now2 (call_bytes M_TWOWAY_TYPE (u32 t) idx2 d2) →
  12 + Z.of_nat (length d2) <= SYNC_LIMIT →
  ∃ c' s', ScClient_SyncCall env t msg (Z.of_nat (length msg)) c =
      Some (Returns (0, c', Some (sc_made c'),
        [frame_bytes (at_now (env 0%nat)) (req idx1); frame_bytes (at_now (env 1%nat)) (req idx2)])) ∧
    sc_socket c' = Some s' ∧ buf_view (msgbuffer (sc_reader s')) = d2.
Proof.
  intros idx1 idx2 req Hp Hc2 Hm Hs1 Hn1 Hr1 Hf1 Hcat1 Hd1 Hi1 Hne Hs2 Hn2 Hr2 Hf2 Hcat2 Hd2.
  assert (0 <= u32 t < 2 ^ 32) as Htb by apply u32_bound.
  destruct (round_replied env 1 0 0 M_TWOWAY_TYPE t msg c None [] ns1 sr1 ch1 rr1 now1
    M_TWOWAY_TYPE (u32 t) i1 d1) as (c1 & s1 & Hsk & Hcl & Hsb & _ & Hrw & Hidx & E); try done.
  fold idx1 in E, Hidx. rewrite (proj2 (Z.eqb_neq _ _) Hne) in E. cbn [app] in E.
  assert (sc_base (ScClient_Close c1) = sc_base c1) as Hb1 by (unfold ScClient_Close; by rewrite Hsk).
  destruct (round_replied env 0 1 (-3) M_TWOWAY_TYPE t msg (ScClient_Close c1) (Some (sc_made c1))
    [frame_bytes (at_now (env 0%nat)) (req idx1)] ns2 sr2 ch2 rr2 now2
    M_TWOWAY_TYPE (u32 t) idx2 d2) as (c2 & s2 & Hsk2 & _ & _ & Hv & _ & _ & E2); try done.
  - split; [by rewrite Hb1|right; split; [|done]]. unfold ScClient_IsConnected. by rewrite Close_socket.
  - apply u32_bound.
  - rewrite Hb1, Hidx in E2. fold idx2 in E2. rewrite Z.eqb_refl in E2. cbn [app] in E2.
    exists c2, s2. split; [|done]. unfold ScClient_SyncCall, ScClient_Sync. by rewrite E.
Qed.
End properties.

(** ** The coroutine client *)

Section coroutine.
Context `{Malloc}.

(** A keepalive answer does not wake the coroutine; any other packet becomes its reply. *)
Definition ack_packet (b : Buffer) : Prop :=
  buf_wf b ∧ ∃ d, buf_view b = le_bytes 4 M_KEEPALIVE_ACK_ID ++ d.

Lemma conn_ack info b :
  ack_packet b → ∃ b', ScServer_OnReceiveData_conn info b = Some (info, b', [HeartData]).
Proof.
  intros [Hw [d Hv]]. unfold ScServer_OnReceiveData_conn.
  destruct (read_word b _ d 0 Hw Hv) as (b' & -> & _); [done|]. cbn [mbind option_bind]. by exists b'.
Qed.

Lemma conn_reply info b w d :
  buf_wf b → buf_view b = le_bytes 4 w ++ d → 0 <= w < 2 ^ 32 → w ≠ M_KEEPALIVE_ACK_ID →
  ∃ b', ScServer_OnReceiveData_conn info b =
    Some (mkCoInfo (co_valid info) 0 (u32 (-1)) b, b',
          [HeartData; AddResume (s32 (co_thr_id info)) (s32 (co_co_id info))]).
Proof.
  intros Hw Hv Hwb Hne. unfold ScServer_OnReceiveData_conn.
  destruct (read_word b w d 0 Hw Hv Hwb) as (b' & -> & _ & _ & Hc). cbn [mbind option_bind].
  rewrite (proj2 (Z.eqb_neq _ _) Hne). cbn [negb Buffer_Swap]. rewrite Hc. by eexists.
Qed.

Lemma co_wait_reply thr co acks b w d rest info :
  Forall ack_packet acks → buf_wf b → buf_view b = le_bytes 4 w ++ d → 0 <= w < 2 ^ 32 →
  w ≠ M_KEEPALIVE_ACK_ID → s32 (co_thr_id info) = thr → s32 (co_co_id info) = co →
  co_wait thr co (map EvPacket acks ++ EvPacket b :: rest) info =
    Some (Returns (mkCoInfo (co_valid info) 0 (u32 (-1)) b)).
Proof.
  intros Hacks Hw Hv Hwb Hne Ht Hc. induction Hacks as [|a acks Ha _ IH]; cbn [map app co_wait].
  - destruct (conn_reply info b w d Hw Hv Hwb Hne) as (b' & ->). cbn [mbind option_bind existsb].
    by rewrite Ht, Hc, !Z.eqb_refl.
  - destruct (conn_ack info a Ha) as (b' & ->). cbn [mbind option_bind existsb orb]. exact IH.
Qed.

(** A call of the coroutine client on a connected, idle connector sends one request and
    ends with 0 and the reply's payload, keepalive answers in between or not.  The request
    is a two-way request whatever the kind of call: [_Sync] does not use its [way]. *)
Theorem co_call_is_twoway env way t msg c sock info preply acks b rest w rt d :
  let a := env 0%nat in
  let idx := u32 (_packidx (cc_base c) + 1) in
  cc_socket c = Some (sock, info) → co_valid info = true → sock_idle sock →
  buf_wf (_request (cc_base c)) → 12 + Z.of_nat (length msg) <= M_SOCKET_PACK_SIZE →
  ca_send_err a = false → - 2 ^ 31 <= ca_thr a < 2 ^ 31 → - 2 ^ 31 <= ca_co a < 2 ^ 31 →
  ca_events a = map EvPacket acks ++ EvPacket b :: rest → Forall ack_packet acks →
  buf_wf b → buf_view b = call_bytes w rt idx d →
  0 <= w < 2 ^ 32 → w ≠ M_KEEPALIVE_ACK_ID → 0 <= rt < 2 ^ 32 →
  ∃ c' sock' info', CoScClient_Sync env way t msg (Z.of_nat (length msg)) c preply =
      Some (Returns (0, c', Some (cc_made c),
        [ActSendSome (frame_bytes (u32 (ca_now a)) (call_bytes M_TWOWAY_TYPE (u32 t) idx msg))])) ∧
    cc_socket c' = Some (sock', info') ∧ buf_view (co_buffer info') = d.
Proof.
  intros a idx Hs Hval Hidle Hrw Hm He Ht Hco Hev Hacks Hbw Hbv Hwb Hne Hrtb.
  unfold CoScClient_Sync. cbn [CoSync_loop]. fold a. unfold CoScClient_IsConnected. rewrite Hs.
  unfold TcpBaseSocket_IsConnected. rewrite bool_decide_true by apply Hidle. cbn [negb]. rewrite Hs.
  cbn [mbind option_bind]. rewrite Hval. cbn [negb]. unfold M_SOCKET_PACK_SIZE in Hm.
  destruct (FillRequest_ok (cc_base c) M_TWOWAY_TYPE t msg Hrw) as (rb & -> & Hrbw & Hrbv); [lia|].
  cbn [mbind option_bind _request]. rewrite sock_send_view, Hrbv, He by done. fold idx.
  set (req := call_bytes (u32 M_TWOWAY_TYPE) (u32 t) idx msg).
  assert (length req = 12 + length msg)%nat as Hlr by apply length_call.
  destruct (Send_idle (ca_now a) sock req Hidle) as (sock' & ->); [unfold M_SOCKET_PACK_SIZE; lia|].
  cbn [mbind option_bind app]. rewrite Hev.
  rewrite (co_wait_reply _ _ acks b w (le_bytes 4 rt ++ le_bytes 4 idx ++ d) rest);
    try done; [|by apply s32_u32|by apply s32_u32]. cbn [mbind option_bind co_buffer co_valid].
  assert (0 <= idx < 2 ^ 32) as Hib by apply u32_bound.
  destruct (CheckReply_ok (mkBase (_ip (cc_base c)) (_port (cc_base c)) (_timeo_c (cc_base c))
    (_timeo_rw (cc_base c)) idx rb) b w rt idx d) as (b3 & E3 & _ & Hv3); try done.
  fold idx. rewrite E3. cbn [mbind option_bind _packidx]. rewrite Z.eqb_refl.
  eexists _, _, _. split; [reflexivity|]. by split.
Qed.

(** A request that [Send] refuses is waited for all the same: nothing is sent, and only a
    disconnection wakes the coroutine. *)
Lemma co_call_too_long env way t msg c sock info preply :
  cc_socket c = Some (sock, info) → co_valid info = true → _flag sock = TcpSocket.E_STATE_START →
  buf_wf (_request (cc_base c)) →
  M_SOCKET_PACK_SIZE < 12 + Z.of_nat (length msg) < 2 ^ 31 → ca_events (env 0%nat) = [] →
  CoScClient_Sync env way t msg (Z.of_nat (length msg)) c preply = Some Blocks.
Proof.
  intros Hs Hval Hf Hrw Hm Hev. unfold CoScClient_Sync. cbn [CoSync_loop]. unfold CoScClient_IsConnected. rewrite Hs.
  unfold TcpBaseSocket_IsConnected. rewrite bool_decide_true by done. cbn [negb]. rewrite Hs.
  cbn [mbind option_bind]. rewrite Hval. cbn [negb]. unfold M_SOCKET_PACK_SIZE in Hm.
  destruct (FillRequest_ok (cc_base c) M_TWOWAY_TYPE t msg Hrw) as (rb & -> & Hrbw & Hrbv); [lia|].
  cbn [mbind option_bind _request]. rewrite sock_send_view, Hrbv by done. unfold TcpBaseSocket_Send.
  rewrite length_call. rewrite (proj2 (Z.leb_gt _ _)) by lia. unfold M_SOCKET_PACK_SIZE.
  rewrite Z.gtb_ltb, (proj2 (Z.ltb_lt _ _)) by lia. cbn [mbind option_bind]. by rewrite Hev.
Qed.

(** A reply nobody waits for wakes coroutine -1 of thread 0, which [OnDisconnected] avoids. *)
Lemma stale_reply_resumes_nobody info b w d :
  buf_wf b → buf_view b = le_bytes 4 w ++ d → 0 <= w < 2 ^ 32 → w ≠ M_KEEPALIVE_ACK_ID →
  co_thr_id info = 0 → co_co_id info = u32 (-1) →
  (∃ info' b', ScServer_OnReceiveData_conn info b = Some (info', b', [HeartData; AddResume 0 (-1)])) ∧
  (ScServer_OnDisconnected_conn info).2 = [].
Proof.
  intros Hw Hv Hb Hne Ht Hc. split.
  - destruct (conn_reply info b w d Hw Hv Hb Hne) as (b' & ->). rewrite Ht, Hc. by eexists _, _.
  - unfold ScServer_OnDisconnected_conn. rewrite Hc. done.
Qed.
End coroutine.

Section server_properties.
Context `{Malloc} {Hd St : Type} `{!ServerHandler Hd St}.

(** C33: the server's contract for every packet a frame can carry: the handler of the
    connection's port is run, and the answer sent, exactly as [sc_answer] says - a keepalive is
    acknowledged, a one-way or two-way request is answered under its own kind, type and
    number, anything else (no handler, an unknown kind, less than a word) is dropped -
    without a fault, whatever the packet holds.  The handler is a parameter: a function of its
    state and of the packet's body that returns the bytes it appends to the reply, and does not
    fault. *)
Theorem ScServer_answers err now now' hs slot st info sock p buffer :
  hs !! Z.to_nat (si_id info) = Some slot → buf_wf (si_buffer info) →
  0 < Z.of_nat (length p) <= M_SOCKET_PACK_SIZE → buf_at buffer (frame_bytes now' p) 8 →
  (∀ r, (sc_answer slot st p).2 = Some r → Z.of_nat (length r) < 2 ^ 31) →
  answered err now sock (si_id info) (sc_answer slot st p)
    (ScServer_OnReceiveData hs err now st (Some info) sock buffer).
Proof.
  intros Hs Hw Hp Hb Hr. destruct (decide (length p < 4)%nat).
  - apply (answered_short err now now'); (done || lia).
  - apply (answered_word err now now'); (done || lia).
Qed.

(** The array has no element for port 65535: registering it writes past the end. *)
Lemma Register_last_port (h : Hd) :
  ScServer_Register handlers_new true 65535 h = None ∧
  ∃ hs, ScServer_Register handlers_new true 65534 h = Some (true, hs).
Proof.
  unfold ScServer_Register, handlers_new, UniqueId. split.
  - rewrite lookup_ge_None_2; [done|]. rewrite length_replicate. lia.
  - rewrite lookup_replicate_2 by lia. cbn [mbind option_bind]. by eexists.
Qed.
End server_properties.

(** ** A handler that counts its calls and answers with what it was sent *)

#[export] Program Instance echo `{Malloc} : ServerHandler unit nat := {|
  OnOneWayDealer _ st _ req := Some (S st, req);
  OnTwoWayDealer _ st _ req rep :=
    rep ← Buffer_Write rep (buf_view req) (Z.of_nat (length (buf_view req)));
    Some (S st, req, rep);
  serve_oneway _ st _ _ := S st;
  serve _ st _ d := (S st, d)
|}.
Next Obligation. simpl. eauto. Qed.
Next Obligation.
  intros Mal u st t req rep xs Hw Hr Hroom. cbn [fst snd] in *.
  destruct (buf_at_append rep xs 0 (buf_view req) Hr Hroom) as (b' & E & Hb').
  rewrite E. cbn [mbind option_bind]. by eexists _, _.
Qed.

#[local] Existing Instance zero_malloc.

(** The request of the first call of a client, and its answer. *)
Definition demo_req (i : Z) : list byte := call_bytes M_TWOWAY_TYPE 5 i [x61; x62].
Definition demo_frame (bs : list byte) : list byte := frame_bytes 7 bs.
Definition demo_env (i : Z) : nat → attempt := λ _,
  mkAttempt true 7 [SendCount 4; SendCount 18] [RecvBytes (take 9 (demo_frame (demo_req i))); RecvBytes (drop 9 (demo_frame (demo_req i)))].
Definition demo_info : ScInfo := ScServer_OnConnected 80.
Definition demo_hs : list (option unit) := <[80%nat := Some tt]> handlers_new.
Definition demo_buffer : Buffer := mkBuffer 22 22 8 (demo_frame (demo_req 1)).
Definition demo_sock : BaseSocket := mkSocket TcpSocket.E_STATE_START false Buffer_new Buffer_new.

Lemma demo_buffer_at : buf_at demo_buffer (frame_bytes 7 (demo_req 1)) 8.
Proof. repeat split; vm_compute; (done || congruence). Qed.

Lemma demo_sock_idle : sock_idle demo_sock.
Proof. by repeat split. Qed.

Lemma demo_prepared a : at_connect a = true → prepared a ScClient_new.
Proof. intros. split; [apply (buf_at_wf _ [] 0), buf_at_new|by right]. Qed.

Lemma demo_chunks (bs : list byte) : (9 < length bs < 100)%nat →
  Forall (λ d, d ≠ [] ∧ (length d ≤ Z.to_nat M_SOCKET_READ_SIZE)%nat) [take 9 bs; drop 9 bs].
Proof.
  intros Hl. assert (4096 = Z.to_nat M_SOCKET_READ_SIZE)%nat as <- by done.
  apply List.Forall_cons; [|apply List.Forall_cons; [|by apply List.Forall_nil]];
    (split; [intros E%(f_equal length); revert E|]; len; cbn [length]; lia).
Qed.

Lemma demo_hs_lookup : demo_hs !! Z.to_nat (si_id demo_info) = Some (Some tt).
Proof. by vm_compute. Qed.

Lemma sync_call_roundtrip_witness :
  (∃ info' sock' b', ScServer_OnReceiveData demo_hs false 7 0%nat (Some demo_info) demo_sock demo_buffer =
     Some (1%nat, Some info', sock', b', [ActSendSome (frame_bytes 7 (demo_req 1))])) ∧
  ∃ c' s', ScClient_SyncCall (demo_env 1) 5 [x61; x62] 2 ScClient_new =
      Some (Returns (0, c', Some (sc_made c'), [frame_bytes 7 (demo_req 1)])) ∧
    sc_socket c' = Some s' ∧ buf_view (msgbuffer (sc_reader s')) = [x61; x62] ∧ ∀ a', prepared a' c'.
Proof.
  destruct (sync_call_roundtrip (demo_env 1) ScClient_new 5 [x61; x62] [4; 18]%nat [] demo_hs demo_info tt 0%nat
    demo_sock 7 demo_buffer) as [Hs Hc];
    [by apply demo_prepared|lia|by vm_compute|by vm_compute|done|cbn [counts_ok]; vm_compute; lia
    |apply demo_hs_lookup|apply (buf_at_wf _ [] 0), buf_at_new|apply demo_sock_idle|apply demo_buffer_at|].
  split; [exact Hs|].
  apply (Hc [take 9 (demo_frame (demo_req 1)); drop 9 (demo_frame (demo_req 1))] []);
    [done|apply demo_chunks; vm_compute; lia|by vm_compute].
Defined.

(** A server that cannot be reached: the call ends with -2, and no connection. *)
Lemma sync_call_codes_witness :
  let env := λ _ : nat, mkAttempt false 7 [] [] in
  ∃ c', ScClient_Sync env M_TWOWAY_TYPE 5 [x61] 1 ScClient_new None = Some (Returns (-2, c', None, [])) ∧
    sc_socket c' = None.
Proof.
  intros env. eexists. split; [by vm_compute|].
  apply (sync_call_codes env M_TWOWAY_TYPE 5 [x61] 1 ScClient_new None (-2) _ None []); by vm_compute.
Defined.

Definition demo_stale_env : nat → attempt := λ n,
  mkAttempt true 7 [SendCount 22] [RecvBytes (demo_frame (demo_req (if n is O then 9 else 2)))].

Lemma demo_chunk (bs : list byte) : (0 < length bs < 100)%nat →
  Forall (λ d, d ≠ [] ∧ (length d ≤ Z.to_nat M_SOCKET_READ_SIZE)%nat) [bs].
Proof.
  intros Hl. assert (4096 = Z.to_nat M_SOCKET_READ_SIZE)%nat as <- by done.
  apply List.Forall_cons; [|by apply List.Forall_nil].
  split; [intros E%(f_equal length); revert E|]; cbn [length]; lia.
Qed.

Lemma sync_call_stale_reply_witness :
  ∃ c' s', ScClient_SyncCall demo_stale_env 5 [x61; x62] 2 ScClient_new =
      Some (Returns (0, c', Some (sc_made c'), [demo_frame (demo_req 1); demo_frame (demo_req 2)])) ∧
    sc_socket c' = Some s' ∧ buf_view (msgbuffer (sc_reader s')) = [x61; x62].
Proof.
  apply (sync_call_stale_reply demo_stale_env ScClient_new 5 [x61; x62]
    [22]%nat [] [demo_frame (demo_req 9)] [] 7 9 [x61; x62] [22]%nat [] [demo_frame (demo_req 2)] [] 7 [x61; x62]).
  - by apply demo_prepared.
  - reflexivity.
  - by vm_compute.
  - reflexivity.
  - cbn [counts_ok]. vm_compute. lia.
  - reflexivity.
  - apply demo_chunk. vm_compute. lia.
  - reflexivity.
  - by vm_compute.
  - lia.
  - by vm_compute.
  - reflexivity.
  - cbn [counts_ok]. vm_compute. lia.
  - reflexivity.
  - apply demo_chunk. vm_compute. lia.
  - reflexivity.
  - by vm_compute.
Defined.

Definition demo_ack : Buffer := mkBuffer 12 12 8 (demo_frame (le_bytes 4 M_KEEPALIVE_ACK_ID)).
Definition demo_co (ready : BaseSocket) : CoScClient :=
  mkCo (cc_base CreateCoScClient) true (Some (ready, mkCoInfo true 0 (u32 (-1)) Buffer_new)) 1.
Definition demo_co_env : nat → co_attempt := λ _,
  mkCoAttempt (false, false, false) false 7 3 4 [EvPacket demo_ack; EvPacket demo_buffer] (λ s, s).

Lemma demo_ack_packet : ack_packet demo_ack.
Proof. split; [by repeat split|by exists []]. Qed.

(** A one-way call of the coroutine client: what goes out says two-way. *)
Lemma co_call_is_twoway_witness :
  ∃ c' sock' info', CoScClient_Sync demo_co_env M_ONEWAY_TYPE 5 [x61; x62] 2 (demo_co demo_sock) None =
      Some (Returns (0, c', Some 1%nat, [ActSendSome (demo_frame (demo_req 1))])) ∧
    cc_socket c' = Some (sock', info') ∧ buf_view (co_buffer info') = [x61; x62].
Proof.
  apply (co_call_is_twoway demo_co_env M_ONEWAY_TYPE 5 [x61; x62] (demo_co demo_sock) demo_sock
    (mkCoInfo true 0 (u32 (-1)) Buffer_new) None [demo_ack] demo_buffer [] M_TWOWAY_TYPE 5 [x61; x62]).
  - reflexivity.
  - reflexivity.
  - apply demo_sock_idle.
  - apply (buf_at_wf _ [] 0), buf_at_new.
  - by vm_compute.
  - reflexivity.
  - cbn. lia.
  - cbn. lia.
  - reflexivity.
  - apply List.Forall_cons; [apply demo_ack_packet|by apply List.Forall_nil].
  - eapply buf_at_wf, demo_buffer_at.
  - by vm_compute.
  - by vm_compute.
  - done.
  - by vm_compute.
Defined.

Lemma ScServer_answers_witness :
  answered false 7 demo_sock 80 (1%nat, Some (demo_req 1))
    (ScServer_OnReceiveData demo_hs false 7 0%nat (Some demo_info) demo_sock demo_buffer).
Proof.
  assert (sc_answer (Some tt) 0%nat (demo_req 1) = (1%nat, Some (demo_req 1))) as <- by by vm_compute.
  apply (ScServer_answers false 7 7 demo_hs (Some tt) 0%nat demo_info demo_sock (demo_req 1) demo_buffer).
  - apply demo_hs_lookup.
  - apply (buf_at_wf _ [] 0), buf_at_new.
  - by vm_compute.
  - apply demo_buffer_at.
  - assert ((sc_answer (Some tt) 0%nat (demo_req 1)).2 = Some (demo_req 1)) as -> by by vm_compute.
    intros r [= <-]. by vm_compute.
Defined.
