(* ===== verification/Timestamp.v ===== *)
(** * base::timestamp

    The clock values of [src/slience/base/timer.hpp] and [timer.cpp], their comparisons and texts.
    The local time is a parameter ([LocalTime]).

    [timestamp_order]: the comparisons are the order of points in time.
    [milliseconds_of_the_epoch]: what stands behind the point of a text. *)

From Stdlib Require Import ZArith Lia List Strings.String Strings.Byte Init.Byte.
From stdpp Require Import base numbers list option.
From S2P Require Import Prelude Buffer.

#[local] Set Warnings "-clear-no-such-hyp".

(** ** Local time *)

Record tm := mkTm { tm_year : Z; tm_mon : Z; tm_mday : Z; tm_hour : Z; tm_min : Z; tm_sec : Z }.

(** [localtime_r], within the ranges of the C library and four-digit years. *)
Class LocalTime := {
  localtime : Z → tm;
  localtime_range t : let m := localtime t in
    -900 <= tm_year m < 8100 ∧ 0 <= tm_mon m < 12 ∧ 1 <= tm_mday m <= 31 ∧
    0 <= tm_hour m < 24 ∧ 0 <= tm_min m < 60 ∧ 0 <= tm_sec m <= 60
}.

(** [strftime] of ["%Y%m%d"] and of ["%Y%m%d %H:%M:%S"]. *)
Definition strftime_ymd (m : tm) : list byte :=
  print_int (tm_year m + 1900) ++ print_pad 2 (tm_mon m + 1) ++ print_pad 2 (tm_mday m).
Definition strftime_ymd_hms (m : tm) : list byte :=
  strftime_ymd m ++ [SP] ++ print_pad 2 (tm_hour m) ++ B[":"] ++ print_pad 2 (tm_min m) ++ B[":"] ++ print_pad 2 (tm_sec m).

Lemma strftime_ymd_hms_length `{LocalTime} t : length (strftime_ymd_hms (localtime t)) = 17%nat.
Proof.
  destruct (localtime_range t) as (Hy & Hmo & Hd & Hh & Hmi & Hs). unfold strftime_ymd_hms, strftime_ymd.
  assert (length (print_int (tm_year (localtime t) + 1900)) = 4%nat) as Ey.
  { unfold print_int. rewrite (proj2 (Z.ltb_ge _ _)) by lia. apply (dec_digits_exact 3); lia. }
  rewrite !length_app, Ey, !print_pad_length by lia. reflexivity.
Qed.

(** ** timestamp *)

Record timestamp := mkTs { tv_sec : Z; tv_usec : Z }.

(** The arithmetic of [long]; [timestamp_order] shows that it does not overflow. *)
Definition millisecond (t : timestamp) : Z := tv_sec t * 1000 + tv_usec t ÷ 1000.
Definition microsecond (t : timestamp) : Z := tv_sec t * 1000000 + tv_usec t.
Definition second (t : timestamp) : Z := tv_sec t + tv_usec t ÷ (1000 * 1000).

Definition stamp_eq (a b : timestamp) : bool := (tv_sec b =? tv_sec a) && (tv_usec b =? tv_usec a).
Definition stamp_ne (a b : timestamp) : bool := negb (stamp_eq b a).
Definition stamp_lt (a b : timestamp) : bool := microsecond a <? microsecond b.
Definition stamp_gt (a b : timestamp) : bool := microsecond a >? microsecond b.
Definition stamp_le (a b : timestamp) : bool := negb (stamp_gt a b).
Definition stamp_ge (a b : timestamp) : bool := negb (stamp_lt a b).

(** What [gettimeofday] gives, before the year 100000. *)
Definition stamp_ok (t : timestamp) : Prop := 0 <= tv_sec t < 2 ^ 42 ∧ 0 <= tv_usec t < 1000000.

(** On the clock's values no [long] overflows and the six comparisons are those of one total
    order, seconds first, for which equal values are the same. *)
Theorem timestamp_order (a b : timestamp) : stamp_ok a → stamp_ok b →
  0 <= microsecond a < 2 ^ 63 ∧
  stamp_lt a b = bool_decide (tv_sec a < tv_sec b ∨ tv_sec a = tv_sec b ∧ tv_usec a < tv_usec b) ∧
  stamp_gt a b = stamp_lt b a ∧ stamp_le a b = (stamp_lt a b || stamp_eq a b) ∧ stamp_ge a b = (stamp_gt a b || stamp_eq a b) ∧
  stamp_ne a b = (stamp_lt a b || stamp_gt a b) ∧ (stamp_eq a b = true ↔ a = b).
Proof.
  intros [Ha1 Ha2] [Hb1 Hb2]. destruct a as [s u], b as [s' u'].
  unfold stamp_le, stamp_ge, stamp_gt, stamp_lt, stamp_ne, stamp_eq, microsecond. cbn [tv_sec tv_usec] in *.
  split; [lia|]. split; [case_bool_decide; [apply Z.ltb_lt|apply Z.ltb_ge]; lia|]. split; [apply Z.gtb_ltb|].
  destruct (Z.ltb_spec (s * 1000000 + u) (s' * 1000000 + u')), (Z.gtb_spec (s * 1000000 + u) (s' * 1000000 + u')),
    (Z.eqb_spec s' s), (Z.eqb_spec u' u), (Z.eqb_spec s s'), (Z.eqb_spec u u'); cbn [andb orb negb];
    try lia; repeat split; try done; try (intros [= -> ->]; lia); intros _; by subst.
Qed.

(** *** Texts *)

Section formats.
Context `{LocalTime}.

(** [%4d] of a year. *)
Definition print_year (y : Z) : list byte := replicate (4 - length (print_int y)) SP ++ print_int y.
Definition print_long (z : Z) : list byte := if z <? 0 then x2d :: dec_digits 19 (- z) else dec_digits 19 z.
Definition pad_long (n : nat) (z : Z) : list byte := replicate (n - length (print_long z)) x30 ++ print_long z.

Definition ymd_text (m : tm) : list byte :=
  print_year (tm_year m + 1900) ++ print_pad 2 (tm_mon m + 1) ++ print_pad 2 (tm_mday m).
Definition hms_text (m : tm) : list byte :=
  print_pad 2 (tm_hour m) ++ B[":"] ++ print_pad 2 (tm_min m) ++ B[":"] ++ print_pad 2 (tm_sec m).

(** A local array of [n] zeros, printed into and made a string. *)
Definition printed (n : nat) (text : list byte) : option (list byte) :=
  b ← snprintf (replicate n x00) 0 n text; Some (c_str b).

Definition format_ymd (t : timestamp) : option (list byte) :=
  printed 20 (ymd_text (localtime (second t))).
Definition format_ymd_hms (t : timestamp) : option (list byte) :=
  let m := localtime (second t) in printed 30 (ymd_text m ++ [SP] ++ hms_text m).
Definition format_ymd_hms_mil (t : timestamp) : option (list byte) :=
  let m := localtime (second t) in
  printed 40 (ymd_text m ++ [SP] ++ hms_text m ++ B["."] ++ pad_long 3 (millisecond t)).
Definition format_mil (t : timestamp) : option (list byte) :=
  printed 10 (pad_long 3 (millisecond t)).
End formats.

(** ** Witnesses *)

#[local] Instance noon : LocalTime.
Proof. refine {| localtime := λ _, mkTm 124 0 2 12 0 0 |}. intros t. cbn. lia. Defined.

(** The milliseconds shown are all of those since the epoch, cut off in [format_mil]. *)
Lemma milliseconds_of_the_epoch :
  format_ymd_hms_mil (mkTs 1704196800 7000) = Some B["20240102 12:00:00.1704196800007"] ∧
  format_mil (mkTs 1704196800 7000) = Some B["170419680"].
Proof. split; vm_compute; reflexivity. Qed.

Lemma timestamp_order_witness :
  stamp_lt (mkTs 5 999999) (mkTs 6 0) = true ∧ stamp_gt (mkTs 5 999999) (mkTs 6 0) = stamp_lt (mkTs 6 0) (mkTs 5 999999).
Proof.
  destruct (timestamp_order (mkTs 5 999999) (mkTs 6 0)) as (_ & H1 & H2 & _); [split; cbn; lia|split; cbn; lia|].
  split; [rewrite H1; reflexivity|exact H2].
Defined.
