(* ===== verification/App.v ===== *)
(** * commonlib: the application's message loop

    [ApplicationBase] of [src/commonlib/svr_base/ApplicationBase.cpp]: the callbacks of
    the I/O threads wrap what happened into messages and queue them under a lock; the main
    loop [Run] takes the queues, hands every message to the application and keeps the used
    messages for the callbacks to use again.

    The queues are the linked lists of SList.v, so that what [join] does to them shows; the
    messages live in a store, their addresses travel through the queues.  The containers of
    contexts are [boost::multi_index] containers, which are not code of this repository: they
    are a parameter, the interface [ContextStore] with what the loop relies on
    ([ContextStoreOk]).  The two kinds of
    sockets have the same code twice; a [side] is the state of one kind.  What the main
    loop finds outside (the clock, the descriptor and the state of each socket, the
    reload file) is the [env] of the round.  The calls made on the application and on the
    sockets are events.

    The callbacks and the main loop exclude each other at the two critical sections of
    [Run]; between them it touches nothing the callbacks see.  So an execution is a sequence
    of callbacks and rounds, a round having callbacks in its middle. *)

From Stdlib Require Import ZArith Lia List Sorting.Sorted Strings.Byte Init.Byte.
From stdpp Require Import base numbers list option gmap.
From S2P Require Import Prelude Buffer SList Timestamp.

#[local] Set Warnings "-clear-no-such-hyp".

(** ** Data *)

(** [AppHeadFrame], packed: 34 bytes. *)
Record AppHeadFrame := mkFrame {
  is_broadcast : Z;
  src_svr_type : Z; dst_svr_type : Z;
  src_instance_id : Z; dst_instance_id : Z;
  src_transaction_id : Z; dst_transaction_id : Z;
  cmd : Z; cmd_length : Z
}.

Definition AppHeadFrame_new : AppHeadFrame := mkFrame 0 0 0 0 0 0 0 0 0.
Definition set_cmd (f : AppHeadFrame) (v : Z) : AppHeadFrame :=
  mkFrame (is_broadcast f) (src_svr_type f) (dst_svr_type f) (src_instance_id f) (dst_instance_id f)
    (src_transaction_id f) (dst_transaction_id f) v (cmd_length f).

Definition FRAME_SIZE : nat := 34.

(** The object whose bytes are [bs], and back. *)
Definition frame_of (bs : list byte) : AppHeadFrame :=
  let w k := le_val (take 4 (drop (2 + 4 * k) bs)) in
  mkFrame (le_val (take 2 bs)) (w 0%nat) (w 1%nat) (w 2%nat) (w 3%nat) (w 4%nat) (w 5%nat) (w 6%nat) (w 7%nat).

Definition bytes_of_frame (f : AppHeadFrame) : list byte :=
  le_bytes 2 (is_broadcast f) ++ le_bytes 4 (src_svr_type f) ++ le_bytes 4 (dst_svr_type f) ++
  le_bytes 4 (src_instance_id f) ++ le_bytes 4 (dst_instance_id f) ++ le_bytes 4 (src_transaction_id f) ++
  le_bytes 4 (dst_transaction_id f) ++ le_bytes 4 (cmd f) ++ le_bytes 4 (cmd_length f).

Definition CMD_SOCKET_CLIENT_IN : Z := 1.
Definition CMD_SOCKET_CLIENT_OUT : Z := 2.

Inductive msg_type := M_SOCKET_IN | M_SOCKET_OUT | M_SOCKET_DATA.

(** [TcpSocketMsg] and [TcpConnectorMsg]; a socket is a number, the error is that of the
    connectors; a fresh message has no type yet. *)
Record SockMsg := mkMsg { m_ptr : option nat; m_error : bool; m_buf : Buffer; m_type : option msg_type }.

(** [TcpSocketContext] and [TcpConnectorContext]. *)
Record Context := mkCtx { c_fd : Z; c_msgcount : Z; c_tt : Z; c_ptr : nat }.

(** ** The container of contexts

    A [multi_index_container] of boost, with two ordered indexes: unique by descriptor, and
    by time.  The library is not modelled: the container is a parameter, an interface of
    the operations the sources call, with the documented behaviour as laws.  [cs_modify]
    is [find] and then [modify] of what was found. *)
Class ContextStore (C : Type) := {
  cs_empty : C;
  cs_find : Z → C → option Context;
  cs_insert : Context → C → bool * C;
  cs_erase : Z → C → C;
  cs_modify : Z → (Context → Context) → C → C;
  cs_by_time : C → list Context
}.

(** A container is a map from descriptors, listed in the order of the times. *)
Class ContextStoreOk (C : Type) `{!ContextStore C} := {
  cs_map : C → gmap Z Context;
  cs_map_empty : cs_map cs_empty = ∅;
  cs_find_ok fd cs : cs_find fd cs = cs_map cs !! fd;
  cs_insert_ok c cs :
    let '(ok, cs') := cs_insert c cs in
    ok = bool_decide (cs_map cs !! c_fd c = None) ∧
    cs_map cs' = if ok then <[c_fd c := c]> (cs_map cs) else cs_map cs;
  cs_erase_ok fd cs : cs_map (cs_erase fd cs) = delete fd (cs_map cs);
  cs_modify_ok fd f cs :
    (∀ c, c_fd (f c) = c_fd c) → cs_map (cs_modify fd f cs) = alter f fd (cs_map cs);
  cs_by_time_perm cs : cs_by_time cs ≡ₚ (map_to_list (cs_map cs)).*2;
  cs_by_time_sorted cs : Sorted (λ c d, c_tt c <= c_tt d) (cs_by_time cs)
}.

Definition FuncModifySocketContext (cnt tt : Z) (c : Context) : Context :=
  mkCtx (c_fd c) cnt (u32 tt) (c_ptr c).

(** ** The state *)

Abbreviation node_heap := (gmap loc (@Node loc)).

(** One kind of sockets: the queue [_..._msg_list], the used messages [_..._msg_list2], the
    two local lists of [Run], their nodes, the messages, the contexts. *)
Record side (C : Type) := mkSide {
  q_in : slist; q_free : slist; q_tmp : slist; q_done : slist;
  nodes : node_heap; msgs : gmap loc SockMsg; ctxs : C
}.
Arguments mkSide {C}. Arguments q_in {C}. Arguments q_free {C}. Arguments q_tmp {C}.
Arguments q_done {C}. Arguments nodes {C}. Arguments msgs {C}. Arguments ctxs {C}.

Record application (C : Type) := mkApp {
  a_sock : side C; a_conn : side C;
  a_now : timestamp;
  a_cache : Z;
  a_last_expire : option timestamp;
  a_last_reload : option timestamp
}.
Arguments mkApp {C}. Arguments a_sock {C}. Arguments a_conn {C}. Arguments a_now {C}.
Arguments a_cache {C}. Arguments a_last_expire {C}. Arguments a_last_reload {C}.

Inductive kind := KSocket | KConnector.

(** The calls the main loop makes on the application and on the sockets. *)
Inductive app_ev :=
| EvProc (fd : Z) (frame : AppHeadFrame) (data : list byte) (len : Z)
| EvNotFound (fd : Z)
| EvClose (ptr : nat)
| EvReload
| EvExit.

(** What a round of [Run] finds: [e_clock] is the time of the first reading of a static
    clock in the round. *)
Record env := mkEnv {
  e_now : timestamp;
  e_clock : timestamp;
  e_reload : bool;
  e_fd : nat → Z;
  e_connected : nat → bool
}.

Section app.
Context `{Malloc} {C : Type} `{!ContextStore C}.
Abbreviation side := (side C).
Abbreviation application := (application C).
(** [SerializeAsString] of the two empty messages of [svr_base.proto]. *)
Context (client_in client_out : list byte).

Definition side_new (ns : node_heap) : side :=
  mkSide slist_new slist_new slist_new slist_new ns ∅ cs_empty.
Definition ApplicationBase_new (now : timestamp) : application :=
  mkApp (side_new ∅) (side_new ∅) now 5000 None None.

Definition msg_new : SockMsg := mkMsg None false Buffer_new None.

(** ** The callbacks *)

(** A used message, or a new one. *)
Definition take_message (s : side) : option (loc * side) :=
  if slist_size (q_free s) >? 0 then
    '(m, h) ← slist_front (q_free s) (nodes s);
    '(f, h) ← slist_pop_front (q_free s) h;
    Some (m, mkSide (q_in s) f (q_tmp s) (q_done s) h (msgs s) (ctxs s))
  else
    let m := fresh (dom (msgs s)) in
    Some (m, mkSide (q_in s) (q_free s) (q_tmp s) (q_done s) (nodes s) (<[m := msg_new]> (msgs s)) (ctxs s)).

(** Fill it in and queue it. *)
Definition post_message (s : side) (f : SockMsg → option SockMsg) : option side :=
  '(m, s) ← take_message s;
  msg ← msgs s !! m;
  msg ← f msg;
  '(q, h) ← slist_push_back (q_in s) m (nodes s);
  Some (mkSide q (q_free s) (q_tmp s) (q_done s) h (<[m := msg]> (msgs s)) (ctxs s)).

Definition set_sock (a : application) (s : side) : application :=
  mkApp s (a_conn a) (a_now a) (a_cache a) (a_last_expire a) (a_last_reload a).
Definition set_conn (a : application) (s : side) : application :=
  mkApp (a_sock a) s (a_now a) (a_cache a) (a_last_expire a) (a_last_reload a).

Definition OnConnected_sock (ptr : nat) (a : application) : option application :=
  s ← post_message (a_sock a) (λ m, Some (mkMsg (Some ptr) (m_error m) (m_buf m) (Some M_SOCKET_IN)));
  Some (set_sock a s).
Definition OnConnected_conn (ptr : nat) (error : bool) (a : application) : option application :=
  s ← post_message (a_conn a) (λ m, Some (mkMsg (Some ptr) error (m_buf m) (Some M_SOCKET_IN)));
  Some (set_conn a s).
Definition OnDisconnected_sock (ptr : nat) (a : application) : option application :=
  s ← post_message (a_sock a) (λ m, Some (mkMsg (Some ptr) (m_error m) (m_buf m) (Some M_SOCKET_OUT)));
  Some (set_sock a s).
Definition OnDisconnected_conn (ptr : nat) (a : application) : option application :=
  s ← post_message (a_conn a) (λ m, Some (mkMsg (Some ptr) (m_error m) (m_buf m) (Some M_SOCKET_OUT)));
  Some (set_conn a s).

(** The message's buffer is appended to. *)
Definition fill_data (ptr : nat) (buffer : Buffer) (m : SockMsg) : option SockMsg :=
  b ← Buffer_Write (m_buf m) (Buffer_Data buffer) (Buffer_Length buffer);
  Some (mkMsg (Some ptr) (m_error m) b (Some M_SOCKET_DATA)).
Definition OnReceiveData_sock (ptr : nat) (buffer : Buffer) (a : application) : option application :=
  s ← post_message (a_sock a) (fill_data ptr buffer); Some (set_sock a s).
Definition OnReceiveData_conn (ptr : nat) (buffer : Buffer) (a : application) : option application :=
  s ← post_message (a_conn a) (fill_data ptr buffer); Some (set_conn a s).

(** ** What the main loop does with a message *)

Definition ctx_new (fd now : Z) (ptr : nat) : Context := mkCtx fd 0 (u32 now) ptr.

(** [OnConnection]: a new context, or the socket is closed. *)
Definition OnConnection_sock (now : Z) (fd : Z) (ptr : nat) (cs : C)
  : C * list app_ev :=
  let '(ok, cs) := cs_insert (ctx_new fd now ptr) cs in
  if negb ok then (cs, [EvClose ptr])
  else (cs, [EvProc fd (set_cmd AppHeadFrame_new CMD_SOCKET_CLIENT_IN) client_in (Z.of_nat (length client_in))]).

Definition OnConnection_conn (now : Z) (fd : Z) (ptr : nat) (error : bool) (cs : C)
  : C * list app_ev :=
  if negb error then
    let '(ok, cs) := cs_insert (ctx_new fd now ptr) cs in
    if negb ok then (cs, [EvClose ptr])
    else (cs, [EvProc fd (set_cmd AppHeadFrame_new CMD_SOCKET_CLIENT_IN) client_in (Z.of_nat (length client_in))])
  else (cs, []).

(** [OnDisConnection]: the application is told, the context erased. *)
Definition OnDisConnection_sock (fd : Z) (cs : C) : C * list app_ev :=
  (cs_erase fd cs,
   [EvProc fd (set_cmd AppHeadFrame_new CMD_SOCKET_CLIENT_OUT) client_out (Z.of_nat (length client_out))]).
Definition OnDisConnection_conn (fd : Z) (cs : C) : C * list app_ev :=
  (cs_erase fd cs,
   [EvProc fd (set_cmd AppHeadFrame_new CMD_SOCKET_CLIENT_OUT) client_out (Z.of_nat (length client_out))]).

(** A data message: the frame is read from the start of the message's buffer, whatever it
    holds. *)
Definition proc_data (now fd : Z) (buf : Buffer) (cs : C) : option (C * list app_ev) :=
  match cs_find fd cs with
  | Some c =>
      let cs := cs_modify fd (FuncModifySocketContext (s32 (c_msgcount c + 1)) now) cs in
      bs ← load (Buffer_Data buf) 0 FRAME_SIZE;
      let frame := frame_of bs in
      Some (cs, [EvProc fd frame (drop FRAME_SIZE (Buffer_Data buf)) (cmd_length frame)])
  | None => Some (cs, [EvNotFound fd])
  end.

(** The body of the two message loops; a type that was never set is [assert(0)], a null
    socket a fault. *)
Definition proc_message (k : kind) (e : env) (now : Z) (msg : SockMsg) (cs : C)
  : option (C * list app_ev) :=
  ptr ← m_ptr msg;
  ty ← m_type msg;
  let fd := e_fd e ptr in
  match ty, k with
  | M_SOCKET_DATA, _ => proc_data now fd (m_buf msg) cs
  | M_SOCKET_IN, KSocket => Some (OnConnection_sock now fd ptr cs)
  | M_SOCKET_IN, KConnector => Some (OnConnection_conn now fd ptr (m_error msg) cs)
  | M_SOCKET_OUT, KSocket => Some (OnDisConnection_sock fd cs)
  | M_SOCKET_OUT, KConnector => Some (OnDisConnection_conn fd cs)
  end.

(** [while (tmp.size())]: the fuel is the size, which every turn decrements. *)
Fixpoint proc_loop (fuel : nat) (k : kind) (e : env) (now : Z) (s : side) : option (side * list app_ev) :=
  if slist_size (q_tmp s) =? 0 then Some (s, [])
  else
    match fuel with
    | O => None
    | S fuel =>
        '(m, h) ← slist_front (q_tmp s) (nodes s);
        msg ← msgs s !! m;
        '(cs, evs) ← proc_message k e now msg (ctxs s);
        '(t, h) ← slist_pop_front (q_tmp s) h;
        '(d, h) ← slist_push_back (q_done s) m h;
        '(s, evs') ← proc_loop fuel k e now (mkSide (q_in s) (q_free s) t d h (msgs s) cs);
        Some (s, evs ++ evs')
    end.

(** ** The round *)

(** The first critical section: the queues are taken. *)
Definition swap_in (s : side) : side :=
  let '(t, i) := slist_swap (q_tmp s) (q_in s) in
  mkSide i (q_free s) t (q_done s) (nodes s) (msgs s) (ctxs s).

Definition Run_swap (a : application) : application :=
  if negb (slist_size (q_in (a_sock a)) =? 0) || negb (slist_size (q_in (a_conn a)) =? 0)
  then set_conn (set_sock a (swap_in (a_sock a))) (swap_in (a_conn a))
  else a.

(** The second: the used messages are kept, up to the size of the cache. *)
Fixpoint recycle_loop (fuel : nat) (cache : Z) (s : side) : option side :=
  if slist_size (q_done s) =? 0 then Some s
  else
    match fuel with
    | O => None
    | S fuel =>
        '(m, h) ← slist_front (q_done s) (nodes s);
        '(f, h, ms) ← (if slist_size (q_free s) <? cache
                       then '(f, h) ← slist_push_back (q_free s) m h; Some (f, h, msgs s)
                       else Some (q_free s, h, delete m (msgs s)));
        '(d, h) ← slist_pop_front (q_done s) h;
        recycle_loop fuel cache (mkSide (q_in s) f (q_tmp s) d h ms (ctxs s))
    end.

Definition recycle_side (cache : Z) (s : side) : option side :=
  if s32 (slist_size (q_done s) + slist_size (q_free s)) <=? cache then
    '((f, d), h) ← slist_join (q_free s) (q_done s) (nodes s);
    Some (mkSide (q_in s) f (q_tmp s) d h (msgs s) (ctxs s))
  else recycle_loop (Z.to_nat (slist_size (q_done s))) cache s.

(** Nothing used: the loop sleeps. *)
Definition Run_recycle (a : application) : option application :=
  if negb (slist_size (q_done (a_conn a)) =? 0) || negb (slist_size (q_done (a_sock a)) =? 0) then
    c ← recycle_side (a_cache a) (a_conn a);
    s ← recycle_side (a_cache a) (a_sock a);
    Some (set_conn (set_sock a s) c)
  else Some a.

(** [CheckTcpSocketExpire]: the contexts from the oldest on, up to the first one that is
    recent or no longer connected. *)
Fixpoint expire_loop (now : Z) (connected : nat → bool) (cs : list Context) : list app_ev :=
  match cs with
  | [] => []
  | c :: cs =>
      if (now - c_tt c >=? 10) && connected (c_ptr c)
      then EvClose (c_ptr c) :: expire_loop now connected cs
      else []
  end.

(** A static clock is read when the function is first called. *)
Definition CheckTcpSocketExpire (e : env) (a : application) : application * list app_ev :=
  let last := default (e_clock e) (a_last_expire a) in
  let now := a_now a in
  if second now - second last >=? 15 then
    (mkApp (a_sock a) (a_conn a) (a_now a) (a_cache a) (Some now) (a_last_reload a),
     expire_loop (second now) (e_connected e) (cs_by_time (ctxs (a_sock a))))
  else (mkApp (a_sock a) (a_conn a) (a_now a) (a_cache a) (Some last) (a_last_reload a), []).

Definition OnTick := CheckTcpSocketExpire.

Definition CheckReload (e : env) (a : application) : bool * application :=
  let last := default (e_clock e) (a_last_reload a) in
  if second (a_now a) - second last >? 2 then
    (e_reload e, mkApp (a_sock a) (a_conn a) (a_now a) (a_cache a) (a_last_expire a) (Some (a_now a)))
  else (false, mkApp (a_sock a) (a_conn a) (a_now a) (a_cache a) (a_last_expire a) (Some last)).

(** Before the messages: the clock, the reload file. *)
Definition Run_tick (e : env) (a : application) : application * list app_ev :=
  let '(a, ev1) :=
    if millisecond (e_now e) >? millisecond (a_now a)
    then OnTick e (mkApp (a_sock a) (a_conn a) (e_now e) (a_cache a) (a_last_expire a) (a_last_reload a))
    else (a, []) in
  let '(r, a) := CheckReload e a in
  (a, ev1 ++ if r then [EvReload] else []).

(** The connectors' messages, then the sockets'. *)
Definition Run_proc (e : env) (a : application) : option (application * list app_ev) :=
  '(c, ev1) ← proc_loop (Z.to_nat (slist_size (q_tmp (a_conn a)))) KConnector e (second (a_now a)) (a_conn a);
  '(s, ev2) ← proc_loop (Z.to_nat (slist_size (q_tmp (a_sock a)))) KSocket e (second (a_now a)) (a_sock a);
  Some (set_conn (set_sock a s) c, ev1 ++ ev2).

(** [GetTcpSocketContext], [GetTcpConnectorContext]: the socket of a descriptor. *)
Definition GetTcpSocketContext (fd : Z) (a : application) : option nat :=
  c_ptr <$> cs_find fd (ctxs (a_sock a)).
Definition GetTcpConnectorContext (fd : Z) (a : application) : option nat :=
  c_ptr <$> cs_find fd (ctxs (a_conn a)).

(** What the I/O threads do. *)
Inductive callback :=
| CbConnected (ptr : nat) | CbDisconnected (ptr : nat) | CbData (ptr : nat) (buffer : Buffer)
| CbConnectedC (ptr : nat) (error : bool) | CbDisconnectedC (ptr : nat) | CbDataC (ptr : nat) (buffer : Buffer).

Definition do_callback (a : application) (c : callback) : option application :=
  match c with
  | CbConnected p => OnConnected_sock p a
  | CbDisconnected p => OnDisconnected_sock p a
  | CbData p b => OnReceiveData_sock p b a
  | CbConnectedC p err => OnConnected_conn p err a
  | CbDisconnectedC p => OnDisconnected_conn p a
  | CbDataC p b => OnReceiveData_conn p b a
  end.

Fixpoint do_callbacks (a : application) (cs : list callback) : option application :=
  match cs with
  | [] => Some a
  | c :: cs => a ← do_callback a c; do_callbacks a cs
  end.

(** One turn of [Run]'s loop, with the callbacks that come between its critical sections. *)
Definition Run_round (e : env) (mid : list callback) (a : application) : option (application * list app_ev) :=
  let '(a, ev1) := Run_tick e a in
  let a := Run_swap a in
  a ← do_callbacks a mid;
  '(a, ev2) ← Run_proc e a;
  a ← Run_recycle a;
  Some (a, ev1 ++ ev2).

Inductive app_op := OpCallback (c : callback) | OpRound (e : env) (mid : list callback).

(** An execution until [gAppExist] is set, then [OnExit]. *)
Fixpoint Run_ops (ops : list app_op) (a : application) : option (application * list app_ev) :=
  match ops with
  | [] => Some (a, [])
  | OpCallback c :: ops => a ← do_callback a c; Run_ops ops a
  | OpRound e mid :: ops =>
      '(a, ev1) ← Run_round e mid a;
      '(a, ev2) ← Run_ops ops a;
      Some (a, ev1 ++ ev2)
  end.

Definition Run (ops : list app_op) (a : application) : option (application * list app_ev) :=
  '(a, ev) ← Run_ops ops a; Some (a, ev ++ [EvExit]).
End app.
