(* ===== verification/AppSpec.v ===== *)
(** * The application's message loop: what it promises

    A queue of messages as values, for the accepted sockets ([KSocket]) alone: the
    callbacks append to it, a round of the main loop hands every message of the queue to
    the application in order, and the contents of used messages come back to the callbacks.
    [App.Run] is proved to behave like it in AppProps.v.

    A message is its socket, its type and the bytes its buffer holds.  The contexts are a
    map; only the order of equal times in the expiry check, and the bytes of a buffer's
    block beyond what was written to it, are left open. *)

From Stdlib Require Import ZArith Lia List Sorting.Sorted Strings.Byte Init.Byte.
From stdpp Require Import base numbers list option gmap.
From S2P Require Import Prelude Buffer SList Timestamp App.

Record smsg := SMsg { s_ptr : nat; s_type : msg_type; s_bytes : list byte }.

Record mach := Mach {
  m_pend : list smsg;            (** queued *)
  m_pool : list (list byte);     (** what the buffers of the used messages hold *)
  m_ctxs : gmap Z Context;
  m_now : timestamp;
  m_expire : option timestamp;
  m_reload : option timestamp
}.

Definition mach_new (now : timestamp) : mach := Mach [] [] ∅ now None None.

(** ** The callbacks *)

Definition socket_callback (c : callback) : Prop :=
  match c with
  | CbConnected _ | CbDisconnected _ => True
  | CbData _ b => buf_wf b
  | _ => False
  end.

Definition callback_info (c : callback) : nat * msg_type :=
  match c with
  | CbConnected p | CbConnectedC p _ => (p, M_SOCKET_IN)
  | CbDisconnected p | CbDisconnectedC p => (p, M_SOCKET_OUT)
  | CbData p _ | CbDataC p _ => (p, M_SOCKET_DATA)
  end.

Definition callback_data (c : callback) : list byte :=
  match c with CbData _ b | CbDataC _ b => buf_view b | _ => [] end.

(** A callback queues a message; its bytes follow those of the used message it takes. *)
Definition spec_callback (m : mach) (c : callback) : mach :=
  let msg := SMsg (callback_info c).1 (callback_info c).2 (default [] (head (m_pool m)) ++ callback_data c) in
  Mach (m_pend m ++ [msg]) (tail (m_pool m)) (m_ctxs m) (m_now m) (m_expire m) (m_reload m).

(** ** The main loop *)

Section spec.
Context (client_in client_out : list byte).

Definition note (cmd : Z) (fd : Z) (str : list byte) : app_ev :=
  EvProc fd (set_cmd AppHeadFrame_new cmd) str (Z.of_nat (length str)).

(** What the application is told of a message, one event each, and the contexts after
    it.  [junk] is what the buffer's block holds beyond the message's bytes. *)
Inductive spec_message (e : env) (now : Z) : smsg → gmap Z Context → list app_ev → gmap Z Context → Prop :=
| sm_in p bs M :
    M !! e_fd e p = None →
    spec_message e now (SMsg p M_SOCKET_IN bs) M [note CMD_SOCKET_CLIENT_IN (e_fd e p) client_in]
      (<[e_fd e p := mkCtx (e_fd e p) 0 (u32 now) p]> M)
| sm_in_twice p bs M :
    M !! e_fd e p ≠ None → spec_message e now (SMsg p M_SOCKET_IN bs) M [EvClose p] M
| sm_out p bs M :
    spec_message e now (SMsg p M_SOCKET_OUT bs) M [note CMD_SOCKET_CLIENT_OUT (e_fd e p) client_out]
      (delete (e_fd e p) M)
| sm_data p bs junk M c :
    M !! e_fd e p = Some c → 1024 <= Z.of_nat (length (bs ++ junk)) →
    let frame := frame_of (take FRAME_SIZE (bs ++ junk)) in
    spec_message e now (SMsg p M_SOCKET_DATA bs) M
      [EvProc (e_fd e p) frame (drop FRAME_SIZE (bs ++ junk)) (cmd_length frame)]
      (<[e_fd e p := mkCtx (c_fd c) (s32 (c_msgcount c + 1)) (u32 now) (c_ptr c)]> M)
| sm_data_unknown p bs M :
    M !! e_fd e p = None → spec_message e now (SMsg p M_SOCKET_DATA bs) M [EvNotFound (e_fd e p)] M.

Inductive spec_messages (e : env) (now : Z) : list smsg → gmap Z Context → list app_ev → gmap Z Context → Prop :=
| sms_nil M : spec_messages e now [] M [] M
| sms_cons msg msgs M M1 M2 ev1 ev2 :
    spec_message e now msg M ev1 M1 → spec_messages e now msgs M1 ev2 M2 →
    spec_messages e now (msg :: msgs) M (ev1 ++ ev2) M2.

(** The idle contexts, oldest first, up to the first that is recent or not connected. *)
Definition expired (now : Z) (connected : nat → bool) (M : gmap Z Context) (evs : list app_ev) : Prop :=
  ∃ cs1 cs2, cs1 ++ cs2 ≡ₚ (map_to_list M).*2 ∧ Sorted (λ c d, c_tt c <= c_tt d) (cs1 ++ cs2) ∧
    evs = map (λ c, EvClose (c_ptr c)) cs1 ∧
    Forall (λ c, 10 <= now - c_tt c ∧ connected (c_ptr c) = true) cs1 ∧
    (∀ c, head cs2 = Some c → now - c_tt c < 10 ∨ connected (c_ptr c) = false).

(** The clock: the expiry check every 15 seconds when it moved, the reload check every 3. *)
Definition spec_tick (e : env) (m : mach) (evs : list app_ev) (m' : mach) : Prop :=
  let moved := millisecond (e_now e) >? millisecond (m_now m) in
  let now := if moved then e_now e else m_now m in
  let last := default (e_clock e) (m_expire m) in
  let expire := moved && (second now - second last >=? 15) in
  let rlast := default (e_clock e) (m_reload m) in
  let reload := second now - second rlast >? 2 in
  ∃ closes,
    (if expire then expired (second now) (e_connected e) (m_ctxs m) closes else closes = []) ∧
    evs = closes ++ (if reload && e_reload e then [EvReload] else []) ∧
    m' = Mach (m_pend m) (m_pool m) (m_ctxs m) now
           (if moved then Some (if expire then now else last) else m_expire m)
           (Some (if reload then now else rlast)).

(** A round: everything queued is handed over in order, then its buffers are kept for the
    callbacks, 5000 at most. *)
Inductive spec_round (e : env) (mid : list callback) (m : mach) : list app_ev → mach → Prop :=
| SpecRound ev1 m1 m2 ev2 M :
    spec_tick e m ev1 m1 →
    m2 = fold_left spec_callback mid (Mach [] (m_pool m1) (m_ctxs m1) (m_now m1) (m_expire m1) (m_reload m1)) →
    spec_messages e (second (m_now m1)) (m_pend m1) (m_ctxs m1) ev2 M →
    spec_round e mid m (ev1 ++ ev2)
      (Mach (m_pend m2)
         (m_pool m2 ++ take (5000 - length (m_pool m2)) (map s_bytes (m_pend m1)))
         M (m_now m2) (m_expire m2) (m_reload m2)).

Inductive spec_ops : list app_op → mach → list app_ev → mach → Prop :=
| so_nil m : spec_ops [] m [] m
| so_callback c ops m evs m' :
    spec_ops ops (spec_callback m c) evs m' → spec_ops (OpCallback c :: ops) m evs m'
| so_round e mid ops m m1 m2 ev1 ev2 :
    spec_round e mid m ev1 m1 → spec_ops ops m1 ev2 m2 →
    spec_ops (OpRound e mid :: ops) m (ev1 ++ ev2) m2.

(** Nothing is left queued by a last round without callbacks. *)
Lemma spec_ops_drained ops m evs m' e :
  spec_ops ops m evs m' → list.last ops = Some (OpRound e []) → m_pend m' = [].
Proof.
  induction 1 as [m|c ops m evs m' Hops IH|e' mid ops m m1 m2 ev1 ev2 Hr Hops IH]; [done|..].
  - destruct ops; [done|]. by rewrite last_cons_cons.
  - destruct ops as [|op ops]; [|by rewrite last_cons_cons]. intros [= -> ->].
    inversion Hops; subst. by inversion Hr; subst.
Qed.
End spec.
