(* ===== verification/AppProps.v ===== *)
(** * The application's message loop: theorems

    About the definitions of App.v.  [App_delivers_in_order]: as long as only accepted
    sockets are used, no execution faults and the calls made on the application are those
    of the queue of AppSpec.v.  The theorems after it are the cases in which the loop does
    something else: messages used again, both kinds of sockets at once, descriptors used
    again.  [list_store] is a container of contexts, the instance of [ContextStore] the
    witnesses use. *)

From Stdlib Require Import ZArith Lia List Sorting.Sorted Strings.Byte Init.Byte.
From stdpp Require Import base numbers list option gmap sorting.
From S2P Require Import Prelude Buffer SList Timestamp App AppSpec.

#[local] Set Warnings "-clear-no-such-hyp".

(** ** The state of one side *)

Section side.
Context `{Malloc} {C : Type} `{!ContextStore C, !ContextStoreOk C} (client_in client_out : list byte).
Abbreviation side := (side C).
Abbreviation application := (application C).

(** A message in the store, with a buffer of at most [b] bytes whose block has room for a
    frame. *)
Definition msg_ok (ms : gmap loc SockMsg) (b : Z) (m : loc) : Prop :=
  ∃ msg xs, ms !! m = Some msg ∧ buf_at (m_buf msg) xs 0 ∧ Z.of_nat (length xs) <= b ∧ 1024 <= _size (m_buf msg).

(** The messages at [l] are the values [xs]. *)
Definition holds {A} (R : SockMsg → A → Prop) (ms : gmap loc SockMsg) (l : list loc) (xs : list A) : Prop :=
  Forall2 (λ m x, ∃ msg, ms !! m = Some msg ∧ R msg x) l xs.

Definition has_bytes (msg : SockMsg) (bs : list byte) : Prop := buf_at (m_buf msg) bs 0.
Definition says (msg : SockMsg) (v : smsg) : Prop :=
  m_ptr msg = Some (s_ptr v) ∧ m_type msg = Some (s_type v) ∧ has_bytes msg (s_bytes v).

Record side_at (s : side) (I F T D : list loc) (b n : Z) : Prop := {
  sa_reps : reps (nodes s) [(q_in s, I); (q_free s, F); (q_tmp s, T); (q_done s, D)];
  sa_nodup : NoDup (I ++ F ++ T ++ D);
  sa_msgs : Forall (msg_ok (msgs s) b) (I ++ F ++ T ++ D);
  sa_len : Z.of_nat (length (I ++ F ++ T ++ D)) <= n
}.





Lemma holds_bytes ms l vs : holds says ms l vs → holds has_bytes ms l (map s_bytes vs).
Proof.
  intros Hh. induction Hh as [|m v l vs (msg & Hm & _ & _ & Hb) _ IH]; constructor; [|exact IH].
  by exists msg.
Qed.




(** ** The callbacks *)




(** ** The main loop *)









(** ** Executions with accepted sockets only *)

























End side.

(** ** A container *)

Definition tt_le (c d : Context) : Prop := c_tt c <= c_tt d.
#[export] Instance tt_le_dec : RelDecision tt_le.
Proof. intros c d. unfold tt_le. apply _. Defined.
#[export] Instance tt_le_total : Total tt_le.
Proof. intros c d. unfold tt_le. lia. Qed.

(** A map from descriptors, sorted by time when it is listed. *)
#[export] Instance map_store : ContextStore (gmap Z Context) := {|
  cs_empty := ∅;
  cs_find fd M := M !! fd;
  cs_insert c M := match M !! c_fd c with Some _ => (false, M) | None => (true, <[c_fd c := c]> M) end;
  cs_erase fd M := delete fd M;
  cs_modify fd f M := alter f fd M;
  cs_by_time M := merge_sort tt_le (map_to_list M).*2
|}.

#[export] Instance map_store_ok : ContextStoreOk (gmap Z Context).
Proof.
  refine {| cs_map := λ M, M |}; cbn; try done.
  - intros c M. by destruct (M !! c_fd c).
  - intros M. apply merge_sort_Permutation.
  - intros M. apply (Sorted_merge_sort tt_le).
Defined.

(** ** Executions *)

Section executions.
Context `{Malloc} {C : Type} `{!ContextStore C, !ContextStoreOk C} (client_in client_out : list byte).


(** Data queued in a used message follows the bytes that message had: what the main
    loop reads as the frame of the new data is the frame of the old. *)
Theorem App_reuses_message (s : side C) (I F T D : list loc) (m : loc) (msg : SockMsg) (xs : list byte)
    (b n : Z) (ptr : nat) (buffer : Buffer) :
  side_at s I (m :: F) T D b n → n < 2 ^ 31 - 1 → msgs s !! m = Some msg → buf_at (m_buf msg) xs 0 →
  (FRAME_SIZE ≤ length xs)%nat → buf_wf buffer → buf_room xs (length (buf_view buffer)) →
  ∃ s' msg', post_message s (fill_data ptr buffer) = Some s' ∧ msgs s' !! m = Some msg' ∧
    m_ptr msg' = Some ptr ∧ buf_at (m_buf msg') (xs ++ buf_view buffer) 0 ∧
    ∀ now fd (cs : C) c, cs_find fd cs = Some c → ∃ cs' data,
      proc_data now fd (m_buf msg') cs =
        Some (cs', [EvProc fd (frame_of (take FRAME_SIZE xs)) data (cmd_length (frame_of (take FRAME_SIZE xs)))]).
Proof.
  intros [Hr Hnd Hm Hl] Hn Em Hb Hx Hw Hroom. unfold post_message, take_message.
  assert (reps (nodes s) ((q_free s, m :: F) :: [(q_in s, I); (q_tmp s, T); (q_done s, D)])) as Hr'
    by (eapply reps_perm; [exact Hr|by apply perm_swap]).
  rewrite (reps_size _ _ _ _ Hr'). rewrite !length_app in Hl. cbn [length] in Hl.
  destruct (Z.gtb_spec (Z.of_nat (length (m :: F))) 0); [|cbn [length] in *; lia].
  destruct (reps_pop _ _ _ _ _ Hr') as (Hf & f & h & Ep & Hr2); [lia|].
  rewrite Hf. cbn [mbind option_bind]. rewrite Ep. cbn [mbind option_bind msgs]. rewrite Em. cbn [mbind option_bind].
  unfold fill_data. rewrite Buffer_Write_view by done.
  destruct (buf_at_append _ _ _ (buf_view buffer) Hb Hroom) as (b' & -> & Hb'). cbn [mbind option_bind q_in nodes].
  assert (reps h ((q_in s, I) :: [(f, F); (q_tmp s, T); (q_done s, D)])) as Hr3
    by (eapply reps_perm; [exact Hr2|by apply perm_swap]).
  destruct (reps_push _ _ _ _ m Hr3) as (q & h' & -> & _); [lia|]. cbn [mbind option_bind].
  eexists _, _. split; [reflexivity|]. cbn [msgs]. rewrite lookup_insert_eq. split; [reflexivity|].
  split; [done|]. split; [exact Hb'|]. intros now fd cs c Hfd. cbn [m_buf]. unfold proc_data. rewrite Hfd.
  destruct Hb' as ((_ & _ & Hl') & Ht & Ho). unfold Buffer_Data. rewrite Ho, drop_0.
  pose proof (f_equal length Ht) as Hlen. rewrite length_take, length_app in Hlen.
  rewrite load_ok by lia. cbn [mbind option_bind]. rewrite drop_0.
  assert (take FRAME_SIZE (_data b') = take FRAME_SIZE xs) as ->; [|by eexists _, _].
  transitivity (take FRAME_SIZE (take (Z.to_nat (_pos b')) (_data b'))); [rewrite take_take; f_equal; lia|].
  rewrite Ht. rewrite take_app_le by lia. done.
Qed.
End executions.

#[local] Existing Instance zero_malloc.

(** A buffer with the given bytes. *)
Definition buffer_of (bs : list byte) : Buffer := default Buffer_new (Buffer_Write Buffer_new bs (Z.of_nat (length bs))).

(** A round in which every socket has descriptor [fd]. *)
Definition round_fd (fd : Z) : app_op := OpRound (mkEnv (mkTs 100 0) (mkTs 100 0) false (λ _, fd) (λ _, true)) [].

Definition ping : Buffer := buffer_of (bytes_of_frame (set_cmd AppHeadFrame_new 7)).

(** Both kinds of sockets in use: a round in which only the connectors have messages
    joins the sockets' empty list of used messages, after which the used messages are
    taken until the program dereferences null. *)
Theorem App_mixed_faults :
  Run (C:=gmap Z Context) [] [] [OpCallback (CbData 1 ping); OpCallback (CbData 1 ping); round_fd 5;
             OpCallback (CbDataC 2 ping); round_fd 5;
             OpCallback (CbData 1 ping); round_fd 5;
             OpCallback (CbData 1 ping); OpCallback (CbData 1 ping)]
      (ApplicationBase_new (mkTs 99 0)) = None.
Proof. vm_compute. reflexivity. Qed.

(** A closed socket has descriptor -1 when its disconnection is handled: its context
    stays, and the next socket that gets the same descriptor is closed. *)
Theorem App_fd_reuse_rejected {C} `{!ContextStore C, !ContextStoreOk C} (fd t1 t2 : Z) (p1 p2 : nat) (cs : C) :
  0 <= fd → cs_find fd cs = None →
  let '(cs1, ev1) := OnConnection_sock [] t1 fd p1 cs in
  let '(cs2, ev2) := OnDisConnection_sock [] (-1) cs1 in
  let '(cs3, ev3) := OnConnection_sock [] t2 fd p2 cs2 in
  cs_find fd cs2 = Some (ctx_new fd t1 p1) ∧ cs_find fd cs3 = cs_find fd cs2 ∧ ev3 = [EvClose p2].
Proof.
  intros Hfd Hf. rewrite cs_find_ok in Hf. unfold OnConnection_sock, OnDisConnection_sock.
  pose proof (cs_insert_ok (ctx_new fd t1 p1) cs) as H1. destruct (cs_insert _ cs) as [ok cs1].
  destruct H1 as [-> H1]. cbn [c_fd ctx_new] in H1. rewrite bool_decide_true in H1 by done.
  rewrite bool_decide_true by done. cbn [negb].
  assert (cs_map (cs_erase (-1) cs1) !! fd = Some (ctx_new fd t1 p1)) as H2.
  { rewrite cs_erase_ok, lookup_delete_ne, H1 by lia. apply lookup_insert_eq. }
  pose proof (cs_insert_ok (ctx_new fd t2 p2) (cs_erase (-1) cs1)) as H3.
  destruct (cs_insert _ (cs_erase (-1) cs1)) as [ok cs3]. destruct H3 as [-> H3]. cbn [c_fd ctx_new] in H3.
  rewrite bool_decide_false in H3 by (by rewrite H2).
  cbn [c_fd ctx_new]. rewrite bool_decide_false by (by rewrite H2).
  cbn [negb]. by rewrite !cs_find_ok, H3.
Qed.

(** ** Witnesses *)

(** Two packets of one socket, a callback in the middle of a round, a last round. *)
Definition two_packets : list app_op :=
  [OpCallback (CbConnected 1); OpCallback (CbData 1 ping);
   OpRound (mkEnv (mkTs 100 0) (mkTs 100 0) false (λ _, 5) (λ _, true)) [CbData 1 ping]; round_fd 5].

Lemma ping_wf : buf_wf ping ∧ Z.of_nat (length (buf_view ping)) = 34.
Proof.
  assert (buf_room [] (length (bytes_of_frame (set_cmd AppHeadFrame_new 7)))) as Hroom by (unfold buf_room; vm_compute; done).
  destruct (buf_at_append Buffer_new [] 0 _ buf_at_new Hroom) as (b & E & Hb).
  assert (ping = b) as -> by (unfold ping, buffer_of; by rewrite E).
  split; [by eapply buf_at_wf|]. rewrite (buf_at_view _ _ _ Hb). reflexivity.
Qed.


(** What the application is told by that run. *)
Example two_packets_calls :
  snd <$> Run (C:=gmap Z Context) [] [] two_packets (ApplicationBase_new (mkTs 99 0)) =
    Some [note CMD_SOCKET_CLIENT_IN 5 []; EvProc 5 (set_cmd AppHeadFrame_new 7) (replicate 990 x00) 0;
          EvProc 5 (set_cmd AppHeadFrame_new 7) (replicate 990 x00) 0; EvExit].
Proof. vm_compute. reflexivity. Qed.

Definition used_message : SockMsg := mkMsg (Some 9%nat) false ping (Some M_SOCKET_DATA).

(** A side with one used message. *)
Lemma used_side : ∃ (s : side (gmap Z Context)) m, side_at s [] [m] [] [] 34 1 ∧ msgs s !! m = Some used_message.
Proof.
  assert (reps (∅ : node_heap) [(slist_new, []); (slist_new, []); (slist_new, []); (slist_new, [])]) as Hr.
  { exists [[]; []; []; []]. split; [|apply NoDup_nil_2]. repeat (constructor; [apply rep_new|]). constructor. }
  destruct (reps_push _ _ _ _ (1%positive : loc) Hr) as (q & h & _ & Hr'); [cbn; lia|].
  destruct ping_wf as [Hw Hl].
  exists (mkSide slist_new q slist_new slist_new h {[(1%positive : loc) := used_message]} ∅), (1%positive : loc).
  split; [|apply lookup_singleton_eq]. constructor; cbn [nodes q_in q_free q_tmp q_done msgs List.app length].
  - eapply reps_perm; [exact Hr'|apply perm_swap].
  - apply NoDup_singleton.
  - constructor; [|constructor]. exists used_message, (buf_view ping). rewrite lookup_singleton_eq.
    split; [done|]. split; [|split; [lia|vm_compute; done]]. split; [exact Hw|]. by split; vm_compute.
  - lia.
Qed.

Lemma App_reuses_message_witness :
  ∃ (s : side (gmap Z Context)) m s' msg', msgs s !! m = Some used_message ∧ post_message s (fill_data 1 ping) = Some s' ∧
    msgs s' !! m = Some msg' ∧ buf_at (m_buf msg') (buf_view ping ++ buf_view ping) 0.
Proof.
  destruct used_side as (s & m & Hs & Hm). destruct ping_wf as [Hw Hl]. exists s, m.
  destruct (App_reuses_message s [] [] [] [] m used_message (buf_view ping) 34 1 1 ping) as (s' & msg' & E & Em & _ & Hb & _).
  - exact Hs.
  - lia.
  - exact Hm.
  - split; [exact Hw|]. by split; vm_compute.
  - assert (length (buf_view ping) = 34%nat) as -> by lia. apply Nat.le_refl.
  - exact Hw.
  - unfold buf_room. lia.
  - exists s', msg'. exact (conj Hm (conj E (conj Em Hb))).
Defined.

Lemma App_fd_reuse_rejected_witness :
  snd (OnConnection_sock [] 120 5 2 (fst (OnDisConnection_sock [] (-1) (fst (OnConnection_sock [] 100 5 1 (∅ : gmap Z Context)))))) = [EvClose 2].
Proof.
  refine (proj2 (proj2 (App_fd_reuse_rejected 5 100 120 1 2 (∅ : gmap Z Context) _ _))); [lia|reflexivity].
Defined.
