(* ===== verification/HeartBeat.v ===== *)
(** * netio: the heart beat manager

    [HeartBeatMng] of [src/slience/netio/heartbeat.hpp]: the I/O threads queue what happens
    on their connections, one queue per descriptor modulo the number of slots; a thread of
    its own goes round the slots, closes the connections that were silent for [_beat]
    seconds and lets the connectors send their beat.

    A connection is a number, its address: the maps of the slots list their elements in the
    order of the addresses.  The queues are sequences (the lists are pushed, swapped and
    popped only, which SList.v shows to be a queue's operations).  What the thread finds
    outside, the time and the state of each connection, is the [beat_env] of its turn.  The thread
    holds a slot's lock only while it takes the slot's queues, and what it does then
    touches nothing the callbacks see; so a turn is a sequence of slots with callbacks
    between them.

    [heartbeat_refines_watchdogs]: the manager is, for every connection, a watchdog of its
    own, and the connections do not disturb each other.  The theorems after it say what
    the watchdog does. *)

From Stdlib Require Import ZArith Lia List Sorting.Sorted Strings.Byte Init.Byte.
From stdpp Require Import base numbers list option.
From S2P Require Import Prelude Buffer.

#[local] Set Warnings "-clear-no-such-hyp".

(** ** Maps from addresses *)

Section address_map.
Context {V : Type}.

Fixpoint am_find (p : nat) (l : list (nat * V)) : option V :=
  match l with
  | [] => None
  | (q, v) :: l => if (p =? q)%nat then Some v else am_find p l
  end.

Fixpoint am_set (p : nat) (v : V) (l : list (nat * V)) : list (nat * V) :=
  match l with
  | [] => [(p, v)]
  | (q, w) :: l' =>
      if (p =? q)%nat then (p, v) :: l'
      else if (p <? q)%nat then (p, v) :: l else (q, w) :: am_set p v l'
  end.
End address_map.

(** ** Data *)

Record SocketInfo := mkInfo { updtime : Z; count : Z }.
Record ConnSocketInfo := mkConnInfo { idle : Z; snd_time : Z; rcv_time : Z; rcv_cnt : Z }.

(** What a slot keeps for the TCP sockets, and once more for the HTTP sockets. *)
Record watch_list := mkWatchList {
  w_info : list (nat * SocketInfo);
  w_co : list nat;
  w_data : list nat
}.

Record HeartInfo := mkHeart {
  h_tcp : watch_list; h_http : watch_list;
  conn_tcp_info : list (nat * ConnSocketInfo);
  co_conn_tcplist : list (nat * Z);
  data_conn_tcplist : list nat
}.

(** How a block was allocated: an object, or an array of them. *)
Inductive allocation := ByNew | ByNewArray.

Record HeartBeatMng := mkMng {
  _heartinfo : option (allocation * list HeartInfo);
  _thread : bool;
  _startflag : bool;
  _svr_cnt : Z;
  _beat : Z;
  _conn_snd_buffer : Buffer
}.

Inductive sock_kind := KTcp | KHttp.

Inductive beat_ev :=
| EvClose (k : sock_kind) (p : nat)
| EvCloseConn (p : nat)
| EvSend (p : nat) (data : list byte).

Record beat_env := mkBeatEnv { b_now : Z; b_connected : nat → bool }.

Definition watch_new : watch_list := mkWatchList [] [] [].
Definition HeartInfo_new : HeartInfo := mkHeart watch_new watch_new [] [] [].
Definition HeartBeatMng_new `{Malloc} : HeartBeatMng := mkMng None false false 0 30 Buffer_new.

(** ** Start, stop, settings *)

(** An array of negative length cannot be allocated. *)
Definition Start (m : HeartBeatMng) (svr_cnt : Z) : option HeartBeatMng :=
  match _heartinfo m with
  | None =>
      if svr_cnt <? 0 then None
      else Some (mkMng (Some (ByNewArray, replicate (Z.to_nat svr_cnt) HeartInfo_new)) true true (u32 svr_cnt)
                   (_beat m) (_conn_snd_buffer m))
  | Some _ => Some m
  end.

(** [delete] of an array is a fault. *)
Definition delete_object (b : option (allocation * list HeartInfo)) : option unit :=
  match b with Some (ByNewArray, _) => None | _ => Some tt end.

Definition Stop (m : HeartBeatMng) : option HeartBeatMng :=
  if _thread m then
    _ ← delete_object (_heartinfo m);
    Some (mkMng None false false (_svr_cnt m) (_beat m) (_conn_snd_buffer m))
  else None.

Definition SetBeat (m : HeartBeatMng) (beat : Z) : HeartBeatMng :=
  mkMng (_heartinfo m) (_thread m) (_startflag m) (_svr_cnt m) (u32 beat) (_conn_snd_buffer m).

Definition SetConnSndBuffer `{Malloc} (m : HeartBeatMng) (buffer : Buffer) : option HeartBeatMng :=
  b ← Buffer_Write (_conn_snd_buffer m) (Buffer_Data buffer) (Buffer_Length buffer);
  Some (mkMng (_heartinfo m) (_thread m) (_startflag m) (_svr_cnt m) (_beat m) b).

(** ** The callbacks *)

(** The slot of a descriptor: a division by zero before [Start]. *)
Definition slot_of (m : HeartBeatMng) (fd : Z) : option nat :=
  if _svr_cnt m =? 0 then None else Some (Z.to_nat (u32 fd `mod` _svr_cnt m)).

(** A slot is changed, if it is there. *)
Definition on_slot (m : HeartBeatMng) (idx : nat) (f : HeartInfo → HeartInfo) : option HeartBeatMng :=
  '(a, hs) ← _heartinfo m;
  h ← hs !! idx;
  Some (mkMng (Some (a, <[idx := f h]> hs)) (_thread m) (_startflag m) (_svr_cnt m) (_beat m) (_conn_snd_buffer m)).

Definition set_watch (k : sock_kind) (h : HeartInfo) (w : watch_list) : HeartInfo :=
  match k with
  | KTcp => mkHeart w (h_http h) (conn_tcp_info h) (co_conn_tcplist h) (data_conn_tcplist h)
  | KHttp => mkHeart (h_tcp h) w (conn_tcp_info h) (co_conn_tcplist h) (data_conn_tcplist h)
  end.
Definition get_watch (k : sock_kind) (h : HeartInfo) : watch_list :=
  match k with KTcp => h_tcp h | KHttp => h_http h end.

Definition OnConnected (k : sock_kind) (p : nat) (fd : Z) (m : HeartBeatMng) : option HeartBeatMng :=
  idx ← slot_of m fd;
  on_slot m idx (λ h, let w := get_watch k h in set_watch k h (mkWatchList (w_info w) (w_co w ++ [p]) (w_data w))).

Definition OnReceiveData (k : sock_kind) (p : nat) (fd : Z) (m : HeartBeatMng) : option HeartBeatMng :=
  idx ← slot_of m fd;
  on_slot m idx (λ h, let w := get_watch k h in set_watch k h (mkWatchList (w_info w) (w_co w) (w_data w ++ [p]))).

Definition OnConnected_conn (p : nat) (fd : Z) (idle : Z) (m : HeartBeatMng) : option HeartBeatMng :=
  idx ← slot_of m fd;
  on_slot m idx (λ h, mkHeart (h_tcp h) (h_http h) (conn_tcp_info h) (co_conn_tcplist h ++ [(p, u32 idle)]) (data_conn_tcplist h)).

Definition OnReceiveData_conn (p : nat) (fd : Z) (m : HeartBeatMng) : option HeartBeatMng :=
  idx ← slot_of m fd;
  on_slot m idx (λ h, mkHeart (h_tcp h) (h_http h) (conn_tcp_info h) (co_conn_tcplist h) (data_conn_tcplist h ++ [p])).

(** ** The thread *)

(** The walk over a map that erases the silent connections. *)
Fixpoint expire_info (k : sock_kind) (e : beat_env) (beat : Z) (info : list (nat * SocketInfo))
  : list (nat * SocketInfo) * list beat_ev :=
  match info with
  | [] => ([], [])
  | (p, i) :: info =>
      let '(rest, ev) := expire_info k e beat info in
      if updtime i + beat <? b_now e
      then (rest, (if b_connected e p then [EvClose k p] else []) ++ ev)
      else ((p, i) :: rest, ev)
  end.

Fixpoint enroll (now : Z) (co : list nat) (info : list (nat * SocketInfo)) : list (nat * SocketInfo) :=
  match co with
  | [] => info
  | p :: co => enroll now co (am_set p (mkInfo now 0) info)
  end.

Fixpoint mark (now : Z) (data : list nat) (info : list (nat * SocketInfo)) : list (nat * SocketInfo) :=
  match data with
  | [] => info
  | p :: data =>
      mark now data
        (match am_find p info with
         | Some i => am_set p (mkInfo now (u32 (count i + 1))) info
         | None => info
         end)
  end.

(** The same for the connectors; a connector silent on its side for its idle time sends
    the beat. *)
Fixpoint expire_conn (e : beat_env) (beat : Z) (snd : list byte) (info : list (nat * ConnSocketInfo))
  : list (nat * ConnSocketInfo) * list beat_ev :=
  match info with
  | [] => ([], [])
  | (p, i) :: info =>
      let '(rest, ev) := expire_conn e beat snd info in
      if rcv_time i + beat <? b_now e
      then (rest, (if b_connected e p then [EvCloseConn p] else []) ++ ev)
      else if snd_time i + idle i <? b_now e
      then ((p, mkConnInfo (idle i) (b_now e) (rcv_time i) (rcv_cnt i)) :: rest, EvSend p snd :: ev)
      else ((p, i) :: rest, ev)
  end.

Fixpoint enroll_conn (now : Z) (co : list (nat * Z)) (info : list (nat * ConnSocketInfo)) : list (nat * ConnSocketInfo) :=
  match co with
  | [] => info
  | (p, idle) :: co => enroll_conn now co (am_set p (mkConnInfo idle now now 0) info)
  end.

Fixpoint mark_conn (now : Z) (data : list nat) (info : list (nat * ConnSocketInfo)) : list (nat * ConnSocketInfo) :=
  match data with
  | [] => info
  | p :: data =>
      mark_conn now data
        (match am_find p info with
         | Some i => am_set p (mkConnInfo (idle i) (snd_time i) now (u32 (rcv_cnt i + 1))) info
         | None => info
         end)
  end.

(** One slot: the queues are taken; the sockets expire, then those of the queues are
    admitted and marked; then the connectors. *)
Definition run_slot (e : beat_env) (beat : Z) (snd : list byte) (h : HeartInfo) : HeartInfo * list beat_ev :=
  let now := b_now e in
  let '(tcp, ev1) := expire_info KTcp e beat (w_info (h_tcp h)) in
  let '(http, ev2) := expire_info KHttp e beat (w_info (h_http h)) in
  let tcp := enroll now (w_co (h_tcp h)) tcp in
  let http := enroll now (w_co (h_http h)) http in
  let tcp := mark now (w_data (h_tcp h)) tcp in
  let http := mark now (w_data (h_http h)) http in
  let '(conn, ev3) := expire_conn e beat snd (conn_tcp_info h) in
  let conn := enroll_conn now (co_conn_tcplist h) conn in
  let conn := mark_conn now (data_conn_tcplist h) conn in
  (mkHeart (mkWatchList tcp [] []) (mkWatchList http [] []) conn [] [], ev1 ++ ev2 ++ ev3).

Inductive beat_call :=
| CallConnected (k : sock_kind) (p : nat) (fd : Z)
| CallData (k : sock_kind) (p : nat) (fd : Z)
| CallConnectedConn (p : nat) (fd : Z) (idle : Z)
| CallDataConn (p : nat) (fd : Z).

Definition do_call (c : beat_call) (m : HeartBeatMng) : option HeartBeatMng :=
  match c with
  | CallConnected k p fd => OnConnected k p fd m
  | CallData k p fd => OnReceiveData k p fd m
  | CallConnectedConn p fd idle => OnConnected_conn p fd idle m
  | CallDataConn p fd => OnReceiveData_conn p fd m
  end.

Fixpoint do_calls (cs : list beat_call) (m : HeartBeatMng) : option HeartBeatMng :=
  match cs with
  | [] => Some m
  | c :: cs => m ← do_call c m; do_calls cs m
  end.

(** [for (idx = 0; idx < _svr_cnt; ++idx)]: [n] slots are left; [mid idx] are the
    callbacks that come after slot [idx]. *)
Fixpoint run_slots (n idx : nat) (e : beat_env) (mid : nat → list beat_call) (m : HeartBeatMng)
  : option (HeartBeatMng * list beat_ev) :=
  match n with
  | O => Some (m, [])
  | S n =>
      '(_, hs) ← _heartinfo m;
      h ← hs !! idx;
      let '(h', ev) := run_slot e (_beat m) (buf_view (_conn_snd_buffer m)) h in
      m ← on_slot m idx (λ _, h');
      m ← do_calls (mid idx) m;
      '(m, ev') ← run_slots n (S idx) e mid m;
      Some (m, ev ++ ev')
  end.

(** A turn of [_Run]. *)
Definition Run_turn (e : beat_env) (mid : nat → list beat_call) (m : HeartBeatMng) : option (HeartBeatMng * list beat_ev) :=
  run_slots (Z.to_nat (_svr_cnt m)) 0 e mid m.

Inductive beat_op := OpCall (c : beat_call) | OpTurn (e : beat_env) (mid : nat → list beat_call).

(** The life of the manager while [_startflag] is set. *)
Fixpoint beat_run (ops : list beat_op) (m : HeartBeatMng) : option (HeartBeatMng * list beat_ev) :=
  match ops with
  | [] => Some (m, [])
  | OpCall c :: ops => m ← do_call c m; beat_run ops m
  | OpTurn e mid :: ops =>
      '(m, ev1) ← Run_turn e mid m;
      '(m, ev2) ← beat_run ops m;
      Some (m, ev1 ++ ev2)
  end.

(** ** The maps *)

Section address_map_laws.
Context {V : Type}.
Implicit Types (l : list (nat * V)).

Lemma am_find_set p q (v : V) l : am_find p (am_set q v l) = if (p =? q)%nat then Some v else am_find p l.
Proof.
  induction l as [|[r w] l IH]; [done|]. cbn [am_set]. destruct (Nat.eqb_spec q r) as [->|Hqr].
  - cbn [am_find]. by destruct (p =? r)%nat.
  - destruct (q <? r)%nat; cbn [am_find]; [done|].
    rewrite IH. destruct (Nat.eqb_spec p q), (Nat.eqb_spec p r); congruence.
Qed.

(** Addresses in order. *)
Definition am_ok l : Prop := StronglySorted lt (map fst l).

Lemma am_find_none p l : Forall (lt p) (map fst l) → am_find p l = None.
Proof.
  induction l as [|[q w] l IH]; [done|]. cbn. intros Hl. inversion Hl; subst.
  destruct (Nat.eqb_spec p q); [lia|by apply IH].
Qed.

Lemma am_keys_set q (v : V) l r : Forall (lt r) (map fst l) → (r < q)%nat → Forall (lt r) (map fst (am_set q v l)).
Proof.
  intros Hl Hr. induction l as [|[p w] l IH]; cbn [am_set map fst] in *; [by constructor|]. inversion Hl; subst.
  destruct (Nat.eqb_spec q p); [by constructor|]. destruct (q <? p)%nat; cbn [map fst]; constructor; (done || by apply IH).
Qed.

Lemma am_set_ok q (v : V) l : am_ok l → am_ok (am_set q v l).
Proof.
  unfold am_ok. induction l as [|[p w] l IH]; cbn [am_set map fst]; intros Hl; [by repeat constructor|].
  inversion Hl as [|? ? Hs Hp]; subst. destruct (Nat.eqb_spec q p) as [->|Hq]; [done|].
  destruct (Nat.ltb_spec q p); cbn [map fst].
  - constructor; [done|]. constructor; [done|]. rewrite Forall_forall in Hp |- *. intros x Hx. specialize (Hp x Hx). lia.
  - constructor; [by apply IH|]. apply am_keys_set; [done|lia].
Qed.
End address_map_laws.

#[export] Hint Resolve am_set_ok : slience.

(** ** The walks, seen from one connection *)

Definition about (k : sock_kind) (p : nat) (ev : beat_ev) : bool :=
  match ev, k with
  | EvClose KTcp q, KTcp | EvClose KHttp q, KHttp => (q =? p)%nat
  | _, _ => false
  end.

Definition about_conn (p : nat) (ev : beat_ev) : bool :=
  match ev with EvCloseConn q | EvSend q _ => (q =? p)%nat | _ => false end.

Definition expired (beat now : Z) (i : SocketInfo) : bool := updtime i + beat <? now.

Lemma about_close k k' p q : about k p (EvClose k' q) = true ↔ k = k' ∧ p = q.
Proof. destruct k, k'; cbn; rewrite ?Nat.eqb_eq; naive_solver. Qed.

Lemma expire_keys k e beat info r :
  Forall (lt r) (map fst info) → Forall (lt r) (map fst (fst (expire_info k e beat info))).
Proof.
  induction info as [|[q i] info IH]; [done|]. cbn. intros Hl. inversion Hl; subst.
  destruct (expire_info k e beat info) as [rest ev]. destruct (_ <? _); cbn in *; [by apply IH|]. constructor; [done|by apply IH].
Qed.

Lemma expire_ok k e beat info : am_ok info → am_ok (fst (expire_info k e beat info)).
Proof.
  unfold am_ok. induction info as [|[q i] info IH]; [done|]. cbn. intros Hl. inversion Hl as [|? ? Hs Hq]; subst.
  pose proof (expire_keys k e beat info q Hq) as Hk. specialize (IH Hs).
  destruct (expire_info k e beat info) as [rest ev]. destruct (_ <? _); cbn in *; [done|by constructor].
Qed.

Lemma expire_events_other k e beat info k' p :
  (k ≠ k' ∨ am_find p info = None) → List.filter (about k' p) (snd (expire_info k e beat info)) = [].
Proof.
  intros Ho. induction info as [|[q i] info IH]; [done|]. cbn.
  assert (k ≠ k' ∨ am_find p info = None ∧ p ≠ q) as Ho'.
  { destruct Ho as [?|Hn]; [by left|right]. cbn in Hn. by destruct (Nat.eqb_spec p q). }
  destruct (expire_info k e beat info) as [rest ev]. cbn in *.
  assert (List.filter (about k' p) ev = []) as Hev by (apply IH; tauto).
  destruct (_ <? _); cbn; [|done]. rewrite filter_app, Hev, app_nil_r. destruct (b_connected e q); [|done]. cbn [List.filter].
  destruct (about k' p (EvClose k q)) eqn:E; [|done]. apply about_close in E as [-> ->]. tauto.
Qed.

(** What the walk does to one connection. *)
Lemma expire_find k e beat info p :
  am_ok info →
  am_find p (fst (expire_info k e beat info)) =
    (i ← am_find p info; if expired beat (b_now e) i then None else Some i) ∧
  List.filter (about k p) (snd (expire_info k e beat info)) =
    match am_find p info with
    | Some i => if expired beat (b_now e) i && b_connected e p then [EvClose k p] else []
    | None => []
    end.
Proof.
  unfold am_ok. induction info as [|[q i] info IH]; [done|]. cbn [map expire_info am_find fst]. intros Hl. inversion Hl as [|? ? Hs Hq]; subst.
  destruct (IH Hs) as [IH1 IH2]. pose proof (expire_events_other k e beat info k p) as Hoth.
  pose proof (am_find_none p (fst (expire_info k e beat info))) as Hnone.
  pose proof (expire_keys k e beat info q Hq) as Hk.
  destruct (expire_info k e beat info) as [rest ev]. cbn [fst snd] in *.
  destruct (Nat.eqb_spec p q) as [->|Hpq]; cbn [mbind option_bind]; unfold expired.
  - rewrite (am_find_none q info Hq) in Hoth. specialize (Hoth (or_intror eq_refl)).
    destruct (updtime i + beat <? b_now e); cbn [fst snd am_find andb].
    + split; [by apply Hnone|]. rewrite filter_app, Hoth, app_nil_r. destruct (b_connected e q); [|done].
      cbn [List.filter]. by rewrite (proj2 (about_close k k q q)).
    + rewrite Nat.eqb_refl. by split.
  - assert (List.filter (about k p) (if b_connected e q then [EvClose k q] else []) = []) as Hq0.
    { destruct (b_connected e q); [|done]. cbn [List.filter]. destruct (about k p (EvClose k q)) eqn:E; [|done].
      apply about_close in E as [_ ->]. done. }
    destruct (updtime i + beat <? b_now e); cbn [fst snd am_find].
    + rewrite filter_app, Hq0. by split.
    + destruct (Nat.eqb_spec p q); [done|]. by split.
Qed.

Lemma enroll_ok now co info : am_ok info → am_ok (enroll now co info).
Proof. revert info. induction co as [|p co IH]; intros info Hi; [done|]. cbn. auto with slience. Qed.

Lemma mark_ok now data info : am_ok info → am_ok (mark now data info).
Proof.
  revert info. induction data as [|p data IH]; intros info Hi; [done|]. cbn. destruct (am_find p info); auto with slience.
Qed.

Abbreviation occurs p l := (count_occ Nat.eq_dec l p).

Lemma enroll_find now co info p :
  am_find p (enroll now co info) = if (occurs p co =? 0)%nat then am_find p info else Some (mkInfo now 0).
Proof.
  revert info. induction co as [|q co IH]; intros info; [done|]. cbn [enroll count_occ].
  rewrite IH, am_find_set. destruct (Nat.eq_dec q p) as [->|Hq].
  - rewrite Nat.eqb_refl. by destruct (_ =? 0)%nat.
  - destruct (Nat.eqb_spec p q); [congruence|done].
Qed.

(** [n] marks of a connection. *)
Definition marked (now : Z) (n : nat) (i : SocketInfo) : SocketInfo :=
  if (n =? 0)%nat then i else mkInfo now (u32 (count i + Z.of_nat n)).

Lemma marked_S now n i : marked now n (mkInfo now (u32 (count i + 1))) = marked now (S n) i.
Proof.
  unfold marked. destruct n as [|n]; cbn [Nat.eqb]; [by f_equal|]. cbn [count]. f_equal.
  unfold u32. rewrite Zplus_mod_idemp_l. f_equal. lia.
Qed.

Lemma mark_find now data info p :
  am_find p (mark now data info) = (marked now (occurs p data)) <$> am_find p info.
Proof.
  revert info. induction data as [|q data IH]; intros info; [cbn [mark]; by destruct (am_find p info)|]. cbn [mark count_occ].
  rewrite IH. destruct (Nat.eq_dec q p) as [->|Hq].
  - destruct (am_find p info) as [i|] eqn:E; [|by rewrite E]. rewrite am_find_set, Nat.eqb_refl. cbn [fmap option_fmap option_map].
    by rewrite marked_S.
  - destruct (am_find q info); [|done]. rewrite am_find_set. by destruct (Nat.eqb_spec p q); [congruence|].
Qed.

(** ** The watchdog of a connection *)

(** How often the connection is in each of the queues, and what the slot has of it. *)
Record dog := mkDog { d_co : nat; d_data : nat; d_info : option SocketInfo }.

Definition dog_of (k : sock_kind) (p : nat) (h : HeartInfo) : dog :=
  let w := get_watch k h in mkDog (occurs p (w_co w)) (occurs p (w_data w)) (am_find p (w_info w)).

(** A turn: it expires, is admitted, is marked. *)
Definition dog_tick (k : sock_kind) (p : nat) (e : beat_env) (beat : Z) (d : dog) : dog * list beat_ev :=
  let now := b_now e in
  let i := (i ← d_info d; if expired beat now i then None else Some i) in
  let i := if (d_co d =? 0)%nat then i else Some (mkInfo now 0) in
  (mkDog 0 0 (marked now (d_data d) <$> i),
   match d_info d with
   | Some i => if expired beat now i && b_connected e p then [EvClose k p] else []
   | None => []
   end).

Definition same_kind (k k' : sock_kind) : bool :=
  match k, k' with KTcp, KTcp | KHttp, KHttp => true | _, _ => false end.

Definition dog_call (k : sock_kind) (p : nat) (c : beat_call) (d : dog) : dog :=
  match c with
  | CallConnected k' q _ => if same_kind k k' && (q =? p)%nat then mkDog (S (d_co d)) (d_data d) (d_info d) else d
  | CallData k' q _ => if same_kind k k' && (q =? p)%nat then mkDog (d_co d) (S (d_data d)) (d_info d) else d
  | _ => d
  end.

Definition dog_calls (k : sock_kind) (p : nat) (cs : list beat_call) (d : dog) : dog :=
  foldl (λ d c, dog_call k p c d) d cs.

(** A turn of the thread: the dog's slot is [s]. *)
Fixpoint dog_slots (k : sock_kind) (p s n idx : nat) (e : beat_env) (beat : Z) (mid : nat → list beat_call) (d : dog)
  : dog * list beat_ev :=
  match n with
  | O => (d, [])
  | S n =>
      let '(d, ev) := if (idx =? s)%nat then dog_tick k p e beat d else (d, []) in
      let '(d, ev') := dog_slots k p s n (S idx) e beat mid (dog_calls k p (mid idx) d) in
      (d, ev ++ ev')
  end.

Fixpoint dog_run (k : sock_kind) (p s n : nat) (beat : Z) (ops : list beat_op) (d : dog) : dog * list beat_ev :=
  match ops with
  | [] => (d, [])
  | OpCall c :: ops => dog_run k p s n beat ops (dog_call k p c d)
  | OpTurn e mid :: ops =>
      let '(d, ev1) := dog_slots k p s n 0 e beat mid d in
      let '(d, ev2) := dog_run k p s n beat ops d in
      (d, ev1 ++ ev2)
  end.

(** ** The manager is its watchdogs *)

Definition heart_ok (h : HeartInfo) : Prop :=
  am_ok (w_info (h_tcp h)) ∧ am_ok (w_info (h_http h)) ∧ am_ok (conn_tcp_info h).

(** A manager with [n] slots, of which slot [s] watches the connection [p] with the dog
    [d], and the others know nothing of it. *)
Definition watches (k : sock_kind) (p s n : nat) (beat : Z) (m : HeartBeatMng) (d : dog) : Prop :=
  ∃ a hs, _heartinfo m = Some (a, hs) ∧ length hs = n ∧ (0 < n)%nat ∧ _svr_cnt m = Z.of_nat n ∧ _beat m = beat ∧
    Forall heart_ok hs ∧ ∀ idx h, hs !! idx = Some h → dog_of k p h = if (idx =? s)%nat then d else mkDog 0 0 None.

(** Every callback for the connection finds its descriptor in slot [s]. *)
Definition call_in (k : sock_kind) (p s n : nat) (c : beat_call) : Prop :=
  match c with
  | CallConnected k' q fd | CallData k' q fd => k' = k → q = p → Z.to_nat (u32 fd `mod` Z.of_nat n) = s
  | _ => True
  end.

Definition op_in (k : sock_kind) (p s n : nat) (op : beat_op) : Prop :=
  match op with
  | OpCall c => call_in k p s n c
  | OpTurn _ mid => ∀ idx, Forall (call_in k p s n) (mid idx)
  end.

Lemma on_slot_ok k p s n beat m d d' idx f :
  watches k p s n beat m d → (idx < n)%nat → (∀ h, heart_ok h → heart_ok (f h)) →
  (idx ≠ s → d' = d) →
  (∀ h, (∃ a hs, _heartinfo m = Some (a, hs) ∧ hs !! idx = Some h) →
     dog_of k p h = (if (idx =? s)%nat then d else mkDog 0 0 None) →
     dog_of k p (f h) = if (idx =? s)%nat then d' else mkDog 0 0 None) →
  ∃ m', on_slot m idx f = Some m' ∧ watches k p s n beat m' d' ∧ _conn_snd_buffer m' = _conn_snd_buffer m.
Proof.
  intros (a & hs & E & Hl & Hn & Hc & Hb & Hh & Hd) Hidx Hf Hdd Hfd. unfold on_slot. rewrite E. cbn [mbind option_bind].
  destruct (lookup_lt_is_Some_2 hs idx) as [h Eh]; [lia|]. rewrite Eh. cbn [mbind option_bind].
  eexists. split; [reflexivity|]. split; [|done].
  eexists a, _. cbn [_heartinfo _svr_cnt _beat]. split; [reflexivity|]. rewrite length_insert. split_and!; try done.
  - apply Forall_insert; [done|]. apply Hf. by eapply Forall_lookup_1.
  - intros i h' Hi. destruct (decide (idx = i)) as [<-|Hne].
    + rewrite list_lookup_insert_eq in Hi by lia. injection Hi as <-. apply Hfd; [by exists a, hs|by apply Hd].
    + rewrite list_lookup_insert_ne in Hi by done. rewrite (Hd i h' Hi). destruct (Nat.eqb_spec i s) as [->|]; [|done].
      symmetry. by apply Hdd.
Qed.

Lemma slot_of_ok k p s n beat m d fd :
  watches k p s n beat m d →
  slot_of m fd = Some (Z.to_nat (u32 fd `mod` Z.of_nat n)) ∧ (Z.to_nat (u32 fd `mod` Z.of_nat n) < n)%nat.
Proof.
  intros (a & hs & _ & _ & Hn & Hc & _). unfold slot_of. rewrite Hc.
  destruct (Z.eqb_spec (Z.of_nat n) 0); [lia|]. split; [done|].
  pose proof (Z.mod_pos_bound (u32 fd) (Z.of_nat n) ltac:(lia)). lia.
Qed.

Lemma count_snoc p l q : occurs p (l ++ [q]) = if (q =? p)%nat then S (occurs p l) else occurs p l.
Proof.
  rewrite count_occ_app. cbn. destruct (Nat.eq_dec q p), (Nat.eqb_spec q p); try done; lia.
Qed.

Lemma same_kind_spec k k' : same_kind k k' = true ↔ k' = k.
Proof. destruct k, k'; cbn; naive_solver. Qed.

(** What a callback does to the connection in the slot it runs in. *)
Lemma queue_dog k p c h :
  (∀ k' q fd, c = CallConnected k' q fd →
     let w := get_watch k' h in
     dog_of k p (set_watch k' h (mkWatchList (w_info w) (w_co w ++ [q]) (w_data w))) = dog_call k p c (dog_of k p h)) ∧
  (∀ k' q fd, c = CallData k' q fd →
     let w := get_watch k' h in
     dog_of k p (set_watch k' h (mkWatchList (w_info w) (w_co w) (w_data w ++ [q]))) = dog_call k p c (dog_of k p h)).
Proof.
  split; intros k' q fd ->; cbn [dog_call]; unfold dog_of; destruct k', k; cbn; try done; rewrite count_snoc; by destruct (q =? p)%nat.
Qed.

(** A callback that runs in another slot is not about the connection. *)
Lemma call_other k p s n c k' q fd d :
  c = CallConnected k' q fd ∨ c = CallData k' q fd → call_in k p s n c →
  Z.to_nat (u32 fd `mod` Z.of_nat n) ≠ s → dog_call k p c d = d.
Proof.
  intros Hc Hin Hs. destruct Hc as [-> | ->]; cbn [dog_call call_in] in *;
    (destruct (same_kind k k' && (q =? p)%nat) eqn:Ek; [|done]);
    apply andb_true_iff in Ek as [->%same_kind_spec ->%Nat.eqb_eq]; by rewrite Hin in Hs.
Qed.

(** One callback. *)
Lemma do_call_dog k p s n beat m c d :
  watches k p s n beat m d → call_in k p s n c →
  ∃ m', do_call c m = Some m' ∧ watches k p s n beat m' (dog_call k p c d).
Proof.
  intros Hm Hin.
  assert (∀ fd f, do_call c m = (idx ← slot_of m fd; on_slot m idx f) →
    (∀ h, heart_ok h → heart_ok (f h)) →
    (∀ h, dog_of k p (f h) = dog_call k p c (dog_of k p h)) →
    (∀ d, Z.to_nat (u32 fd `mod` Z.of_nat n) ≠ s → dog_call k p c d = d) →
    ∃ m', do_call c m = Some m' ∧ watches k p s n beat m' (dog_call k p c d)) as Hgen.
  { intros fd f -> Hf Hdog Hother. destruct (slot_of_ok _ _ _ _ _ _ _ fd Hm) as [-> Hlt]. cbn [mbind option_bind].
    destruct (on_slot_ok k p s n beat m d (dog_call k p c d) _ f Hm Hlt Hf) as (m' & -> & Hm' & _); [auto| |by exists m'].
    intros h _ Hh. rewrite Hdog, Hh. destruct (Nat.eqb_spec (Z.to_nat (u32 fd `mod` Z.of_nat n)) s); [done|by apply Hother]. }
  destruct c as [k' q fd|k' q fd|q fd idle|q fd]; eapply Hgen; try reflexivity.
  - intros h (H1 & H2 & H3). by destruct k'.
  - intros h. eapply queue_dog. reflexivity.
  - intros d'. eapply call_other; [by left|done].
  - intros h (H1 & H2 & H3). by destruct k'.
  - intros h. eapply queue_dog. reflexivity.
  - intros d'. eapply call_other; [by right|done].
  - done.
  - done.
Qed.

Lemma about_conn_not k p e beat bs info : List.filter (about k p) (expire_conn e beat bs info).2 = [].
Proof.
  induction info as [|[q i] info IH]; [done|]. cbn [expire_conn]. destruct (expire_conn e beat bs info) as [rest ev].
  cbn [fst snd] in *. destruct (_ <? _); cbn [snd].
  - rewrite filter_app. cbn [snd] in IH. rewrite IH. destruct (b_connected e q); [|done]. by destruct k.
  - cbn [snd] in IH. destruct (_ <? _); cbn [snd List.filter]; [|done]. by destruct k.
Qed.

(** The turn of a slot, seen from one connection. *)
Lemma run_slot_dog k p e beat bs h :
  heart_ok h →
  dog_of k p (run_slot e beat bs h).1 = (dog_tick k p e beat (dog_of k p h)).1 ∧
  List.filter (about k p) (run_slot e beat bs h).2 = (dog_tick k p e beat (dog_of k p h)).2.
Proof.
  intros (H1 & H2 & H3). unfold run_slot.
  destruct (expire_find KTcp e beat (w_info (h_tcp h)) p H1) as [F1 E1].
  destruct (expire_find KHttp e beat (w_info (h_http h)) p H2) as [F2 E2].
  pose proof (expire_events_other KTcp e beat (w_info (h_tcp h)) KHttp p) as O1.
  pose proof (expire_events_other KHttp e beat (w_info (h_http h)) KTcp p) as O2.
  pose proof (about_conn_not k p e beat bs (conn_tcp_info h)) as O3.
  destruct (expire_info KTcp _ _ _) as [tcp ev1], (expire_info KHttp _ _ _) as [http ev2],
    (expire_conn _ _ _ _) as [conn ev3]. cbn [fst snd] in *.
  rewrite !filter_app, O3, app_nil_r. unfold dog_of, dog_tick. destruct k; cbn [get_watch h_tcp h_http w_co w_data w_info d_co d_data d_info].
  - rewrite mark_find, enroll_find, F1, E1, O2 by (by left). rewrite app_nil_r. by split.
  - rewrite mark_find, enroll_find, F2, E2, O1 by (by left). by split.
Qed.

Lemma expire_conn_keys e beat bs info r :
  Forall (lt r) (map fst info) → Forall (lt r) (map fst (fst (expire_conn e beat bs info))).
Proof.
  induction info as [|[q i] info IH]; [done|]. cbn. intros Hl. inversion Hl; subst.
  destruct (expire_conn e beat bs info) as [rest ev]. repeat destruct (_ <? _); cbn in *; try constructor; (done || by apply IH).
Qed.

Lemma expire_conn_ok e beat bs info : am_ok info → am_ok (fst (expire_conn e beat bs info)).
Proof.
  unfold am_ok. induction info as [|[q i] info IH]; [done|]. cbn. intros Hl. inversion Hl as [|? ? Hs Hq]; subst.
  pose proof (expire_conn_keys e beat bs info q Hq) as Hk. specialize (IH Hs).
  destruct (expire_conn e beat bs info) as [rest ev]. repeat destruct (_ <? _); cbn in *; (done || by constructor).
Qed.

Lemma enroll_conn_ok now co info : am_ok info → am_ok (enroll_conn now co info).
Proof. revert info. induction co as [|[p i] co IH]; intros info Hi; [done|]. cbn. auto with slience. Qed.

Lemma mark_conn_ok now data info : am_ok info → am_ok (mark_conn now data info).
Proof.
  revert info. induction data as [|p data IH]; intros info Hi; [done|]. cbn. destruct (am_find p info); auto with slience.
Qed.

Lemma run_slot_ok e beat bs h : heart_ok h → heart_ok (run_slot e beat bs h).1.
Proof.
  intros (H1 & H2 & H3). unfold run_slot.
  pose proof (expire_ok KTcp e beat _ H1) as P1. pose proof (expire_ok KHttp e beat _ H2) as P2.
  pose proof (expire_conn_ok e beat bs _ H3) as P3.
  destruct (expire_info KTcp _ _ _), (expire_info KHttp _ _ _), (expire_conn _ _ _ _). cbn [fst snd] in *.
  split_and!; cbn; [apply mark_ok, enroll_ok; exact P1|apply mark_ok, enroll_ok; exact P2|apply mark_conn_ok, enroll_conn_ok; exact P3].
Qed.


Lemma do_calls_dog k p s n beat cs : ∀ m d,
  watches k p s n beat m d → Forall (call_in k p s n) cs →
  ∃ m', do_calls cs m = Some m' ∧ watches k p s n beat m' (dog_calls k p cs d).
Proof.
  induction cs as [|c cs IH]; intros m d Hm Hcs; [by exists m|]. inversion Hcs; subst. cbn [do_calls].
  destruct (do_call_dog k p s n beat m c d Hm) as (m1 & -> & Hm1); [done|]. cbn [mbind option_bind]. by apply IH.
Qed.

(** The empty dog does nothing. *)
Lemma dog_tick_none k p e beat : dog_tick k p e beat (mkDog 0 0 None) = (mkDog 0 0 None, []).
Proof. done. Qed.

Lemma run_slots_dog k p s n beat e mid : ∀ l idx m d,
  watches k p s n beat m d → (idx + l ≤ n)%nat → (∀ i, Forall (call_in k p s n) (mid i)) →
  ∃ m' evs, run_slots l idx e mid m = Some (m', evs) ∧
    watches k p s n beat m' (dog_slots k p s l idx e beat mid d).1 ∧
    List.filter (about k p) evs = (dog_slots k p s l idx e beat mid d).2.
Proof.
  induction l as [|l IH]; intros idx m d Hm Hl Hmid; [by exists m, []|].
  pose proof Hm as (a & hs & E & Hlen & Hn & Hc & Hb & Hh & Hd). cbn [run_slots dog_slots]. rewrite E. cbn [mbind option_bind].
  destruct (lookup_lt_is_Some_2 hs idx) as [h Eh]; [lia|]. rewrite Eh. cbn [mbind option_bind].
  assert (heart_ok h) as Hok by (by eapply Forall_lookup_1). specialize (Hd idx h Eh).
  rewrite Hb. pose proof (run_slot_ok e beat (buf_view (_conn_snd_buffer m)) h Hok) as Hok'.
  destruct (run_slot_dog k p e beat (buf_view (_conn_snd_buffer m)) h Hok) as [Ed Eev].
  destruct (run_slot _ _ _ _) as [h' ev]. cbn [fst snd] in *. rewrite Hd in Ed, Eev.
  set (r := if (idx =? s)%nat then dog_tick k p e beat d else (d, [])).
  assert (dog_of k p h' = (if (idx =? s)%nat then r.1 else mkDog 0 0 None) ∧ List.filter (about k p) ev = r.2) as [Hd' Hev].
  { subst r. destruct (idx =? s)%nat; [by split|]. rewrite dog_tick_none in *. by split. }
  destruct (on_slot_ok k p s n beat m d r.1 idx (λ _, h') Hm) as (m1 & -> & Hm1 & _); [lia|done| |done|].
  { intros Hne. subst r. by destruct (Nat.eqb_spec idx s). }
  cbn [mbind option_bind]. destruct (do_calls_dog k p s n beat (mid idx) m1 r.1 Hm1) as (m2 & -> & Hm2); [done|].
  cbn [mbind option_bind]. destruct (IH (S idx) m2 _ Hm2) as (m3 & evs & -> & Hm3 & Hevs); [lia|done|].
  cbn [mbind option_bind]. exists m3, (ev ++ evs). split; [done|]. rewrite filter_app, Hev, Hevs.
  destruct r as [d1 ev1]. cbn [fst snd] in *. by destruct (dog_slots _ _ _ _ _ _ _ _ _).
Qed.

Lemma beat_run_dog k p s n beat ops : ∀ m d,
  watches k p s n beat m d → Forall (op_in k p s n) ops →
  ∃ m' evs, beat_run ops m = Some (m', evs) ∧ watches k p s n beat m' (dog_run k p s n beat ops d).1 ∧
    List.filter (about k p) evs = (dog_run k p s n beat ops d).2.
Proof.
  induction ops as [|op ops IH]; intros m d Hm Hops; [by exists m, []|]. inversion Hops as [|? ? Hop Hops']; subst.
  destruct op as [c|e mid]; cbn [beat_run dog_run].
  - destruct (do_call_dog k p s n beat m c d Hm Hop) as (m1 & -> & Hm1). cbn [mbind option_bind]. by apply IH.
  - unfold Run_turn. pose proof Hm as (a & hs & _ & _ & _ & Hc & _). rewrite Hc, Nat2Z.id.
    destruct (run_slots_dog k p s n beat e mid n 0 m d Hm) as (m1 & ev1 & -> & Hm1 & Hev1); [lia|done|].
    cbn [mbind option_bind]. destruct (dog_slots _ _ _ _ _ _ _ _ _) as [d1 w1]. cbn [fst snd] in *.
    destruct (IH m1 d1 Hm1 Hops') as (m2 & ev2 & -> & Hm2 & Hev2). cbn [mbind option_bind].
    exists m2, (ev1 ++ ev2). split; [done|]. rewrite filter_app, Hev1, Hev2.
    destruct (dog_run _ _ _ _ _ _ _) as [d2 w2]. by split.
Qed.

(** ** What the watchdog does *)

(** More is queued. *)
Definition dog_le (d d' : dog) : Prop :=
  d_info d' = d_info d ∧ (d_co d ≤ d_co d')%nat ∧ (d_data d ≤ d_data d')%nat.

Definition no_connect (k : sock_kind) (p : nat) (c : beat_call) : Prop :=
  match c with CallConnected k' q _ => ¬ (k' = k ∧ q = p) | _ => True end.

Definition op_no_connect (k : sock_kind) (p : nat) (op : beat_op) : Prop :=
  match op with
  | OpCall c => no_connect k p c
  | OpTurn _ mid => ∀ idx, Forall (no_connect k p) (mid idx)
  end.

Lemma dog_call_le k p c d :
  dog_le d (dog_call k p c d) ∧ (no_connect k p c → d_co (dog_call k p c d) = d_co d).
Proof.
  unfold dog_le. destruct c as [k' q fd|k' q fd|q fd i|q fd]; cbn [dog_call no_connect]; try (split; [split_and!|]; done || lia).
  - destruct (same_kind k k' && (q =? p)%nat) eqn:E; cbn [d_co d_data d_info]; [|split; [split_and!|]; done || lia].
    apply andb_true_iff in E as [->%same_kind_spec ->%Nat.eqb_eq]. split; [split_and!; [done|lia..]|tauto].
  - destruct (same_kind k k' && (q =? p)%nat); cbn [d_co d_data d_info]; split; [split_and!| |split_and!|]; done || lia.
Qed.

Lemma dog_calls_le k p cs d :
  dog_le d (dog_calls k p cs d) ∧ (Forall (no_connect k p) cs → d_co (dog_calls k p cs d) = d_co d).
Proof.
  revert d. induction cs as [|c cs IH]; intros d;
    [|change (dog_calls k p (c :: cs) d) with (dog_calls k p cs (dog_call k p c d))]; [unfold dog_le; split; [split_and!|]; done || lia|].
  destruct (IH (dog_call k p c d)) as [(H1 & H2 & H3) H4]. destruct (dog_call_le k p c d) as [(G1 & G2 & G3) G4].
  split; [split_and!; [congruence|lia..]|]. intros Hc. inversion Hc; subst. rewrite H4 by done. auto.
Qed.

(** A turn is one tick, of a dog that may have more in its queues. *)
Lemma dog_slots_tick k p s e beat mid : ∀ l idx d,
  ∃ d1 d2, dog_le d d1 ∧ dog_slots k p s l idx e beat mid d =
      (d2, if ((idx <=? s) && (s <? idx + l))%nat then (dog_tick k p e beat d1).2 else []) ∧
    (if ((idx <=? s) && (s <? idx + l))%nat then dog_le (dog_tick k p e beat d1).1 d2 else dog_le d d2) ∧
    ((∀ i, Forall (no_connect k p) (mid i)) → d_co d1 = d_co d ∧
       d_co d2 = if ((idx <=? s) && (s <? idx + l))%nat then 0%nat else d_co d).
Proof.
  assert (∀ d, dog_le d d) as Hrefl by (intros d; unfold dog_le; split_and!; done || lia).
  assert (∀ d d' d'', dog_le d d' → dog_le d' d'' → dog_le d d'') as Htrans.
  { unfold dog_le. intros d d' d'' (H1 & H2 & H3) (G1 & G2 & G3). split_and!; [congruence|lia..]. }
  induction l as [|l IH]; intros idx d.
  - exists d, d. destruct (Nat.leb_spec idx s), (Nat.ltb_spec s (idx + 0)); try lia; cbn; by split_and!.
  - cbn [dog_slots]. destruct (Nat.eqb_spec idx s) as [->|Hs].
    + pose proof (surjective_pairing (dog_tick k p e beat d)) as Ht. destruct (dog_tick k p e beat d) as [dt evt] eqn:Et.
      destruct (IH (S s) (dog_calls k p (mid s) dt)) as (d1 & d2 & _ & -> & T2 & T3).
      destruct (dog_calls_le k p (mid s) dt) as [Hc1 Hc2]. revert T2 T3.
      destruct (Nat.leb_spec (S s) s); [lia|]. destruct (Nat.leb_spec s s); [|lia].
      destruct (Nat.ltb_spec s (s + S l)); [|lia]. cbn [andb]. intros T2 T3.
      exists d, d2. rewrite Et, app_nil_r. cbn [fst snd]. split_and!; [done|done|by eapply Htrans|].
      intros Hn. destruct (T3 Hn) as [_ ->]. split; [done|]. rewrite Hc2 by done.
      unfold dog_tick in Et. by injection Et as <- _.
    + destruct (IH (S idx) (dog_calls k p (mid idx) d)) as (d1 & d2 & H1 & -> & H2 & H3).
      destruct (dog_calls_le k p (mid idx) d) as [Hc1 Hc2]. exists d1, d2.
      assert (((S idx <=? s) && (s <? S idx + l))%nat = ((idx <=? s) && (s <? idx + S l))%nat) as Eb.
      { destruct (Nat.leb_spec (S idx) s), (Nat.leb_spec idx s), (Nat.ltb_spec s (S idx + l)), (Nat.ltb_spec s (idx + S l)); (done || lia). }
      rewrite Eb in *. cbn [List.app]. split_and!; [by eapply Htrans|done| |].
      * destruct (_ && _); [done|by eapply Htrans].
      * intros Hn. destruct (H3 Hn) as [E1 E2]. rewrite E1, E2, (Hc2 (Hn idx)). done.
Qed.

Lemma about_self k p : about k p (EvClose k p) = true.
Proof. by apply about_close. Qed.

(** A turn of the manager, told by the dog's tick. *)
Lemma Run_turn_tick k p s n beat e mid m d :
  watches k p s n beat m d → (s < n)%nat → (∀ i, Forall (call_in k p s n) (mid i)) →
  ∃ m' evs d1 d2, Run_turn e mid m = Some (m', evs) ∧ watches k p s n beat m' d2 ∧ dog_le d d1 ∧
    List.filter (about k p) evs = (dog_tick k p e beat d1).2 ∧ dog_le (dog_tick k p e beat d1).1 d2 ∧
    ((∀ i, Forall (no_connect k p) (mid i)) → d_co d1 = d_co d ∧ d_co d2 = 0%nat).
Proof.
  intros Hm Hs Hmid. unfold Run_turn. pose proof Hm as (a & hs & _ & _ & _ & Hc & _). rewrite Hc, Nat2Z.id.
  destruct (run_slots_dog k p s n beat e mid n 0 m d Hm) as (m1 & ev1 & -> & Hm1 & Hev1); [lia|done|].
  destruct (dog_slots_tick k p s e beat mid n 0 d) as (d1 & d2 & H1 & E & H2 & H3).
  rewrite E in Hm1, Hev1. cbn [Nat.leb andb plus] in *. destruct (Nat.ltb_spec s n); [|lia].
  exists m1, ev1, d1, d2. by split_and!.
Qed.

(** ** Theorems *)

Section theorems.
Context `{Malloc}.

Lemma started k p s n beat :
  (0 < n)%nat → Z.of_nat n < 2 ^ 32 → 
  ∃ m, Start (SetBeat HeartBeatMng_new beat) (Z.of_nat n) = Some m ∧ watches k p s n (u32 beat) m (mkDog 0 0 None).
Proof.
  intros Hn Hn2. unfold Start. cbn [_heartinfo SetBeat HeartBeatMng_new]. destruct (Z.ltb_spec (Z.of_nat n) 0); [lia|].
  eexists. split; [reflexivity|]. eexists _, _. cbn [_heartinfo _svr_cnt _beat]. split; [reflexivity|].
  rewrite Nat2Z.id, length_replicate. split_and!; try done; [by rewrite u32_small by lia| |].
  - apply Forall_replicate. split_and!; constructor.
  - intros idx h Hh. apply lookup_replicate in Hh as [-> _]. by destruct k, (idx =? s)%nat.
Qed.

(** C9: from [Start] on, no sequence of callbacks and turns of the thread faults, and what
    the manager does to a connection is what a watchdog of its own would do that sees only
    the callbacks of this connection and the turns of its slot - for every connection whose
    descriptor stays in one slot. *)
Theorem heartbeat_refines_watchdogs (k : sock_kind) (p s n : nat) (beat : Z) (ops : list beat_op) :
  (0 < n)%nat → Z.of_nat n < 2 ^ 32 → Forall (op_in k p s n) ops →
  ∃ m m' evs, Start (SetBeat HeartBeatMng_new beat) (Z.of_nat n) = Some m ∧ beat_run ops m = Some (m', evs) ∧
    watches k p s n (u32 beat) m' (dog_run k p s n (u32 beat) ops (mkDog 0 0 None)).1 ∧
    List.filter (about k p) evs = (dog_run k p s n (u32 beat) ops (mkDog 0 0 None)).2.
Proof.
  intros Hn Hn2 Hops. destruct (started k p s n beat Hn Hn2) as (m & E & Hm).
  destruct (beat_run_dog k p s n (u32 beat) ops m _ Hm Hops) as (m' & evs & E' & Hm' & Hev). by exists m, m', evs.
Qed.

(** The times of the turns. *)
Definition op_between (lo hi : Z) (op : beat_op) : Prop :=
  match op with OpCall _ => True | OpTurn e _ => lo <= b_now e <= hi end.

Definition seen_since (t : Z) (d : dog) : Prop := ∃ i, d_info d = Some i ∧ t <= updtime i.

Lemma seen_le t d d' : seen_since t d → dog_le d d' → seen_since t d'.
Proof. intros (i & E & Hi) (E' & _). exists i. by rewrite E'. Qed.

Lemma seen_tick k p e beat t d :
  seen_since t d → t <= b_now e <= t + beat → seen_since t (dog_tick k p e beat d).1 ∧ (dog_tick k p e beat d).2 = [].
Proof.
  intros (i & E & Hi) Ht. unfold dog_tick, seen_since. rewrite E. cbn [fst snd d_info mbind option_bind]. unfold expired.
  rewrite (proj2 (Z.ltb_ge _ _)) by lia. cbn [andb]. split; [|done]. unfold marked.
  destruct (d_co d =? 0)%nat; cbn [fmap option_fmap option_map]; eexists; (split; [reflexivity|]); destruct (_ =? 0)%nat; cbn [updtime]; lia.
Qed.

Lemma seen_run k p s n beat t ops : ∀ m d,
  watches k p s n beat m d → (s < n)%nat → seen_since t d → Forall (op_in k p s n) ops →
  Forall (op_between t (t + beat)) ops →
  ∃ m' evs, beat_run ops m = Some (m', evs) ∧ List.filter (about k p) evs = [].
Proof.
  induction ops as [|op ops IH]; intros m d Hm Hs Hd Hops Ht; [by exists m, []|].
  inversion Hops as [|? ? Hop Hops']; subst. inversion Ht as [|? ? Hop2 Ht']; subst. destruct op as [c|e mid]; cbn [beat_run].
  - destruct (do_call_dog k p s n beat m c d Hm Hop) as (m1 & -> & Hm1). cbn [mbind option_bind].
    eapply IH; [exact Hm1|done| |done|done]. eapply seen_le; [exact Hd|apply dog_call_le].
  - destruct (Run_turn_tick k p s n beat e mid m d Hm Hs Hop) as (m1 & ev1 & d1 & d2 & -> & Hm1 & Hle & Hev & Hle2 & _).
    cbn [mbind option_bind]. destruct (seen_tick k p e beat t d1) as [Hd1 E]; [by eapply seen_le|done|].
    destruct (IH m1 d2 Hm1 Hs) as (m2 & ev2 & -> & Hev2); [by eapply seen_le|done|done|]. cbn [mbind option_bind].
    exists m2, (ev1 ++ ev2). split; [done|]. by rewrite filter_app, Hev, Hev2, E.
Qed.

(** C25: a connection is not closed for [beat] seconds after a turn that found its connect, or
    found data of it while it was not yet expired - whatever else happens. *)
Theorem active_connection_kept (k : sock_kind) (p s n : nat) (beat : Z) (m : HeartBeatMng) (d : dog)
    (e : beat_env) (mid : nat → list beat_call) (ops : list beat_op) :
  watches k p s n beat m d → (s < n)%nat → 0 <= beat →
  ((0 < d_co d)%nat ∨ (0 < d_data d)%nat ∧ ∃ i, d_info d = Some i ∧ b_now e <= updtime i + beat) →
  Forall (op_in k p s n) (OpTurn e mid :: ops) → Forall (op_between (b_now e) (b_now e + beat)) ops →
  ∃ m1 ev1 m2 ev2, Run_turn e mid m = Some (m1, ev1) ∧ beat_run ops m1 = Some (m2, ev2) ∧ EvClose k p ∉ ev2.
Proof.
  intros Hm Hs Hb Hpend Hops Ht. inversion Hops as [|? ? Hop Hops']; subst.
  destruct (Run_turn_tick k p s n beat e mid m d Hm Hs Hop) as (m1 & ev1 & d1 & d2 & E1 & Hm1 & (Hi & Hco & Hda) & _ & Hle2 & _).
  assert (seen_since (b_now e) (dog_tick k p e beat d1).1) as Hseen.
  { unfold dog_tick, seen_since. cbn [fst d_info]. unfold marked. destruct (Nat.eqb_spec (d_co d1) 0) as [E0|E0].
    - destruct Hpend as [?|(Hd & i & E & Hi2)]; [lia|]. rewrite Hi, E. cbn [mbind option_bind]. unfold expired.
      rewrite (proj2 (Z.ltb_ge _ _)) by lia. eexists. split; [reflexivity|]. destruct (Nat.eqb_spec (d_data d1) 0); [lia|]. cbn. lia.
    - eexists. split; [reflexivity|]. destruct (_ =? 0)%nat; cbn; lia. }
  destruct (seen_run k p s n beat (b_now e) ops m1 d2 Hm1 Hs) as (m2 & ev2 & E2 & Hev); [by eapply seen_le|done|done|].
  exists m1, ev1, m2, ev2. split_and!; [done|done|]. intros Hin%list_elem_of_In.
  assert (In (EvClose k p) (List.filter (about k p) ev2)) as Hin' by (apply filter_In; split; [done|apply about_self]).
  by rewrite Hev in Hin'.
Qed.

Lemma gone_run k p s n beat ops : ∀ m d,
  watches k p s n beat m d → (s < n)%nat → d_info d = None → d_co d = 0%nat → Forall (op_in k p s n) ops →
  Forall (op_no_connect k p) ops →
  ∃ m' evs, beat_run ops m = Some (m', evs) ∧ List.filter (about k p) evs = [].
Proof.
  induction ops as [|op ops IH]; intros m d Hm Hs Hd Hco Hops Hn; [by exists m, []|].
  inversion Hops as [|? ? Hop Hops']; subst. inversion Hn as [|? ? Hop2 Hn']; subst. destruct op as [c|e mid]; cbn [beat_run].
  - destruct (do_call_dog k p s n beat m c d Hm Hop) as (m1 & -> & Hm1). cbn [mbind option_bind].
    destruct (dog_call_le k p c d) as [(Hi & _) Hc]. eapply IH; [exact Hm1|done| | |done|done]; [by rewrite Hi|by rewrite Hc].
  - destruct (Run_turn_tick k p s n beat e mid m d Hm Hs Hop) as (m1 & ev1 & d1 & d2 & -> & Hm1 & (Hi & _) & Hev & (Hi2 & _) & Hc).
    cbn [mbind option_bind]. destruct (Hc Hop2) as [Hc1 Hc2]. rewrite Hco in Hc1. rewrite Hd in Hi.
    assert (d_info d2 = None) as Hd2 by (rewrite Hi2; unfold dog_tick; cbn [fst d_info]; by rewrite Hi, Hc1).
    destruct (IH m1 d2 Hm1 Hs Hd2 Hc2) as (m2 & ev2 & -> & Hev2); [done|done|]. cbn [mbind option_bind].
    exists m2, (ev1 ++ ev2). split; [done|]. rewrite filter_app, Hev, Hev2. unfold dog_tick. by rewrite Hi.
Qed.

(** C24: the first turn more than [beat] seconds after the connection was last marked closes
    it, if it is connected, even when data of it are waiting in the queue; it is then
    forgotten: nothing closes it again before it is announced again. *)
Theorem silent_connection_closed (k : sock_kind) (p s n : nat) (beat : Z) (m : HeartBeatMng) (d : dog) (i : SocketInfo)
    (e : beat_env) (mid : nat → list beat_call) (ops : list beat_op) :
  watches k p s n beat m d → (s < n)%nat → d_info d = Some i → d_co d = 0%nat → updtime i + beat < b_now e →
  Forall (op_in k p s n) (OpTurn e mid :: ops) → Forall (op_no_connect k p) (OpTurn e mid :: ops) →
  ∃ m' evs, beat_run (OpTurn e mid :: ops) m = Some (m', evs) ∧
    List.filter (about k p) evs = if b_connected e p then [EvClose k p] else [].
Proof.
  intros Hm Hs Hi Hco Hlate Hops Hn. inversion Hops as [|? ? Hop Hops']; subst. inversion Hn as [|? ? Hop2 Hn']; subst.
  destruct (Run_turn_tick k p s n beat e mid m d Hm Hs Hop) as (m1 & ev1 & d1 & d2 & E1 & Hm1 & (Hi1 & _) & Hev & (Hi2 & _) & Hc).
  destruct (Hc Hop2) as [Hc1 Hc2]. rewrite Hco in Hc1. rewrite Hi in Hi1.
  assert (expired beat (b_now e) i = true) as Hex by (unfold expired; apply Z.ltb_lt; lia).
  assert (d_info d2 = None) as Hd2 by (rewrite Hi2; unfold dog_tick; cbn [fst d_info]; by rewrite Hi1, Hc1; cbn; rewrite Hex).
  destruct (gone_run k p s n beat ops m1 d2 Hm1 Hs Hd2 Hc2 Hops' Hn') as (m2 & ev2 & E2 & Hev2).
  exists m2, (ev1 ++ ev2). cbn [beat_run]. rewrite E1. cbn [mbind option_bind]. rewrite E2. cbn [mbind option_bind].
  split; [done|]. rewrite filter_app, Hev, Hev2, app_nil_r. unfold dog_tick. cbn [snd]. by rewrite Hi1, Hex.
Qed.
End theorems.

(** ** The connectors *)

(** What a turn of its slot does to a connector: [idles] are the idle times its queued
    connects ask for, [n] its queued data. *)
Definition connector_tick (p : nat) (e : beat_env) (beat : Z) (bs : list byte) (idles : list Z) (n : nat)
    (i : option ConnSocketInfo) : option ConnSocketInfo * list beat_ev :=
  let now := b_now e in
  let '(i, ev) :=
    match i with
    | None => (None, [])
    | Some i =>
        if rcv_time i + beat <? now then (None, if b_connected e p then [EvCloseConn p] else [])
        else if snd_time i + idle i <? now then (Some (mkConnInfo (idle i) now (rcv_time i) (rcv_cnt i)), [EvSend p bs])
        else (Some i, [])
    end in
  let i := match list.last idles with Some t => Some (mkConnInfo t now now 0) | None => i end in
  ((λ i, if (n =? 0)%nat then i else mkConnInfo (idle i) (snd_time i) now (u32 (rcv_cnt i + Z.of_nat n))) <$> i, ev).

Definition idles_of (p : nat) (co : list (nat * Z)) : list Z := map snd (List.filter (λ c, (c.1 =? p)%nat) co).

Lemma expire_conn_events_other e beat bs info p :
  am_find p info = None → List.filter (about_conn p) (expire_conn e beat bs info).2 = [].
Proof.
  induction info as [|[q i] info IH]; [done|]. cbn [am_find expire_conn]. intros Hn. destruct (Nat.eqb_spec p q); [done|].
  specialize (IH Hn). destruct (expire_conn e beat bs info) as [rest ev]. cbn [snd] in IH.
  assert ((q =? p)%nat = false) as Hq by (apply Nat.eqb_neq; congruence).
  destruct (_ <? _); cbn [snd].
  - rewrite filter_app, IH. destruct (b_connected e q); cbn; [by rewrite Hq|done].
  - destruct (_ <? _); cbn [snd List.filter about_conn]; [by rewrite Hq|done].
Qed.

Lemma expire_conn_find e beat bs info p :
  am_ok info →
  (am_find p (expire_conn e beat bs info).1, List.filter (about_conn p) (expire_conn e beat bs info).2) =
    match am_find p info with
    | None => (None, [])
    | Some i =>
        if rcv_time i + beat <? b_now e then (None, if b_connected e p then [EvCloseConn p] else [])
        else if snd_time i + idle i <? b_now e then (Some (mkConnInfo (idle i) (b_now e) (rcv_time i) (rcv_cnt i)), [EvSend p bs])
        else (Some i, [])
    end.
Proof.
  unfold am_ok. induction info as [|[q i] info IH]; [done|]. cbn [map expire_conn am_find fst]. intros Hl.
  inversion Hl as [|? ? Hs Hq]; subst. specialize (IH Hs).
  pose proof (expire_conn_events_other e beat bs info p) as Hoth.
  pose proof (am_find_none p (fst (expire_conn e beat bs info))) as Hnone.
  pose proof (expire_conn_keys e beat bs info q Hq) as Hk.
  destruct (expire_conn e beat bs info) as [rest ev]. cbn [fst snd] in *.
  destruct (Nat.eqb_spec p q) as [->|Hpq].
  - rewrite (am_find_none q info Hq) in Hoth. specialize (Hoth eq_refl).
    destruct (rcv_time i + beat <? b_now e); cbn [fst snd am_find].
    + rewrite (Hnone Hk), filter_app, Hoth, app_nil_r. destruct (b_connected e q); [|done]. cbn. by rewrite Nat.eqb_refl.
    + destruct (_ <? _); cbn [fst snd am_find List.filter about_conn]; by rewrite ?Nat.eqb_refl, Hoth.
  - rewrite <- IH. assert ((q =? p)%nat = false) as Hqp by (apply Nat.eqb_neq; congruence).
    apply Nat.eqb_neq in Hpq. destruct (_ <? _); cbn [fst snd].
    + rewrite filter_app. f_equal. destruct (b_connected e q); cbn; [by rewrite Hqp|done].
    + destruct (_ <? _); cbn [fst snd am_find List.filter about_conn]; by rewrite Hpq, ?Hqp.
Qed.

Lemma enroll_conn_find now co info p :
  am_find p (enroll_conn now co info) =
    match list.last (idles_of p co) with Some t => Some (mkConnInfo t now now 0) | None => am_find p info end.
Proof.
  revert info. induction co as [|[q t] co IH]; intros info; [done|]. cbn [enroll_conn].
  rewrite IH, am_find_set. unfold idles_of. cbn [List.filter fst]. destruct (Nat.eqb_spec q p) as [->|Hq].
  - rewrite Nat.eqb_refl. cbn [map snd]. destruct (map snd _) as [|t1 l]; [done|]. rewrite last_cons_cons.
    destruct (list.last (t1 :: l)) eqn:El; [done|]. by apply last_None in El.
  - destruct (Nat.eqb_spec p q); [congruence|done].
Qed.

Lemma mark_conn_find now data info p :
  am_find p (mark_conn now data info) =
    (λ i, if (occurs p data =? 0)%nat then i else mkConnInfo (idle i) (snd_time i) now (u32 (rcv_cnt i + Z.of_nat (occurs p data))))
    <$> am_find p info.
Proof.
  revert info. induction data as [|q data IH]; intros info; [cbn [mark_conn]; by destruct (am_find p info)|]. cbn [mark_conn count_occ].
  rewrite IH. destruct (Nat.eq_dec q p) as [->|Hq].
  - destruct (am_find p info) as [i|] eqn:E; [|by rewrite E]. rewrite am_find_set, Nat.eqb_refl. cbn [fmap option_fmap option_map Nat.eqb].
    f_equal. destruct (Nat.eqb_spec (occurs p data) 0) as [->|]; [done|]. cbn [idle snd_time rcv_cnt]. f_equal.
    unfold u32. rewrite Zplus_mod_idemp_l. f_equal. lia.
  - destruct (am_find q info); [|done]. rewrite am_find_set. by destruct (Nat.eqb_spec p q); [congruence|].
Qed.

(** C34: What a turn of a slot does to each connector: silent for more than the beat, it is
    closed and forgotten; otherwise, if it sent nothing for more than its idle time, it is made
    to send the beat; then the last of its queued connects gives it its idle time, and its
    queued data are counted. *)
Lemma connector_turn (p : nat) (e : beat_env) (beat : Z) (bs : list byte) (h : HeartInfo) :
  heart_ok h →
  (am_find p (conn_tcp_info (run_slot e beat bs h).1), List.filter (about_conn p) (run_slot e beat bs h).2) =
    connector_tick p e beat bs (idles_of p (co_conn_tcplist h)) (occurs p (data_conn_tcplist h)) (am_find p (conn_tcp_info h)).
Proof.
  intros (H1 & H2 & H3). unfold run_slot, connector_tick.
  assert (∀ k info, List.filter (about_conn p) (expire_info k e beat info).2 = []) as Hno.
  { intros k info. induction info as [|[q i] info IH]; [done|]. cbn. destruct (expire_info k e beat info) as [rest ev].
    destruct (_ <? _); cbn; [|done]. rewrite filter_app. cbn in IH. rewrite IH. by destruct (b_connected e q). }
  pose proof (Hno KTcp (w_info (h_tcp h))) as N1. pose proof (Hno KHttp (w_info (h_http h))) as N2.
  pose proof (expire_conn_find e beat bs (conn_tcp_info h) p H3) as E.
  destruct (expire_info KTcp _ _ _), (expire_info KHttp _ _ _), (expire_conn _ _ _ _) as [conn ev]. cbn [fst snd] in *.
  rewrite !filter_app, N1, N2. cbn [conn_tcp_info List.app]. rewrite <- E. f_equal.
  by rewrite mark_conn_find, enroll_conn_find.
Qed.

(** [Stop] gives an array back with the wrong [delete], after [Start] as well as before. *)
Lemma Stop_faults `{Malloc} (n beat : Z) (m : HeartBeatMng) :
  Start (SetBeat HeartBeatMng_new beat) n = Some m → Stop m = None ∧ Stop (SetBeat HeartBeatMng_new beat) = None.
Proof. unfold Start. cbn [_heartinfo SetBeat HeartBeatMng_new]. destruct (_ <? _); [done|]. intros [= <-]. by split. Qed.

(** Before [Start] every callback divides by zero. *)
Lemma callback_before_Start `{Malloc} (c : beat_call) : do_call c HeartBeatMng_new = None.
Proof. by destruct c. Qed.

(** ** Witnesses *)

#[local] Existing Instance zero_malloc.

Definition quiet (idx : nat) : list beat_call := [].
Definition at_time (t : Z) : beat_env := mkBeatEnv t (λ _, true).

(** Two slots, a socket with descriptor 3 that is announced, marked at 110 and silent then. *)
Definition life : list beat_op :=
  [OpCall (CallConnected KTcp 7 3); OpTurn (at_time 100) quiet; OpCall (CallData KTcp 7 3); OpTurn (at_time 110) quiet;
   OpTurn (at_time 130) quiet; OpTurn (at_time 141) quiet; OpTurn (at_time 200) quiet].

Lemma quiet_in k p s n e : op_in k p s n (OpTurn e quiet).
Proof. intros idx. constructor. Qed.

Lemma life_in : Forall (op_in KTcp 7 1 2) life.
Proof. repeat first [apply List.Forall_nil|apply List.Forall_cons]; try apply quiet_in; intros _ _; reflexivity. Qed.

Lemma heartbeat_refines_watchdogs_witness :
  ∃ m m' evs, Start (SetBeat HeartBeatMng_new 30) 2 = Some m ∧ beat_run life m = Some (m', evs) ∧
    List.filter (about KTcp 7) evs = [EvClose KTcp 7].
Proof.
  destruct (heartbeat_refines_watchdogs KTcp 7 1 2 30 life) as (m & m' & evs & E1 & E2 & _ & E3);
    [lia|lia|exact life_in|]. exists m, m', evs. split; [exact E1|]. split; [exact E2|]. rewrite E3. reflexivity.
Defined.

Lemma active_connection_kept_witness :
  ∃ m m1 ev1 m2 ev2, Run_turn (at_time 100) quiet m = Some (m1, ev1) ∧
    beat_run [OpTurn (at_time 130) quiet] m1 = Some (m2, ev2) ∧ EvClose KTcp 7 ∉ ev2.
Proof.
  destruct (started KTcp 7 1 2 30) as (m0 & _ & Hm0); [lia|lia|].
  destruct (do_call_dog KTcp 7 1 2 30 m0 (CallConnected KTcp 7 3) _ Hm0) as (m & _ & Hm); [intros _ _; reflexivity|].
  exists m. refine (active_connection_kept KTcp 7 1 2 30 m _ (at_time 100) quiet [OpTurn (at_time 130) quiet] Hm _ _ _ _ _).
  - lia.
  - lia.
  - left. cbn. lia.
  - apply List.Forall_cons; [apply quiet_in|]. apply List.Forall_cons; [apply quiet_in|apply List.Forall_nil].
  - apply List.Forall_cons; [cbn; lia|apply List.Forall_nil].
Defined.

Lemma silent_connection_closed_witness :
  ∃ m m' evs, beat_run [OpTurn (at_time 131) quiet] m = Some (m', evs) ∧ List.filter (about KTcp 7) evs = [EvClose KTcp 7].
Proof.
  destruct (started KTcp 7 1 2 30) as (m0 & _ & Hm0); [lia|lia|].
  destruct (do_call_dog KTcp 7 1 2 30 m0 (CallConnected KTcp 7 3) _ Hm0) as (m1 & _ & Hm1); [intros _ _; reflexivity|].
  destruct (run_slots_dog KTcp 7 1 2 30 (at_time 100) quiet 2 0 m1 _ Hm1) as (m & _ & _ & Hm & _); [lia|intros; constructor|].
  exists m. refine (silent_connection_closed KTcp 7 1 2 30 m _ (mkInfo 100 0) (at_time 131) quiet [] Hm _ _ _ _ _ _).
  - lia.
  - reflexivity.
  - reflexivity.
  - cbn. lia.
  - apply List.Forall_cons; [apply quiet_in|apply List.Forall_nil].
  - apply List.Forall_cons; [intros idx; constructor|apply List.Forall_nil].
Defined.

Lemma connector_turn_witness :
  let h := mkHeart watch_new watch_new [(4%nat, mkConnInfo 10 100 105 2)] [] [4%nat] in
  am_find 4 (conn_tcp_info (run_slot (at_time 111) 30 [x01] h).1) = Some (mkConnInfo 10 111 111 3).
Proof.
  intros h. assert (heart_ok h) as Hh by (split_and!; repeat constructor).
  pose proof (connector_turn 4 (at_time 111) 30 [x01] h Hh) as E. apply (f_equal fst) in E. cbn [fst] in E.
  rewrite E. reflexivity.
Defined.
