(* ===== verification/Coroutine.v ===== *)
(** * coroutine: the scheduler

    [basecoroutine] of [src/slience/coroutine/coroutine.hpp] and [co_linux_impl.hpp]: one
    schedule per thread, coroutines numbered by their slot in an array, switched with
    [swapcontext].  A coroutine has a stack of its own, or runs on the schedule's stack,
    from which its bytes are copied away when it yields and back when it is resumed.

    The body of a coroutine is a tree of the operations it makes ([code]): it pushes,
    pops, reads and writes bytes of its stack, calls the scheduler, calls the rest of the
    program ([Sys], whose meaning is a parameter) and yields or returns.  [run] is a stay of a
    coroutine on the processor, from [swapcontext] in [resume] to the one in [yield] or at
    the end of [pub_coroutine]; it is a recursion on the tree.  The functions a
    coroutine can be made of are a table of trees, [prog]: the text of the program.

    The coroutines live in a heap, their addresses are in the array; what is freed is
    gone, and following its address is a fault, [None], as is a read or a write outside a
    block.

    [shared_stack_transparent]: a program cannot tell whether its coroutines have their own
    stacks or share one.  [schedule_ok_reached], [create_destroy_spec]: the numbers and the
    array. *)

From Stdlib Require Import ZArith Lia List Strings.Byte Init.Byte.
From stdpp Require Import base numbers list option gmap.
From S2P Require Import Prelude Buffer SList Containers.

#[local] Set Warnings "-clear-no-such-hyp".

(** ** What coroutines do *)

Section code.
Context {F D O R : Type}.

Inductive code :=
| Ret
| Yield (k : code)
| YieldEnter (f : F) (d : D)                  (* yields, then goes on as [f] applied to [d] *)
| Push (bs : list byte) (k : code)
| Pop (n : nat) (k : code)
| Peek (i n : nat) (k : list byte → code)
| Poke (i : nat) (bs : list byte) (k : code)
| Emit (z : Z) (k : code)
| Create (f : F) (d : D) (k : Z → code)
| Destroy (id : Z) (k : code)
| Resume (id : Z) (k : code)
| CurId (k : Z → code)
| Close (k : code)
| Sys (o : O) (k : R → code).

(** [c], then [c']. *)
Fixpoint seq_code (c c' : code) : code :=
  match c with
  | Ret => c'
  | Yield k => Yield (seq_code k c')
  | YieldEnter f d => YieldEnter f d
  | Push bs k => Push bs (seq_code k c')
  | Pop n k => Pop n (seq_code k c')
  | Peek i n k => Peek i n (λ bs, seq_code (k bs) c')
  | Poke i bs k => Poke i bs (seq_code k c')
  | Emit z k => Emit z (seq_code k c')
  | Create f d k => Create f d (λ id, seq_code (k id) c')
  | Destroy id k => Destroy id (seq_code k c')
  | Resume id k => Resume id (seq_code k c')
  | CurId k => CurId (λ id, seq_code (k id) c')
  | Close k => Close (seq_code k c')
  | Sys o k => Sys o (λ r, seq_code (k r) c')
  end.

(** Where a coroutine goes on: inside a tree, or at the start of a function. *)
Inductive point := At (c : code) | Enter (f : F) (d : D).
End code.

Arguments code : clear implicits.
Arguments point : clear implicits.

(** ** Data *)

Inductive co_status := COROUTINE_READY | COROUTINE_RUNNING | COROUTINE_SUSPEND | COROUTINE_DEAD.

#[export] Instance co_status_eq_dec : EqDecision co_status.
Proof. solve_decision. Defined.

Definition DEFAULT_COROUTINE : Z := 1024.
Definition M_INVALID_COROUTINE_ID : Z := 0xFFFFFFFF.
Definition M_COROUTINE_STACK_SIZE : Z := 4 * 1024 * 1024.

Section coroutine.
Context `{Malloc} {F D O R X : Type}.
(** [STACK] is [M_COROUTINE_STACK_SIZE]; [prog] the program's functions; [handle] what the
    rest of the program does. *)
Context (STACK : nat) (prog : F → D → code F D O R) (handle : O → X → option (X * R)).

Abbreviation loc := positive.

(** [_ctx]: the saved stack pointer, as the depth of the stack, the stack it is on and the
    point.  A null [_stack] is the empty block. *)
Record coroutine := mkCo {
  _id : Z; _status : co_status;
  _stack : list byte; _size : nat; _cap : nat;
  ctx_sp : nat; ctx_private : bool; ctx_point : point F D O R
}.

Record schedule := mkSched {
  s_cap : Z; _nco : Z; _pri_stack : bool;
  _co : option (list (option loc));
  _curco : option loc;
  _freeid : @svector Z;
  s_stack : list byte;
  gpristacksize : nat;
  heap : gmap loc coroutine;
  ext : X
}.

Implicit Types (s : schedule) (co : coroutine) (c : code F D O R) (arr : list (option loc)).

#[local] Set Default Proof Using "Type".

(** *** Updates *)

Definition set_array s (a : option (list (option loc))) : schedule :=
  mkSched (s_cap s) (_nco s) (_pri_stack s) a (_curco s) (_freeid s) (s_stack s) (gpristacksize s) (heap s) (ext s).
Definition set_cur s (l : option loc) : schedule :=
  mkSched (s_cap s) (_nco s) (_pri_stack s) (_co s) l (_freeid s) (s_stack s) (gpristacksize s) (heap s) (ext s).
Definition set_freeid s (v : @svector Z) : schedule :=
  mkSched (s_cap s) (_nco s) (_pri_stack s) (_co s) (_curco s) v (s_stack s) (gpristacksize s) (heap s) (ext s).
Definition set_stack s (b : list byte) : schedule :=
  mkSched (s_cap s) (_nco s) (_pri_stack s) (_co s) (_curco s) (_freeid s) b (gpristacksize s) (heap s) (ext s).
Definition set_heap s (h : gmap loc coroutine) : schedule :=
  mkSched (s_cap s) (_nco s) (_pri_stack s) (_co s) (_curco s) (_freeid s) (s_stack s) (gpristacksize s) h (ext s).
Definition set_ext s (x : X) : schedule :=
  mkSched (s_cap s) (_nco s) (_pri_stack s) (_co s) (_curco s) (_freeid s) (s_stack s) (gpristacksize s) (heap s) x.

Definition with_status co (st : co_status) : coroutine :=
  mkCo (_id co) st (_stack co) (_size co) (_cap co) (ctx_sp co) (ctx_private co) (ctx_point co).
Definition with_block co (b : list byte) : coroutine :=
  mkCo (_id co) (_status co) b (_size co) (_cap co) (ctx_sp co) (ctx_private co) (ctx_point co).
Definition with_ctx co (sp : nat) (p : point F D O R) : coroutine :=
  mkCo (_id co) (_status co) (_stack co) (_size co) (_cap co) sp (ctx_private co) p.

(** ** The scheduler's functions *)

Definition schedule_new (x : X) : schedule :=
  mkSched 0 0 false None None (sv_new (T := Z)) (malloc STACK) 0 ∅ x.

Definition initEnv (stack_size : Z) (pri_stack : bool) s : bool * schedule :=
  match _co s with
  | None =>
      (true, mkSched DEFAULT_COROUTINE (_nco s) pri_stack
               (Some (replicate (Z.to_nat DEFAULT_COROUTINE) None)) None (_freeid s) (s_stack s)
               (Z.to_nat (s32 stack_size)) (heap s) (ext s))
  | Some _ => (false, s)
  end.

(** A write to the array, inside its block. *)
Definition array_set (arr : list (option loc)) (id : Z) (x : option loc) : option (list (option loc)) :=
  if decide (0 <= id < Z.of_nat (length arr)) then Some (<[Z.to_nat id := x]> arr) else None.

(** [_alloc_co_]: the slot of the new coroutine [l]: a number given back, or the next one;
    the overflow of the doubled capacity is a fault. *)
Definition alloc_co (l : loc) (arr : list (option loc)) s : option (Z * schedule) :=
  if negb (sv_empty (_freeid s)) then
    id ← sv_back (_freeid s);
    v ← sv_pop_back (_freeid s);
    arr ← array_set arr id (Some l);
    Some (id, set_array (set_freeid s v) (Some arr))
  else if _nco s >=? s_cap s then
    if decide (s_cap s * 2 < 2 ^ 31) then
      let arr := take (Z.to_nat (s_cap s * 2)) arr ++ replicate (Z.to_nat (s_cap s)) None in
      arr ← array_set arr (s_cap s) (Some l);
      Some (_nco s, mkSched (s_cap s * 2) (_nco s + 1) (_pri_stack s) (Some arr) (_curco s) (_freeid s)
                      (s_stack s) (gpristacksize s) (heap s) (ext s))
    else None
  else
    arr ← array_set arr (_nco s) (Some l);
    Some (_nco s, mkSched (s_cap s) (_nco s + 1) (_pri_stack s) (Some arr) (_curco s) (_freeid s)
                    (s_stack s) (gpristacksize s) (heap s) (ext s)).

Definition create (f : F) (d : D) s : option (Z * schedule) :=
  match _co s with
  | None => Some (-1, s)
  | Some arr =>
      let l := fresh (dom (heap s)) in
      '(id, s) ← alloc_co l arr s;
      let co :=
        if _pri_stack s
        then mkCo id COROUTINE_READY (malloc (gpristacksize s)) 0 (gpristacksize s) 0 true (Enter f d)
        else mkCo id COROUTINE_READY [] 0 0 0 false (Enter f d) in
      Some (id, set_heap s (<[l := co]> (heap s)))
  end.

(** The coroutines in the array are freed - unless one of them is running. *)
Definition close s : option schedule :=
  let h :=
    match _curco s, _co s with
    | None, Some arr => foldl (λ h x, match x with Some l => delete l h | None => h end) (heap s) (take (Z.to_nat (s_cap s)) arr)
    | _, _ => heap s
    end in
  v ← sv_clear (_freeid s);
  Some (mkSched 0 0 false None None v (s_stack s) (gpristacksize s) h (ext s)).

Definition curid s : option Z :=
  match _curco s with
  | Some l => co ← heap s !! l; Some (_id co)
  | None => Some M_INVALID_COROUTINE_ID
  end.

(** The coroutine of a slot, freed, and its number given back. *)
Definition free_slot (co_id : Z) (l : loc) (arr : list (option loc)) s : option schedule :=
  _ ← heap s !! l;
  arr ← array_set arr co_id None;
  v ← sv_push_back (_freeid s) co_id;
  Some (set_freeid (set_array (set_heap s (delete l (heap s))) (Some arr)) v).

Definition destroy (co_id : Z) s : option schedule :=
  cur ← (match _curco s with Some l => co ← heap s !! l; Some (Some (_id co)) | None => Some None end);
  if decide (cur = Some co_id) then Some s
  else if decide (0 <= co_id < s_cap s) then
    arr ← _co s;
    x ← arr !! Z.to_nat co_id;
    match x with Some l => free_slot co_id l arr s | None => Some s end
  else Some s.

(** [save_stack]: the bytes below the top of the schedule's stack, to a block that only
    grows. *)
Definition save_stack co (sp : nat) (stk : list byte) : option coroutine :=
  if (sp <=? STACK)%nat then
    let '(b, cap) := if (_cap co <? sp)%nat then (malloc sp, sp) else (_stack co, _cap co) in
    bs ← load stk (STACK - sp) sp;
    b ← store b 0 bs;
    Some (mkCo (_id co) (_status co) b sp cap (ctx_sp co) (ctx_private co) (ctx_point co))
  else None.

(** [yield], up to the switch, of the coroutine at depth [sp], to go on at [p]. *)
Definition yield (l : loc) (sp : nat) (p : point F D O R) s : option schedule :=
  co ← heap s !! l;
  co ← (if _pri_stack s then Some co else save_stack co sp (s_stack s));
  Some (set_heap s (<[l := with_ctx (with_status co COROUTINE_SUSPEND) sp p]> (heap s))).

(** ** A stay on the processor *)

(** The stack a coroutine runs on: it grows down from the end of its block. *)
Definition block_of (l : loc) s : option (list byte) :=
  co ← heap s !! l; Some (if ctx_private co then _stack co else s_stack s).
Definition write_block (l : loc) (b : list byte) s : option schedule :=
  co ← heap s !! l;
  Some (if ctx_private co then set_heap s (<[l := with_block co b]> (heap s)) else set_stack s b).

(** A write at distance [i] from a stack pointer of depth [sp]. *)
Definition stack_write (l : loc) (sp i : nat) (bs : list byte) s : option schedule :=
  b ← block_of l s;
  if (sp <=? length b)%nat then b ← store b (length b - sp + i) bs; write_block l b s else None.

Definition stack_read (l : loc) (sp i n : nat) s : option (list byte) :=
  b ← block_of l s;
  if (sp <=? length b)%nat then load b (length b - sp + i) n else None.

(** [resume] called by a coroutine: only when none is current, which after [close] means
    that there is no slot either; a schedule set up again from inside a coroutine is out
    of the model. *)
Definition resume_inside (co_id : Z) s : option schedule :=
  match _curco s with
  | Some _ => Some s
  | None => if decide (0 <= co_id < s_cap s) then None else Some s
  end.

Fixpoint run (l : loc) (c : code F D O R) (sp : nat) s : option (schedule * list Z) :=
  match c with
  | Ret =>
      cur ← _curco s;
      co ← heap s !! cur;
      Some (set_heap s (<[cur := with_status co COROUTINE_DEAD]> (heap s)), [])
  | Yield k =>
      match _curco s with
      | Some cur => s ← yield cur sp (At k) s; Some (s, [])
      | None => run l k sp s
      end
  | YieldEnter f d => cur ← _curco s; s ← yield cur sp (Enter f d) s; Some (s, [])
  | Push bs k => s ← stack_write l (sp + length bs) 0 bs s; run l k (sp + length bs) s
  | Pop n k => if (n <=? sp)%nat then run l k (sp - n) s else None
  | Peek i n k => if (i + n <=? sp)%nat then bs ← stack_read l sp i n s; run l (k bs) sp s else None
  | Poke i bs k => if (i + length bs <=? sp)%nat then s ← stack_write l sp i bs s; run l k sp s else None
  | Emit z k => '(s, ev) ← run l k sp s; Some (s, z :: ev)
  | Create f d k => '(id, s) ← create f d s; run l (k id) sp s
  | Destroy id k => s ← destroy id s; run l k sp s
  | Resume id k => s ← resume_inside id s; run l k sp s
  | CurId k => id ← curid s; run l (k id) sp s
  | Close k => s ← close s; run l k sp s
  | Sys o k => '(x, r) ← handle o (ext s); run l (k r) sp (set_ext s x)
  end.

Definition enter (p : point F D O R) : code F D O R :=
  match p with At c => c | Enter f d => prog f d end.

(** The saved bytes are put back. *)
Definition restore_stack co s : option schedule :=
  if _pri_stack s then Some s
  else if (_size co <=? STACK)%nat then
    bs ← load (_stack co) 0 (_size co);
    b ← store (s_stack s) (STACK - _size co) bs;
    Some (set_stack s b)
  else None.

(** [resume] called by the thread. *)
Definition resume (co_id : Z) s : option (schedule * list Z) :=
  match _curco s with
  | Some _ => Some (s, [])
  | None =>
      if decide (0 <= co_id < s_cap s) then
        arr ← _co s;
        x ← arr !! Z.to_nat co_id;
        match x with
        | None => Some (s, [])
        | Some l =>
            co ← heap s !! l;
            if decide (_status co = COROUTINE_SUSPEND ∨ _status co = COROUTINE_READY) then
              s ← (if decide (_status co = COROUTINE_SUSPEND) then restore_stack co s else Some s);
              let s := set_cur (set_heap s (<[l := with_status co COROUTINE_RUNNING]> (heap s))) (Some l) in
              '(s, ev) ← run l (enter (ctx_point co)) (ctx_sp co) s;
              co ← heap s !! l;
              s ← (if decide (_status co = COROUTINE_DEAD)
                   then arr ← _co s; free_slot co_id l arr s
                   else Some s);
              Some (set_cur s None, ev)
            else Some (s, [])
        end
      else Some (s, [])
  end.

(** ** Executions of a thread *)

Inductive co_op :=
| OInit (stack_size : Z) (pri_stack : bool) | OCreate (f : F) (d : D) | OResume (id : Z) | ODestroy (id : Z) | OClose | OCurId
| OSys (o : O).

(** What shows: the answers, and what the coroutines emit. *)
Definition do_op (op : co_op) s : option (schedule * list Z) :=
  match op with
  | OInit n pri => let '(b, s) := initEnv n pri s in Some (s, [if b then 1 else 0])
  | OCreate f d => '(id, s) ← create f d s; Some (s, [id])
  | OResume id => resume id s
  | ODestroy id => s ← destroy id s; Some (s, [])
  | OClose => s ← close s; Some (s, [])
  | OCurId => id ← curid s; Some (s, [id])
  | OSys o => '(x, _) ← handle o (ext s); Some (set_ext s x, [])
  end.

Fixpoint co_run (ops : list co_op) s : option (schedule * list Z) :=
  match ops with
  | [] => Some (s, [])
  | op :: ops => '(s, ev) ← do_op op s; '(s, ev') ← co_run ops s; Some (s, ev ++ ev')
  end.

(** ** The numbers and the array *)

(** What holds of a schedule; [P] says which status the coroutine at an address may have. *)
Definition sched_inv (P : loc → co_status → Prop) s : Prop :=
  ∃ fl, vrep (_freeid s) fl ∧ v_cap (_freeid s) = 100 ∧
  match _co s with
  | None => fl = [] ∧ s_cap s = 0 ∧ _nco s = 0
  | Some arr =>
      Z.of_nat (length arr) = s_cap s ∧ 0 <= _nco s <= s_cap s ∧ 1024 <= s_cap s < 2 ^ 31 ∧ NoDup fl ∧
      (∀ i, i ∈ fl ↔ 0 <= i < _nco s ∧ arr !! Z.to_nat i = Some None) ∧
      (∀ i, _nco s <= i < s_cap s → arr !! Z.to_nat i = Some None) ∧
      (∀ i l, arr !! i = Some (Some l) → ∃ co, heap s !! l = Some co ∧ _id co = Z.of_nat i ∧ P l (_status co))
  end.

(** The coroutine at [l] has number [i]. *)
Definition live s (i : Z) (l : loc) : Prop :=
  0 <= i ∧ ∃ arr, _co s = Some arr ∧ arr !! Z.to_nat i = Some (Some l).

Definition waiting (l : loc) (st : co_status) : Prop := st = COROUTINE_READY ∨ st = COROUTINE_SUSPEND.
Definition on_cpu (cur : loc) (l : loc) (st : co_status) : Prop :=
  if decide (l = cur) then st = COROUTINE_RUNNING else waiting l st.
Definition off_cpu (cur : loc) (l : loc) (st : co_status) : Prop :=
  if decide (l = cur) then st = COROUTINE_SUSPEND ∨ st = COROUTINE_DEAD else waiting l st.

(** Between the operations of the thread. *)
Definition sched_ok s : Prop := sched_inv waiting s ∧ _curco s = None.

(** A slot's coroutine has the slot's number: it is in no other. *)
Lemma live_inj P s i j l : sched_inv P s → live s i l → live s j l → i = j.
Proof.
  intros (fl & _ & _ & Hinv) (Hi & arr & E & Hl) (Hj & arr' & E' & Hl'). rewrite E in E'. injection E' as <-. rewrite E in Hinv.
  destruct Hinv as (_ & _ & _ & _ & _ & _ & Ha). destruct (Ha _ _ Hl) as (co & E1 & I1 & _).
  destruct (Ha _ _ Hl') as (co' & E2 & I2 & _). rewrite E1 in E2. injection E2 as <-. lia.
Qed.

Lemma live_heap P s i l : sched_inv P s → live s i l → ∃ co, heap s !! l = Some co ∧ _id co = i ∧ P l (_status co).
Proof.
  intros (fl & _ & _ & Hinv) (Hi & arr & E & Hl). rewrite E in Hinv.
  destruct Hinv as (_ & _ & _ & _ & _ & _ & Ha). destruct (Ha _ _ Hl) as (co & E1 & I1 & ?). exists co. split_and!; [done|lia|done].
Qed.

Lemma live_cap P s i l : sched_inv P s → live s i l → 0 <= i < s_cap s.
Proof.
  intros (fl & _ & _ & Hinv) (Hi & arr & E & Hl). rewrite E in Hinv. apply lookup_lt_Some in Hl. lia.
Qed.

(** Two schedules that differ in what the invariant does not mention. *)
Lemma sched_inv_ext P Q s s' :
  sched_inv P s → _co s' = _co s → s_cap s' = s_cap s → _nco s' = _nco s → _freeid s' = _freeid s →
  (∀ i l co, live s i l → heap s !! l = Some co → P l (_status co) →
     ∃ co', heap s' !! l = Some co' ∧ _id co' = _id co ∧ Q l (_status co')) →
  sched_inv Q s'.
Proof.
  intros (fl & Hv & Hc & Hinv) E1 E2 E3 E4 Hl. exists fl. rewrite E1, E2, E3, E4. split_and!; [done|done|].
  destruct (_co s) as [arr|] eqn:Ea; [|done]. destruct Hinv as (H1 & H2 & H3 & H4 & H5 & H6 & H7). split_and!; try done; try lia.
  intros i l Hi. destruct (H7 i l Hi) as (co & Eh & Eid & HP). destruct (Hl (Z.of_nat i) l co) as (co' & ? & ? & ?); try done.
  - split; [lia|]. exists arr. by rewrite Nat2Z.id.
  - exists co'. split_and!; [done|congruence|done].
Qed.

Lemma array_set_ok arr id x :
  0 <= id < Z.of_nat (length arr) → array_set arr id x = Some (<[Z.to_nat id := x]> arr).
Proof. intros Hi. unfold array_set. by rewrite decide_True. Qed.

Lemma array_lookup_set arr (id i : Z) (x : option loc) :
  0 <= id < Z.of_nat (length arr) → 0 <= i →
  <[Z.to_nat id := x]> arr !! Z.to_nat i = if decide (i = id) then Some x else arr !! Z.to_nat i.
Proof.
  intros Hid Hi. destruct (decide (i = id)) as [->|Hne]; [apply list_lookup_insert_eq; lia|].
  apply list_lookup_insert_ne. lia.
Qed.

(** [_alloc_co_] takes a slot that was empty. *)
Lemma alloc_co_ok P s arr l id s1 co :
  sched_inv P s → _co s = Some arr → heap s !! l = None → alloc_co l arr s = Some (id, s1) →
  _id co = id → P l (_status co) →
  sched_inv P (set_heap s1 (<[l := co]> (heap s1))) ∧ _curco s1 = _curco s ∧ heap s1 = heap s ∧
  0 <= id < s_cap s1 ∧ arr !! Z.to_nat id ∈ [None; Some None] ∧
  _co s1 = Some (<[Z.to_nat id := Some l]> (arr ++ replicate (Z.to_nat (s_cap s1 - s_cap s)) None)).
Proof.
  intros (fl & Hv & Hc & Hinv) Ea Hfr E Hid HP. rewrite Ea in Hinv. destruct Hinv as (H1 & H2 & H3 & H4 & H5 & H6 & H7).
  assert (∀ i l', arr !! i = Some (Some l') → l' ≠ l) as Hne.
  { intros i l' Hi ->. destruct (H7 i l Hi) as (? & ? & _). congruence. }
  unfold alloc_co in E. pose proof Hv as (Hvc & Hvs & _). unfold sv_empty in E.
  destruct (Z.eqb_spec (v_size (_freeid s)) 0) as [E0|E0]; cbn [negb] in E.
  - assert (fl = []) as -> by (apply nil_length_inv; lia).
    rewrite Z.geb_leb in E. destruct (Z.leb_spec (s_cap s) (_nco s)) as [Hge|Hlt].
    + assert (_nco s = s_cap s) as Hn by lia. destruct (decide _) as [Hlt2|]; [|done].
      rewrite take_ge in E by lia. rewrite array_set_ok in E by (rewrite length_app, length_replicate; lia).
      cbn [mbind option_bind] in E. injection E as <- <-. cbn [_curco heap s_cap _co set_heap].
      replace (s_cap s * 2 - s_cap s) with (s_cap s) by lia. rewrite Hn.
      split; [|split_and!; try done; try lia; rewrite lookup_ge_None_2 by lia; set_solver].
      exists []. cbn [_freeid _co s_cap _nco heap set_heap]. split_and!; try done; try lia.
      * rewrite length_insert, length_app, length_replicate. lia.
      * intros i. split; [set_solver|]. intros [Hi Hx]. exfalso. rewrite array_lookup_set in Hx by (rewrite ?length_app, ?length_replicate; lia).
        destruct (decide _); [done|]. rewrite lookup_app_l in Hx by lia.
        assert (i ∈ []) by (apply H5; split; [lia|done]). set_solver.
      * intros i Hi. rewrite array_lookup_set by (rewrite ?length_app, ?length_replicate; lia). rewrite decide_False by lia.
        rewrite lookup_app_r by lia. apply lookup_replicate. split; [done|lia].
      * intros i l' Hi. destruct (decide (i = Z.to_nat (s_cap s))) as [->|Hi2].
        -- rewrite list_lookup_insert_eq in Hi by (rewrite length_app, length_replicate; lia). injection Hi as <-.
           exists co. rewrite lookup_insert_eq. split_and!; [done|lia|done].
        -- rewrite list_lookup_insert_ne in Hi by done. apply lookup_app_Some in Hi as [Hi|[_ Hi]].
           ++ rewrite lookup_insert_ne by (symmetry; by eapply Hne). by apply H7.
           ++ apply lookup_replicate in Hi as [? _]. done.
    + rewrite array_set_ok in E by lia. cbn [mbind option_bind] in E. injection E as <- <-. cbn [_curco heap s_cap _co set_heap].
      rewrite Z.sub_diag, app_nil_r. specialize (H6 (_nco s) ltac:(lia)) as H6n.
      split; [|split_and!; try done; try lia; rewrite H6n; set_solver].
      exists []. cbn [_freeid _co s_cap _nco heap set_heap]. split_and!; try done; try lia.
      * rewrite length_insert. lia.
      * intros i. split; [set_solver|]. intros [Hi Hx]. exfalso. rewrite array_lookup_set in Hx by lia.
        destruct (decide _); [done|]. assert (i ∈ []) by (apply H5; split; [lia|done]). set_solver.
      * intros i Hi. rewrite array_lookup_set by lia. rewrite decide_False by lia. apply H6. lia.
      * intros i l' Hi. destruct (decide (i = Z.to_nat (_nco s))) as [->|Hi2].
        -- rewrite list_lookup_insert_eq in Hi by lia. injection Hi as <-.
           exists co. rewrite lookup_insert_eq. split_and!; [done|lia|done].
        -- rewrite list_lookup_insert_ne in Hi by done. rewrite lookup_insert_ne by (symmetry; by eapply Hne). by apply H7.
  - destruct (decide (fl = [])) as [->|Hfl]; [cbn in Hvs; lia|]. destruct (exists_last Hfl) as (fl' & id' & ->).
    rewrite (vrep_back _ _ id' Hv) in E by apply last_snoc. cbn [mbind option_bind] in E.
    destruct (vrep_pop_back _ _ Hv) as (v & Ev & Hv' & Hvc'). rewrite Ev in E. cbn [mbind option_bind] in E.
    rewrite removelast_last in Hv'. destruct (proj1 (H5 id')) as [Hid' Hnone]; [set_solver|].
    rewrite array_set_ok in E by lia. cbn [mbind option_bind] in E. injection E as <- <-. cbn [_curco heap s_cap _co set_heap set_array set_freeid].
    rewrite Z.sub_diag, app_nil_r. split; [|split_and!; try done; try lia; rewrite Hnone; set_solver].
    apply NoDup_app in H4 as (H4 & H4' & _).
    exists fl'. cbn [_freeid _co s_cap _nco heap set_heap set_array set_freeid]. split_and!; try done; try lia.
    + rewrite length_insert. lia.
    + intros i. split.
      * intros Hi. destruct (proj1 (H5 i)) as [Hi1 Hi2]; [set_solver|]. split; [done|]. rewrite array_lookup_set by lia.
        rewrite decide_False; [done|]. intros ->. apply (H4' id' Hi). set_solver.
      * intros [Hi Hx]. rewrite array_lookup_set in Hx by lia. destruct (decide (i = id')) as [->|Hne']; [done|].
        assert (i ∈ fl' ++ [id']) as Hin by (by apply H5). apply elem_of_app in Hin as [?|Hin]; [done|]. set_solver.
    + intros i Hi. rewrite array_lookup_set by lia. rewrite decide_False by lia. apply H6. lia.
    + intros i l' Hi. destruct (decide (i = Z.to_nat id')) as [->|Hi2].
      * rewrite list_lookup_insert_eq in Hi by lia. injection Hi as <-. exists co. rewrite lookup_insert_eq. split_and!; [done|lia|done].
      * rewrite list_lookup_insert_ne in Hi by done. rewrite lookup_insert_ne by (symmetry; by eapply Hne). by apply H7.
Qed.

Lemma alloc_co_some P s arr l :
  sched_inv P s → _co s = Some arr → s_cap s * 2 < 2 ^ 31 → ∃ id s1, alloc_co l arr s = Some (id, s1).
Proof.
  intros (fl & Hv & Hc & Hinv) Ea Hcap. rewrite Ea in Hinv. destruct Hinv as (H1 & H2 & H3 & H4 & H5 & H6 & H7).
  unfold alloc_co. pose proof Hv as (Hvc & Hvs & _). unfold sv_empty.
  destruct (Z.eqb_spec (v_size (_freeid s)) 0) as [E0|E0]; cbn [negb].
  - rewrite Z.geb_leb. destruct (Z.leb_spec (s_cap s) (_nco s)).
    + rewrite decide_True by lia. rewrite take_ge by lia. rewrite array_set_ok by (rewrite length_app, length_replicate; lia). by eexists _, _.
    + rewrite array_set_ok by lia. by eexists _, _.
  - destruct (decide (fl = [])) as [->|Hfl]; [cbn in Hvs; lia|]. destruct (exists_last Hfl) as (fl' & id' & ->).
    rewrite (vrep_back _ _ id' Hv) by apply last_snoc. cbn [mbind option_bind].
    destruct (vrep_pop_back _ _ Hv) as (v & -> & _). cbn [mbind option_bind]. destruct (proj1 (H5 id')) as [Hid' _]; [set_solver|].
    rewrite array_set_ok by lia. by eexists _, _.
Qed.

(** Nothing of the schedule but the array, the heap and the numbers changes. *)
Definition same_rest s s' : Prop :=
  _pri_stack s' = _pri_stack s ∧ s_stack s' = s_stack s ∧ gpristacksize s' = gpristacksize s ∧ ext s' = ext s ∧ _curco s' = _curco s.

Lemma alloc_same l arr s id s1 : alloc_co l arr s = Some (id, s1) → same_rest s s1 ∧ heap s1 = heap s.
Proof.
  unfold alloc_co. destruct (negb _).
  - destruct (sv_back _); cbn [mbind option_bind]; [|done]. destruct (sv_pop_back _); cbn [mbind option_bind]; [|done].
    destruct (array_set _ _ _); cbn [mbind option_bind]; [|done]. by intros [= <- <-].
  - destruct (_ >=? _); [destruct (decide _); [|done]|]; (destruct (array_set _ _ _); cbn [mbind option_bind]; [|done]); by intros [= <- <-].
Qed.

Lemma create_ok P f d s id s' :
  sched_inv P s → (∀ l, heap s !! l = None → P l COROUTINE_READY) → create f d s = Some (id, s') →
  sched_inv P s' ∧ same_rest s s' ∧ (∀ i l, live s i l → live s' i l ∧ heap s' !! l = heap s !! l) ∧
  (_co s ≠ None → 0 <= id ∧ (∀ l, ¬ live s id l) ∧
     ∃ l co, live s' id l ∧ heap s !! l = None ∧ heap s' !! l = Some co ∧ _id co = id ∧
       _status co = COROUTINE_READY ∧ ctx_point co = Enter f d ∧ ctx_sp co = 0%nat).
Proof. clear prog.
  intros Hinv HP E. unfold create in E. destruct (_co s) as [arr|] eqn:Ea; [|injection E as <- <-; split_and!; try done; by intros []].
  set (l := fresh (dom (heap s))) in *.
  assert (heap s !! l = None) as Hfr by (apply not_elem_of_dom, is_fresh).
  destruct (alloc_co l arr s) as [[id1 s1]|] eqn:Eal; [|done]. cbn [mbind option_bind] in E. injection E as <- <-.
  destruct (alloc_same _ _ _ _ _ Eal) as [(R1 & R2 & R3 & R4 & R5) Rh].
  set (co := if _pri_stack s1 then _ else _).
  assert (_id co = id1 ∧ _status co = COROUTINE_READY ∧ ctx_point co = Enter f d ∧ ctx_sp co = 0%nat) as (C1 & C2 & C3 & C4)
    by (subst co; by destruct (_pri_stack s1)).
  destruct (alloc_co_ok P s arr l id1 s1 co Hinv Ea Hfr Eal C1) as (Hinv' & _ & _ & Hid & Hslot & Earr); [rewrite C2; by apply HP|].
  pose proof Hinv as (fl & _ & _ & Hx). rewrite Ea in Hx. destruct Hx as (Hlen & _).
  assert (∀ l', ¬ live s id1 l') as Hnl.
  { intros l' (_ & arr' & E' & Hl). rewrite Ea in E'. injection E' as <-. rewrite Hl in Hslot. set_solver. }
  split; [done|]. split; [by split_and!|]. split.
  - intros i l' Hl. assert (i ≠ id1) by (intros ->; by eapply Hnl).
    destruct (live_heap _ _ _ _ Hinv Hl) as (co' & Eco & _). destruct Hl as (Hi & arr' & E' & Hl). rewrite Ea in E'. injection E' as <-.
    split.
    + split; [done|]. eexists. split; [exact Earr|]. rewrite list_lookup_insert_ne by lia. by apply lookup_app_l_Some.
    + cbn [heap set_heap]. rewrite lookup_insert_ne by congruence. by rewrite Rh.
  - intros _. split; [lia|]. split; [done|]. exists l, co. split_and!; try done.
    + split; [lia|]. eexists. split; [exact Earr|]. apply list_lookup_insert_eq.
      destruct Hinv' as (fl' & _ & _ & Hx'). cbn [_co s_cap set_heap] in Hx'. rewrite Earr in Hx'.
      destruct Hx' as (Hlen' & _). rewrite length_insert in Hlen'. lia.
    + cbn [heap set_heap]. apply lookup_insert_eq.
Qed.

(** A number is given back. *)
Lemma free_slot_ok P Q s arr id l :
  sched_inv P s → _co s = Some arr → 0 <= id → arr !! Z.to_nat id = Some (Some l) →
  (∀ l' st, l' ≠ l → P l' st → Q l' st) →
  (v_size (_freeid s) = 200 → free_slot id l arr s = None) ∧
  (v_size (_freeid s) < 200 → ∃ s', free_slot id l arr s = Some s') ∧
  (∀ s', free_slot id l arr s = Some s' →
     sched_inv Q s' ∧ same_rest s s' ∧ (∀ l', ¬ live s' id l') ∧ v_size (_freeid s') = v_size (_freeid s) + 1 ∧
     heap s' !! l = None ∧ (∀ i l', i ≠ id → live s i l' → live s' i l' ∧ heap s' !! l' = heap s !! l')).
Proof.
  intros Hinv Ea Hid Hl HQ. pose proof Hinv as (fl & Hv & Hc & Hx). rewrite Ea in Hx.
  destruct Hx as (H1 & H2 & H3 & H4 & H5 & H6 & H7). pose proof Hv as (_ & Hvs & Hvl & _).
  assert (Hlt : (Z.to_nat id < length arr)%nat) by (by eapply lookup_lt_Some).
  assert (Hfl : id ∉ fl) by (intros Hin; apply H5 in Hin as [_ Hin]; congruence).
  assert (Hn : 0 <= id < _nco s).
  { split; [done|]. destruct (decide (id < _nco s)); [done|]. rewrite (H6 id) in Hl by lia. done. }
  destruct (H7 _ _ Hl) as (co & Eco & Hcid & _).
  unfold free_slot. rewrite Eco. cbn [mbind option_bind]. rewrite array_set_ok by lia. cbn [mbind option_bind].
  split; [|split].
  - intros H200. rewrite (svector_overruns _ fl id Hv); [done|lia].
  - intros Hlt2. destruct (vrep_push_back _ _ id Hv) as (v & -> & _); [lia|]. by eexists.
  - intros s' E. destruct (decide (v_size (_freeid s) < 200)) as [Hlt2|Hge].
    2: { destruct (sv_push_back (_freeid s) id) as [v|] eqn:Ev; [|done]. exfalso.
         rewrite (svector_overruns _ fl id Hv) in Ev; [done|lia]. }
    destruct (vrep_push_back _ _ id Hv) as (v & Ev & Hv' & Hvc); [lia|]. rewrite Ev in E. cbn [mbind option_bind] in E. injection E as <-.
    assert (∀ i l', i ≠ id → 0 <= i → arr !! Z.to_nat i = Some (Some l') → l' ≠ l) as Hdiff.
    { intros i l' Hi Hi0 Hl' ->. destruct (H7 _ _ Hl') as (co' & Eco' & Hcid' & _). rewrite Eco in Eco'. injection Eco' as <-. lia. }
    split; [|split; [by split_and!|split; [|split; [|split]]]].
    + exists (fl ++ [id]). cbn [_freeid set_freeid _co set_array s_cap _nco heap set_heap]. split; [done|]. split; [by rewrite Hvc|].
      rewrite length_insert. split_and!; try done; try lia.
      * apply NoDup_app. split; [done|]. split; [|apply NoDup_singleton]. intros x Hx ->%list_elem_of_singleton. done.
      * intros i. rewrite elem_of_app, list_elem_of_singleton, H5. split.
        -- intros [[Hi Hx]| ->]; (split; [lia|]); rewrite array_lookup_set by lia; (destruct (decide _); [done|done]).
        -- intros [Hi Hx]. rewrite array_lookup_set in Hx by lia. destruct (decide (i = id)); [by right|by left].
      * intros i Hi. rewrite array_lookup_set by lia. rewrite decide_False by lia. by apply H6.
      * intros i l' Hl'. destruct (decide (i = Z.to_nat id)) as [->|Hi]; [by rewrite list_lookup_insert_eq in Hl'|].
        rewrite list_lookup_insert_ne in Hl' by done.
        assert (l' ≠ l) by (apply (Hdiff (Z.of_nat i)); [lia|lia|by rewrite Nat2Z.id]).
        rewrite lookup_delete_ne by done. destruct (H7 i l' Hl') as (co' & ? & ? & ?). exists co'. split_and!; auto.
    + intros l' (_ & arr' & [= <-] & Hl'). by rewrite list_lookup_insert_eq in Hl'.
    + cbn [_freeid set_freeid]. destruct Hv' as (_ & -> & _). rewrite length_app, Hvs. cbn [length]. lia.
    + cbn [heap set_heap set_array set_freeid]. apply lookup_delete_eq.
    + intros i l' Hi (Hi0 & arr' & E' & Hl'). rewrite Ea in E'. injection E' as <-. split.
      * split; [done|]. eexists. split; [reflexivity|]. by rewrite list_lookup_insert_ne by lia.
      * cbn [heap set_heap set_array set_freeid]. apply lookup_delete_ne. intros ->. by apply (Hdiff i l' Hi Hi0 Hl').
Qed.

(** [destroy] frees a coroutine that is not the caller. *)
Lemma destroy_ok P s id s' :
  sched_inv P s → (∀ cur, _curco s = Some cur → ∃ i, live s i cur) → destroy id s = Some s' →
  sched_inv P s' ∧ same_rest s s' ∧
  (∀ i l, live s i l → i ≠ id ∨ _curco s = Some l → live s' i l ∧ heap s' !! l = heap s !! l) ∧
  (∀ l, live s' id l → live s id l ∧ _curco s = Some l).
Proof.
  intros Hinv Hcur E. unfold destroy in E.
  assert (∃ cur, (match _curco s with Some l => co ← heap s !! l; Some (Some (_id co)) | None => Some None end) = Some cur ∧
    ∀ i, cur = Some i ↔ ∃ l, _curco s = Some l ∧ live s i l) as (cur & Ec & Hc).
  { destruct (_curco s) as [l|]; [|exists None; split; [done|]; naive_solver].
    destruct (Hcur l eq_refl) as [i Hl]. destruct (live_heap _ _ _ _ Hinv Hl) as (co & -> & Hid & _).
    exists (Some (_id co)). split; [done|]. intros j. split; [intros [= <-]; exists l; by rewrite Hid|].
    intros (l' & [= <-] & Hl'). rewrite Hid. f_equal. by eapply live_inj. }
  rewrite Ec in E. cbn [mbind option_bind] in E. destruct (decide (cur = Some id)) as [->|Hne].
  { injection E as <-. destruct (proj1 (Hc id) eq_refl) as (l & Ecur & Hl). split_and!; try done.
    intros l' Hl'. split; [done|]. rewrite Ecur. f_equal. destruct Hl as (_ & arr & E1 & E2), Hl' as (_ & arr' & E1' & E2'). congruence. }
  destruct (decide (0 <= id < s_cap s)) as [Hid|Hid].
  2: { injection E as <-. split_and!; try done. intros l Hl. pose proof (live_cap _ _ _ _ Hinv Hl). lia. }
  destruct (_co s) as [arr|] eqn:Ea; [|done]. cbn [mbind option_bind] in E.
  destruct (arr !! Z.to_nat id) as [[l|]|] eqn:El; cbn [mbind option_bind] in E; [| |done].
  - destruct (free_slot_ok P P s arr id l Hinv Ea) as (_ & _ & Hk); [lia|done|done|].
    destruct (Hk s' E) as (I1 & I2 & I3 & _ & _ & I4). split; [done|]. split; [done|]. split.
    + intros i l' Hl' Hor. apply I4; [|done]. destruct Hor as [?|Hor]; [done|]. intros ->. apply Hne. apply Hc. by exists l'.
    + intros l' Hl'. by apply I3 in Hl'.
  - injection E as <-. split_and!; try done. intros l (_ & arr' & E' & Hl). rewrite Ea in E'. injection E' as <-. congruence.
Qed.

(** A coroutine on the processor is in the array, with its number. *)
Definition running (i : Z) (l : loc) s : Prop := sched_inv (on_cpu l) s ∧ _curco s = Some l ∧ live s i l.
Definition switched (i : Z) (l : loc) s : Prop := sched_inv (off_cpu l) s ∧ _curco s = Some l ∧ live s i l.

Lemma live_same s s' i l : _co s' = _co s → live s i l → live s' i l.
Proof. unfold live. by intros ->. Qed.

Lemma sched_same P s s' :
  sched_inv P s → _co s' = _co s → s_cap s' = s_cap s → _nco s' = _nco s → _freeid s' = _freeid s → heap s' = heap s → sched_inv P s'.
Proof. intros Hinv ? ? ? ? Eh. eapply sched_inv_ext; try done. intros i l co _ El HP. exists co. by rewrite Eh. Qed.

(** A change of one coroutine. *)
Lemma sched_update P Q s cur co co' :
  sched_inv P s → heap s !! cur = Some co → _id co' = _id co → Q cur (_status co') → (∀ l st, l ≠ cur → P l st → Q l st) →
  sched_inv Q (set_heap s (<[cur := co']> (heap s))).
Proof.
  intros Hinv Ec Hid HQ HPQ. eapply sched_inv_ext; try done. intros i l x _ El HP. cbn [heap set_heap].
  destruct (decide (l = cur)) as [->|Hl].
  - exists co'. rewrite lookup_insert_eq. split_and!; [done|congruence|done].
  - exists x. rewrite lookup_insert_ne by done. split_and!; auto.
Qed.

Lemma running_update i l s co co' :
  running i l s → heap s !! l = Some co → _id co' = _id co → _status co' = _status co → running i l (set_heap s (<[l := co']> (heap s))).
Proof.
  intros (Hinv & Hc & Hl) Eco Hid Hst. destruct (live_heap _ _ _ _ Hinv Hl) as (x & Ex & _ & HP).
  rewrite Eco in Ex. injection Ex as <-. split; [|split; [done|by eapply live_same; [|exact Hl]]].
  eapply sched_update; [exact Hinv|exact Eco|done|by rewrite Hst|done].
Qed.

Lemma switched_update i l s co co' :
  running i l s → heap s !! l = Some co → _id co' = _id co → _status co' = COROUTINE_SUSPEND ∨ _status co' = COROUTINE_DEAD →
  switched i l (set_heap s (<[l := co']> (heap s))).
Proof.
  intros (Hinv & Hc & Hl) Eco Hid Hst. split; [|split; [done|by eapply live_same; [|exact Hl]]].
  eapply sched_update; [exact Hinv|exact Eco|done| |].
  - unfold off_cpu. by rewrite decide_True.
  - intros l' st Hne. unfold on_cpu, off_cpu. by rewrite !decide_False.
Qed.

Lemma stack_write_ok id l sp i bs s s' : running id l s → stack_write l sp i bs s = Some s' → running id l s'.
Proof.
  intros Hr E. unfold stack_write, write_block in E. destruct (block_of l s) as [b|]; [|done]. cbn [mbind option_bind] in E.
  destruct (_ <=? _)%nat; [|done]. destruct (store _ _ _) as [b'|]; [|done]. cbn [mbind option_bind] in E.
  destruct (heap s !! l) as [co|] eqn:Eco; [|done]. cbn [mbind option_bind] in E. destruct (ctx_private co).
  - injection E as <-. by eapply running_update.
  - injection E as <-. destruct Hr as (Hinv & Hc & Hl). split; [|by split]. by eapply sched_same.
Qed.

Lemma yield_ok id l sp p s s' : running id l s → yield l sp p s = Some s' → switched id l s'.
Proof.
  intros Hr E. unfold yield in E. destruct (heap s !! l) as [co|] eqn:Eco; [|done]. cbn [mbind option_bind] in E.
  destruct (if _pri_stack s then _ else _) as [co'|] eqn:Es; [|done]. cbn [mbind option_bind] in E. injection E as <-.
  eapply switched_update; [exact Hr|exact Eco| |by left]. cbn [_id with_ctx with_status].
  destruct (_pri_stack s); [by injection Es as <-|]. unfold save_stack in Es. destruct (_ <=? _)%nat; [|done].
  destruct (if (_ <? _)%nat then _ else _) as [b cap]. destruct (load _ _ _); [|done]. cbn [mbind option_bind] in Es.
  destruct (store _ _ _); [|done]. cbn [mbind option_bind] in Es. by injection Es as <-.
Qed.

(** Without a current coroutine - after [close] - a stay does not end. *)
Lemma run_closed l c : ∀ sp s, _curco s = None → _co s = None → s_cap s = 0 → run l c sp s = None.
Proof.
  induction c as [|k IH|f d|bs k IH|n k IH|i n k IH|i bs k IH|z k IH|f d k IH|id k IH|id k IH|k IH|k IH|o k IH];
    intros sp s Hc Ha Hcap; cbn [run]; rewrite ?Hc; try done.
  - by apply IH.
  - unfold stack_write, write_block. destruct (block_of l s) as [b|]; [|done]. cbn [mbind option_bind].
    destruct (_ <=? _)%nat; [|done]. destruct (store _ _ _); [|done]. cbn [mbind option_bind].
    destruct (heap s !! l) as [co|]; [|done]. cbn [mbind option_bind]. destruct (ctx_private co); by apply IH.
  - destruct (_ <=? _)%nat; [|done]. by apply IH.
  - destruct (_ <=? _)%nat; [|done]. destruct (stack_read _ _ _ _ _); [|done]. by apply IH.
  - destruct (_ <=? _)%nat; [|done]. unfold stack_write, write_block. destruct (block_of l s) as [b|]; [|done]. cbn [mbind option_bind].
    destruct (_ <=? _)%nat; [|done]. destruct (store _ _ _); [|done]. cbn [mbind option_bind].
    destruct (heap s !! l) as [co|]; [|done]. cbn [mbind option_bind]. destruct (ctx_private co); by apply IH.
  - by rewrite IH.
  - unfold create. rewrite Ha. cbn [mbind option_bind]. by apply IH.
  - unfold destroy. rewrite Hc. cbn [mbind option_bind]. rewrite decide_False by done. rewrite Hcap, decide_False by lia. cbn [mbind option_bind]. by apply IH.
  - unfold resume_inside. rewrite Hc, Hcap, decide_False by lia. cbn [mbind option_bind]. by apply IH.
  - unfold curid. rewrite Hc. cbn [mbind option_bind]. by apply IH.
  - unfold close. destruct (sv_clear _); [|done]. cbn [mbind option_bind]. by apply IH.
  - destruct (handle o (ext s)) as [[x r]|]; [|done]. cbn [mbind option_bind]. by apply IH.
Qed.

(** A stay on the processor. *)
Lemma running_ok i0 l c : ∀ sp s s' ev, running i0 l s → run l c sp s = Some (s', ev) → switched i0 l s'.
Proof.
  induction c as [|k IH|f d|bs k IH|n k IH|i n k IH|i bs k IH|z k IH|f d k IH|id k IH|id k IH|k IH|k IH|o k IH];
    intros sp s s' ev Hr E; cbn [run] in E; pose proof Hr as (Hinv & Hc & Hl); rewrite ?Hc in E; cbn [mbind option_bind] in E.
  - destruct (live_heap _ _ _ _ Hinv Hl) as (co & Eco & _). rewrite Eco in E. cbn [mbind option_bind] in E. injection E as <- <-.
    eapply switched_update; [done|exact Eco|done|by right].
  - destruct (yield _ _ _ _) eqn:Ey; [|done]. cbn [mbind option_bind] in E. injection E as <- <-. by eapply yield_ok.
  - destruct (yield _ _ _ _) eqn:Ey; [|done]. cbn [mbind option_bind] in E. injection E as <- <-. by eapply yield_ok.
  - destruct (stack_write _ _ _ _ _) eqn:Ew; [|done]. cbn [mbind option_bind] in E. eapply IH; [|exact E]. by eapply stack_write_ok.
  - destruct (_ <=? _)%nat; [|done]. by eapply IH.
  - destruct (_ <=? _)%nat; [|done]. destruct (stack_read _ _ _ _ _); [|done]. by eapply IH.
  - destruct (_ <=? _)%nat; [|done]. destruct (stack_write _ _ _ _ _) eqn:Ew; [|done]. cbn [mbind option_bind] in E.
    eapply IH; [|exact E]. by eapply stack_write_ok.
  - destruct (run l k sp s) as [[s1 ev1]|] eqn:E1; [|done]. cbn [mbind option_bind] in E. injection E as <- <-. by eapply IH.
  - destruct (create f d s) as [[id s1]|] eqn:Ec; [|done]. cbn [mbind option_bind] in E. eapply IH; [|exact E].
    destruct (create_ok (on_cpu l) f d s id s1 Hinv) as (I1 & (_ & _ & _ & _ & Rc) & I2 & _); [|done|].
    { intros l' Hl'. unfold on_cpu. destruct (decide (l' = l)) as [->|]; [|by left].
      destruct (live_heap _ _ _ _ Hinv Hl) as (? & ? & _). congruence. }
    split; [done|]. split; [by rewrite Rc|]. by apply I2.
  - destruct (destroy id s) as [s1|] eqn:Ed; [|done]. cbn [mbind option_bind] in E. eapply IH; [|exact E].
    destruct (destroy_ok _ s id s1 Hinv) as (I1 & (_ & _ & _ & _ & Rc) & I2 & _); [|done|].
    { rewrite Hc. intros ? [= <-]. by exists i0. }
    split; [done|]. split; [by rewrite Rc|]. apply I2; [done|by right].
  - unfold resume_inside in E. rewrite Hc in E. cbn [mbind option_bind] in E. by eapply IH.
  - destruct (curid s); [|done]. by eapply IH.
  - unfold close in E. destruct (sv_clear _); [|done]. cbn [mbind option_bind] in E. by rewrite run_closed in E.
  - destruct (handle o (ext s)) as [[x r]|]; [|done]. cbn [mbind option_bind] in E. eapply IH; [|exact E].
    split; [|by split]. by eapply sched_same.
Qed.

Lemma restore_ok co s s' : restore_stack co s = Some s' →
  _co s' = _co s ∧ s_cap s' = s_cap s ∧ _nco s' = _nco s ∧ _freeid s' = _freeid s ∧ heap s' = heap s ∧ _curco s' = _curco s.
Proof.
  unfold restore_stack. destruct (_pri_stack s); [by intros [= <-]|]. destruct (_ <=? _)%nat; [|done].
  destruct (load _ _ _); [|done]. cbn [mbind option_bind]. destruct (store _ _ _); [|done]. by intros [= <-].
Qed.

(** Back in the thread after a stay. *)
Lemma switched_back i l s :
  switched i l s → (∃ co, heap s !! l = Some co ∧ _status co ≠ COROUTINE_DEAD) → sched_ok (set_cur s None).
Proof.
  intros (Hinv & _) (co & Eco & Hst). split; [|done].
  eapply sched_inv_ext; [exact Hinv|done..|]. intros j l' x Hl' Ex HP. exists x. split_and!; [done|done|].
  unfold off_cpu in HP. destruct (decide (l' = l)) as [->|]; [|done]. rewrite Eco in Ex. injection Ex as <-.
  destruct HP as [?|?]; [by right|done].
Qed.

Lemma resume_ok id s s' ev : sched_ok s → resume id s = Some (s', ev) → sched_ok s'.
Proof.
  intros [Hinv Hc] E. unfold resume in E. rewrite Hc in E. destruct (decide (0 <= id < s_cap s)) as [Hid|]; [|by injection E as <- <-].
  destruct (_co s) as [arr|] eqn:Ea; [|done]. cbn [mbind option_bind] in E.
  destruct (arr !! Z.to_nat id) as [[l|]|] eqn:El; cbn [mbind option_bind] in E; [|by injection E as <- <-|done].
  assert (live s id l) as Hl by (split; [lia|by exists arr]).
  destruct (live_heap _ _ _ _ Hinv Hl) as (co & Eco & Hcid & Hst). rewrite Eco in E. cbn [mbind option_bind] in E.
  destruct (decide (_ ∨ _)) as [_|]; [|by injection E as <- <-].
  destruct (if decide _ then restore_stack co s else Some s) as [s1|] eqn:E1; [|done]. cbn [mbind option_bind] in E.
  assert (_co s1 = _co s ∧ s_cap s1 = s_cap s ∧ _nco s1 = _nco s ∧ _freeid s1 = _freeid s ∧ heap s1 = heap s ∧ _curco s1 = _curco s)
    as (R1 & R2 & R3 & R4 & R5 & R6).
  { destruct (decide _); [by eapply restore_ok|]. by injection E1 as <-. }
  assert (running id l (set_cur (set_heap s1 (<[l:=with_status co COROUTINE_RUNNING]> (heap s1))) (Some l))) as Hrun.
  { split; [|split; [done|by eapply live_same; [|exact Hl]]].
    eapply sched_inv_ext; [exact Hinv|done..|]. intros i l' x Hl' Ex HP. cbn [heap set_heap set_cur]. rewrite R5.
    unfold on_cpu. destruct (decide (l' = l)) as [->|Hne].
    - exists (with_status co COROUTINE_RUNNING). rewrite lookup_insert_eq. split_and!; try done. cbn. congruence.
    - exists x. by rewrite lookup_insert_ne. }
  destruct (run l _ _ _) as [[s2 ev2]|] eqn:E2; [|done]. cbn [mbind option_bind] in E.
  pose proof (running_ok _ _ _ _ _ _ _ Hrun E2) as Hsw. pose proof Hsw as (Hinv2 & Hc2 & Hl2).
  destruct (live_heap _ _ _ _ Hinv2 Hl2) as (co2 & Eco2 & Hid2 & Hst2). rewrite Eco2 in E. cbn [mbind option_bind] in E.
  destruct (decide (_status co2 = COROUTINE_DEAD)) as [Hd|Hd].
  - destruct (_co s2) as [arr2|] eqn:Ea2; [|done]. cbn [mbind option_bind] in E.
    destruct (free_slot id l arr2 s2) as [s3|] eqn:E3; [|done]. cbn [mbind option_bind] in E. injection E as <- <-.
    destruct Hl2 as (Hi2 & arr' & E' & Hl2). rewrite Ea2 in E'. injection E' as <-.
    destruct (free_slot_ok (off_cpu l) waiting s2 arr2 id l Hinv2 Ea2) as (_ & _ & Hk); [lia|done| |].
    { intros l' st Hne. unfold off_cpu. by rewrite decide_False. }
    destruct (Hk s3 E3) as (I1 & _). split; [|done]. by eapply sched_same.
  - injection E as <- <-. eapply switched_back; [exact Hsw|]. by exists co2.
Qed.
Lemma initEnv_ok n pri s b s' : sched_ok s → initEnv n pri s = (b, s') → sched_ok s'.
Proof.
  intros [(fl & Hv & Hc & Hx) Hcur] E. unfold initEnv in E.
  remember (Z.to_nat DEFAULT_COROUTINE) as K eqn:EK. assert (Z.of_nat K = 1024) as HK by (rewrite EK; reflexivity). clear EK.
  destruct (_co s) as [arr|] eqn:Ea.
  - injection E as <- <-. split; [|done]. exists fl. rewrite Ea. by split; [|split].
  - injection E as <- <-. destruct Hx as (-> & _ & Hn). split; [|done].
    exists []. cbn [_freeid _co s_cap _nco heap]. rewrite Hn, length_replicate. unfold DEFAULT_COROUTINE. split_and!; try done; try lia.
    + apply NoDup_nil_2.
    + intros i. split; [set_solver|lia].
    + intros i Hi. apply lookup_replicate. split; [done|lia].
    + intros i l Hl. apply lookup_replicate in Hl as [? _]. done.
Qed.

Lemma close_ok s : sched_ok s → ∃ s', close s = Some s' ∧ sched_ok s'.
Proof.
  intros [(fl & Hv & Hc & Hx) Hcur]. unfold close. destruct (vrep_clear _ _ Hv) as (v & -> & Hv' & Hvc). cbn [mbind option_bind].
  eexists. split; [reflexivity|]. split; [|done]. exists []. cbn. split_and!; (done || congruence).
Qed.

Lemma do_op_ok op s s' ev : sched_ok s → do_op op s = Some (s', ev) → sched_ok s'.
Proof.
  intros Hs E. pose proof Hs as [Hinv Hc]. destruct op as [n pri|f d|id|id| | |o]; cbn [do_op] in E.
  - destruct (initEnv n pri s) as [b s1] eqn:Ei. injection E as <- <-. by eapply initEnv_ok.
  - destruct (create f d s) as [[id s1]|] eqn:Ec; [|done]. injection E as <- <-.
    destruct (create_ok waiting f d s id s1 Hinv) as (I1 & (_ & _ & _ & _ & Rc) & _); [intros; by left|done|].
    split; [done|]. by rewrite Rc.
  - by eapply resume_ok.
  - destruct (destroy id s) as [s1|] eqn:Ed; [|done]. injection E as <- <-.
    destruct (destroy_ok waiting s id s1 Hinv) as (I1 & (_ & _ & _ & _ & Rc) & _); [by rewrite Hc|done|].
    split; [done|]. by rewrite Rc.
  - destruct (close_ok s Hs) as (s1 & E1 & Hs1). rewrite E1 in E. by injection E as <- <-.
  - destruct (curid s); [|done]. by injection E as <- <-.
  - destruct (handle o (ext s)) as [[x r]|]; [|done]. injection E as <- <-. split; [|done]. by eapply sched_same.
Qed.

Lemma schedule_new_ok x : sched_ok (schedule_new x).
Proof. split; [|done]. exists []. split; [apply vrep_new; lia|]. by split_and!. Qed.

(** C19: in every state that an execution of a thread reaches, whatever its coroutines do, no
    coroutine is current between two operations, the array and the heap agree - a slot holds a live
    coroutine with the slot's number, ready or suspended - and the numbers to be used again
    are the empty slots below the next number, each once. *)
Theorem schedule_ok_reached (x : X) (ops : list co_op) s (ev : list Z) :
  co_run ops (schedule_new x) = Some (s, ev) → sched_ok s.
Proof.
  assert (∀ s0 s ev, sched_ok s0 → co_run ops s0 = Some (s, ev) → sched_ok s) as Hgen.
  { induction ops as [|op ops IH]; intros s0 s1 ev1 Hs E; cbn [co_run] in E; [by injection E as <- <-|].
    destruct (do_op op s0) as [[s2 ev2]|] eqn:E1; [|done]. cbn [mbind option_bind] in E.
    destruct (co_run ops s2) as [[s3 ev3]|] eqn:E2; [|done]. injection E as <- <-.
    eapply IH; [|exact E2]. by eapply do_op_ok. }
  apply Hgen, schedule_new_ok.
Qed.

(** C35: as long as the array can be doubled, [create] gives a number that no coroutine has, and
    disturbs none; and [destroy] frees exactly the coroutine of its number - with 200 numbers
    already given back it writes past the end of their vector. *)
Theorem create_destroy_spec s (f : F) (d : D) (id : Z) (l : loc) :
  sched_ok s → _co s ≠ None →
  (s_cap s * 2 < 2 ^ 31 → ∃ new s', create f d s = Some (new, s') ∧ sched_ok s' ∧ (∀ l, ¬ live s new l) ∧
     (∃ l co, live s' new l ∧ heap s' !! l = Some co ∧ _status co = COROUTINE_READY ∧ ctx_point co = Enter f d) ∧
     ∀ i l, live s i l → live s' i l ∧ heap s' !! l = heap s !! l) ∧
  (live s id l → v_size (_freeid s) < 200 → ∃ s', destroy id s = Some s' ∧ sched_ok s' ∧ heap s' !! l = None ∧
     (∀ l', ¬ live s' id l') ∧ ∀ i l, i ≠ id → live s i l → live s' i l ∧ heap s' !! l = heap s !! l) ∧
  (live s id l → v_size (_freeid s) = 200 → destroy id s = None).
Proof.
  intros [Hinv Hc] Hco. destruct (_co s) as [arr|] eqn:Ea; [|done]. split.
  - intros Hcap. destruct (alloc_co_some _ s arr (fresh (dom (heap s))) Hinv Ea Hcap) as (new & s1 & E).
    assert (∃ s', create f d s = Some (new, s')) as [s' Ec] by (unfold create; rewrite Ea, E; by eexists).
    destruct (create_ok waiting f d s new s' Hinv) as (I1 & (_ & _ & _ & _ & Rc) & I2 & I3); [intros; by left|done|].
    destruct I3 as (_ & I3 & l1 & co & L1 & _ & L2 & _ & L3 & L4 & _); [by rewrite Ea|]. exists new, s'. split; [done|].
    split; [split; [done|by rewrite Rc]|]. split; [done|]. split; [by exists l1, co|done].
  - assert (live s id l → destroy id s = free_slot id l arr s) as Ed.
    { intros Hl. pose proof (live_cap _ _ _ _ Hinv Hl). destruct Hl as (Hi & arr' & E' & Hl). rewrite Ea in E'. injection E' as <-.
      unfold destroy. rewrite Hc. cbn [mbind option_bind]. rewrite decide_False by done. rewrite decide_True by lia. rewrite Ea.
      cbn [mbind option_bind]. by rewrite Hl. }
    assert (live s id l → 0 <= id ∧ arr !! Z.to_nat id = Some (Some l)) as Hsl.
    { intros (Hi & arr' & E' & Hl). rewrite Ea in E'. by injection E' as <-. }
    split; intros Hl Hsize; rewrite (Ed Hl); destruct (Hsl Hl) as [Hi Hl'];
      destruct (free_slot_ok waiting waiting s arr id l Hinv Ea Hi Hl') as (K1 & K2 & K3); [done| |done|by apply K1].
    destruct (K2 Hsize) as (s' & E). destruct (K3 s' E) as (I1 & (_ & _ & _ & _ & Rc) & I3 & _ & I4 & I5). exists s'.
    split; [done|]. split; [split; [done|by rewrite Rc]|]. by split_and!.
Qed.

(** ** The shared stack *)

(** The [sp] bytes at the end of a block: the stack of a coroutine at depth [sp]. *)
Definition top (sp : nat) (b : list byte) : list byte := drop (length b - sp) b.

Lemma length_top sp b : (sp ≤ length b)%nat → length (top sp b) = sp.
Proof. intros Hsp. unfold top. rewrite length_drop. lia. Qed.

Lemma top_store (b : list byte) sp i (bs : list byte) :
  (sp ≤ length b)%nat → (i + length bs ≤ sp)%nat →
  ∃ b', store b (length b - sp + i) bs = Some b' ∧ length b' = length b ∧
    top sp b' = take i (top sp b) ++ bs ++ drop (i + length bs) (top sp b).
Proof.
  intros Hsp Hi. rewrite store_ok by lia. eexists. split; [reflexivity|].
  assert (length (take (length b - sp + i) b ++ bs ++ drop (length b - sp + i + length bs) b) = length b) as Hl by (len; lia).
  split; [done|]. unfold top. rewrite Hl, drop_app_le by (len; lia). f_equal.
  - by rewrite skipn_firstn_comm, Nat.add_comm, Nat.add_sub.
  - rewrite drop_drop. do 2 f_equal. lia.
Qed.

Lemma top_push (b : list byte) sp (bs : list byte) : (sp + length bs ≤ length b)%nat → drop (length bs) (top (sp + length bs) b) = top sp b.
Proof. intros Hsp. unfold top. rewrite drop_drop. f_equal. lia. Qed.

Lemma top_load b sp i n :
  (sp ≤ length b)%nat → (i + n ≤ sp)%nat → load b (length b - sp + i) n = Some (take n (drop i (top sp b))).
Proof. intros Hsp Hi. rewrite load_ok by lia. unfold top. by rewrite drop_drop. Qed.

(** The same coroutine on the shared stack and on a stack of its own. *)
Definition co_rel (co1 co2 : coroutine) : Prop :=
  _id co1 = _id co2 ∧ _status co1 = _status co2 ∧ ctx_sp co1 = ctx_sp co2 ∧ ctx_point co1 = ctx_point co2 ∧
  ctx_private co1 = false ∧ ctx_private co2 = true ∧ length (_stack co2) = STACK ∧ length (_stack co1) = _cap co1 ∧
  (_status co1 = COROUTINE_READY → ctx_sp co1 = 0%nat) ∧
  (_status co1 = COROUTINE_SUSPEND → _size co1 = ctx_sp co1 ∧ (_size co1 ≤ STACK)%nat ∧ (_size co1 ≤ _cap co1)%nat ∧
     take (_size co1) (_stack co1) = top (ctx_sp co2) (_stack co2)).

Definition heap_rel (h1 h2 : gmap loc coroutine) : Prop := ∀ l, option_Forall2 co_rel (h1 !! l) (h2 !! l).

Record sched_rel (s1 s2 : schedule) : Prop := {
  sr_cap : s_cap s1 = s_cap s2; sr_nco : _nco s1 = _nco s2; sr_co : _co s1 = _co s2; sr_cur : _curco s1 = _curco s2;
  sr_free : _freeid s1 = _freeid s2; sr_ext : ext s1 = ext s2; sr_stack : length (s_stack s1) = STACK;
  sr_pri : _co s1 ≠ None → _pri_stack s1 = false ∧ _pri_stack s2 = true ∧ gpristacksize s2 = STACK;
  sr_heap : heap_rel (heap s1) (heap s2)
}.

(** The stack of the coroutine on the processor. *)
Definition on_stack (l : loc) (sp : nat) (s1 s2 : schedule) : Prop :=
  (sp ≤ STACK)%nat ∧ ∃ co2, heap s2 !! l = Some co2 ∧ top sp (s_stack s1) = top sp (_stack co2).

Definition res_rel {A} (Q : schedule → schedule → Prop) (o1 o2 : option (schedule * A)) : Prop :=
  option_Forall2 (λ p1 p2, p1.2 = p2.2 ∧ Q p1.1 p2.1) o1 o2.

Lemma heap_rel_dom h1 h2 : heap_rel h1 h2 → dom h1 = dom h2.
Proof.
  intros Hh. apply set_eq. intros l. rewrite !elem_of_dom. specialize (Hh l).
  destruct Hh; [split; by eexists|]. split; by intros [].
Qed.

Lemma heap_rel_insert h1 h2 l co1 co2 : heap_rel h1 h2 → co_rel co1 co2 → heap_rel (<[l := co1]> h1) (<[l := co2]> h2).
Proof.
  intros Hh Hc l'. destruct (decide (l' = l)) as [->|Hne].
  - rewrite !lookup_insert_eq. by constructor.
  - rewrite !lookup_insert_ne by done. apply Hh.
Qed.

Lemma heap_rel_delete h1 h2 l : heap_rel h1 h2 → heap_rel (delete l h1) (delete l h2).
Proof.
  intros Hh l'. destruct (decide (l' = l)) as [->|Hne].
  - rewrite !lookup_delete_eq. constructor.
  - rewrite !lookup_delete_ne by done. apply Hh.
Qed.

Lemma heap_rel_l h1 h2 l co1 : heap_rel h1 h2 → h1 !! l = Some co1 → ∃ co2, h2 !! l = Some co2 ∧ co_rel co1 co2.
Proof. intros Hh E. specialize (Hh l). rewrite E in Hh. inversion Hh as [? co2 Hr|]; subst. by exists co2. Qed.

Lemma heap_rel_none h1 h2 l : heap_rel h1 h2 → h1 !! l = None → h2 !! l = None.
Proof. intros Hh E. specialize (Hh l). rewrite E in Hh. by inversion Hh. Qed.

(** *** The scheduler's functions in step *)

Lemma alloc_rel l arr s1 s2 :
  sched_rel s1 s2 → _co s1 = Some arr → res_rel sched_rel
    ('(id, s) ← alloc_co l arr s1; Some (s, id)) ('(id, s) ← alloc_co l arr s2; Some (s, id)).
Proof.
  intros [] Ea. unfold alloc_co. rewrite <- sr_free0, <- sr_cap0, <- sr_nco0.
  assert (_co s1 ≠ None) as Hco by (by rewrite Ea). specialize (sr_pri0 Hco) as (P1 & P2 & P3).
  destruct (negb _).
  - destruct (sv_back _); cbn [mbind option_bind]; [|constructor]. destruct (sv_pop_back _); cbn [mbind option_bind]; [|constructor].
    destruct (array_set _ _ _); cbn [mbind option_bind]; [|constructor]. constructor. split; [done|]. constructor; done.
  - destruct (_ >=? _).
    + destruct (decide _); [|constructor]. destruct (array_set _ _ _); cbn [mbind option_bind]; [|constructor].
      constructor. split; [done|]. constructor; try done; cbn; congruence.
    + destruct (array_set _ _ _); cbn [mbind option_bind]; [|constructor].
      constructor. split; [done|]. constructor; try done; cbn; congruence.
Qed.

Lemma create_rel f d s1 s2 :
  sched_rel s1 s2 → res_rel (λ t1 t2, sched_rel t1 t2 ∧ s_stack t1 = s_stack s1 ∧
      ∀ l co2, heap s2 !! l = Some co2 → heap t2 !! l = Some co2)
    ('(id, s) ← create f d s1; Some (s, id)) ('(id, s) ← create f d s2; Some (s, id)).
Proof.
  intros Hr. unfold create. rewrite <- (sr_co _ _ Hr). destruct (_co s1) as [arr|] eqn:Ea; [|by constructor].
  rewrite <- (heap_rel_dom _ _ (sr_heap _ _ Hr)). set (l := fresh (dom (heap s1))).
  pose proof (alloc_rel l arr s1 s2 Hr Ea) as Hal.
  destruct (alloc_co l arr s1) as [[id1 t1]|] eqn:E1, (alloc_co l arr s2) as [[id2 t2]|] eqn:E2;
    inversion Hal as [? ? [Heq Hr']|]; subst; [|constructor]. cbn [fst snd mbind option_bind] in *.
  destruct (alloc_same _ _ _ _ _ E1) as [(A1 & A2 & _) B1], (alloc_same _ _ _ _ _ E2) as [(A3 & _) B2].
  destruct (sr_pri _ _ Hr) as (P1 & P2 & _); [by rewrite Ea|]. rewrite A1, A3, P1, P2.
  pose proof Hr' as []. constructor. cbn [fst snd]. split; [done|]. split; [|split; [done|]].
  - constructor; try done. cbn [heap set_heap]. apply heap_rel_insert; [done|].
    destruct sr_pri0 as (_ & _ & G).
    { unfold alloc_co in E1. intros En. destruct (negb _).
      - destruct (sv_back _); cbn [mbind option_bind] in E1; [|done]. destruct (sv_pop_back _); cbn [mbind option_bind] in E1; [|done].
        destruct (array_set _ _ _); cbn [mbind option_bind] in E1; [|done]. by injection E1 as <- <-.
      - destruct (_ >=? _); [destruct (decide _); [|done]|]; (destruct (array_set _ _ _); cbn [mbind option_bind] in E1; [|done]);
          by injection E1 as <- <-. }
    rewrite G. unfold co_rel. cbn. rewrite length_malloc. split_and!; done.
  - intros l' co2 El. cbn [heap set_heap]. rewrite B2, lookup_insert_ne; [done|]. intros <-.
    assert (l ∈ dom (heap s1)) as Hin by (rewrite (heap_rel_dom _ _ (sr_heap _ _ Hr)); by eapply elem_of_dom_2).
    by apply is_fresh in Hin.
Qed.

Lemma free_slot_rel id l arr s1 s2 :
  sched_rel s1 s2 → _co s1 = Some arr → option_Forall2 (λ t1 t2, sched_rel t1 t2 ∧ s_stack t1 = s_stack s1 ∧ heap t2 = delete l (heap s2))
    (free_slot id l arr s1) (free_slot id l arr s2).
Proof.
  intros [] Ea. unfold free_slot. pose proof (sr_heap0 l) as Hl. inversion Hl; cbn [mbind option_bind]; [|constructor].
  destruct (array_set _ _ _); cbn [mbind option_bind]; [|constructor]. rewrite <- sr_free0.
  destruct (sv_push_back _ _); cbn [mbind option_bind]; [|constructor]. constructor. split; [|done].
  constructor; try done. - intros _. apply sr_pri0. by rewrite Ea. - by apply heap_rel_delete.
Qed.

Lemma destroy_rel id s1 s2 :
  sched_rel s1 s2 → option_Forall2 (λ t1 t2, sched_rel t1 t2 ∧ s_stack t1 = s_stack s1 ∧
      ∀ l, heap s2 !! l = heap t2 !! l ∨ heap t1 !! l = None) (destroy id s1) (destroy id s2).
Proof.
  intros Hr. pose proof Hr as []. unfold destroy. rewrite <- sr_cur0, <- sr_cap0, <- sr_co0.
  assert ((match _curco s1 with Some l => co ← heap s1 !! l; Some (Some (_id co)) | None => Some None end) =
    (match _curco s1 with Some l => co ← heap s2 !! l; Some (Some (_id co)) | None => Some None end)) as <-.
  { destruct (_curco s1) as [l|]; [|done]. pose proof (sr_heap0 l) as Hl. inversion Hl as [? ? (Hid & _)|]; cbn; [by rewrite Hid|done]. }
  destruct (match _curco s1 with Some l => _ | None => _ end) as [cur|]; cbn [mbind option_bind]; [|constructor].
  assert (option_Forall2 (λ t1 t2, sched_rel t1 t2 ∧ s_stack t1 = s_stack s1 ∧
      ∀ l, heap s2 !! l = heap t2 !! l ∨ heap t1 !! l = None) (Some s1) (Some s2)) as Hsame by (constructor; split_and!; auto).
  destruct (decide _); [done|]. destruct (decide _); [|done]. destruct (_co s1) as [arr|] eqn:Ea; cbn [mbind option_bind]; [|constructor].
  destruct (arr !! Z.to_nat id) as [[l|]|]; cbn [mbind option_bind]; [|done|constructor].
  pose proof (free_slot_rel id l arr s1 s2 Hr Ea) as Hf. inversion Hf as [t1 t2 (H1 & H2 & H3)|]; constructor.
  split_and!; [done|done|]. intros l'. rewrite H3. destruct (decide (l' = l)) as [->|Hne]; [right|left].
  - pose proof (sr_heap _ _ H1 l) as Hl. rewrite H3, lookup_delete_eq in Hl. by inversion Hl.
  - by rewrite lookup_delete_ne.
Qed.

Lemma close_rel s1 s2 :
  sched_rel s1 s2 → option_Forall2 sched_rel (close s1) (close s2).
Proof.
  intros []. unfold close. rewrite <- sr_cur0, <- sr_co0, <- sr_cap0, <- sr_free0.
  destruct (sv_clear _); cbn [mbind option_bind]; [|constructor]. constructor. constructor; try done.
  cbn [heap]. destruct (_curco s1); [done|]. destruct (_co s1) as [arr|]; [|done].
  generalize (take (Z.to_nat (s_cap s1)) arr). clear -sr_heap0. intros xs. revert sr_heap0.
  generalize (heap s1) (heap s2). induction xs as [|[l|] xs IH]; intros h1 h2 Hh; [done| |by apply IH].
  cbn [foldl]. by apply IH, heap_rel_delete.
Qed.

Lemma stack_write_rel l sp i bs s1 s2 :
  sched_rel s1 s2 → on_stack l sp s1 s2 → (∃ co1, heap s1 !! l = Some co1 ∧ _status co1 = COROUTINE_RUNNING) →
  (i + length bs ≤ sp)%nat →
  ∃ t1 t2, stack_write l sp i bs s1 = Some t1 ∧ stack_write l sp i bs s2 = Some t2 ∧ sched_rel t1 t2 ∧ on_stack l sp t1 t2.
Proof.
  intros [] (Hsp & co2 & E2 & Htop) (co1 & E1 & Hrun) Hi. pose proof (sr_heap0 l) as Hl. rewrite E1, E2 in Hl.
  inversion Hl as [? ? (C1 & C2 & C3 & C4 & C5 & C6 & C7 & C8 & C9 & C10)|]; subst.
  unfold stack_write, block_of, write_block. rewrite E1, E2. cbn [mbind option_bind]. rewrite C5, C6.
  rewrite (proj2 (Nat.leb_le _ _)) by lia. rewrite (proj2 (Nat.leb_le _ _)) by lia.
  destruct (top_store (s_stack s1) sp i bs) as (b1 & -> & L1 & T1); [lia|done|].
  destruct (top_store (_stack co2) sp i bs) as (b2 & -> & L2 & T2); [lia|done|]. cbn [mbind option_bind].
  eexists _, _. split; [reflexivity|]. split; [reflexivity|]. split.
  - constructor; try done; [cbn; congruence|]. cbn [heap set_heap set_stack]. intros l'. destruct (decide (l' = l)) as [->|Hne].
    + rewrite E1, lookup_insert_eq. constructor. unfold co_rel. cbn. split_and!; try done; try congruence; intros Hst; congruence.
    + rewrite lookup_insert_ne by done. apply sr_heap0.
  - split; [done|]. exists (with_block co2 b2). cbn [heap set_heap]. rewrite lookup_insert_eq. split; [done|].
    cbn [_stack with_block s_stack set_stack]. by rewrite T1, T2, Htop.
Qed.

Lemma on_stack_less l sp n s1 s2 :
  sched_rel s1 s2 → on_stack l sp s1 s2 → on_stack l (sp - n) s1 s2.
Proof.
  intros [] (Hsp & co2 & E2 & Htop). split; [lia|]. exists co2. split; [done|].
  destruct (heap s1 !! l) as [co1|] eqn:E1.
  - destruct (heap_rel_l _ _ _ _ sr_heap0 E1) as (co & E & (_ & _ & _ & _ & _ & _ & C7 & _)). rewrite E2 in E. injection E as <-.
    assert (∀ b : list byte, length b = STACK → top (sp - n) b = drop (sp - (sp - n)) (top sp b)) as Hd.
    { intros b Hb. unfold top. rewrite drop_drop. f_equal. lia. }
    by rewrite !Hd, Htop by done.
  - by rewrite (heap_rel_none _ _ _ sr_heap0 E1) in E2.
Qed.

(** A write above the depth: what the coroutine had below stays as it was. *)
Lemma stack_push_rel l sp bs s1 s2 :
  sched_rel s1 s2 → on_stack l sp s1 s2 → (∃ co1, heap s1 !! l = Some co1 ∧ _status co1 = COROUTINE_RUNNING) →
  option_Forall2 (λ t1 t2, sched_rel t1 t2 ∧ on_stack l (sp + length bs) t1 t2)
    (stack_write l (sp + length bs) 0 bs s1) (stack_write l (sp + length bs) 0 bs s2).
Proof.
  intros Hr (Hsp & co2 & E2 & Htop) (co1 & E1 & Hrun). pose proof Hr as []. pose proof (sr_heap0 l) as Hl. rewrite E1, E2 in Hl.
  inversion Hl as [? ? (C1 & C2 & C3 & C4 & C5 & C6 & C7 & C8 & C9 & C10)|]; subst.
  unfold stack_write, block_of, write_block. rewrite E1, E2. cbn [mbind option_bind]. rewrite C5, C6.
  rewrite sr_stack0, C7. destruct (Nat.leb_spec (sp + length bs) STACK) as [Hle|]; [|constructor].
  destruct (top_store (s_stack s1) (sp + length bs) 0 bs) as (b1 & Eb1 & L1 & T1); [lia|lia|].
  destruct (top_store (_stack co2) (sp + length bs) 0 bs) as (b2 & Eb2 & L2 & T2); [lia|lia|].
  rewrite sr_stack0 in Eb1. rewrite C7 in Eb2. rewrite Eb1, Eb2. cbn [mbind option_bind plus] in *. rewrite take_0 in T1, T2. constructor. split.
  - constructor; try done; [cbn; congruence|]. cbn [heap set_heap set_stack]. intros l'. destruct (decide (l' = l)) as [->|Hne].
    + rewrite E1, lookup_insert_eq. constructor. unfold co_rel. cbn. split_and!; try done; try congruence; intros Hst; congruence.
    + rewrite lookup_insert_ne by done. apply sr_heap0.
  - split; [done|]. exists (with_block co2 b2). cbn [heap set_heap]. rewrite lookup_insert_eq. split; [done|].
    cbn [_stack with_block s_stack set_stack]. rewrite T1, T2. rewrite !top_push by lia. by rewrite Htop.
Qed.

Lemma yield_rel l sp p s1 s2 :
  sched_rel s1 s2 → on_stack l sp s1 s2 → _co s1 ≠ None →
  option_Forall2 sched_rel (yield l sp p s1) (yield l sp p s2).
Proof.
  intros Hr (Hsp & co2 & E2 & Htop) Hco. pose proof Hr as []. destruct (sr_pri0 Hco) as (P1 & P2 & _).
  pose proof (sr_heap0 l) as Hl. rewrite E2 in Hl. inversion Hl as [co1 ? (C1 & C2 & C3 & C4 & C5 & C6 & C7 & C8 & C9 & C10) E1|]; subst.
  unfold yield. rewrite <- E1, E2. cbn [mbind option_bind]. rewrite P1, P2. unfold save_stack. rewrite (proj2 (Nat.leb_le _ _)) by done.
  destruct (if (_ <? _)%nat then _ else _) as [b cap] eqn:Eb.
  assert (length b = cap ∧ (sp ≤ cap)%nat) as [Hb Hcap].
  { destruct (Nat.ltb_spec (_cap co1) sp); injection Eb as <- <-; [rewrite length_malloc; lia|lia]. }
  pose proof (top_load (s_stack s1) sp 0 sp) as Eld. rewrite sr_stack0, drop_0, Nat.add_0_r in Eld.
  rewrite Eld by lia. cbn [mbind option_bind]. rewrite take_ge by (rewrite length_top; lia).
  rewrite store_ok by (rewrite length_top; lia). cbn [mbind option_bind]. rewrite length_top by lia.
  rewrite take_0. cbn [List.app Nat.add]. constructor.
  constructor; try done. cbn [heap set_heap]. apply heap_rel_insert; [done|].
  unfold co_rel. cbn [_id _status ctx_sp ctx_point ctx_private _stack _cap _size with_ctx with_status List.app].
  split_and!; try done.
  - rewrite length_app, length_top, length_drop by lia. lia.
  - intros _. split_and!; try done. rewrite take_app_length' by (rewrite length_top; lia). done.
Qed.

Lemma running_status id l s : running id l s → ∃ co, heap s !! l = Some co ∧ _status co = COROUTINE_RUNNING.
Proof.
  intros (Hinv & _ & Hl). destruct (live_heap _ _ _ _ Hinv Hl) as (co & E & _ & HP). exists co. split; [done|].
  unfold on_cpu in HP. by rewrite decide_True in HP.
Qed.

Lemma running_co id l s : running id l s → _co s ≠ None.
Proof. intros (_ & _ & _ & arr & -> & _). done. Qed.

(** A stay on the processor in step. *)
Lemma run_rel i0 l c : ∀ sp s1 s2,
  running i0 l s1 → sched_rel s1 s2 → on_stack l sp s1 s2 → res_rel sched_rel (run l c sp s1) (run l c sp s2).
Proof.
  induction c as [|k IH|f d|bs k IH|n k IH|i n k IH|i bs k IH|z k IH|f d k IH|id k IH|id k IH|k IH|k IH|o k IH];
    intros sp s1 s2 Hrun Hr Hs; cbn [run]; pose proof Hrun as (Hinv & Hc & Hl); rewrite <- ?(sr_cur _ _ Hr), ?Hc; cbn [mbind option_bind].
  - destruct (running_status _ _ _ Hrun) as (co1 & E1 & Hst). destruct (heap_rel_l _ _ _ _ (sr_heap _ _ Hr) E1) as (co2 & E2 & Hco).
    rewrite E1, E2. cbn [mbind option_bind]. constructor. split; [done|]. pose proof Hr as []. constructor; try done. cbn [heap set_heap fst].
    apply heap_rel_insert; [done|]. destruct Hco as (? & ? & ? & ? & ? & ? & ? & ? & ? & ?). by unfold co_rel.
  - pose proof (yield_rel l sp (At k) s1 s2 Hr Hs (running_co _ _ _ Hrun)) as Hy.
    inversion Hy; cbn [mbind option_bind]; constructor. by split.
  - pose proof (yield_rel l sp (Enter f d) s1 s2 Hr Hs (running_co _ _ _ Hrun)) as Hy.
    inversion Hy; cbn [mbind option_bind]; constructor. by split.
  - pose proof (stack_push_rel l sp bs s1 s2 Hr Hs (running_status _ _ _ Hrun)) as Hw.
    destruct (stack_write l (sp + length bs) 0 bs s1) as [t1|] eqn:E1; inversion Hw as [? t2 [Hr' Hs']|]; subst; cbn [mbind option_bind]; [|constructor].
    apply IH; [by eapply stack_write_ok|done|done].
  - destruct (_ <=? _)%nat; [|constructor]. apply IH; [done|done|by apply on_stack_less].
  - destruct (Nat.leb_spec (i + n) sp); [|constructor].
    assert (stack_read l sp i n s1 = stack_read l sp i n s2 ∧ ∃ bs, stack_read l sp i n s1 = Some bs) as [<- [bs ->]].
    { destruct (running_status _ _ _ Hrun) as (co1 & E1 & _). destruct (heap_rel_l _ _ _ _ (sr_heap _ _ Hr) E1) as (co2 & E2 & Hco).
      destruct Hs as (Hsp & co & E & Htop). rewrite E2 in E. injection E as <-. destruct Hco as (_ & _ & _ & _ & C5 & C6 & C7 & _).
      unfold stack_read, block_of. rewrite E1, E2. cbn [mbind option_bind]. rewrite C5, C6.
      pose proof (sr_stack _ _ Hr) as Hlen. rewrite !(proj2 (Nat.leb_le _ _)) by lia. rewrite !top_load by lia. rewrite Htop. split; [done|by eexists]. }
    cbn [mbind option_bind]. by apply IH.
  - destruct (Nat.leb_spec (i + length bs) sp); [|constructor].
    destruct (stack_write_rel l sp i bs s1 s2 Hr Hs (running_status _ _ _ Hrun)) as (t1 & t2 & E1 & E2 & Hr' & Hs'); [done|].
    rewrite E1, E2. cbn [mbind option_bind]. apply IH; [by eapply stack_write_ok|done|done].
  - specialize (IH sp s1 s2 Hrun Hr Hs). inversion IH as [[t1 e1] [t2 e2] [He Hr']|]; cbn [mbind option_bind]; constructor.
    cbn [fst snd] in *. split; [by f_equal|done].
  - pose proof (create_rel f d s1 s2 Hr) as Hcr.
    destruct (create f d s1) as [[id1 t1]|] eqn:E1, (create f d s2) as [[id2 t2]|] eqn:E2; cbn [mbind option_bind] in Hcr |- *;
      inversion Hcr as [? ? [Heq (Hr' & Hst & Hk)]|]; subst; [|constructor]. cbn [fst snd] in *. subst id2. apply IH.
    + destruct (create_ok (on_cpu l) f d s1 id1 t1 Hinv) as (I1 & (_ & _ & _ & _ & Rc) & I2 & _); [|done|].
      { intros l' Hl'. unfold on_cpu. destruct (decide (l' = l)) as [->|]; [|by left].
        destruct (live_heap _ _ _ _ Hinv Hl) as (? & ? & _). congruence. }
      split; [done|]. split; [by rewrite Rc|]. by apply I2.
    + done.
    + destruct Hs as (Hsp & co2 & Eco & Htop). split; [done|]. exists co2. split; [by apply Hk|]. by rewrite Hst.
  - pose proof (destroy_rel id s1 s2 Hr) as Hd.
    destruct (destroy id s1) as [t1|] eqn:E1; inversion Hd as [? t2 (Hr' & Hst & Hk)|]; subst; cbn [mbind option_bind]; [|constructor].
    assert (running i0 l t1) as Hrun'.
    { destruct (destroy_ok _ s1 id t1 Hinv) as (I1 & (_ & _ & _ & _ & Rc) & I2 & _); [|done|].
      { rewrite Hc. intros ? [= <-]. by exists i0. }
      split; [done|]. split; [by rewrite Rc|]. apply I2; [done|by right]. }
    apply IH; [done|done|]. destruct Hs as (Hsp & co2 & Eco & Htop). split; [done|]. exists co2. rewrite Hst. split; [|done].
    destruct (Hk l) as [<-|Hn]; [done|]. destruct (running_status _ _ _ Hrun') as (? & ? & _). congruence.
  - unfold resume_inside. rewrite <- (sr_cur _ _ Hr), Hc. cbn [mbind option_bind]. by apply IH.
  - assert (curid s1 = curid s2) as <-.
    { unfold curid. rewrite <- (sr_cur _ _ Hr), Hc. pose proof (sr_heap _ _ Hr l) as Hl'. inversion Hl' as [? ? (Hid & _)|]; cbn; [by rewrite Hid|done]. }
    destruct (curid s1); cbn [mbind option_bind]; [by apply IH|constructor].
  - pose proof (close_rel s1 s2 Hr) as Hcl. unfold close in *. destruct (sv_clear (_freeid s1)), (sv_clear (_freeid s2));
      cbn [mbind option_bind] in *; inversion Hcl; subst; [|constructor]. rewrite !run_closed by done. constructor.
  - rewrite <- (sr_ext _ _ Hr). destruct (handle o (ext s1)) as [[x r]|]; cbn [mbind option_bind]; [|constructor]. apply IH.
    + split; [|by split]. by eapply sched_same.
    + pose proof Hr as []. by constructor.
    + destruct Hs as (Hsp & co2 & Eco & Htop). split; [done|]. by exists co2.
Qed.

Lemma restore_rel l co1 co2 s1 s2 :
  sched_rel s1 s2 → co_rel co1 co2 → heap s2 !! l = Some co2 → _co s1 ≠ None → waiting l (_status co1) →
  ∃ t1, (if decide (_status co1 = COROUTINE_SUSPEND) then restore_stack co1 s1 else Some s1) = Some t1 ∧
    (if decide (_status co2 = COROUTINE_SUSPEND) then restore_stack co2 s2 else Some s2) = Some s2 ∧
    sched_rel t1 s2 ∧ on_stack l (ctx_sp co1) t1 s2 ∧ (_co t1 = _co s1 ∧ s_cap t1 = s_cap s1 ∧ _nco t1 = _nco s1 ∧
      _freeid t1 = _freeid s1 ∧ heap t1 = heap s1).
Proof.
  intros Hr (C1 & C2 & C3 & C4 & C5 & C6 & C7 & C8 & C9 & C10) E2 Hco Hw. pose proof Hr as [].
  destruct (sr_pri0 Hco) as (P1 & P2 & _). rewrite <- C2. unfold restore_stack. rewrite P1, P2. destruct (decide _) as [Hst|Hst].
  - destruct (C10 Hst) as (D1 & D2 & D3 & D4). rewrite (proj2 (Nat.leb_le _ _)) by done.
    rewrite load_ok by lia. cbn [mbind option_bind]. rewrite drop_0.
    destruct (top_store (s_stack s1) (_size co1) 0 (take (_size co1) (_stack co1))) as (b & Eb & Lb & Tb); [lia|rewrite length_take; lia|].
    rewrite sr_stack0, Nat.add_0_r in Eb. rewrite Eb. cbn [mbind option_bind]. eexists. split; [reflexivity|]. split; [done|].
    split; [constructor; try done; cbn; congruence|]. split; [|done]. split; [lia|]. exists co2. split; [done|]. cbn [s_stack set_stack].
    rewrite <- D1, Tb, take_0. cbn [List.app Nat.add]. rewrite drop_ge by (rewrite length_top, length_take; lia).
    rewrite app_nil_r. by rewrite D4, <- C3, D1.
  - exists s1. split; [done|]. split; [done|]. split; [done|]. split; [|done]. destruct Hw as [Hw|Hw]; [|done].
    rewrite (C9 Hw). split; [lia|]. exists co2. split; [done|]. unfold top. rewrite !Nat.sub_0_r, !drop_all. done.
Qed.

Lemma resume_rel id s1 s2 :
  sched_ok s1 → sched_rel s1 s2 → res_rel sched_rel (resume id s1) (resume id s2).
Proof.
  intros [Hinv Hc] Hr. unfold resume. rewrite <- (sr_cur _ _ Hr), Hc, <- (sr_cap _ _ Hr), <- (sr_co _ _ Hr).
  assert (res_rel (A := list Z) sched_rel (Some (s1, [])) (Some (s2, []))) as Hsame by (by constructor).
  destruct (decide (0 <= id < s_cap s1)) as [Hid|]; [|done]. destruct (_co s1) as [arr|] eqn:Ea; cbn [mbind option_bind]; [|constructor].
  destruct (arr !! Z.to_nat id) as [[l|]|] eqn:El; cbn [mbind option_bind]; [|done|constructor].
  assert (live s1 id l) as Hl by (split; [lia|by exists arr]).
  destruct (live_heap _ _ _ _ Hinv Hl) as (co1 & E1 & Hcid & Hst).
  destruct (heap_rel_l _ _ _ _ (sr_heap _ _ Hr) E1) as (co2 & E2 & Hco). rewrite E1, E2. cbn [mbind option_bind].
  pose proof Hco as (C1 & C2 & C3 & C4 & C5 & C6 & C7 & C8 & C9 & C10).
  rewrite (decide_True (P := _status co1 = _ ∨ _)) by (destruct Hst; tauto).
  rewrite (decide_True (P := _status co2 = _ ∨ _)) by (rewrite <- C2; destruct Hst; tauto).
  destruct (restore_rel l co1 co2 s1 s2 Hr Hco E2) as (t1 & F1 & F2 & Hr' & Hs' & (R1 & R2 & R3 & R4 & R5)); [by rewrite Ea|done|].
  rewrite F1, F2. cbn [mbind option_bind].
  set (u1 := set_cur (set_heap t1 _) _). set (u2 := set_cur (set_heap s2 _) _).
  assert (running id l u1) as Hrun.
  { split; [|split; [done|by eapply live_same; [|exact Hl]]].
    eapply sched_inv_ext; [exact Hinv|done..|]. intros i l' x Hl' Ex HP. subst u1. cbn [heap set_heap set_cur]. rewrite R5.
    unfold on_cpu. destruct (decide (l' = l)) as [->|Hne].
    - exists (with_status co1 COROUTINE_RUNNING). rewrite lookup_insert_eq. split_and!; try done. cbn. congruence.
    - exists x. by rewrite lookup_insert_ne. }
  assert (sched_rel u1 u2) as Hru.
  { pose proof Hr' as []. constructor; try done. cbn [heap set_heap set_cur]. apply heap_rel_insert; [done|].
    unfold co_rel. cbn. split_and!; done. }
  assert (on_stack l (ctx_sp co1) u1 u2) as Hsu.
  { destruct Hs' as (Hsp & co & E & Htop). rewrite E2 in E. injection E as <-. split; [done|].
    exists (with_status co2 COROUTINE_RUNNING). split; [|done]. subst u2. cbn [heap set_heap set_cur]. by rewrite lookup_insert_eq. }
  pose proof (run_rel id l (enter (ctx_point co1)) (ctx_sp co1) u1 u2 Hrun Hru Hsu) as Hres.
  rewrite <- C3, <- C4. destruct (run l _ _ u1) as [[v1 ev1]|] eqn:Ev1; inversion Hres as [? [v2 ev2] [Heq Hrv]|]; subst;
    cbn [mbind option_bind fst snd] in *; [|constructor].
  pose proof (running_ok _ _ _ _ _ _ _ Hrun Ev1) as (Hinv2 & Hc2 & Hl2).
  destruct (live_heap _ _ _ _ Hinv2 Hl2) as (d1 & G1 & _ & _).
  destruct (heap_rel_l _ _ _ _ (sr_heap _ _ Hrv) G1) as (d2 & G2 & (_ & D2 & _)). rewrite G1, G2. cbn [mbind option_bind]. rewrite <- D2.
  destruct (decide (_status d1 = COROUTINE_DEAD)).
  - rewrite <- (sr_co _ _ Hrv). destruct (_co v1) as [arr1|] eqn:Ea1; cbn [mbind option_bind]; [|constructor].
    pose proof (free_slot_rel (_id co1) l arr1 v1 v2 Hrv Ea1) as Hf. inversion Hf as [w1 w2 (Hw & _)|]; cbn [mbind option_bind]; constructor.
    split; [done|]. pose proof Hw as []. by constructor.
  - cbn [mbind option_bind]. constructor. split; [done|]. pose proof Hrv as []. by constructor.
Qed.

(** The same execution with another kind of stacks. *)
Definition with_mode (private : bool) (op : co_op) : co_op :=
  match op with
  | OInit n _ => OInit (if private then Z.of_nat STACK else n) private
  | op => op
  end.

Lemma do_op_rel op s1 s2 :
  Z.of_nat STACK < 2 ^ 31 → sched_ok s1 → sched_rel s1 s2 →
  res_rel sched_rel (do_op (with_mode false op) s1) (do_op (with_mode true op) s2).
Proof.
  intros HS Hs Hr. pose proof Hr as []. destruct op as [n pri|f d|id|id| | |o]; cbn [do_op with_mode].
  - unfold initEnv. rewrite <- sr_co0. destruct (_co s1) eqn:Ea; [by constructor|]. constructor. split; [done|].
    constructor; try done. intros _. cbn [_pri_stack gpristacksize fst snd]. split_and!; try done.
    rewrite s32_small by lia. lia.
  - pose proof (create_rel f d s1 s2 Hr) as Hcr.
    destruct (create f d s1) as [[id1 t1]|], (create f d s2) as [[id2 t2]|]; cbn [mbind option_bind] in Hcr |- *;
      inversion Hcr as [? ? [Heq (Hr' & _)]|]; subst; [|constructor]. cbn [fst snd] in *. subst. by constructor.
  - by apply resume_rel.
  - pose proof (destroy_rel id s1 s2 Hr) as Hd. inversion Hd as [? ? (Hr' & _)|]; cbn [mbind option_bind]; constructor. by split.
  - pose proof (close_rel s1 s2 Hr) as Hd. inversion Hd; cbn [mbind option_bind]; constructor. by split.
  - assert (curid s1 = curid s2) as <-.
    { unfold curid. rewrite <- sr_cur0. destruct (_curco s1) as [l|]; [|done]. pose proof (sr_heap0 l) as Hl.
      inversion Hl as [? ? (Hid & _)|]; cbn; [by rewrite Hid|done]. }
    destruct (curid s1); cbn [mbind option_bind]; by constructor.
  - rewrite <- sr_ext0. destruct (handle o (ext s1)) as [[x r]|]; cbn [mbind option_bind]; constructor. split; [done|]. by constructor.
Qed.

(** ** The rest of the program *)

(** What the rest of the program keeps, a stay on the processor keeps. *)
Lemma create_ext f d s id s' : create f d s = Some (id, s') → ext s' = ext s.
Proof.
  unfold create. destruct (_co s); [|by intros [= <- <-]]. destruct (alloc_co _ _ _) as [[id1 s1]|] eqn:E; [|done].
  cbn [mbind option_bind]. intros [= <- <-]. cbn [ext set_heap]. by destruct (alloc_same _ _ _ _ _ E) as [(_ & _ & _ & -> & _) _].
Qed.

Lemma free_slot_ext id l arr s s' : free_slot id l arr s = Some s' → ext s' = ext s.
Proof.
  unfold free_slot. destruct (heap s !! l); [|done]. cbn [mbind option_bind]. destruct (array_set _ _ _); [|done].
  cbn [mbind option_bind]. destruct (sv_push_back _ _); [|done]. cbn [mbind option_bind]. by intros [= <-].
Qed.

Lemma destroy_ext id s s' : destroy id s = Some s' → ext s' = ext s.
Proof.
  unfold destroy. destruct (match _curco s with Some l => _ | None => _ end); [|done]. cbn [mbind option_bind].
  destruct (decide _); [by intros [= <-]|]. destruct (decide _); [|by intros [= <-]].
  destruct (_co s) as [arr|]; [|done]. cbn [mbind option_bind]. destruct (arr !! _) as [[l|]|]; cbn [mbind option_bind]; [| |done].
  - apply free_slot_ext.
  - by intros [= <-].
Qed.

Lemma stack_write_ext l sp i bs s s' : stack_write l sp i bs s = Some s' → ext s' = ext s.
Proof.
  unfold stack_write, write_block. destruct (block_of l s); [|done]. cbn [mbind option_bind]. destruct (_ <=? _)%nat; [|done].
  destruct (store _ _ _); [|done]. cbn [mbind option_bind]. destruct (heap s !! l) as [co|]; [|done]. cbn [mbind option_bind].
  destruct (ctx_private co); by intros [= <-].
Qed.

Lemma yield_ext l sp p s s' : yield l sp p s = Some s' → ext s' = ext s.
Proof.
  unfold yield. destruct (heap s !! l); [|done]. cbn [mbind option_bind].
  destruct (if _pri_stack s then _ else _); [|done]. cbn [mbind option_bind]. by intros [= <-].
Qed.

Lemma run_ext (P : X → Prop) l c : (∀ o x x' r, P x → handle o x = Some (x', r) → P x') →
  ∀ sp s s' ev, P (ext s) → run l c sp s = Some (s', ev) → P (ext s').
Proof.
  intros HP. induction c as [|k IH|f d|bs k IH|n k IH|i n k IH|i bs k IH|z k IH|f d k IH|id k IH|id k IH|k IH|k IH|o k IH];
    intros sp s s' ev Hs E; cbn [run] in E.
  - destruct (_curco s); [|done]. cbn [mbind option_bind] in E. destruct (heap s !! _); [|done]. by injection E as <- <-.
  - destruct (_curco s); [|by eapply IH]. destruct (yield _ _ _ _) eqn:Ey; [|done]. injection E as <- <-. by rewrite (yield_ext _ _ _ _ _ Ey).
  - destruct (_curco s); [|done]. cbn [mbind option_bind] in E. destruct (yield _ _ _ _) eqn:Ey; [|done].
    injection E as <- <-. by rewrite (yield_ext _ _ _ _ _ Ey).
  - destruct (stack_write _ _ _ _ _) eqn:Ew; [|done]. eapply IH; [|exact E]. by rewrite (stack_write_ext _ _ _ _ _ _ Ew).
  - destruct (_ <=? _)%nat; [|done]. by eapply IH.
  - destruct (_ <=? _)%nat; [|done]. destruct (stack_read _ _ _ _ _); [|done]. by eapply IH.
  - destruct (_ <=? _)%nat; [|done]. destruct (stack_write _ _ _ _ _) eqn:Ew; [|done]. eapply IH; [|exact E].
    by rewrite (stack_write_ext _ _ _ _ _ _ Ew).
  - destruct (run l k sp s) as [[s1 ev1]|] eqn:E1; [|done]. injection E as <- <-. by eapply IH.
  - destruct (create f d s) as [[id s1]|] eqn:Ec; [|done]. eapply IH; [|exact E]. by rewrite (create_ext _ _ _ _ _ Ec).
  - destruct (destroy id s) as [s1|] eqn:Ed; [|done]. eapply IH; [|exact E]. by rewrite (destroy_ext _ _ _ Ed).
  - unfold resume_inside in E. destruct (_curco s); [by eapply IH|]. destruct (decide _); [done|by eapply IH].
  - destruct (curid s); [|done]. by eapply IH.
  - unfold close in E. destruct (sv_clear _); [|done]. by eapply IH; [|exact E].
  - destruct (handle o (ext s)) as [[x r]|] eqn:Eh; [|done]. eapply IH; [|exact E]. by eapply HP.
Qed.

Lemma resume_ext (P : X → Prop) id s s' ev : (∀ o x x' r, P x → handle o x = Some (x', r) → P x') →
  P (ext s) → resume id s = Some (s', ev) → P (ext s').
Proof.
  intros HP Hs E. unfold resume in E. destruct (_curco s); [by injection E as <- <-|]. destruct (decide _); [|by injection E as <- <-].
  destruct (_co s) as [arr|]; [|done]. cbn [mbind option_bind] in E. destruct (arr !! _) as [[l|]|]; cbn [mbind option_bind] in E; [|by injection E as <- <-|done].
  destruct (heap s !! l) as [co|]; [|done]. cbn [mbind option_bind] in E. destruct (decide (_ ∨ _)); [|by injection E as <- <-].
  destruct (if decide _ then restore_stack co s else Some s) as [s1|] eqn:E1; [|done]. cbn [mbind option_bind] in E.
  assert (ext s1 = ext s) as Hx.
  { destruct (decide _); [|by injection E1 as <-]. unfold restore_stack in E1. destruct (_pri_stack s); [by injection E1 as <-|].
    destruct (_ <=? _)%nat; [|done]. destruct (load _ _ _); [|done]. cbn [mbind option_bind] in E1. destruct (store _ _ _); [|done]. by injection E1 as <-. }
  destruct (run l _ _ _) as [[s2 ev2]|] eqn:E2; [|done]. cbn [mbind option_bind] in E.
  apply (run_ext P) in E2; [|done|cbn; by rewrite Hx]. destruct (heap s2 !! l) as [co2|]; [|done]. cbn [mbind option_bind] in E.
  destruct (decide (_status co2 = COROUTINE_DEAD)).
  - destruct (_co s2) as [arr2|]; cbn [mbind option_bind] in E; [|done].
    destruct (free_slot _ _ _ _) eqn:Ef; cbn [mbind option_bind] in E; [|done]. injection E as <- <-.
    cbn [ext set_cur]. by rewrite (free_slot_ext _ _ _ _ _ Ef).
  - by injection E as <- <-.
Qed.

(** What an execution shows. *)
Definition shown (ops : list co_op) (x : X) : option (list Z) := snd <$> co_run ops (schedule_new x).

(** C6: a program cannot tell how its coroutines' stacks are kept: with one stack for all, whose
    bytes are copied away and back, an execution shows what it shows when every coroutine has a
    stack of its own of the same size - the same answers, the same bytes read, the same faults.
    The programs of the model read and write their own stack only: a pointer into the stack of
    another coroutine, whose bytes move when the stack is shared, cannot be written in them. *)
Theorem shared_stack_transparent (x : X) (ops : list co_op) :
  Z.of_nat STACK < 2 ^ 31 → shown (map (with_mode false) ops) x = shown (map (with_mode true) ops) x.
Proof.
  intros HS. unfold shown.
  assert (∀ ops s1 s2, sched_ok s1 → sched_rel s1 s2 →
    res_rel sched_rel (co_run (map (with_mode false) ops) s1) (co_run (map (with_mode true) ops) s2)) as Hgen.
  { clear ops. induction ops as [|op ops IH]; intros s1 s2 Hs Hr; cbn [map co_run]; [by constructor|].
    pose proof (do_op_rel op s1 s2 HS Hs Hr) as Hop.
    destruct (do_op (with_mode false op) s1) as [[t1 e1]|] eqn:E1; inversion Hop as [? [t2 e2] [Heq Hr']|]; subst;
      cbn [mbind option_bind fst snd] in *; [|constructor].
    specialize (IH t1 t2 (do_op_ok _ _ _ _ Hs E1) Hr').
    inversion IH as [[u1 f1] [u2 f2] [Heq' Hr'']|]; cbn [mbind option_bind fst snd] in *; constructor. cbn [fst snd] in *.
    split; [congruence|done]. }
  assert (sched_rel (schedule_new x) (schedule_new x)) as Hr.
  { constructor; try done; [apply length_malloc|]. intros l. cbn. rewrite lookup_empty. constructor. }
  specialize (Hgen ops _ _ (schedule_new_ok x) Hr).
  by inversion Hgen as [[u1 f1] [u2 f2] [Heq _]|]; cbn [fmap option_fmap option_map snd fst] in *; subst.
Qed.

(** A coroutine that calls [close] does not come back: its return dereferences null. *)
Lemma close_inside_faults (id : Z) (l : loc) (k : code F D O R) (sp : nat) s :
  run l (Close k) sp s = None.
Proof. cbn [run]. unfold close. destruct (sv_clear _); [|done]. cbn [mbind option_bind]. by apply run_closed. Qed.
End coroutine.

(** ** Witnesses *)

#[local] Existing Instance zero_malloc.

(** Each coroutine pushes its byte, yields, and reads it back when the other one has pushed
    and yielded too. *)
Definition demo_prog (f : nat) (_ : unit) : code nat unit unit unit :=
  let b := if (f =? 0)%nat then x0a else x0b in
  CurId (λ id, Emit id (Push [b; b] (Yield (Peek 0 2 (λ bs, Emit (le_val bs) (Pop 2 Ret)))))).
Definition demo_handle (_ _ : unit) : option (unit * unit) := Some (tt, tt).

Definition demo_ops : list (@co_op nat unit unit) :=
  [OInit 0 false; OCreate 0%nat tt; OCreate 1%nat tt; OResume 0; OResume 1; OResume 0; OResume 1; OCreate 0%nat tt].

Lemma shared_stack_transparent_witness :
  shown 16 demo_prog demo_handle (map (with_mode 16 false) demo_ops) tt =
    shown 16 demo_prog demo_handle (map (with_mode 16 true) demo_ops) tt ∧
  shown 16 demo_prog demo_handle (map (with_mode 16 true) demo_ops) tt = Some [1; 0; 1; 0; 1; 2570; 2827; 1].
Proof.
  split; [apply (shared_stack_transparent 16 demo_prog demo_handle tt demo_ops); reflexivity|].
  vm_compute. reflexivity.
Defined.

Lemma schedule_ok_reached_witness :
  ∃ s ev, co_run 16 demo_prog demo_handle demo_ops (schedule_new 16 tt) = Some (s, ev) ∧ sched_ok s.
Proof.
  destruct (co_run 16 demo_prog demo_handle demo_ops (schedule_new 16 tt)) as [[s ev]|] eqn:E.
  - exists s, ev. split; [reflexivity|]. exact (schedule_ok_reached 16 demo_prog demo_handle tt demo_ops s ev E).
  - exfalso. revert E. vm_compute. discriminate.
Defined.

(** The schedule after [initEnv] and one [create]. *)
Definition one_coroutine : @schedule nat unit unit unit unit :=
  match create 0%nat tt (snd (initEnv 0 false (schedule_new 16 tt))) with Some (_, s) => s | None => schedule_new 16 tt end.

Lemma create_destroy_spec_witness :
  ∃ s', destroy 0 one_coroutine = Some s' ∧ sched_ok s' ∧ (∀ l', ¬ live s' 0 l').
Proof.
  assert (@sched_ok nat unit unit unit unit one_coroutine ∧ _co one_coroutine ≠ None ∧ ∃ l, live one_coroutine 0 l) as (Hok & Hco & l & Hl).
  { unfold one_coroutine. destruct (initEnv 0 false (schedule_new 16 tt)) as [b s0] eqn:E0. cbn [snd].
    assert (sched_ok s0) as Hs0 by (eapply initEnv_ok; [apply (schedule_new_ok 16 tt)|exact E0]).
    destruct (create 0%nat tt s0) as [[id s1]|] eqn:E1; [|exfalso; revert E1; apply (f_equal snd) in E0; cbn [snd] in E0; subst s0; vm_compute; discriminate].
    split; [by apply (do_op_ok 16 demo_prog demo_handle (OCreate 0%nat tt) s0 s1 [id] Hs0); cbn [do_op]; rewrite E1|].
    apply (f_equal snd) in E0. cbn [snd] in E0. subst s0. revert E1. vm_compute. intros [= <- <-]. split; [done|].
    exists 1%positive. split; [discriminate|]. eexists. split; [reflexivity|]. reflexivity. }
  destruct (create_destroy_spec one_coroutine 0%nat tt 0 l Hok Hco) as (_ & Hd & _).
  destruct (Hd Hl) as (s' & E & Hok' & _ & Hn & _); [vm_compute; reflexivity|].
  exists s'. exact (conj E (conj Hok' Hn)).
Defined.
