(* ===== verification/CoTask.v ===== *)
(** * coroutine: tasks and the resume queues

    [CoroutineTask] of [src/slience/coroutine/coroutine.hpp]: tasks wait in a list until the
    thread gives each to a coroutine; a coroutine that has done its task waits, in a vector, for
    the next.  Coroutines to be resumed are queued by number, in a queue of the thread or, from
    other threads, in a list per thread.

    The state of this layer is what the scheduler of Coroutine.v calls the rest of the
    program.  The coroutines it makes run [_co_task_func_], an endless loop: one turn of it is
    a tree of operations, which ends by yielding and entering the function again.

    Tasks, wrappers and the nodes of the lists per thread live in heaps of their own.  The
    lists that are only pushed and popped are sequences (SList.v).  A wrapper holds the
    address of a local variable of [doTask]: once that call has returned the address
    dangles, and following it is a fault.

    [tasks_in_order]: tasks are done in order, each once, by one coroutine.
    [doThrResume_terminates]: what the thread resumes is what was queued when it looked. *)

From Stdlib Require Import ZArith Lia List Strings.Byte Init.Byte.
From stdpp Require Import base numbers list option gmap.
From S2P Require Import Prelude Buffer SList Containers Coroutine.

#[local] Set Warnings "-clear-no-such-hyp".

(** ** Data *)

(** [co_task]: a function of the program and its argument. *)
Record co_task := mkTask { t_func : nat; t_p : Z }.

(** [wrapper->task]: null, the address of a local variable that holds a task (or null), or
    the address of one that is gone. *)
Inductive task_ref := TaskNull | TaskLocal (t : option loc) | TaskDangling.

Record co_task_wrapper := mkWrap { w_co_id : Z; w_task : task_ref }.

(** Functions and data of coroutines: the program's, and the task function's. *)
Inductive func := FUser (f : nat) | FTask.
Inductive data := DUser (p : Z) | DWrap (w : loc).

(** The thread's [gfreetaskvec], [gworktasklist], [gfreecovec], [gallcolist], [gresumetaskque] and
    what they hold; the lists of all threads. *)
Record tstate := mkT {
  gfreetaskvec : @svector loc;
  gworktasklist : list loc;
  gfreecovec : @svector loc;
  gallcolist : list loc;
  gresumetaskque : @circular_queue Z;
  tasks : gmap loc co_task;
  wrappers : gmap loc co_task_wrapper;
  _queue_map : gmap Z slist;
  qnodes : gmap loc (@Node Z)
}.

Definition tstate_new : tstate :=
  mkT sv_new [] sv_new [] cq_new_default ∅ ∅ ∅ ∅.

(** What a coroutine asks of this layer. *)
Inductive task_op :=
| OAddTask (f : nat) (p : Z)
| OAddResume (id : Z)
| OAddResumeThr (thrid id : Z)
| OLoop (w : loc)
| OLoadTask (t : loc)
| OPushTask (t : loc)
| OPushWrapper (w : loc)
| OFreeWrapper (w : loc).

Inductive task_res := RUnit | RNull | RTask (t : option loc) | RFun (f : nat) (p : Z).

Abbreviation tcode := (code func data task_op task_res).

Section tasks.
Context `{Malloc}.
Context (STACK : nat) (uprog : nat → Z → tcode) (ctid : Z).

Abbreviation tsched := (@schedule func data task_op task_res tstate).

Definition set_tasks (x : tstate) (v : @svector loc) (l : list loc) (h : gmap loc co_task) : tstate :=
  mkT v l (gfreecovec x) (gallcolist x) (gresumetaskque x) h (wrappers x) (_queue_map x) (qnodes x).
Definition set_wrappers (x : tstate) (v : @svector loc) (l : list loc) (h : gmap loc co_task_wrapper) : tstate :=
  mkT (gfreetaskvec x) (gworktasklist x) v l (gresumetaskque x) (tasks x) h (_queue_map x) (qnodes x).
Definition set_resumes (x : tstate) (q : @circular_queue Z) : tstate :=
  mkT (gfreetaskvec x) (gworktasklist x) (gfreecovec x) (gallcolist x) q (tasks x) (wrappers x) (_queue_map x) (qnodes x).
Definition set_queues (x : tstate) (m : gmap Z slist) (h : gmap loc (@Node Z)) : tstate :=
  mkT (gfreetaskvec x) (gworktasklist x) (gfreecovec x) (gallcolist x) (gresumetaskque x) (tasks x) (wrappers x) m h.

(** ** Queueing *)

(** A [co_task] used before, or a new one, filled in. *)
Definition new_task (f : nat) (p : Z) (x : tstate) : option (loc * tstate) :=
  if negb (sv_empty (gfreetaskvec x)) then
    t ← sv_back (gfreetaskvec x);
    v ← sv_pop_back (gfreetaskvec x);
    _ ← tasks x !! t;
    Some (t, set_tasks x v (gworktasklist x) (<[t := mkTask f p]> (tasks x)))
  else
    let t := fresh (dom (tasks x)) in
    Some (t, set_tasks x (gfreetaskvec x) (gworktasklist x) (<[t := mkTask f p]> (tasks x))).

Definition addTask (f : nat) (p : Z) (x : tstate) : option tstate :=
  '(t, x) ← new_task f p x;
  Some (set_tasks x (gfreetaskvec x) (gworktasklist x ++ [t]) (tasks x)).

(** A full queue refuses, which nobody looks at. *)
Definition addResume (id : Z) (x : tstate) : option tstate :=
  '(_, q) ← cq_push_back (gresumetaskque x) id; Some (set_resumes x q).

Definition addResume_thr (thrid co_id : Z) (x : tstate) : option tstate :=
  '(l, h) ← slist_push_back (default slist_new (_queue_map x !! thrid)) co_id (qnodes x);
  Some (set_queues x (<[thrid := l]> (_queue_map x)) h).

(** ** The task function *)

Definition handle (o : task_op) (x : tstate) : option (tstate * task_res) :=
  match o with
  | OAddTask f p => x ← addTask f p x; Some (x, RUnit)
  | OAddResume id => x ← addResume id x; Some (x, RUnit)
  | OAddResumeThr thrid id => x ← addResume_thr thrid id x; Some (x, RUnit)
  | OLoop w =>
      wr ← wrappers x !! w;
      match w_task wr with
      | TaskNull => Some (x, RNull)
      | TaskLocal t => Some (x, RTask t)
      | TaskDangling => None
      end
  | OLoadTask t => tk ← tasks x !! t; Some (x, RFun (t_func tk) (t_p tk))
  | OPushTask t => v ← sv_push_back (gfreetaskvec x) t; Some (set_tasks x v (gworktasklist x) (tasks x), RUnit)
  | OPushWrapper w => v ← sv_push_back (gfreecovec x) w; Some (set_wrappers x v (gallcolist x) (wrappers x), RUnit)
  | OFreeWrapper w => _ ← wrappers x !! w; Some (set_wrappers x (gfreecovec x) (gallcolist x) (delete w (wrappers x)), RUnit)
  end.

(** A turn of [while (wrapper->task)]. *)
Definition co_task_func (w : loc) : tcode :=
  Sys (OLoop w) (λ r,
    let again := Sys (OPushWrapper w) (λ _, YieldEnter FTask (DWrap w)) in
    match r with
    | RTask (Some t) =>
        Sys (OLoadTask t) (λ r,
          match r with
          | RFun f p => seq_code (uprog f p) (Sys (OPushTask t) (λ _, again))
          | _ => Ret
          end)
    | RTask None => again
    | _ => Sys (OFreeWrapper w) (λ _, Ret)
    end).

Definition prog (f : func) (d : data) : tcode :=
  match f, d with
  | FUser f, DUser p => uprog f p
  | FTask, DWrap w => co_task_func w
  | _, _ => Ret
  end.

(** ** The thread *)

Definition co_resume (id : Z) (s : tsched) : option (tsched * list Z) := resume STACK prog handle id s.

Definition doResume (s : tsched) : option (bool * tsched * list Z) :=
  cur ← curid s;
  if cur =? M_INVALID_COROUTINE_ID then
    let x := ext s in
    if negb (cq_empty (gresumetaskque x)) then
      '(id, q) ← cq_pop_front_val (gresumetaskque x);
      id ← id;
      '(s, ev) ← co_resume id (set_ext s (set_resumes x q));
      Some (true, s, ev)
    else Some (false, s, [])
  else Some (false, s, []).

(** [doResume(id)]. *)
Definition doResume_id (id : Z) (s : tsched) : option (tsched * list Z) :=
  cur ← curid s; if cur =? M_INVALID_COROUTINE_ID then co_resume id s else Some (s, []).

(** [while (!tmp.empty())]: the list is a local of the thread. *)
Fixpoint thr_loop (fuel : nat) (tmp : slist) (s : tsched) : option (tsched * list Z) :=
  if slist_empty tmp then Some (s, [])
  else
    match fuel with
    | O => None
    | S fuel =>
        '(co_id, h) ← slist_front tmp (qnodes (ext s));
        '(tmp, h) ← slist_pop_front tmp h;
        '(s, ev) ← co_resume co_id (set_ext s (set_queues (ext s) (_queue_map (ext s)) h));
        '(s, ev') ← thr_loop fuel tmp s;
        Some (s, ev ++ ev')
    end.

Definition doThrResume (s : tsched) : option (tsched * list Z) :=
  cur ← curid s;
  if cur =? M_INVALID_COROUTINE_ID then
    let x := ext s in
    match _queue_map x !! ctid with
    | Some l =>
        '((tmp, l), h) ← slist_join slist_new l (qnodes x);
        thr_loop (Z.to_nat (slist_size tmp)) tmp (set_ext s (set_queues x (<[ctid := l]> (_queue_map x)) h))
    | None => Some (s, [])
    end
  else Some (s, []).

Definition get_task (x : tstate) : option loc * tstate :=
  match gworktasklist x with
  | [] => (None, x)
  | t :: l => (Some t, set_tasks x (gfreetaskvec x) l (tasks x))
  end.

(** A wrapper whose coroutine waits, or a new one; its task is null. *)
Definition get_co_task_wrapper (s : tsched) : option (loc * tsched) :=
  let x := ext s in
  if negb (sv_empty (gfreecovec x)) then
    w ← sv_back (gfreecovec x);
    v ← sv_pop_back (gfreecovec x);
    wr ← wrappers x !! w;
    Some (w, set_ext s (set_wrappers x v (gallcolist x) (<[w := mkWrap (w_co_id wr) TaskNull]> (wrappers x))))
  else
    let w := fresh (dom (wrappers x)) in
    '(id, s) ← create FTask (DWrap w) s;
    let x := ext s in
    Some (w, set_ext s (set_wrappers x (gfreecovec x) (gallcolist x ++ [w]) (<[w := mkWrap id TaskNull]> (wrappers x)))).

Definition set_wrapper_task (w : loc) (r : task_ref) (s : tsched) : option tsched :=
  let x := ext s in
  wr ← wrappers x !! w;
  Some (set_ext s (set_wrappers x (gfreecovec x) (gallcolist x) (<[w := mkWrap (w_co_id wr) r]> (wrappers x)))).

(** The local variable [task] is given to a wrapper, and is gone when the call returns. *)
Definition run_task (t : loc) (s : tsched) : option (tsched * list Z) :=
  '(w, s) ← get_co_task_wrapper s;
  s ← set_wrapper_task w (TaskLocal (Some t)) s;
  wr ← wrappers (ext s) !! w;
  '(s, ev) ← co_resume (w_co_id wr) s;
  Some (match set_wrapper_task w TaskDangling s with Some s => s | None => s end, ev).

Definition doTask (s : tsched) : option (bool * tsched * list Z) :=
  cur ← curid s;
  if cur =? M_INVALID_COROUTINE_ID then
    let '(t, x) := get_task (ext s) in
    match t with
    | Some t => '(s, ev) ← run_task t (set_ext s x); Some (true, s, ev)
    | None => Some (false, s, [])
    end
  else Some (false, s, []).

(** [doTask(func, p)]. *)
Definition doTask_now (f : nat) (p : Z) (s : tsched) : option (tsched * list Z) :=
  cur ← curid s;
  if cur =? M_INVALID_COROUTINE_ID then
    '(t, x) ← new_task f p (ext s); run_task t (set_ext s x)
  else Some (s, []).

(** [clrTask]: the vector of waiting wrappers is not among what is cleared. *)
Fixpoint free_tasks (ts : list loc) (h : gmap loc co_task) : option (gmap loc co_task) :=
  match ts with
  | [] => Some h
  | t :: ts => _ ← h !! t; free_tasks ts (delete t h)
  end.

Fixpoint pop_tasks (fuel : nat) (v : @svector loc) (h : gmap loc co_task) : option (@svector loc * gmap loc co_task) :=
  if sv_empty v then Some (v, h)
  else
    match fuel with
    | O => None
    | S fuel =>
        t ← sv_back v; _ ← h !! t; v ← sv_pop_back v; pop_tasks fuel v (delete t h)
    end.

Fixpoint destroy_all (ws : list loc) (s : tsched) : option tsched :=
  match ws with
  | [] => Some s
  | w :: ws =>
      wr ← wrappers (ext s) !! w;
      s ← destroy (w_co_id wr) s;
      let x := ext s in
      destroy_all ws (set_ext s (set_wrappers x (gfreecovec x) ws (delete w (wrappers x))))
  end.

Definition clrTask (s : tsched) : option tsched :=
  cur ← curid s;
  if cur =? M_INVALID_COROUTINE_ID then
    let x := ext s in
    '(v, h) ← pop_tasks (Z.to_nat (v_size (gfreetaskvec x))) (gfreetaskvec x) (tasks x);
    h ← free_tasks (gworktasklist x) h;
    s ← destroy_all (gallcolist x) (set_ext s (set_tasks x v [] h));
    q ← cq_clear (gresumetaskque (ext s));
    let x := set_resumes (ext s) q in
    match _queue_map x !! ctid with
    | Some l => '(l, h) ← slist_clear l (qnodes x); Some (set_ext s (set_queues x (<[ctid := l]> (_queue_map x)) h))
    | None => Some (set_ext s x)
    end
  else Some s.

(** ** Executions of the thread *)

Inductive thread_op :=
| TInit (stack_size : Z) (pri_stack : bool)
| TAddTask (f : nat) (p : Z) | TDoTask | TDoTaskNow (f : nat) (p : Z)
| TAddResume (id : Z) | TAddResumeThr (thrid id : Z) | TDoResume | TDoResumeId (id : Z) | TDoThrResume
| TClrTask.

Definition thread_step (op : thread_op) (s : tsched) : option (tsched * list Z) :=
  match op with
  | TInit n pri => Some (snd (initEnv n pri s), [])
  | TAddTask f p => x ← addTask f p (ext s); Some (set_ext s x, [])
  | TDoTask => '(_, s, ev) ← doTask s; Some (s, ev)
  | TDoTaskNow f p => doTask_now f p s
  | TAddResume id => x ← addResume id (ext s); Some (set_ext s x, [])
  | TAddResumeThr thrid id => x ← addResume_thr thrid id (ext s); Some (set_ext s x, [])
  | TDoResume => '(_, s, ev) ← doResume s; Some (s, ev)
  | TDoResumeId id => doResume_id id s
  | TDoThrResume => doThrResume s
  | TClrTask => s ← clrTask s; Some (s, [])
  end.

Fixpoint thread_run (ops : list thread_op) (s : tsched) : option (tsched * list Z) :=
  match ops with
  | [] => Some (s, [])
  | op :: ops => '(s, ev) ← thread_step op s; '(s, ev') ← thread_run ops s; Some (s, ev ++ ev')
  end.

Definition thread_new : tsched := schedule_new STACK tstate_new.
End tasks.

(** ** The resume list of a thread *)

Section resumes.
Context `{Malloc} (STACK : nat) (uprog : nat → Z → tcode) (ctid : Z).

Abbreviation tsched := (@schedule func data task_op task_res tstate).

#[local] Set Default Proof Using "Type".

(** The nodes [ls] of the local list hold [ids], and no list of a thread ends in them. *)
Definition queues_apart (x : tstate) (ls : list loc) : Prop :=
  ∀ k q tl, _queue_map x !! k = Some q → _tail q = Some tl → tl ∉ ls.
Definition local_list (tmp : slist) (ls : list loc) (ids : list Z) (x : tstate) : Prop :=
  rep (qnodes x) tmp ls ids ∧ queues_apart x ls.

(** The numbers [ids] are resumed one after the other, whatever is queued meanwhile. *)
Inductive resumed : list Z → tsched → tsched → list Z → Prop :=
| resumed_nil s : resumed [] s s []
| resumed_cons id ids s h s1 ev1 s2 ev2 :
    co_resume STACK uprog id (set_ext s (set_queues (ext s) (_queue_map (ext s)) h)) = Some (s1, ev1) →
    resumed ids s1 s2 ev2 → resumed (id :: ids) s s2 (ev1 ++ ev2).

(** The loop takes one element per turn, whatever the coroutines do. *)
Lemma thr_loop_fuel fuel : ∀ fuel' tmp s,
  0 <= _count tmp < 2 ^ 31 → (Z.to_nat (_count tmp) ≤ fuel)%nat → (Z.to_nat (_count tmp) ≤ fuel')%nat →
  thr_loop STACK uprog fuel tmp s = thr_loop STACK uprog fuel' tmp s.
Proof.
  induction fuel as [|fuel IH]; intros [|fuel'] tmp s Hc Hf Hf'; cbn [thr_loop]; unfold slist_empty;
    destruct (Z.eqb_spec (_count tmp) 0) as [E|E]; try done; try lia.
  destruct (slist_front tmp _) as [[id h1]|] eqn:E1; cbn [mbind option_bind]; [|done].
  destruct (slist_pop_front tmp h1) as [[tmp' h2]|] eqn:E2; cbn [mbind option_bind]; [|done].
  assert (_count tmp' = _count tmp - 1) as Hc'.
  { unfold slist_front in E1. unfold slist_pop_front in E2. destruct (_head tmp) as [hd|]; [|done].
    destruct (h1 !! hd); [|done]. cbn [mbind option_bind] in E2. injection E2 as <- _. cbn [_count]. rewrite s32_small; lia. }
  destruct (co_resume _ _ _ _) as [[s1 ev1]|]; cbn [mbind option_bind]; [|done]. rewrite (IH fuel' tmp' s1); [done|lia..].
Qed.

(** What the coroutines queue leaves the local list alone. *)
Lemma handle_local tmp ls ids o x x' r :
  local_list tmp ls ids x → handle o x = Some (x', r) → local_list tmp ls ids x'.
Proof.
  intros [Hr Hap] E. assert (∀ y, qnodes y = qnodes x → _queue_map y = _queue_map x → local_list tmp ls ids y) as Hsame.
  { intros y E1 E2. split; [by rewrite E1|]. unfold queues_apart. by rewrite E2. }
  destruct o as [f p|id|thrid id|w|t|t|w|w]; cbn [handle] in E.
  - unfold addTask, new_task in E. destruct (negb _).
    + destruct (sv_back _); cbn [mbind option_bind] in E; [|done]. destruct (sv_pop_back _); cbn [mbind option_bind] in E; [|done].
      destruct (tasks x !! _); cbn [mbind option_bind] in E; [|done]. injection E as <- <-. by apply Hsame.
    + cbn [mbind option_bind] in E. injection E as <- <-. by apply Hsame.
  - unfold addResume in E. destruct (cq_push_back _ _) as [[b q]|]; cbn [mbind option_bind] in E; [|done].
    injection E as <- <-. by apply Hsame.
  - unfold addResume_thr, slist_push_back in E. set (q := default slist_new (_queue_map x !! thrid)) in E.
    set (pnode := fresh (dom (qnodes x))) in E.
    assert (pnode ∉ ls) as Hp.
    { intros Hin. apply (rep_dom _ _ _ _ _ Hr) in Hin. by apply is_fresh in Hin. }
    assert (∀ tl, _tail q = Some tl → tl ∉ ls) as Htl.
    { intros tl Et. subst q. destruct (_queue_map x !! thrid) as [q|] eqn:Eq; [by eapply Hap|done]. }
    destruct (match _tail q with Some tl => _ | None => _ end) as [h|] eqn:Eh; cbn [mbind option_bind] in E; [|done].
    injection E as <- <-. split; cbn [qnodes _queue_map set_queues].
    + eapply rep_frame; [|exact Hr]. intros l Hl. destruct (_tail q) as [tl|].
      * destruct (_ !! tl) as [n|]; cbn [mbind option_bind] in Eh; [|done]. injection Eh as <-.
        rewrite !lookup_insert_ne; [done| |]; intros <-; [by apply Hp|by apply (Htl tl)].
      * injection Eh as <-. rewrite lookup_insert_ne; [done|]. by intros <-.
    + intros k q' tl Hk Et. destruct (decide (k = thrid)) as [->|Hne].
      * cbn [_queue_map set_queues] in Hk. rewrite lookup_insert_eq in Hk. injection Hk as <-. cbn [_tail] in Et. by injection Et as <-.
      * cbn [_queue_map set_queues] in Hk. rewrite lookup_insert_ne in Hk by done. by eapply Hap.
  - destruct (wrappers x !! w) as [wr|]; cbn [mbind option_bind] in E; [|done]. destruct (w_task wr); [..|done]; injection E as <- <-; by apply Hsame.
  - destruct (tasks x !! t); cbn [mbind option_bind] in E; [|done]. injection E as <- <-. by apply Hsame.
  - destruct (sv_push_back _ _); cbn [mbind option_bind] in E; [|done]. injection E as <- <-. by apply Hsame.
  - destruct (sv_push_back _ _); cbn [mbind option_bind] in E; [|done]. injection E as <- <-. by apply Hsame.
  - destruct (wrappers x !! w); cbn [mbind option_bind] in E; [|done]. injection E as <- <-. by apply Hsame.
Qed.

Lemma thr_loop_resumes ids : ∀ ls tmp s s' ev,
  local_list tmp ls ids (ext s) → Z.of_nat (length ids) < 2 ^ 31 - 1 →
  thr_loop STACK uprog (length ids) tmp s = Some (s', ev) → resumed ids s s' ev.
Proof.
  induction ids as [|id ids IH]; intros ls tmp s s' ev [Hr Hap] Hl E; pose proof Hr as (_ & _ & _ & Hc);
    cbn [thr_loop length] in E; unfold slist_empty in E; rewrite Hc in E.
  - injection E as <- <-. constructor.
  - destruct (Z.eqb_spec (Z.of_nat (length (id :: ids))) 0); [cbn [length] in *; lia|].
    destruct ls as [|l ls]; [by destruct Hr as (Hch & _)|].
    rewrite (rep_front _ _ _ _ _ _ Hr) in E. cbn [mbind option_bind] in E.
    destruct (rep_pop_front _ _ _ _ _ _ Hr) as (tmp' & Ep & Hr'); [cbn [length] in Hl; lia|]. rewrite Ep in E. cbn [mbind option_bind] in E.
    destruct (co_resume _ _ _ _) as [[s1 ev1]|] eqn:E1; cbn [mbind option_bind] in E; [|done].
    destruct (thr_loop _ _ _ _ s1) as [[s2 ev2]|] eqn:E2; cbn [mbind option_bind] in E; [|done]. injection E as <- <-.
    econstructor; [exact E1|]. eapply (IH ls tmp'); [|cbn [length] in Hl; lia|exact E2].
    eapply (resume_ext STACK _ _ (local_list tmp' ls ids)); [|  |exact E1].
    + intros o x x' r. apply handle_local.
    + cbn [ext set_ext]. split; [done|]. intros k q tl Hk Et Hin. eapply Hap; [exact Hk|exact Et|by right].
Qed.

(** C21: the thread resumes exactly the coroutines that other threads had queued when it looked, in
    their order, and then is done: its loop takes one number per turn and never sees what the
    resumed coroutines queue, so that any fuel from the length of the list on gives the same. *)
Theorem doThrResume_terminates (s : tsched) (l : slist) (ls : list loc) (ids : list Z) :
  _curco s = None → _queue_map (ext s) !! ctid = Some l → rep (qnodes (ext s)) l ls ids →
  Z.of_nat (length ids) < 2 ^ 31 - 1 →
  (∀ k q tl, k ≠ ctid → _queue_map (ext s) !! k = Some q → _tail q = Some tl → tl ∉ ls) →
  ∃ tmp s0, doThrResume STACK uprog ctid s = thr_loop STACK uprog (length ids) tmp s0 ∧
    ext s0 = set_queues (ext s) (<[ctid := slist_new]> (_queue_map (ext s))) (qnodes (ext s)) ∧
    (∀ fuel, (length ids ≤ fuel)%nat → thr_loop STACK uprog fuel tmp s0 = thr_loop STACK uprog (length ids) tmp s0) ∧
    (∀ s' ev, doThrResume STACK uprog ctid s = Some (s', ev) → resumed ids s0 s' ev).
Proof.
  intros Hc Hq Hr Hl Hap. pose proof Hr as (Hch & Hnd & Htl & Hcnt).
  set (tmp := mkList (_count l) (_head l) (_tail l)).
  set (s0 := set_ext s (set_queues (ext s) (<[ctid := slist_new]> (_queue_map (ext s))) (qnodes (ext s)))).
  assert (doThrResume STACK uprog ctid s = thr_loop STACK uprog (length ids) tmp s0) as E.
  { unfold doThrResume, curid. rewrite Hc. cbn [mbind option_bind]. rewrite Z.eqb_refl, Hq. unfold slist_join, slist_new. cbn [_tail mbind option_bind _head _count].
    unfold slist_size. cbn [_count]. rewrite Z.add_0_l, s32_small by lia. rewrite Hcnt, Nat2Z.id. unfold tmp. by rewrite Hcnt. }
  exists tmp, s0. split; [exact E|]. split; [done|]. split.
  - intros fuel Hf. apply thr_loop_fuel; cbn [_count tmp]; lia.
  - intros s' ev E'. rewrite E in E'. eapply (thr_loop_resumes ids ls tmp); [|done|exact E'].
    split; [cbn [ext s0 set_ext qnodes set_queues]; by split_and!|]. intros k q tl Hk Et. cbn [ext s0 set_ext _queue_map set_queues] in Hk.
    destruct (decide (k = ctid)) as [->|Hne].
    + rewrite lookup_insert_eq in Hk. by injection Hk as <-.
    + rewrite lookup_insert_ne in Hk by done. by eapply Hap.
Qed.

(** A full resume queue drops the number, and nobody is told. *)
Lemma addResume_full (id : Z) (x : tstate) :
  cq_full (gresumetaskque x) = true → addResume id x = Some (set_resumes x (gresumetaskque x)).
Proof. intros Hf. unfold addResume, cq_push_back. by rewrite Hf. Qed.
End resumes.

(** ** The tasks of a thread *)

(** A function that emits numbers and returns. *)
Fixpoint emits (zs : list Z) : tcode := match zs with [] => Ret | z :: zs => Emit z (emits zs) end.

Section in_order.
Context `{Malloc} (STACK : nat) (uprog : nat → Z → tcode).

Abbreviation tsched := (@schedule func data task_op task_res tstate).
Implicit Types (s : tsched) (x : tstate).

#[local] Set Default Proof Using "Type".

(** The tasks [ts] wait, those of [fl] are done. *)
Definition tasks_at x (fl : list loc) (ts : list (loc * (nat * Z))) : Prop :=
  vrep (gfreetaskvec x) fl ∧ v_cap (gfreetaskvec x) = 100 ∧ gworktasklist x = map fst ts ∧
  Forall (λ '(t, (f, p)), tasks x !! t = Some (mkTask f p)) ts.

(** The thread's only coroutine, number 0, is that of wrapper [w]; the waiting wrappers are [ws]. *)
Definition one_worker s (w : loc) (ws : list loc) (r : task_ref) : Prop :=
  _curco s = None ∧ length (s_stack s) = STACK ∧ 0 < s_cap s ∧ _nco s = 1 ∧
  vrep (gfreecovec (ext s)) ws ∧ v_cap (gfreecovec (ext s)) = 100 ∧ wrappers (ext s) !! w = Some (mkWrap 0 r) ∧
  ∃ arr l co, _co s = Some arr ∧ arr !! 0%nat = Some (Some l) ∧ heap s !! l = Some co ∧
    waiting l (_status co) ∧ ctx_point co = Enter FTask (DWrap w) ∧ ctx_sp co = 0%nat ∧ _size co = 0%nat.

(** No coroutine yet. *)
Definition no_worker s : Prop :=
  _curco s = None ∧ length (s_stack s) = STACK ∧ s_cap s = 1024 ∧ _nco s = 0 ∧
  vrep (gfreecovec (ext s)) [] ∧ v_cap (gfreecovec (ext s)) = 100 ∧ vrep (_freeid s) [] ∧
  ∃ arr, _co s = Some arr ∧ Z.of_nat (length arr) = 1024 ∧ arr !! 0%nat = Some None.

Lemma run_emits l zs k sp s :
  run STACK handle l (seq_code (emits zs) k) sp s = '(s, ev) ← run STACK handle l k sp s; Some (s, zs ++ ev).
Proof.
  induction zs as [|z zs IH]; cbn [emits seq_code run List.app].
  - by destruct (run STACK handle l k sp s) as [[? ?]|].
  - rewrite IH. by destruct (run STACK handle l k sp s) as [[? ?]|].
Qed.

(** The coroutine does the task its wrapper was given. *)
Lemma resume_worker s w t f p zs fl ts :
  one_worker s w [] (TaskLocal (Some t)) → tasks_at (ext s) fl ts → tasks (ext s) !! t = Some (mkTask f p) →
  uprog f p = emits zs → Z.of_nat (length fl) < 200 →
  ∃ s', co_resume STACK uprog 0 s = Some (s', zs) ∧ one_worker s' w [w] (TaskLocal (Some t)) ∧ tasks_at (ext s') (fl ++ [t]) ts.
Proof.
  intros (Hc & Hstk & Hcap & Hn & Hv & Hvc & Hw & arr & l & co & Ea & El & Eco & Hst & Hpt & Hsp & Hsz) (Hf & Hfc & Hwl & Hts) Et Hu Hlen.
  unfold co_resume, resume. rewrite Hc, decide_True by lia. rewrite Ea. cbn [mbind option_bind]. change (Z.to_nat 0) with 0%nat. rewrite El. cbn [mbind option_bind].
  rewrite Eco. cbn [mbind option_bind]. rewrite decide_True by (destruct Hst; tauto).
  assert (∃ s1, (if decide (_status co = COROUTINE_SUSPEND) then restore_stack STACK co s else Some s) = Some s1 ∧
    s1 = set_stack s (s_stack s1) ∧ length (s_stack s1) = STACK) as (s1 & -> & Es1 & Hstk1).
  { destruct (decide _); [|exists s; by destruct s]. unfold restore_stack. destruct (_pri_stack s); [exists s; by destruct s|].
    rewrite Hsz. cbn [Nat.leb]. rewrite load_ok by lia. cbn [mbind option_bind]. rewrite take_0.
    rewrite store_ok by (cbn [length]; lia). cbn [mbind option_bind]. eexists. split; [reflexivity|]. split; [done|]. cbn [s_stack set_stack].
    cbn [length]. len. lia. }
  cbn [mbind option_bind]. rewrite Hpt, Hsp. cbn [enter prog]. unfold co_task_func. cbn [run].
  set (s2 := set_cur (set_heap s1 _) _).
  assert (ext s2 = ext s) as Ex by (subst s2; cbn [ext set_cur set_heap]; by rewrite Es1).
  cbn [handle]. rewrite Ex, Hw. cbn [mbind option_bind w_task run]. cbn [ext set_ext handle]. rewrite Et. cbn [mbind option_bind].
  cbn [t_func t_p]. rewrite Hu, run_emits. cbn [run ext set_ext handle].
  destruct (vrep_push_back _ _ t Hf) as (v & -> & Hv' & Hvc'); [lia|]. cbn [mbind option_bind run ext set_ext handle gfreecovec set_tasks].
  destruct (vrep_push_back _ _ w Hv) as (v2 & -> & Hv2 & Hvc2); [cbn [length]; lia|].
  cbn [mbind option_bind run ext set_ext handle _curco set_cur s2 set_heap].
  unfold yield. cbn [heap set_ext set_cur set_heap s2]. rewrite lookup_insert_eq. cbn [mbind option_bind _pri_stack set_ext set_cur set_heap s2 s_stack].
  set (co' := with_status co COROUTINE_RUNNING).
  assert (∃ co2, (if _pri_stack s1 then Some co' else save_stack STACK co' 0 (s_stack s1)) = Some co2 ∧ _size co2 = 0%nat) as (co2 & -> & Hsz2).
  { destruct (_pri_stack s1); [by exists co'|]. unfold save_stack. cbn [Nat.leb]. rewrite (proj2 (Nat.ltb_ge _ _)) by lia.
    rewrite load_ok by lia. cbn [mbind option_bind]. rewrite take_0. rewrite store_ok by (cbn [length]; lia). cbn [mbind option_bind]. by eexists. }
  cbn [mbind option_bind heap set_heap set_ext set_cur]. rewrite lookup_insert_eq. cbn [mbind option_bind _status with_ctx with_status].
  rewrite decide_False by done. cbn [mbind option_bind]. rewrite app_nil_r. eexists. split; [reflexivity|].
  subst s2. rewrite Es1. split.
  - unfold one_worker. cbn [_curco set_cur s_stack set_heap set_ext set_stack s_cap _nco ext gfreecovec set_wrappers wrappers set_tasks _co heap].
    split_and!; try done; [by rewrite Hvc2|]. exists arr, l. eexists. split; [done|]. split; [done|]. rewrite lookup_insert_eq.
    split; [reflexivity|]. cbn. split_and!; try done. by right.
  - unfold tasks_at. cbn [ext set_cur set_heap set_ext gfreetaskvec set_wrappers set_tasks gworktasklist tasks].
    split_and!; try done. by rewrite Hvc'.
Qed.
(** After [initEnv]: no worker. *)
Lemma init_no_worker n pri : no_worker (snd (initEnv n pri (thread_new STACK))) ∧
  tasks_at (ext (snd (initEnv n pri (thread_new STACK)))) [] [] .
Proof.
  remember (Z.to_nat DEFAULT_COROUTINE) as K eqn:EK.
  assert (Z.of_nat K = 1024) as HK by (rewrite EK; reflexivity).
  unfold initEnv, thread_new, schedule_new. cbn [_co snd]. rewrite <- EK. clear EK.
  split; [|split; [apply vrep_new; lia|by split_and!]]. unfold no_worker. cbn [_curco s_stack s_cap _nco ext gfreecovec tstate_new _freeid _co].
  split; [done|]. split; [apply length_malloc|]. split; [done|]. split; [done|]. split; [apply vrep_new; lia|]. split; [done|].
  split; [apply vrep_new; lia|]. eexists. split; [reflexivity|]. rewrite length_replicate. split; [done|]. apply lookup_replicate. split; [done|lia].
Qed.

(** The worker, made for the first task and used again for the next. *)
Lemma get_worker s fl ts :
  no_worker s ∨ (∃ w r, one_worker s w [w] r) → tasks_at (ext s) fl ts →
  ∃ w s' r, get_co_task_wrapper s = Some (w, s') ∧ one_worker s' w [] r ∧ tasks_at (ext s') fl ts ∧ tasks (ext s') = tasks (ext s).
Proof.
  intros Hwk (Hf & Hfc & Hwl & Hts). unfold get_co_task_wrapper. destruct Hwk as [Hno|(w & r & Hone)].
  - destruct Hno as (Hc & Hstk & Hcap & Hn & Hv & Hvc & Hfree & arr & Ea & Hlen & El).
    pose proof Hv as (_ & Hs & _). cbn [length Z.of_nat] in Hs. pose proof Hfree as (_ & Hs2 & _). cbn [length Z.of_nat] in Hs2.
    unfold sv_empty. rewrite Hs. cbn [Z.eqb negb]. unfold create, alloc_co, sv_empty. rewrite Ea, Hs2. cbn [Z.eqb negb].
    rewrite Z.geb_leb. destruct (Z.leb_spec (s_cap s) (_nco s)); [lia|]. rewrite array_set_ok by lia. cbn [mbind option_bind _pri_stack heap].
    eexists _, _, TaskNull. split; [reflexivity|]. split; [|split; [by split_and!|done]].
    unfold one_worker. cbn [_curco s_stack s_cap _nco ext set_ext set_heap _co heap gfreecovec set_wrappers wrappers]. rewrite lookup_insert_eq.
    split_and!; try done; try lia; [by rewrite Hn|].
    eexists _, _, _. split; [reflexivity|]. rewrite Hn. rewrite list_lookup_insert_eq by lia. split; [reflexivity|].
    rewrite lookup_insert_eq. split; [reflexivity|]. destruct (_pri_stack s); cbn; split_and!; try done; by left.
  - destruct Hone as (Hc & Hstk & Hcap & Hn & Hv & Hvc & Hw & arr & l & co & Ea & El & Eco & Hst & Hpt & Hsp & Hsz).
    pose proof Hv as (_ & Hs & _). cbn [length Z.of_nat] in Hs. unfold sv_empty. rewrite Hs. cbn [Z.eqb negb].
    rewrite (vrep_back _ _ w Hv) by done. cbn [mbind option_bind]. destruct (vrep_pop_back _ _ Hv) as (v & -> & Hv' & Hvc'). cbn [mbind option_bind removelast] in *.
    rewrite Hw. cbn [mbind option_bind w_co_id]. eexists _, _, _. split; [reflexivity|]. split; [|split; [by split_and!|done]].
    unfold one_worker. cbn [_curco s_stack s_cap _nco ext set_ext _co heap gfreecovec set_wrappers wrappers]. rewrite lookup_insert_eq.
    split_and!; try done; [by rewrite Hvc'|]. by exists arr, l, co.
Qed.

Lemma set_wrapper_task_ok w r r' s :
  wrappers (ext s) !! w = Some (mkWrap 0 r) →
  set_wrapper_task w r' s = Some (set_ext s (set_wrappers (ext s) (gfreecovec (ext s)) (gallcolist (ext s)) (<[w := mkWrap 0 r']> (wrappers (ext s))))).
Proof. intros Hw. unfold set_wrapper_task. by rewrite Hw. Qed.

Lemma doTask_worker s fl t f p ts zs :
  no_worker s ∨ (∃ w r, one_worker s w [w] r) → tasks_at (ext s) fl ((t, (f, p)) :: ts) → uprog f p = emits zs →
  Z.of_nat (length fl) < 200 →
  ∃ s' w r, doTask STACK uprog s = Some (true, s', zs) ∧ one_worker s' w [w] r ∧ tasks_at (ext s') (fl ++ [t]) ts.
Proof.
  intros Hwk (Hf & Hfc & Hwl & Hts) Hu Hlen. unfold doTask, curid.
  assert (_curco s = None) as -> by (destruct Hwk as [(? & _)|(w & r & ? & _)]; done). cbn [mbind option_bind]. rewrite Z.eqb_refl.
  unfold get_task. rewrite Hwl. cbn [map fst]. set (s0 := set_ext s _).
  apply Forall_cons in Hts as [Ht Hts].
  assert (tasks_at (ext s0) fl ts) as Ht0 by (by split_and!).
  destruct (get_worker s0 fl ts) as (w & s1 & r & E1 & Hone & Ht1 & Etk); [|done|].
  { destruct Hwk as [Hno|(w & r & Hone)]; [by left|right]. by exists w, r. }
  unfold run_task. rewrite E1. cbn [mbind option_bind].
  pose proof Hone as (Hc & Hstk & Hcap & Hn & Hv & Hvc & Hw & Hrest).
  rewrite (set_wrapper_task_ok _ _ _ _ Hw). cbn [mbind option_bind w_co_id ext set_ext wrappers set_wrappers].
  rewrite lookup_insert_eq. cbn [mbind option_bind w_co_id].
  set (s2 := set_ext s1 _).
  destruct (resume_worker s2 w t f p zs fl ts) as (s3 & -> & Hone3 & Ht3); [| | |done|done|].
  { subst s2. unfold one_worker. cbn [_curco s_stack s_cap _nco ext set_ext _co heap gfreecovec set_wrappers wrappers].
    rewrite lookup_insert_eq. by split_and!. }
  { destruct Ht1 as (? & ? & ? & ?). by split_and!. }
  { subst s2. cbn [ext set_ext tasks set_wrappers]. by rewrite Etk. }
  cbn [mbind option_bind]. destruct Hone3 as (Hc3 & Hstk3 & Hcap3 & Hn3 & Hv3 & Hvc3 & Hw3 & Hrest3).
  rewrite (set_wrapper_task_ok _ _ _ _ Hw3). eexists _, w, TaskDangling. split; [reflexivity|]. split.
  - unfold one_worker. cbn [_curco s_stack s_cap _nco ext set_ext _co heap gfreecovec set_wrappers wrappers]. rewrite lookup_insert_eq. by split_and!.
  - destruct Ht3 as (? & ? & ? & ?). by split_and!.
Qed.

(** [n] calls of [doTask]. *)
Lemma doTasks_worker ts : ∀ s fl (out : nat → Z → list Z),
  no_worker s ∨ (∃ w r, one_worker s w [w] r) → tasks_at (ext s) fl ts →
  Forall (λ '(_, (f, p)), uprog f p = emits (out f p)) ts → Z.of_nat (length fl + length ts) <= 200 →
  ∃ s', thread_run STACK uprog 0 (replicate (length ts) TDoTask) s =
      Some (s', concat (map (λ '(_, (f, p)), out f p) ts)) ∧
    (ts ≠ [] → _nco s' = 1) ∧ gworktasklist (ext s') = [].
Proof.
  induction ts as [|[t [f p]] ts IH]; intros s fl out Hwk Hts Hu Hlen; cbn [replicate length thread_run map concat].
  - exists s. split; [done|]. split; [done|]. by destruct Hts as (_ & _ & -> & _).
  - apply Forall_cons in Hu as [Hu Hus]. cbn [length] in Hlen.
    destruct (doTask_worker s fl t f p ts (out f p) Hwk Hts Hu) as (s1 & w & r & E1 & Hone & Ht1); [lia|].
    cbn [thread_step]. rewrite E1. cbn [mbind option_bind].
    destruct (IH s1 (fl ++ [t]) out) as (s2 & E2 & Hn & Hw); [right; by exists w, r|done|done|rewrite length_app; cbn [length]; lia|].
    rewrite E2. cbn [mbind option_bind]. exists s2. split; [done|]. split; [|done]. intros _.
    destruct ts; [|by apply Hn]. cbn in E2. injection E2 as <-. by destruct Hone as (_ & _ & _ & ? & _).
Qed.

Lemma addTasks ops : ∀ s ts,
  no_worker s → tasks_at (ext s) [] ts →
  ∃ s' ts', thread_run STACK uprog 0 (map (λ '(f, p), TAddTask f p) ops) s = Some (s', []) ∧ no_worker s' ∧
    tasks_at (ext s') [] (ts ++ ts') ∧ map snd ts' = ops.
Proof.
  induction ops as [|[f p] ops IH]; intros s ts Hno Hts; cbn [map thread_run].
  - exists s, []. rewrite app_nil_r. by split_and!.
  - destruct Hts as (Hf & Hfc & Hwl & Hts). pose proof Hf as (_ & Hs & _). cbn [length Z.of_nat] in Hs.
    cbn [thread_step]. unfold addTask, new_task, sv_empty. rewrite Hs. change (Z.of_nat 0 =? 0) with true. cbn [negb mbind option_bind].
    set (t := fresh (dom (tasks (ext s)))). set (s1 := set_ext s _).
    destruct (IH s1 (ts ++ [(t, (f, p))])) as (s2 & ts' & E & Hno2 & Hts2 & Hops).
    + destruct Hno as (? & ? & ? & ? & ? & ? & ? & ?). by split_and!.
    + split_and!; try done.
      * cbn [ext s1 set_ext gworktasklist set_tasks]. by rewrite Hwl, map_app.
      * apply Forall_app. split; [|constructor; [|constructor]].
        -- rewrite Forall_forall in Hts |- *. intros [t' [f' p']] Hin. specialize (Hts _ Hin). cbn in Hts.
           cbn [ext s1 set_ext tasks set_tasks]. rewrite lookup_insert_ne; [done|]. intros Et. apply elem_of_dom_2 in Hts.
           rewrite <- Et in Hts. by apply is_fresh in Hts.
        -- cbn [ext s1 set_ext tasks set_tasks]. apply lookup_insert_eq.
    + rewrite E. cbn [mbind option_bind]. exists s2, ((t, (f, p)) :: ts'). rewrite <- app_assoc in Hts2. split_and!; try done.
      cbn [map snd]. by rewrite Hops.
Qed.

(** C20: up to 200 tasks that do not wait are done in the order in which they were added, each
    once, and one coroutine does them all - with one stack for all or one for each.  The body of such
    a task only shows its output ([emits]): it adds no task and does not wait. *)
Theorem tasks_in_order (n : Z) (pri : bool) (todo : list (nat * Z)) (out : nat → Z → list Z) :
  Forall (λ '(f, p), uprog f p = emits (out f p)) todo → Z.of_nat (length todo) <= 200 → todo ≠ [] →
  ∃ s, thread_run STACK uprog 0
      (TInit n pri :: map (λ '(f, p), TAddTask f p) todo ++ replicate (length todo) TDoTask) (thread_new STACK) =
        Some (s, concat (map (λ '(f, p), out f p) todo)) ∧ _nco s = 1 ∧ gworktasklist (ext s) = [].
Proof.
  intros Hu Hlen Hne. cbn [thread_run thread_step]. destruct (init_no_worker n pri) as [Hno Hts]. cbn [mbind option_bind].
  destruct (addTasks todo _ [] Hno Hts) as (s1 & ts & E1 & Hno1 & Hts1 & Htodo). cbn [List.app] in Hts1.
  assert (∀ ops1 ops2 s, thread_run STACK uprog 0 (ops1 ++ ops2) s =
    '(s, ev) ← thread_run STACK uprog 0 ops1 s; '(s, ev') ← thread_run STACK uprog 0 ops2 s; Some (s, ev ++ ev')) as Happ.
  { induction ops1 as [|op ops1 IH]; intros ops2 s; cbn [List.app thread_run mbind option_bind].
    - by destruct (thread_run STACK uprog 0 ops2 s) as [[? ?]|].
    - destruct (thread_step STACK uprog 0 op s) as [[s2 ev2]|]; cbn [mbind option_bind]; [|done]. rewrite IH.
      destruct (thread_run STACK uprog 0 ops1 s2) as [[s3 ev3]|]; cbn [mbind option_bind]; [|done].
      destruct (thread_run STACK uprog 0 ops2 s3) as [[s4 ev4]|]; cbn [mbind option_bind]; [|done]. by rewrite app_assoc. }
  rewrite Happ, E1. cbn [mbind option_bind].
  destruct (doTasks_worker ts s1 [] out (or_introl Hno1) Hts1) as (s2 & E2 & Hn & Hw).
  { apply Forall_forall. intros [t [f p]] Hin. apply (proj1 (Forall_forall _ _) Hu (f, p)).
    rewrite <- Htodo. apply list_elem_of_fmap. by exists (t, (f, p)). }
  { rewrite <- Htodo, length_map in Hlen. cbn [length]. lia. }
  assert (length todo = length ts) as -> by (by rewrite <- Htodo, length_map). rewrite E2. cbn [mbind option_bind List.app].
  exists s2. split; [|split; [apply Hn; intros ->; by rewrite <- Htodo in Hne|done]].
  do 2 f_equal. rewrite <- Htodo, map_map. f_equal. apply map_ext. by intros [? [? ?]].
Qed.
End in_order.

(** ** Executions that fault *)

#[local] Existing Instance zero_malloc.

(** Function 0 emits its argument. *)
Definition echo (f : nat) (p : Z) : tcode := emits [p].

(** [clrTask] frees the wrappers that wait in [gfreecovec], where the next task finds one. *)
Lemma clrTask_leaves_wrappers :
  thread_run 16 echo 7 [TInit 0 false; TAddTask 0 5; TDoTask; TClrTask; TAddTask 0 5; TDoTask] (thread_new 16) = None.
Proof. vm_compute. reflexivity. Qed.

(** The 201st task done is put past the end of the vector of free tasks. *)
Lemma free_tasks_overrun :
  thread_run 16 echo 7 (TInit 0 false :: replicate 201 (TAddTask 0 5) ++ replicate 201 TDoTask) (thread_new 16) = None.
Proof. vm_compute. reflexivity. Qed.

(** Resuming a coroutine that waits for a task follows the address of a variable that is gone. *)
Lemma idle_worker_resumed :
  thread_run 16 echo 7 [TInit 0 false; TAddTask 0 5; TDoTask; TDoResumeId 0] (thread_new 16) = None.
Proof. vm_compute. reflexivity. Qed.

(** ** Witnesses *)

Lemma tasks_in_order_witness :
  ∃ s, thread_run 16 echo 0 (TInit 0 false :: map (λ '(f, p), TAddTask f p) [(0%nat, 5); (0%nat, 6)] ++ replicate 2 TDoTask)
      (thread_new 16) = Some (s, [5; 6]) ∧ _nco s = 1 ∧ gworktasklist (ext s) = [].
Proof.
  apply (tasks_in_order 16 echo 0 false [(0%nat, 5); (0%nat, 6)] (λ _ p, [p])).
  - apply List.Forall_cons; [reflexivity|]. apply List.Forall_cons; [reflexivity|apply List.Forall_nil].
  - cbn. lia.
  - discriminate.
Defined.

(** A schedule of thread 7 for which another thread has queued a number. *)
Definition queued : option (@schedule func data task_op task_res tstate) :=
  '(s, _) ← thread_run 16 echo 7 [TInit 0 false; TAddResumeThr 7 3] (thread_new 16); Some s.

Lemma doThrResume_terminates_witness :
  ∃ s, queued = Some s ∧ ∃ tmp s0, doThrResume 16 echo 7 s = thr_loop 16 echo 1 tmp s0 ∧
    thr_loop 16 echo 5 tmp s0 = thr_loop 16 echo 1 tmp s0.
Proof.
  destruct queued as [s|] eqn:E; [|exfalso; revert E; vm_compute; discriminate].
  exists s. split; [reflexivity|].
  assert (_curco s = None ∧ map_to_list (_queue_map (ext s)) = [(7, mkList 1 (Some 1%positive) (Some 1%positive))] ∧
    qnodes (ext s) !! 1%positive = Some (mkNode 3 None)) as (Hc & Hm & Hn).
  { revert E. vm_compute. intros [= <-]. repeat split; reflexivity. }
  assert (_queue_map (ext s) !! 7 = Some (mkList 1 (Some 1%positive) (Some 1%positive))) as Hq
    by (apply elem_of_map_to_list; rewrite Hm; left).
  assert (∀ k q, k ≠ 7 → _queue_map (ext s) !! k = Some q → False) as Hk.
  { intros k q Hk Hl. apply elem_of_map_to_list in Hl. rewrite Hm in Hl. apply list_elem_of_singleton in Hl. injection Hl as -> _. by apply Hk. }
  destruct (doThrResume_terminates 16 echo 7 s (mkList 1 (Some 1%positive) (Some 1%positive)) [1%positive] [3] Hc Hq) as (tmp & s0 & E1 & _ & E2 & _).
  - split_and!; try reflexivity; [|apply NoDup_singleton]. cbn. split; [reflexivity|]. exists None. split; [exact Hn|reflexivity].
  - cbn. lia.
  - intros k q tl Hne Hl. destruct (Hk k q Hne Hl).
  - exists tmp, s0. split; [exact E1|]. apply E2. cbn. lia.
Defined.
