(* ===== verification/StringUtil.v ===== *)
(** * base::StringUtil

    The path functions of [src/slience/base/string_util.cpp], with the searches of [std::string]
    that they use.

    [path_split]: a path is its directory, the delimiter and its base name.  [suffix_removed]: what
    [remove_from_end] does to a string that ends so. *)

From Stdlib Require Import ZArith Lia List Strings.String Strings.Byte Init.Byte.
From stdpp Require Import base numbers list option.
From S2P Require Import Prelude.

#[local] Set Warnings "-clear-no-such-hyp".

(** ** std::string *)

(** [find_last_of(c)]; [None] is [npos]. *)
Fixpoint find_last_of (c : byte) (s : list byte) : option nat :=
  match s with
  | [] => None
  | x :: s =>
      match find_last_of c s with
      | Some i => Some (S i)
      | None => if decide (x = c) then Some 0%nat else None
      end
  end.

(** [rfind(tar)]: the last place where [tar] stands. *)
Fixpoint rfind (tar s : list byte) : option nat :=
  match s with
  | [] => if decide (tar = []) then Some 0%nat else None
  | x :: s' =>
      match rfind tar s' with
      | Some i => Some (S i)
      | None => if decide (take (length tar) s = tar) then Some 0%nat else None
      end
  end.

(** [substr(pos, n)]; it throws behind the end. *)
Definition substr (s : list byte) (pos n : nat) : option (list byte) :=
  if (pos <=? length s)%nat then Some (take n (drop pos s)) else None.

(** ** StringUtil *)

Definition delimiters : list byte := [x5c; x2f].

Fixpoint basename_loop (ds path : list byte) : option (list byte) :=
  match ds with
  | [] => Some path
  | d :: ds =>
      match find_last_of d path with
      | Some pos => substr path (pos + 1) (length path - pos)
      | None => basename_loop ds path
      end
  end.
Definition basename (path : list byte) : option (list byte) := basename_loop delimiters path.

Definition remove_from_end (src tar : list byte) : option (list byte) :=
  match rfind tar src with
  | Some pos => substr src 0 pos
  | None => Some src
  end.

Fixpoint directory_loop (ds path : list byte) : option (list byte) :=
  match ds with
  | [] => Some path
  | d :: ds =>
      match find_last_of d path with
      | Some pos => substr path 0 pos
      | None => directory_loop ds path
      end
  end.
Definition directory (path : list byte) : option (list byte) := directory_loop delimiters path.

Lemma find_last_none c s : find_last_of c s = None ↔ c ∉ s.
Proof.
  induction s as [|x s IH]; cbn; [split; [intros _; apply not_elem_of_nil|done]|]. rewrite not_elem_of_cons.
  destruct (find_last_of c s) as [i|]; [split; [done|]|case_decide; split]; try done.
  - intros [_ H]. apply IH in H. done.
  - intros [? _]. congruence.
  - intros _. split; [congruence|]. by apply IH.
Qed.

Lemma find_last_some c s i : find_last_of c s = Some i →
  s = take i s ++ c :: drop (S i) s ∧ c ∉ drop (S i) s.
Proof.
  revert i. induction s as [|x s IH]; intros i E; cbn in E; [done|].
  destruct (find_last_of c s) as [j|] eqn:Ej.
  - injection E as <-. destruct (IH j eq_refl) as [E Hn]. split; [cbn; by rewrite <- E|exact Hn].
  - case_decide as Hx; [|done]. injection E as <-. subst x. cbn. rewrite drop_0. split; [done|]. by apply find_last_none.
Qed.

(** The searches stop inside the string. *)
Lemma find_last_bound c s i : find_last_of c s = Some i → (i < length s)%nat.
Proof.
  intros E. destruct (find_last_some c s i E) as [Es _]. destruct (decide (i < length s)%nat); [done|]. exfalso.
  apply (f_equal length) in Es. rewrite length_app, length_take in Es. cbn [length] in Es. lia.
Qed.

Lemma split_at d path pos : find_last_of d path = Some pos →
  ∃ dir base, substr path 0 pos = Some dir ∧ substr path (pos + 1) (length path - pos) = Some base ∧
    path = dir ++ d :: base ∧ d ∉ base.
Proof.
  intros E. pose proof (find_last_bound d path pos E). destruct (find_last_some d path pos E) as [Es Hn].
  exists (take pos path), (drop (S pos) path). unfold substr. rewrite !(proj2 (Nat.leb_le _ _)) by lia. rewrite drop_0.
  replace (pos + 1)%nat with (S pos) by lia. rewrite (take_ge (drop (S pos) path)) by (rewrite length_drop; lia). done.
Qed.

(** C38: A path with a delimiter is its directory, the delimiter and its base name, cut at the last
    backslash if it has one and else at the last slash; a path without is its own directory and
    base name. *)
Lemma path_split (path : list byte) :
  ∃ dir base, directory path = Some dir ∧ basename path = Some base ∧
    (if decide (x5c ∈ path) then path = dir ++ x5c :: base ∧ x5c ∉ base
     else if decide (x2f ∈ path) then path = dir ++ x2f :: base ∧ x2f ∉ base
     else dir = path ∧ base = path).
Proof.
  unfold directory, basename, delimiters. cbn [directory_loop basename_loop].
  destruct (find_last_of x5c path) as [pos|] eqn:E.
  - destruct (split_at _ _ _ E) as (dir & base & -> & -> & Hp & Hn). exists dir, base.
    rewrite decide_True; [done|]. rewrite Hp. apply elem_of_app. right. left.
  - apply find_last_none in E. destruct (find_last_of x2f path) as [pos|] eqn:E2.
    + destruct (split_at _ _ _ E2) as (dir & base & -> & -> & Hp & Hn). exists dir, base.
      rewrite decide_False, decide_True; [done| |done]. rewrite Hp. apply elem_of_app. right. left.
    + apply find_last_none in E2. exists path, path. by rewrite !decide_False.
Qed.

(** A backslash anywhere hides the slashes behind it. *)
Lemma mixed_delimiters : basename B["a\b/c"] = Some B["b/c"].
Proof. reflexivity. Qed.

Lemma rfind_suffix tar pre : tar ≠ [] → rfind tar (pre ++ tar) = Some (length pre).
Proof.
  intros Ht. induction pre as [|x pre IH]; cbn [List.app].
  - destruct tar as [|y tar]; [done|]. cbn [rfind].
    assert (∀ l, (length l < length (y :: tar))%nat → rfind (y :: tar) l = None) as Hs.
    { clear. induction l as [|x l IH]; intros Hl; [done|]. cbn [rfind]. rewrite IH by (cbn [length] in *; lia).
      rewrite decide_False; [done|]. intros E. apply (f_equal length) in E. rewrite length_take in E. cbn [length] in *. lia. }
    rewrite Hs by (cbn; lia). rewrite take_ge by done. by rewrite decide_True.
  - cbn [rfind length]. by rewrite IH.
Qed.

(** [remove_from_end] takes a suffix away. *)
Lemma suffix_removed pre tar : tar ≠ [] → remove_from_end (pre ++ tar) tar = Some pre.
Proof.
  intros Ht. unfold remove_from_end. rewrite rfind_suffix by done. unfold substr. cbn. by rewrite drop_0, take_app_length.
Qed.

(** It also cuts where the text stands elsewhere, with everything behind it. *)
Lemma removed_from_middle : remove_from_end B["log.txt.bak"] B[".txt"] = Some B["log"].
Proof. reflexivity. Qed.
