(* ===== verification/LogStream.v ===== *)
(** * base::logger: buffers and lines

    [fixedbuffer], [logstream], [logtime], [logthread] and [logimpl] of
    [src/slience/base/logger.hpp] and [logger.cpp]: how the text of one line of the log is made.
    The local time of a clock value is a parameter (the system's time zone), and so is the text of
    [%.12g].

    [log_line_spec]: what a line holds, whatever is put into it: every write stays in its buffer
    and in order; text is cut off at the end of the buffer and a number that has no 32 characters
    left is skipped. *)

From Stdlib Require Import ZArith Lia List Strings.String Strings.Byte Init.Byte.
From stdpp Require Import base numbers list option.
From S2P Require Import Prelude Buffer Timestamp.

#[local] Set Warnings "-clear-no-such-hyp".

(** ** fixedbuffer *)

Record fixedbuffer := mkFixed { _data : list byte; _pos : Z }.

Section fixedbuffer.
Context (SIZE : Z).

(** The bytes of [_data] are those of the memory the buffer is put in. *)
Definition fb_new (mem : list byte) : fixedbuffer := mkFixed mem 0.

Definition fb_length (b : fixedbuffer) : Z := _pos b.
Definition fb_avail (b : fixedbuffer) : Z := u64 (SIZE - _pos b).

(** [append(data, len)]; [data] is the memory at the pointer. *)
Definition fb_append (b : fixedbuffer) (data : list byte) (len : Z) : option fixedbuffer :=
  let len := if len >? u64 (SIZE - _pos b) then u64 (SIZE - _pos b) else len in
  src ← load data 0 (Z.to_nat len);
  d ← store (_data b) (Z.to_nat (_pos b)) src;
  Some (mkFixed d (u64 (_pos b + len))).

(** [seek(incr)]; the negation of the least [int] overflows. *)
Definition fb_seek (b : fixedbuffer) (incr : Z) : option fixedbuffer :=
  if incr >=? 0 then
    let pos := u64 (_pos b + incr) in Some (mkFixed (_data b) (if pos >? SIZE then SIZE else pos))
  else if incr =? - 2 ^ 31 then None
  else if - incr >? _pos b then Some (mkFixed (_data b) 0)
  else Some (mkFixed (_data b) (u64 (_pos b + incr))).

Definition fb_clear (b : fixedbuffer) : fixedbuffer := mkFixed (_data b) 0.

(** [getstring()]: the block, as a string. *)
Definition fb_getstring (b : fixedbuffer) : option (list byte * fixedbuffer) :=
  d ← store (_data b) (Z.to_nat (_pos b)) [x00]; Some (c_str d, mkFixed d (_pos b)).

(** What the buffer holds. *)
Definition fb_view (b : fixedbuffer) : list byte := take (Z.to_nat (_pos b)) (_data b).

Definition fb_ok (b : fixedbuffer) : Prop :=
  0 <= _pos b <= SIZE ∧ Z.of_nat (length (_data b)) = SIZE + 1 ∧ SIZE < 2 ^ 62.

Lemma fb_new_ok mem : 0 <= SIZE < 2 ^ 62 → Z.of_nat (length mem) = SIZE + 1 → fb_ok (fb_new mem).
Proof. intros Hs Hm. unfold fb_ok, fb_new. cbn. lia. Qed.

Lemma fb_avail_ok b : fb_ok b → fb_avail b = SIZE - _pos b.
Proof. intros (Hp & Hd & Hs). unfold fb_avail. apply u64_small. lia. Qed.

Lemma fb_view_length b : fb_ok b → Z.of_nat (length (fb_view b)) = _pos b.
Proof. intros (Hp & Hd & Hs). unfold fb_view. rewrite length_take. lia. Qed.

Lemma fb_clear_ok b : fb_ok b → fb_ok (fb_clear b) ∧ fb_view (fb_clear b) = [].
Proof. intros (Hp & Hd & Hs). unfold fb_ok, fb_clear. cbn. split; [lia|done]. Qed.

(** A store at the end of what a buffer holds. *)
Lemma store_at_end b src : fb_ok b → _pos b + Z.of_nat (length src) <= SIZE + 1 →
  ∃ d, store (_data b) (Z.to_nat (_pos b)) src = Some d ∧ length d = length (_data b) ∧
    ∀ k, (k ≤ length src)%nat → take (Z.to_nat (_pos b) + k) d = fb_view b ++ take k src.
Proof.
  intros (Hp & Hd & Hs) Hl. eexists. rewrite store_ok by lia. split; [done|].
  split; [rewrite !length_app, length_take, length_drop; lia|]. intros k Hk. unfold fb_view.
  rewrite take_app, take_take, length_take. replace (Nat.min _ (Z.to_nat (_pos b))) with (Z.to_nat (_pos b)) by lia.
  f_equal. replace (Z.to_nat (_pos b) + k - _)%nat with k by lia. rewrite take_app_le by done. done.
Qed.

Lemma fb_append_ok b data len : fb_ok b → 0 <= len < 2 ^ 62 → len <= Z.of_nat (length data) →
  ∃ b', fb_append b data len = Some b' ∧ fb_ok b' ∧
    fb_view b' = take (Z.to_nat SIZE) (fb_view b ++ take (Z.to_nat len) data).
Proof.
  intros Hb Hl Hd. pose proof Hb as (Hp & Hd' & Hs). unfold fb_append. rewrite (u64_small (SIZE - _pos b)) by lia.
  set (n := if len >? SIZE - _pos b then SIZE - _pos b else len).
  assert (n = Z.min len (SIZE - _pos b)) as Hn by (unfold n; destruct (Z.gtb_spec len (SIZE - _pos b)); lia).
  rewrite load_ok by lia. cbn [mbind option_bind]. rewrite drop_0.
  destruct (store_at_end b (take (Z.to_nat n) data) Hb) as (d & -> & Hld & Ht); [rewrite length_take; lia|].
  cbn [mbind option_bind]. eexists. split; [done|]. unfold fb_ok, fb_view. cbn [_pos _data].
  rewrite u64_small by lia. split; [lia|]. rewrite Z2Nat.inj_add by lia.
  rewrite Ht by (rewrite length_take; lia). fold (fb_view b). rewrite take_take, Nat.min_id, firstn_app.
  pose proof (fb_view_length b Hb). rewrite (take_ge (fb_view b)) by lia. f_equal.
  rewrite take_take. f_equal. lia.
Qed.
End fixedbuffer.

(** ** logstream *)

Definition LOG_SIZE : Z := 4 * 1024.

(** What is put into a line; [LCstr] and [LLiteral] are the memory at the pointer and the array,
    [LDouble] the text of the number. *)
Inductive log_value :=
| LBool (b : bool) | LShort (z : Z) | LUShort (z : Z) | LInt (z : Z) | LUInt (z : Z)
| LLong (z : Z) | LULong (z : Z) | LDouble (text : list byte) | LChar (c : byte)
| LString (s : list byte) | LLiteral (arr : list byte) | LCstr (mem : list byte) | LPtr (p : Z).

Section logstream.

(** [_convert]. *)
Definition convert (s : fixedbuffer) (text : list byte) : option fixedbuffer :=
  if fb_avail LOG_SIZE s >=? 32 then
    d ← snprintf (_data s) (Z.to_nat (_pos s)) (Z.to_nat (fb_avail LOG_SIZE s)) text;
    fb_seek LOG_SIZE (mkFixed d (_pos s)) (Z.of_nat (length text))
  else Some s.

Definition put_bool (s : fixedbuffer) (b : bool) : option fixedbuffer :=
  fb_append LOG_SIZE s (if b then B["1"] else B["0"]) 1.
(** [%d] takes the low 32 bits of what it is given as an [int]. *)
Definition put_int (s : fixedbuffer) (z : Z) : option fixedbuffer := convert s (print_int (s32 z)).
Definition put_double (s : fixedbuffer) (text : list byte) : option fixedbuffer := convert s text.
Definition put_char (s : fixedbuffer) (c : byte) : option fixedbuffer := fb_append LOG_SIZE s [c] 1.
Definition put_string (s : fixedbuffer) (v : list byte) : option fixedbuffer :=
  fb_append LOG_SIZE s (v ++ [x00]) (Z.of_nat (length v)).
Definition put_literal (s : fixedbuffer) (arr : list byte) : option fixedbuffer :=
  fb_append LOG_SIZE s arr (u64 (Z.of_nat (length arr) - 1)).
(** [strlen] of memory without a NUL runs out of it. *)
Definition put_cstr (s : fixedbuffer) (mem : list byte) : option fixedbuffer :=
  if decide (x00 ∈ mem) then fb_append LOG_SIZE s mem (Z.of_nat (length (c_str mem))) else None.
Definition print_ptr (p : Z) : list byte := B["0x"] ++ hex_digits 8 (u32 p).
Definition put_ptr (s : fixedbuffer) (p : Z) : option fixedbuffer := convert s (print_ptr p).

Definition put_value (s : fixedbuffer) (v : log_value) : option fixedbuffer :=
  match v with
  | LBool b => put_bool s b
  | LShort z | LUShort z | LInt z | LUInt z | LLong z | LULong z => put_int s z
  | LDouble t => put_double s t
  | LChar c => put_char s c
  | LString v => put_string s v
  | LLiteral a => put_literal s a
  | LCstr m => put_cstr s m
  | LPtr p => put_ptr s p
  end.

Fixpoint put_values (s : fixedbuffer) (vs : list log_value) : option fixedbuffer :=
  match vs with [] => Some s | v :: vs => s ← put_value s v; put_values s vs end.

(** The reference: the text of a value, and how a line takes it. *)
Definition text_of (v : log_value) : list byte :=
  match v with
  | LBool b => if b then B["1"] else B["0"]
  | LShort z | LUShort z | LInt z | LUInt z | LLong z | LULong z => print_int (s32 z)
  | LDouble t => t
  | LChar c => [c]
  | LString v => v
  | LLiteral a => take (length a - 1) a
  | LCstr m => c_str m
  | LPtr p => print_ptr p
  end.

Definition is_number (v : log_value) : bool :=
  match v with
  | LBool _ | LChar _ | LString _ | LLiteral _ | LCstr _ => false
  | _ => true
  end.

Definition line_put (acc : list byte) (v : log_value) : list byte :=
  if is_number v then if (length acc + 32 <=? 4096)%nat then acc ++ text_of v else acc
  else take 4096 (acc ++ text_of v).

Definition value_ok (v : log_value) : Prop :=
  match v with
  | LDouble t => (length t ≤ 19)%nat
  | LString v => Z.of_nat (length v) < 2 ^ 62
  | LLiteral a => 0 < Z.of_nat (length a) < 2 ^ 62
  | LCstr m => x00 ∈ m ∧ Z.of_nat (length m) < 2 ^ 62
  | _ => True
  end.

Definition line_at (s : fixedbuffer) (acc : list byte) : Prop := fb_ok LOG_SIZE s ∧ fb_view s = acc.

Lemma convert_ok s acc text : line_at s acc → (length text ≤ 19)%nat →
  ∃ s', convert s text = Some s' ∧ line_at s' (if (length acc + 32 <=? 4096)%nat then acc ++ text else acc).
Proof.
  intros [Hs Hv] Ht. pose proof Hs as (Hp & Hd & Hsz). pose proof (fb_view_length _ _ Hs) as Hlen. rewrite Hv in Hlen.
  unfold convert. rewrite fb_avail_ok by done. unfold LOG_SIZE in *.
  destruct (Nat.leb_spec (length acc + 32) 4096) as [Hle|Hlt].
  - assert ((4 * 1024 - _pos s >=? 32) = true) as -> by lia. unfold snprintf. rewrite decide_False by lia.
    rewrite take_ge by lia. destruct (store_at_end (4 * 1024) s (text ++ [x00]) Hs) as (d & -> & Hld & Htk); [rewrite length_app; cbn; lia|].
    cbn [mbind option_bind]. unfold fb_seek. rewrite (proj2 (Z.geb_le _ _)) by lia. cbn [_pos _data].
    rewrite u64_small by lia. destruct (Z.gtb_spec (_pos s + Z.of_nat (length text)) (4 * 1024)); [lia|].
    eexists. split; [done|]. unfold line_at, fb_ok, fb_view, LOG_SIZE. cbn [_pos _data]. split; [lia|].
    rewrite Z2Nat.inj_add, Nat2Z.id by lia. rewrite Htk by (rewrite length_app; lia). by rewrite Hv, take_app_length.
  - assert ((4 * 1024 - _pos s >=? 32) = false) as -> by lia. by exists s.
Qed.

Lemma append_ok s acc data len : line_at s acc → 0 <= len < 2 ^ 62 → len <= Z.of_nat (length data) →
  ∃ s', fb_append LOG_SIZE s data len = Some s' ∧ line_at s' (take 4096 (acc ++ take (Z.to_nat len) data)).
Proof.
  intros [Hs Hv] Hl Hd. destruct (fb_append_ok LOG_SIZE s data len Hs Hl Hd) as (s' & E & Hs' & Hv').
  exists s'. split; [done|]. split; [done|]. rewrite Hv', Hv. reflexivity.
Qed.

Lemma c_str_prefix m : ∃ t, m = c_str m ++ t.
Proof. induction m as [|c m [t IH]]; [by exists []|]. cbn. destruct (decide (c = x00)); [by exists (c :: m)|]. exists t. cbn. by rewrite <- IH. Qed.

(** One value: inside the buffer, and as the reference takes it. *)
Lemma put_value_ok s acc v : line_at s acc → value_ok v →
  ∃ s', put_value s v = Some s' ∧ line_at s' (line_put acc v).
Proof.
  intros Hs Hv. unfold put_value, line_put.
  pose proof (λ z, print_int_length z) as Hint. pose proof (λ p, hex_digits_length 8 p) as Hhex.
  destruct v; cbn [is_number text_of value_ok] in *;
    try (apply convert_ok; [done|]; unfold print_ptr; rewrite ?length_app; cbn [length list_byte_of_string map];
         first [specialize (Hint (s32 z)); lia|done]).
  - destruct b; (eapply append_ok; [done|lia|cbn; lia]).
  - eapply append_ok; [done|lia|cbn; lia].
  - destruct (append_ok s acc (s0 ++ [x00]) (Z.of_nat (length s0)) Hs) as (s' & E & Hs'); [lia|rewrite length_app; lia|].
    exists s'. split; [exact E|]. by rewrite Nat2Z.id, take_app_length in Hs'.
  - unfold put_literal. rewrite u64_small by lia.
    destruct (append_ok s acc arr (Z.of_nat (length arr) - 1) Hs) as (s' & E & Hs'); [lia|lia|].
    exists s'. split; [exact E|]. by replace (Z.to_nat (Z.of_nat (length arr) - 1)) with (length arr - 1)%nat in Hs' by lia.
  - destruct Hv as [Hin Hm]. unfold put_cstr. rewrite decide_True by done.
    destruct (c_str_prefix mem) as [t Et]. assert (length (c_str mem) ≤ length mem)%nat by (rewrite Et at 2; rewrite length_app; lia).
    destruct (append_ok s acc mem (Z.of_nat (length (c_str mem))) Hs) as (s' & E & Hs'); [lia|lia|].
    exists s'. split; [exact E|]. rewrite Nat2Z.id in Hs'. rewrite Et in Hs' at 2. by rewrite take_app_length in Hs'.
  - apply convert_ok; [done|]. unfold print_ptr. rewrite length_app. specialize (Hhex (u32 p)).
    change (length B["0x"]) with 2%nat. lia.
Qed.

Lemma put_values_ok vs : ∀ s acc, line_at s acc → Forall value_ok vs →
  ∃ s', put_values s vs = Some s' ∧ line_at s' (fold_left line_put vs acc).
Proof.
  induction vs as [|v vs IH]; intros s acc Hs Hvs; cbn [put_values fold_left]; [by exists s|].
  apply Forall_cons_iff in Hvs as [Hv Hvs]. destruct (put_value_ok s acc v Hs Hv) as (s1 & -> & Hs1). cbn [mbind option_bind].
  by apply IH.
Qed.

(** Values that leave room for a number are put down as they are. *)
Lemma line_fits vs : ∀ acc, (length acc + length (concat (map text_of vs)) + 32 ≤ 4096)%nat →
  fold_left line_put vs acc = acc ++ concat (map text_of vs).
Proof.
  induction vs as [|v vs IH]; intros acc Hl; cbn [fold_left map concat] in *; [by rewrite app_nil_r|].
  rewrite length_app in Hl. assert (line_put acc v = acc ++ text_of v) as ->.
  { unfold line_put. destruct (is_number v).
    - rewrite (proj2 (Nat.leb_le _ _)) by lia. done.
    - apply take_ge. rewrite length_app. lia. }
  rewrite IH by (rewrite length_app; lia). by rewrite app_assoc.
Qed.
End logstream.

(** ** The parts of a line *)

Inductive loglevel := LOG_LEVEL_TRACE | LOG_LEVEL_DEBUG | LOG_LEVEL_INFO | LOG_LEVEL_WARN | LOG_LEVEL_ERROR | LOG_LEVEL_FATAL.

Definition level_num (l : loglevel) : Z :=
  match l with
  | LOG_LEVEL_TRACE => 0 | LOG_LEVEL_DEBUG => 1 | LOG_LEVEL_INFO => 2
  | LOG_LEVEL_WARN => 3 | LOG_LEVEL_ERROR => 4 | LOG_LEVEL_FATAL => 5
  end.

Definition _level_desc (l : loglevel) : list byte :=
  match l with
  | LOG_LEVEL_TRACE => B["TRACE "] | LOG_LEVEL_DEBUG => B["DEBUG "] | LOG_LEVEL_INFO => B["INFO  "]
  | LOG_LEVEL_WARN => B["WARN  "] | LOG_LEVEL_ERROR => B["ERROR "] | LOG_LEVEL_FATAL => B["FATAL "]
  end.

(** The thread's [logtime]; the two arrays start with what the memory holds. *)
Record logtime := mkTime { _time_str : list byte; _mil_str : list byte; _last : Z }.

(** [_gettime_]: the clock in milliseconds. *)
Definition _gettime_ (sec usec : Z) : Z := sec * 1000 + usec ÷ 1000.

Section lines.
Context `{Malloc, LocalTime}.

Definition logtime_new : logtime := mkTime (malloc 32) (malloc 10) 0.

(** [to_format] at the clock value [now_in_mil]; the division of C truncates. *)
Definition to_format (lt : logtime) (now_in_mil : Z) (ls : fixedbuffer) : option (logtime * fixedbuffer) :=
  let now := now_in_mil ÷ 1000 in
  let mil := Z.rem now_in_mil 1000 in
  lt ← (if negb (now =? _last lt) then
          t ← store (_time_str lt) 0 (strftime_ymd_hms (localtime now) ++ [x00]);
          Some (mkTime t (_mil_str lt) now)
        else Some lt);
  m ← snprintf (_mil_str lt) 0 10 (B["."] ++ print_pad 3 mil ++ [SP]);
  ls ← fb_append LOG_SIZE ls (_time_str lt) 17;
  ls ← fb_append LOG_SIZE ls m 5;
  Some (mkTime (_time_str lt) m (_last lt), ls).

(** [logthread]: the number of the thread as text, and a blank. *)
Definition logthread_new (ctid_str : list byte) : list byte := ctid_str ++ [SP].

(** [logimpl]: the constructor, what the statement puts in, and the destructor's line feed; the
    bytes are those handed to [logger::log]. *)
Definition logimpl (lt : logtime) (now_in_mil : Z) (level : loglevel) (thrid : list byte)
    (content : list log_value) : option (logtime * list byte) :=
  '(lt, s) ← to_format lt now_in_mil (fb_new (malloc 4097));
  s ← put_value s (LCstr (_level_desc level ++ [x00]));
  s ← put_value s (LString thrid);
  s ← put_values s content;
  s ← put_value s (LLiteral [LF; x00]);
  line ← load (_data s) 0 (Z.to_nat (fb_length s));
  Some (lt, line).

(** [LogTrace] to [LogFatal]: nothing below the level set, else the place and the content. *)
Definition Log (lt : logtime) (now_in_mil : Z) (set_level level : loglevel) (thrid file : list byte) (line : Z)
    (function : list byte) (content : list log_value) : option (logtime * option (list byte)) :=
  if level_num level >=? level_num set_level then
    '(lt, l) ← logimpl lt now_in_mil level thrid
      ([LLiteral (file ++ [x00]); LLiteral (B[":"] ++ [x00]); LInt line; LLiteral (B["("] ++ [x00]);
        LLiteral (function ++ [x00]); LLiteral (B[")|"] ++ [x00])] ++ content);
    Some (lt, Some l)
  else Some (lt, None).

(** The text of [_last] is in the array. *)
Definition logtime_ok (lt : logtime) : Prop :=
  length (_time_str lt) = 32%nat ∧ length (_mil_str lt) = 10%nat ∧
  (_last lt ≠ 0 → take 17 (_time_str lt) = strftime_ymd_hms (localtime (_last lt))).

Lemma logtime_new_ok : logtime_ok logtime_new.
Proof. unfold logtime_ok, logtime_new. cbn. by rewrite !length_malloc. Qed.

(** The time as the line shows it. *)
Definition time_text (now_in_mil : Z) : list byte :=
  strftime_ymd_hms (localtime (now_in_mil ÷ 1000)) ++ B["."] ++ print_pad 3 (Z.rem now_in_mil 1000) ++ [SP].

Lemma to_format_ok lt now ls : logtime_ok lt → 1000 <= now → line_at ls [] →
  ∃ lt' ls', to_format lt now ls = Some (lt', ls') ∧ logtime_ok lt' ∧ line_at ls' (time_text now).
Proof.
  intros (Ht & Hm & Hl) Hn Hs. unfold to_format.
  assert (0 < now ÷ 1000) as Hq by (rewrite Z.quot_div_nonneg by lia; apply Z.div_str_pos; lia).
  pose proof (Z.rem_bound_pos now 1000 ltac:(lia) ltac:(lia)) as Hr.
  assert (∃ lt1, (if negb (now ÷ 1000 =? _last lt) then
      t ← store (_time_str lt) 0 (strftime_ymd_hms (localtime (now ÷ 1000)) ++ [x00]);
      Some (mkTime t (_mil_str lt) (now ÷ 1000)) else Some lt) = Some lt1 ∧
    length (_time_str lt1) = 32%nat ∧ _mil_str lt1 = _mil_str lt ∧ _last lt1 = now ÷ 1000 ∧
    take 17 (_time_str lt1) = strftime_ymd_hms (localtime (now ÷ 1000))) as (lt1 & -> & H1 & H2 & H3 & H4).
  { destruct (Z.eqb_spec (now ÷ 1000) (_last lt)) as [E|E]; cbn [negb].
    - exists lt. split_and!; try done. rewrite E. apply Hl. lia.
    - pose proof (strftime_ymd_hms_length (now ÷ 1000)) as E17.
      rewrite store_ok by (rewrite length_app, E17, Ht; cbn; lia). cbn [mbind option_bind]. eexists. split; [done|]. cbn [_time_str _mil_str _last].
      split_and!; try done.
      + len. rewrite E17, Ht. reflexivity.
      + rewrite take_0. cbn [List.app]. rewrite <- !app_assoc, <- E17. apply take_app_length. }
  cbn [mbind option_bind]. unfold snprintf. rewrite decide_False by done. rewrite H2.
  set (mt := B["."] ++ print_pad 3 (Z.rem now 1000) ++ [SP]).
  assert (length mt = 5%nat) as E5 by (unfold mt; rewrite !length_app, print_pad_length by lia; reflexivity).
  rewrite take_ge by lia. rewrite store_ok by (rewrite length_app; cbn [length]; lia). cbn [mbind option_bind].
  set (m := take 0 _ ++ _). destruct (append_ok ls [] (_time_str lt1) 17 Hs) as (s1 & -> & Hs1); [lia|lia|]. cbn [mbind option_bind].
  cbn [List.app] in Hs1. change (Z.to_nat 17) with 17%nat in Hs1. rewrite H4 in Hs1.
  assert (length m = 10%nat) as E10 by (unfold m; len; rewrite ?E5; cbn [length]; lia).
  rewrite take_ge in Hs1 by (rewrite strftime_ymd_hms_length; lia).
  destruct (append_ok s1 _ m 5 Hs1) as (s2 & -> & Hs2); [lia|lia|]. cbn [mbind option_bind].
  assert (take (Z.to_nat 5) m = mt) as Em.
  { unfold m. rewrite take_0. cbn [List.app]. rewrite <- app_assoc. change (Z.to_nat 5) with 5%nat. rewrite <- E5. apply take_app_length. }
  rewrite Em, take_ge in Hs2 by (rewrite length_app, strftime_ymd_hms_length; lia).
  eexists _, _. split; [done|]. split; [|exact Hs2]. unfold logtime_ok. cbn [_time_str _mil_str _last].
  split_and!; [done|done|]. intros _. by rewrite H3.
Qed.

(** What precedes the content of a line. *)
Definition line_head (now_in_mil : Z) (level : loglevel) (thrid : list byte) : list byte :=
  fold_left line_put [LCstr (_level_desc level ++ [x00]); LString thrid] (time_text now_in_mil).

(** C36: a line never writes outside its buffer; it holds, in order, the time with its milliseconds,
    the level, the thread, the content and the line feed, each as far as the 4096 bytes reach -
    numbers only where 32 bytes are left.  The thread's cached time is always right, and a content
    that leaves 32 bytes is shown in full. *)
Theorem log_line_spec (lt : logtime) (now : Z) (level : loglevel) (thrid : list byte) (content : list log_value) :
  logtime_ok lt → 1000 <= now → Z.of_nat (length thrid) < 2 ^ 62 → Forall value_ok content →
  ∃ lt' line, logimpl lt now level thrid content = Some (lt', line) ∧ logtime_ok lt' ∧
    line = line_put (fold_left line_put content (line_head now level thrid)) (LLiteral [LF; x00]) ∧
    ((length thrid + length (concat (map text_of content)) ≤ 4000)%nat →
      line = time_text now ++ _level_desc level ++ thrid ++ concat (map text_of content) ++ [LF]).
Proof.
  intros Hlt Hn Ht Hc. unfold logimpl.
  assert (line_at (fb_new (malloc 4097)) []) as Hnew.
  { split; [|done]. apply fb_new_ok; [unfold LOG_SIZE; lia|]. by rewrite length_malloc. }
  destruct (to_format_ok lt now _ Hlt Hn Hnew) as (lt1 & s1 & -> & Hlt1 & Hs1). cbn [mbind option_bind].
  destruct (put_value_ok s1 _ (LCstr (_level_desc level ++ [x00])) Hs1) as (s2 & -> & Hs2).
  { split; [apply elem_of_app; right; by apply list_elem_of_singleton|by destruct level]. }
  cbn [mbind option_bind]. destruct (put_value_ok s2 _ (LString thrid) Hs2) as (s3 & -> & Hs3); [done|]. cbn [mbind option_bind].
  destruct (put_values_ok content s3 _ Hs3 Hc) as (s4 & -> & Hs4). cbn [mbind option_bind].
  destruct (put_value_ok s4 _ (LLiteral [LF; x00]) Hs4) as (s5 & -> & Hs5); [cbn; lia|]. cbn [mbind option_bind].
  destruct Hs5 as [Hok Hv]. pose proof Hok as (Hp & Hd & _). unfold fb_length. unfold LOG_SIZE in *.
  rewrite load_ok by lia. cbn [mbind option_bind]. rewrite drop_0. fold (fb_view s5).
  exists lt1, (fb_view s5). split; [done|]. split; [done|]. split; [exact Hv|].
  intros Hfit. rewrite Hv. set (vs := [LCstr (_level_desc level ++ [x00]); LString thrid] ++ content ++ [LLiteral [LF; x00]]).
  transitivity (fold_left line_put vs (time_text now)); [unfold vs; by rewrite !fold_left_app|].
  assert (concat (map text_of vs) = _level_desc level ++ thrid ++ concat (map text_of content) ++ [LF]) as Ec.
  { unfold vs. rewrite !map_app, !concat_app. cbn [map concat text_of]. rewrite !app_nil_r, <- !app_assoc. f_equal. by destruct level. }
  assert (length (time_text now) = 22%nat) as E22.
  { unfold time_text. pose proof (Z.rem_bound_pos now 1000 ltac:(lia) ltac:(lia)).
    rewrite !length_app, strftime_ymd_hms_length, print_pad_length by lia. reflexivity. }
  rewrite line_fits; rewrite Ec; [done|]. rewrite E22, !length_app. cbn [length].
  assert (length (_level_desc level) = 6%nat) by (by destruct level). lia.
Qed.

(** A line that fills its buffer has no line feed. *)
Lemma full_line_unended (acc : list byte) : length acc = 4096%nat → line_put acc (LLiteral [LF; x00]) = acc.
Proof. intros Hl. unfold line_put. cbn [is_number text_of]. by rewrite <- Hl, take_app_length. Qed.

(** [%d] shows the low 32 bits of a [long long]. *)
Lemma long_truncated : text_of (LLong (2 ^ 32 + 7)) = text_of (LInt 7) ∧ text_of (LUInt (2 ^ 32 - 1)) = B["-1"].
Proof. split; vm_compute; reflexivity. Qed.
End lines.

(** ** Witnesses *)

#[local] Existing Instance zero_malloc.

#[local] Instance noon : LocalTime.
Proof. refine {| localtime := λ _, mkTm 124 0 2 12 0 0 |}. intros t. cbn. lia. Defined.

Lemma log_line_spec_witness :
  ∃ lt' line, logimpl logtime_new 1704193200007 LOG_LEVEL_INFO B["42 "] [LLiteral (B["x="] ++ [x00]); LInt (-5)] = Some (lt', line) ∧
    line = B["20240102 12:00:00.007 INFO  42 x=-5"] ++ [LF].
Proof.
  destruct (log_line_spec logtime_new 1704193200007 LOG_LEVEL_INFO B["42 "] [LLiteral (B["x="] ++ [x00]); LInt (-5)])
    as (lt' & line & E & _ & _ & Hf).
  - apply logtime_new_ok.
  - lia.
  - cbn. lia.
  - repeat constructor; cbn; lia.
  - exists lt', line. split; [exact E|]. rewrite Hf by (apply Nat.leb_le; vm_compute; reflexivity). vm_compute. reflexivity.
Defined.
