(* ===== verification/LogFile.v ===== *)
(** * base::logger: the log files

    [logfile] of [src/slience/base/logger.hpp] and [logger.cpp]: a file that is left for the next
    one when the day changes or when it has reached a size.  The clock, what [fopen] says of a name
    and what [fwrite] returns are inputs of every call; the calls on files are a list of events.

    [logfile_refines_roller]: without errors the chunks go, whole and in order, to the files of a
    plain description.  [write_partial_repeats], [write_open_fails], [logname_truncated]: what
    happens otherwise. *)

From Stdlib Require Import ZArith Lia List Strings.String Strings.Byte Init.Byte.
From stdpp Require Import base numbers list option.
From S2P Require Import Prelude Buffer Timestamp LogStream.

#[local] Set Warnings "-clear-no-such-hyp".

Inductive file_ev :=
| FOpen (name : list byte) (ok : bool)
| FWrite (name : list byte) (bs : list byte)
| FFlush (name : list byte)
| FClose (name : list byte).

(** The clock, the names [fopen] can open, and what [fwrite] returns while errors last. *)
Record file_env := mkFileEnv { e_now : Z; e_open : list byte → bool; e_fwrite : list Z }.

(** [_file] is the name of the open file. *)
Record logfile := mkLogfile {
  _filename : list byte;
  _file : option (list byte);
  _writesize : Z;
  _rollsize : Z;
  _logidx : Z;
  _rolltime : Z;
  _lastctime : Z;
  _pid : list byte;
  _withpid : bool
}.

Section logfile.
Context `{Malloc, LocalTime}.

(** ** Names and days *)

(** Eight of the twenty characters of [tmp_buf]. *)
Definition _getcurtime_ (now : Z) : list byte := strftime_ymd (localtime now).

Definition _getpid_ (pid : Z) : list byte := print_int pid.

Definition logname_text (now : Z) (pid filename : list byte) (logidx : Z) (withpid : bool) : list byte :=
  c_str (filename ++ [x00]) ++ B["_"] ++ _getcurtime_ now ++ B["_"] ++
  (if withpid then c_str (pid ++ [x00]) ++ B["_"] else []) ++ print_int (s32 logidx) ++ B[".log"].

Definition _logname_ (now : Z) (pid filename : list byte) (logidx : Z) (withpid : bool) : option (list byte) :=
  b ← snprintf (replicate 100 x00) 0 100 (logname_text now pid filename logidx withpid);
  Some (c_str b).

Definition _issameday_ (t1 t2 : Z) : bool :=
  let l1 := localtime t1 in let l2 := localtime t2 in
  (tm_year l1 =? tm_year l2) && (tm_mon l1 =? tm_mon l2) && (tm_mday l1 =? tm_mday l2).

(** ** The file *)

Definition _close (f : logfile) : logfile * list file_ev :=
  match _file f with
  | Some n => (mkLogfile (_filename f) None (_writesize f) (_rollsize f) (_logidx f) (_rolltime f)
                 (_lastctime f) (_pid f) (_withpid f), [FFlush n; FClose n])
  | None => (f, [])
  end.

Definition flush (f : logfile) : list file_ev :=
  match _file f with Some n => [FFlush n] | None => [] end.

Definition _roll_file (e : file_env) (newday : bool) (now : Z) (f : logfile) : option (logfile * list file_ev) :=
  let '(f, ev) := _close f in
  let idx := if newday then 1 else u64 (_logidx f + 1) in
  name ← _logname_ now (_pid f) (_filename f) idx (_withpid f);
  Some (mkLogfile (_filename f) (if e_open e name then Some name else None) 0 (_rollsize f) idx now
          (_lastctime f) (_pid f) (_withpid f), ev ++ [FOpen name (e_open e name)]).

Definition logfile_new (e : file_env) (filename : list byte) (rollsize pid : Z) (withpid : bool)
  : option (logfile * list file_ev) :=
  _roll_file e true (e_now e) (mkLogfile filename None 0 rollsize 0 0 0 (_getpid_ pid) withpid).

Definition set_lastctime (f : logfile) (t : Z) : logfile :=
  mkLogfile (_filename f) (_file f) (_writesize f) (_rollsize f) (_logidx f) (_rolltime f) t (_pid f) (_withpid f).
Definition set_writesize (f : logfile) (n : Z) : logfile :=
  mkLogfile (_filename f) (_file f) n (_rollsize f) (_logidx f) (_rolltime f) (_lastctime f) (_pid f) (_withpid f).

(** [while (len)]: [data] is not advanced past what was written; a null [_file] is a fault. *)
Fixpoint write_loop (fuel : nat) (rs : list Z) (data : list byte) (len : Z) (f : logfile)
  : option (Z * logfile * list file_ev) :=
  if len =? 0 then Some (0, f, [])
  else
    match fuel with
    | O => None
    | S fuel =>
        name ← _file f;
        let wsize := match rs with [] => len | r :: _ => Z.min r len end in
        if wsize =? 0 then Some (len, f, [])
        else
          bs ← load data 0 (Z.to_nat wsize);
          '(len, f, ev) ← write_loop fuel (tail rs) data (u64 (len - wsize)) (set_writesize f (u64 (_writesize f + wsize)));
          Some (len, f, FWrite name bs :: ev)
    end.

Definition write (e : file_env) (data : list byte) (len : Z) (f : logfile) : option (bool * logfile * list file_ev) :=
  match _file f with
  | Some _ =>
      let now := e_now e in
      '(f, ev1) ← (if negb (now =? _lastctime f) then
                     let f := set_lastctime f now in
                     if negb (_issameday_ (_rolltime f) now) then _roll_file e false now f else Some (f, [])
                   else Some (f, []));
      '(f, ev2) ← (if _writesize f >=? _rollsize f then _roll_file e false now f else Some (f, []));
      '(len, f, ev3) ← write_loop (Z.to_nat len) (e_fwrite e) data len f;
      Some (len =? 0, f, ev1 ++ ev2 ++ ev3)
  | None => Some (len =? 0, f, [])
  end.

(** Chunks written one after the other. *)
Fixpoint write_all (ws : list (file_env * list byte)) (f : logfile) : option (logfile * list file_ev) :=
  match ws with
  | [] => Some (f, [])
  | (e, data) :: ws =>
      '(_, f, ev) ← write e data (Z.of_nat (length data)) f;
      '(f, ev') ← write_all ws f; Some (f, ev ++ ev')
  end.

(** ** The description *)

(** What was written, and where; an empty chunk is nothing. *)
Definition writes_of (ev : list file_ev) : list (list byte * list byte) :=
  omap (λ x, match x with FWrite n bs => Some (n, bs) | _ => None end) ev.

Definition logname (now : Z) (pid filename : list byte) (logidx : Z) (withpid : bool) : list byte :=
  c_str (take 99 (logname_text now pid filename logidx withpid) ++ [x00]).

(** A file is left when the day is not that of its opening or when it holds [rollsize] bytes; files
    are numbered on, also on a new day. *)
Fixpoint roller (pid filename : list byte) (withpid : bool) (rollsize : Z) (idx opened size : Z)
    (ws : list (Z * list byte)) : list (list byte * list byte) :=
  match ws with
  | [] => []
  | (now, data) :: ws =>
      let next := negb (_issameday_ opened now) || (rollsize <=? size) in
      let idx := if next then u64 (idx + 1) else idx in
      let opened := if next then now else opened in
      let size := if next then 0 else size in
      (if decide (data = []) then [] else [(logname opened pid filename idx withpid, data)]) ++
      roller pid filename withpid rollsize idx opened (size + Z.of_nat (length data)) ws
  end.

(** No errors of the file system. *)
Definition env_ok (e : file_env) : Prop := (∀ n, e_open e n = true) ∧ e_fwrite e = [].

Lemma c_str_nul s t : c_str (s ++ x00 :: t) = c_str (s ++ [x00]).
Proof. induction s as [|c s IH]; cbn; [done|]. destruct (decide (c = x00)); [done|]. by f_equal. Qed.

Lemma _logname_ok now pid filename idx withpid :
  _logname_ now pid filename idx withpid = Some (logname now pid filename idx withpid).
Proof.
  unfold _logname_, snprintf. rewrite decide_False by done. set (t := logname_text _ _ _ _ _).
  rewrite store_ok by (rewrite length_app, length_take, length_replicate; cbn [length]; lia).
  cbn [mbind option_bind]. rewrite take_0. cbn [List.app]. rewrite <- app_assoc. cbn [List.app]. by rewrite c_str_nul.
Qed.

Lemma same_day_refl t : _issameday_ t t = true.
Proof. unfold _issameday_. by rewrite !Z.eqb_refl. Qed.

Lemma same_day_eq t t' u : _issameday_ t t' = true → _issameday_ t u = _issameday_ t' u.
Proof. unfold _issameday_. intros [[->%Z.eqb_eq ->%Z.eqb_eq]%andb_prop ->%Z.eqb_eq]%andb_prop. done. Qed.

(** An open file, and the day it was last looked at being that of its opening. *)
Definition file_ok (f : logfile) (filename pid : list byte) (withpid : bool) : Prop :=
  _filename f = filename ∧ _pid f = pid ∧ _withpid f = withpid ∧
  _file f = Some (logname (_rolltime f) pid filename (_logidx f) withpid) ∧
  0 <= _writesize f ∧ 0 < _rollsize f < 2 ^ 62.

Definition checked (f : logfile) : Prop := _lastctime f = 0 ∨ _issameday_ (_rolltime f) (_lastctime f) = true.

Lemma roll_ok e now f filename pid withpid : env_ok e → file_ok f filename pid withpid →
  ∃ f' ev, _roll_file e false now f = Some (f', ev) ∧ writes_of ev = [] ∧ file_ok f' filename pid withpid ∧
    _writesize f' = 0 ∧ _rolltime f' = now ∧ _logidx f' = u64 (_logidx f + 1) ∧ _rollsize f' = _rollsize f ∧ _lastctime f' = _lastctime f.
Proof.
  intros [Ho _] (<- & <- & <- & Hf & Hw & Hr). unfold _roll_file, _close. rewrite Hf. cbn [_pid _filename _withpid _logidx].
  rewrite _logname_ok. cbn [mbind option_bind]. rewrite Ho. eexists _, _. split; [done|]. split; [done|]. by unfold file_ok.
Qed.

Lemma write_loop_ok data f filename pid withpid : file_ok f filename pid withpid → Z.of_nat (length data) < 2 ^ 62 →
  ∃ ev, write_loop (length data) [] data (Z.of_nat (length data)) f =
      Some (0, if decide (data = []) then f else set_writesize f (u64 (_writesize f + Z.of_nat (length data))), ev) ∧
    writes_of ev = if decide (data = []) then [] else [(logname (_rolltime f) pid filename (_logidx f) withpid, data)].
Proof.
  intros (_ & _ & _ & Hf & _ & _) Hl. destruct data as [|b data].
  - exists []. by rewrite !decide_True.
  - rewrite !decide_False by done. set (ds := b :: data) in *. assert (0 < Z.of_nat (length ds)) by (unfold ds; cbn [length]; lia).
    destruct (length ds) as [|n] eqn:En; [lia|]. cbn [write_loop]. rewrite (proj2 (Z.eqb_neq _ _)) by lia. rewrite Hf. cbn [mbind option_bind].
    rewrite load_ok by lia. cbn [mbind option_bind]. rewrite Z.sub_diag. change (u64 0) with 0.
    assert (∀ k g, write_loop k (tail []) ds 0 g = Some (0, g, [])) as -> by (by intros []). cbn [mbind option_bind].
    eexists. split; [done|]. cbn [writes_of omap list_omap]. rewrite drop_0, take_ge by lia. done.
Qed.

(** One chunk. *)
Lemma write_ok e data f filename pid withpid :
  env_ok e → file_ok f filename pid withpid → checked f → 0 < e_now e →
  _writesize f + Z.of_nat (length data) < 2 ^ 62 → Z.of_nat (length data) < 2 ^ 61 →
  let next := negb (_issameday_ (_rolltime f) (e_now e)) || (_rollsize f <=? _writesize f) in
  ∃ f' ev, write e data (Z.of_nat (length data)) f = Some (true, f', ev) ∧ file_ok f' filename pid withpid ∧ checked f' ∧
    _rolltime f' = (if next then e_now e else _rolltime f) ∧ _logidx f' = (if next then u64 (_logidx f + 1) else _logidx f) ∧
    _writesize f' = (if next then 0 else _writesize f) + Z.of_nat (length data) ∧ _rollsize f' = _rollsize f ∧
    writes_of ev = if decide (data = []) then [] else [(logname (_rolltime f') pid filename (_logidx f') withpid, data)].
Proof.
  intros He Hf Hc Hn Hw Hd next. pose proof Hf as (_ & _ & _ & Hfile & Hw0 & Hr).
  unfold write. rewrite Hfile. cbv zeta.
  assert (∃ f1 ev1, (if negb (e_now e =? _lastctime f) then
      if negb (_issameday_ (_rolltime (set_lastctime f (e_now e))) (e_now e))
      then _roll_file e false (e_now e) (set_lastctime f (e_now e)) else Some (set_lastctime f (e_now e), [])
    else Some (f, [])) = Some (f1, ev1) ∧ writes_of ev1 = [] ∧ file_ok f1 filename pid withpid ∧
    _lastctime f1 = e_now e ∧ _rollsize f1 = _rollsize f ∧
    if negb (_issameday_ (_rolltime f) (e_now e)) then _rolltime f1 = e_now e ∧ _logidx f1 = u64 (_logidx f + 1) ∧ _writesize f1 = 0
    else _rolltime f1 = _rolltime f ∧ _logidx f1 = _logidx f ∧ _writesize f1 = _writesize f)
    as (f1 & ev1 & -> & Hev1 & Hf1 & Hl1 & Hr1 & Hday).
  { destruct (Z.eqb_spec (e_now e) (_lastctime f)) as [E|E]; cbn [negb].
    - exists f, []. rewrite E. destruct Hc as [Hc|Hc]; [lia|]. by rewrite Hc.
    - cbn [_rolltime set_lastctime]. destruct (_issameday_ (_rolltime f) (e_now e)); cbn [negb].
      + by exists (set_lastctime f (e_now e)), [].
      + destruct (roll_ok e (e_now e) (set_lastctime f (e_now e)) filename pid withpid He Hf)
          as (f1 & ev1 & E1 & H1 & H2 & H3 & H4 & H5 & H6 & H7). by exists f1, ev1. }
  cbn [mbind option_bind].
  assert (∃ f2 ev2, (if _writesize f1 >=? _rollsize f1 then _roll_file e false (e_now e) f1 else Some (f1, [])) = Some (f2, ev2) ∧
    writes_of ev2 = [] ∧ file_ok f2 filename pid withpid ∧ _lastctime f2 = e_now e ∧ _rollsize f2 = _rollsize f ∧
    _rolltime f2 = (if next then e_now e else _rolltime f) ∧ _logidx f2 = (if next then u64 (_logidx f + 1) else _logidx f) ∧
    _writesize f2 = (if next then 0 else _writesize f)) as (f2 & ev2 & -> & Hev2 & Hf2 & Hl2 & Hr2 & Ht2 & Hi2 & Hw2).
  { unfold next. destruct (negb (_issameday_ (_rolltime f) (e_now e))); destruct Hday as (Ha & Hb & Hcs); cbn [orb].
    - rewrite Hcs, Hr1. destruct (Z.geb_spec 0 (_rollsize f)); [lia|]. by exists f1, [].
    - rewrite Hcs, Hr1. destruct (Z.geb_spec (_writesize f) (_rollsize f)) as [Hge|Hlt].
      + rewrite (proj2 (Z.leb_le _ _)) by lia. destruct (roll_ok e (e_now e) f1 filename pid withpid He Hf1)
          as (f2 & ev2 & E2 & H1 & H2 & H3 & H4 & H5 & H6 & H7). exists f2, ev2. rewrite H5, Hb, H7, H6. done.
      + rewrite (proj2 (Z.leb_gt _ _)) by lia. by exists f1, []. }
  cbn [mbind option_bind]. rewrite Nat2Z.id, (proj2 He).
  destruct (write_loop_ok data f2 filename pid withpid Hf2) as (ev3 & -> & Hev3); [lia|]. cbn [mbind option_bind].
  set (f3 := if decide (data = []) then _ else _).
  assert (f3 = set_writesize f2 (_writesize f2 + Z.of_nat (length data))) as E3.
  { unfold f3. destruct (decide (data = [])) as [->|]; [|rewrite u64_small; [done|destruct next; lia]].
    cbn [length]. rewrite Z.add_0_r. by destruct f2. }
  rewrite E3. eexists _, _. split; [done|]. cbn [_rolltime _logidx _writesize _rollsize set_writesize].
  split; [destruct Hf2 as (?&?&?&?&?&?); unfold file_ok; cbn; split_and!; try done; lia|].
  split.
  { right. cbn [_rolltime _lastctime set_writesize]. rewrite Hl2, Ht2. unfold next. destruct (_issameday_ (_rolltime f) (e_now e)) eqn:Es; cbn [negb orb].
    - destruct (_rollsize f <=? _writesize f); [apply same_day_refl|done].
    - apply same_day_refl. }
  rewrite Hw2. split_and!; try done. unfold writes_of in *. rewrite !omap_app, Hev1, Hev2, Hev3. done.
Qed.

(** C13: without errors of the file system every chunk is written whole, once and in order, into
    the file that the description names: the one of its day, left when it holds [rollsize] bytes. *)
Theorem logfile_refines_roller (e0 : file_env) (filename : list byte) (rollsize pid : Z) (withpid : bool)
    (ws : list (file_env * list byte)) :
  env_ok e0 → 0 < rollsize < 2 ^ 61 →
  Forall (λ '(e, data), env_ok e ∧ 0 < e_now e ∧ Z.of_nat (length data) < 2 ^ 60) ws →
  ∃ f0 ev0 f ev, logfile_new e0 filename rollsize pid withpid = Some (f0, ev0) ∧ write_all ws f0 = Some (f, ev) ∧
    writes_of (ev0 ++ ev) =
      roller (_getpid_ pid) filename withpid rollsize 1 (e_now e0) 0 (map (λ '(e, data), (e_now e, data)) ws).
Proof.
  intros He0 Hr Hws. unfold logfile_new, _roll_file, _close. cbn [_file _pid _filename _withpid _logidx]. rewrite _logname_ok.
  cbn [mbind option_bind]. rewrite (proj1 He0). set (f0 := mkLogfile _ _ _ _ _ _ _ _ _).
  enough (∀ ws f, file_ok f filename (_getpid_ pid) withpid → checked f → _rollsize f = rollsize → _writesize f < 2 ^ 61 + 2 ^ 60 →
    Forall (λ '(e, data), env_ok e ∧ 0 < e_now e ∧ Z.of_nat (length data) < 2 ^ 60) ws →
    ∃ f' ev, write_all ws f = Some (f', ev) ∧ writes_of ev =
      roller (_getpid_ pid) filename withpid rollsize (_logidx f) (_rolltime f) (_writesize f) (map (λ '(e, data), (e_now e, data)) ws)) as Hgen.
  { destruct (Hgen ws f0) as (f' & ev & E & Hev); [|by left|done|cbn; lia|done|].
    - unfold file_ok, f0. cbn. split_and!; try done; lia.
    - eexists f0, _, f', ev. split; [done|]. split; [done|]. unfold writes_of in *. by rewrite omap_app, Hev. }
  clear ws Hws f0. induction ws as [|[e data] ws IH]; intros f Hf Hc Hrf Hw Hws.
  - by exists f, [].
  - apply List.Forall_cons_iff in Hws as [(He & Hn & Hd) Hws]. cbn [write_all].
    destruct (write_ok e data f filename (_getpid_ pid) withpid He Hf Hc Hn) as (f1 & ev1 & -> & Hf1 & Hc1 & Ht1 & Hi1 & Hw1 & Hr1 & Hev1); [lia|lia|].
    cbn [mbind option_bind]. destruct (IH f1) as (f2 & ev2 & -> & Hev2); try done; [congruence| |].
    { rewrite Hw1. destruct (negb (_issameday_ (_rolltime f) (e_now e))); cbn [orb]; [lia|]. destruct (Z.leb_spec (_rollsize f) (_writesize f)); lia. }
    cbn [mbind option_bind]. eexists f2, _. split; [done|]. unfold writes_of in *. rewrite omap_app, Hev1, Hev2. cbn [map roller].
    rewrite <- Hrf, <- Ht1, <- Hi1, <- Hw1. done.
Qed.

(** ** Errors *)

(** After a partial [fwrite] the beginning of the chunk is written again instead of its rest,
    and the call reports success; when the next file cannot be opened the call writes to a null
    file. *)
Theorem logfile_write_errors (data : list byte) (e : file_env) (f : logfile) (n : list byte) (k : Z) :
  _file f = Some n → Z.of_nat (length data) < 2 ^ 62 → 0 < k < Z.of_nat (length data) →
  (∃ f', write_loop (length data) [k] data (Z.of_nat (length data)) f =
    Some (0, f', [FWrite n (take (Z.to_nat k) data); FWrite n (take (length data - Z.to_nat k) data)])) ∧
  (_rollsize f <= _writesize f → _lastctime f = e_now e → (∀ m, e_open e m = false) →
    write e data (Z.of_nat (length data)) f = None).
Proof.
  intros Hf Hl Hk. split.
  - destruct (length data) as [|m] eqn:Em; [lia|]. cbn [write_loop tail]. rewrite (proj2 (Z.eqb_neq _ _)) by lia. rewrite Hf.
    cbn [mbind option_bind]. rewrite Z.min_l, (proj2 (Z.eqb_neq k 0)) by lia. rewrite load_ok by lia. cbn [mbind option_bind].
    rewrite u64_small by lia. destruct m as [|m]; [lia|]. cbn [write_loop].
    rewrite (proj2 (Z.eqb_neq (Z.of_nat (S (S m)) - k) 0)) by lia. cbn [_file set_writesize]. rewrite Hf. cbn [mbind option_bind].
    rewrite load_ok by lia. cbn [mbind option_bind]. rewrite Z.sub_diag. change (u64 0) with 0.
    assert (∀ j g, write_loop j (tail []) data 0 g = Some (0, g, [])) as -> by (by intros []). cbn [mbind option_bind].
    eexists. rewrite !drop_0. replace (S (S m) - Z.to_nat k)%nat with (Z.to_nat (Z.of_nat (S (S m)) - k)) by lia. done.
  - intros Hs Ht Ho. unfold write. rewrite Hf. cbv zeta. rewrite Ht, Z.eqb_refl. cbn [negb mbind option_bind].
    rewrite (proj2 (Z.geb_le _ _)) by lia. unfold _roll_file, _close. rewrite Hf. cbn [_pid _filename _withpid _logidx].
    rewrite _logname_ok. cbn [mbind option_bind]. rewrite Ho, Nat2Z.id.
    destruct (length data) as [|m] eqn:Em; [lia|]. cbn [write_loop]. rewrite (proj2 (Z.eqb_neq _ _)) by lia. done.
Qed.

Lemma c_str_id s t : x00 ∉ s → c_str (s ++ x00 :: t) = s.
Proof.
  induction s as [|c s IH]; intros Hn; [done|]. rewrite elem_of_cons in Hn. cbn.
  destruct (decide (c = x00)) as [->|]; [tauto|]. rewrite IH; [done|tauto].
Qed.

(** A file name of 99 characters leaves no room for the date and the number: all files of a log
    are the same file. *)
Lemma logname_truncated now pid filename idx withpid :
  x00 ∉ filename → (99 ≤ length filename)%nat → logname now pid filename idx withpid = take 99 filename.
Proof.
  intros Hn Hl. unfold logname, logname_text. rewrite (c_str_id filename []) by done. rewrite take_app_le by done. apply c_str_id.
  intros Hin. apply Hn. eapply elem_of_sublist; [exact Hin|]. apply sublist_take.
Qed.
End logfile.

(** ** Witnesses *)

#[local] Existing Instance zero_malloc.

(** A clock without time zone: a day of 86400 seconds, the number of the day shown in the year. *)
#[local] Instance days : LocalTime.
Proof.
  refine {| localtime := λ t, mkTm (t / 86400 mod 1000) 0 1 0 0 0 |}. intros t. cbn.
  pose proof (Z.mod_pos_bound (t / 86400) 1000 ltac:(lia)). lia.
Defined.

Definition calm (now : Z) : file_env := mkFileEnv now (λ _, true) [].

Lemma calm_ok now : env_ok (calm now).
Proof. by split. Qed.

Lemma logfile_refines_roller_witness :
  ∃ f0 ev0 f ev, logfile_new (calm 100) B["svr"] 4 7 true = Some (f0, ev0) ∧
    write_all [(calm 100, B["abc"]); (calm 100, B["de"]); (calm 101, B["f"]); (calm 86500, B["g"])] f0 = Some (f, ev) ∧
    writes_of (ev0 ++ ev) =
      [(B["svr_19000101_7_1.log"], B["abc"]); (B["svr_19000101_7_1.log"], B["de"]);
       (B["svr_19000101_7_2.log"], B["f"]); (B["svr_19010101_7_3.log"], B["g"])].
Proof.
  destruct (logfile_refines_roller (calm 100) B["svr"] 4 7 true
    [(calm 100, B["abc"]); (calm 100, B["de"]); (calm 101, B["f"]); (calm 86500, B["g"])]) as (f0 & ev0 & f & ev & E0 & E & Hw).
  - apply calm_ok.
  - lia.
  - repeat constructor; try apply calm_ok; cbn; lia.
  - exists f0, ev0, f, ev. split; [exact E0|]. split; [exact E|]. rewrite Hw. vm_compute. reflexivity.
Defined.

Lemma logfile_write_errors_witness :
  ∃ f, _file f = Some B["a"] ∧
    (∃ f', write_loop 3 [1] B["xyz"] 3 f = Some (0, f', [FWrite B["a"] B["x"]; FWrite B["a"] B["xy"]])) ∧
    write (mkFileEnv 5 (λ _, false) []) B["xyz"] 3 f = None.
Proof.
  exists (mkLogfile B["a"] (Some B["a"]) 4 4 1 5 5 B["7"] true). split; [reflexivity|].
  destruct (logfile_write_errors B["xyz"] (mkFileEnv 5 (λ _, false) []) (mkLogfile B["a"] (Some B["a"]) 4 4 1 5 5 B["7"] true) B["a"] 1)
    as [H1 H2].
  - reflexivity.
  - cbn. lia.
  - cbn. lia.
  - split; [exact H1|]. apply H2; [cbn; lia|reflexivity|reflexivity].
Defined.
