(* ===== verification/Logger.v ===== *)
(** * base::logger: the ring of buffers and the writing thread

    [buffer_circular] and [logger] of [src/slience/base/logger.hpp] and [logger.cpp].  Any thread
    calls [log], which is one critical section; the thread [dump] takes the buffers out.  Its loop
    is cut where it holds no mutex: [LDump] is the next piece of it, so that an execution is any
    interleaving of pieces and calls.

    [logger_in_order]: whatever the interleaving, what reaches the file and the output is, in order
    and without a gap, what [log] took.  [logger_drains]: the thread alone writes everything that
    waits, in six pieces for each buffer.  [full_ring_discards], [flush_runs_into] and
    [stop_loses]: lines that are lost. *)

From Stdlib Require Import ZArith Lia List Strings.String Strings.Byte Init.Byte.
From stdpp Require Import base numbers list option.
From S2P Require Import Prelude Buffer Timestamp LogStream LogFile.

#[local] Set Warnings "-clear-no-such-hyp".

(** ** Data *)

Inductive buffer_status := Enum_Buffer_Free | Enum_Buffer_Full.

#[export] Instance buffer_status_eq : EqDecision buffer_status.
Proof. solve_decision. Defined.

Record buffer_node := mkBufNode { buffer : fixedbuffer; status : buffer_status }.

(** Where the thread is: at the loop's condition; inside [_condition.wait]; before [_file->write],
    [_output], the second critical section and [flush]; returned. *)
Inductive dump_at := DTop | DWait | DFile | DOut | DRelock | DFlush | DEnd.

#[export] Instance dump_at_eq : EqDecision dump_at.
Proof. solve_decision. Defined.

(** The nodes are numbered by their [idx]. *)
Record logger := mkLogger {
  _run : bool;
  lg_filename : list byte;
  _level : loglevel;
  lg_file : option logfile;
  _thread : option dump_at;
  lg_rollsize : Z;
  _output : bool;
  _circular : list buffer_node;
  _node_cnt : nat;
  _producer : option nat;
  _consumer : option nat
}.

(** What is seen: a line taken or refused, calls on files, text for [_output]. *)
Inductive log_ev := LTaken (bs : list byte) | LErr | LFile (ev : list file_ev) | LOut (bs : list byte).

Inductive log_op := LLog (data : list byte) | LDump (e : file_env) | LStop | LJoin.

(** The buffers of the ring hold 4 MiB. *)
Definition CIRCULAR_SIZE : Z := 4 * 1024 * 1024.

Section logger.
Context `{Malloc, LocalTime}.
Context (SIZE : Z).

Definition logger_new : logger :=
  mkLogger false [] LOG_LEVEL_TRACE None None (1024 * 1024 * 300) true [] 5 None None.

Definition setlevel (l : loglevel) (g : logger) : logger :=
  mkLogger (_run g) (lg_filename g) l (lg_file g) (_thread g) (lg_rollsize g) (_output g) (_circular g) (_node_cnt g) (_producer g) (_consumer g).
Definition setrollsize (n : Z) (g : logger) : logger :=
  mkLogger (_run g) (lg_filename g) (_level g) (lg_file g) (_thread g) n (_output g) (_circular g) (_node_cnt g) (_producer g) (_consumer g).
Definition setoutput (b : bool) (g : logger) : logger :=
  mkLogger (_run g) (lg_filename g) (_level g) (lg_file g) (_thread g) (lg_rollsize g) b (_circular g) (_node_cnt g) (_producer g) (_consumer g).
Definition setnodecnt (n : nat) (g : logger) : logger :=
  mkLogger (_run g) (lg_filename g) (_level g) (lg_file g) (_thread g) (lg_rollsize g) (_output g) (_circular g) n (_producer g) (_consumer g).

Definition set_ring (r : list buffer_node) (p c : option nat) (g : logger) : logger :=
  mkLogger (_run g) (lg_filename g) (_level g) (lg_file g) (_thread g) (lg_rollsize g) (_output g) r (_node_cnt g) p c.
Definition set_thread (t : dump_at) (f : option logfile) (g : logger) : logger :=
  mkLogger (_run g) (lg_filename g) (_level g) f (Some t) (lg_rollsize g) (_output g) (_circular g) (_node_cnt g) (_producer g) (_consumer g).
Definition set_run (b : bool) (g : logger) : logger :=
  mkLogger b (lg_filename g) (_level g) (lg_file g) (_thread g) (lg_rollsize g) (_output g) (_circular g) (_node_cnt g) (_producer g) (_consumer g).

(** [buffer_circular(node_cnt)], [first] and [next]. *)
Definition circular_new (n : nat) : list buffer_node :=
  replicate n (mkBufNode (fb_new (malloc (Z.to_nat (SIZE + 1)))) Enum_Buffer_Free).
Definition first : nat := 0.
Definition next (g : logger) (idx : nat) : nat := (idx + 1) mod length (_circular g).

(** [setfilename]: the first one starts the thread. *)
Definition setfilename (e : file_env) (pid : Z) (filename : list byte) (withpid : bool) (g : logger) : option logger :=
  if decide (lg_filename g = []) then
    '(f, _) ← logfile_new e filename (lg_rollsize g) pid withpid;
    Some (mkLogger true filename (_level g) (Some f) (Some DTop) (lg_rollsize g) (_output g)
            (circular_new (_node_cnt g)) (_node_cnt g) (Some first) (Some first))
  else Some g.

Definition is_full (nd : buffer_node) : bool := bool_decide (status nd = Enum_Buffer_Full).

(** The bytes that [append] stores. *)
Definition log_append (p : nat) (nd : buffer_node) (data : list byte) (g : logger) : option (logger * list log_ev) :=
  b ← fb_append SIZE (buffer nd) data (Z.of_nat (length data));
  Some (set_ring (<[p := mkBufNode b (status nd)]> (_circular g)) (Some p) (_consumer g) g,
        [LTaken (drop (length (fb_view (buffer nd))) (fb_view b))]).

(** The producer's buffer has no room: it is marked full, and the next one is tried. *)
Definition log_next (p : nat) (nd : buffer_node) (data : list byte) (g : logger) : option (logger * list log_ev) :=
  let r := <[p := mkBufNode (buffer nd) Enum_Buffer_Full]> (_circular g) in
  let p' := next g p in
  let g := set_ring r (Some p') (_consumer g) g in
  nd' ← r !! p';
  if is_full nd' then Some (g, [LErr]) else log_append p' nd' data g.

Definition log (data : list byte) (g : logger) : option (logger * list log_ev) :=
  match _producer g with
  | None => Some (g, [])
  | Some p =>
      nd ← _circular g !! p;
      if is_full nd then Some (g, [LErr])
      else if fb_avail SIZE (buffer nd) >? Z.of_nat (length data) then log_append p nd data g
      else log_next p nd data g
  end.

(** A piece of [dump]. *)
Definition dump_step (e : file_env) (g : logger) : option (logger * list log_ev) :=
  match _thread g with
  | None | Some DEnd => Some (g, [])
  | Some DTop =>
      if _run g then
        c ← _consumer g; nd ← _circular g !! c;
        Some (set_thread (if is_full nd then DFile else DWait) (lg_file g) g, [])
      else f ← lg_file g; Some (set_thread DEnd (lg_file g) g, [LFile (flush f)])
  | Some DWait =>
      c ← _consumer g; nd ← _circular g !! c;
      if is_full nd then Some (set_thread DFile (lg_file g) g, [])
      else if fb_length (buffer nd) >? 0 then
        Some (set_ring (<[c := mkBufNode (buffer nd) Enum_Buffer_Full]> (_circular g)) (_producer g) (_consumer g)
                (set_thread DFile (lg_file g) g), [])
      else Some (set_thread DTop (lg_file g) g, [])
  | Some DFile =>
      c ← _consumer g; nd ← _circular g !! c; f ← lg_file g;
      '(_, f, ev) ← write e (fb_view (buffer nd)) (fb_length (buffer nd)) f;
      Some (set_thread DOut (Some f) g, [LFile ev])
  | Some DOut =>
      c ← _consumer g; nd ← _circular g !! c;
      Some (set_thread DRelock (lg_file g) g, if _output g then [LOut (fb_view (buffer nd))] else [])
  | Some DRelock =>
      c ← _consumer g; nd ← _circular g !! c; p ← _producer g;
      Some (set_ring (<[c := mkBufNode (fb_clear (buffer nd)) Enum_Buffer_Free]> (_circular g))
              (Some (if decide (c = p) then next g p else p)) (Some (next g c))
              (set_thread DFlush (lg_file g) g), [])
  | Some DFlush => f ← lg_file g; Some (set_thread DTop (lg_file g) g, [LFile (flush f)])
  end.

(** [stop]: the thread ends at its next look at [_run]; when it has, it and the file are deleted,
    which closes the file. *)
Definition stop (g : logger) : logger := set_run false g.
Definition stop_join (g : logger) : option (logger * list log_ev) :=
  match _thread g with
  | Some DEnd =>
      f ← lg_file g;
      Some (mkLogger (_run g) (lg_filename g) (_level g) None None (lg_rollsize g) (_output g) (_circular g)
              (_node_cnt g) (_producer g) (_consumer g), [LFile (snd (_close f))])
  | _ => Some (g, [])
  end.

Definition log_step (o : log_op) (g : logger) : option (logger * list log_ev) :=
  match o with
  | LLog data => log data g
  | LDump e => dump_step e g
  | LStop => Some (stop g, [])
  | LJoin => stop_join g
  end.

Fixpoint log_run (os : list log_op) (g : logger) : option (logger * list log_ev) :=
  match os with
  | [] => Some (g, [])
  | o :: os => '(g, ev) ← log_step o g; '(g, ev') ← log_run os g; Some (g, ev ++ ev')
  end.

Definition taken (ev : list log_ev) : list byte :=
  concat (omap (λ x, match x with LTaken bs => Some bs | _ => None end) ev).
Definition shown (ev : list log_ev) : list byte :=
  concat (omap (λ x, match x with LOut bs => Some bs | _ => None end) ev).
Definition filed (ev : list log_ev) : list byte :=
  concat (concat (omap (λ x, match x with LFile fe => Some (map snd (writes_of fe)) | _ => None end) ev)).

(** ** Lists read from an index on *)

Definition rot {A} (c : nat) (l : list A) : list A := drop c l ++ take c l.

Lemma rot_length {A} c (l : list A) : length (rot c l) = length l.
Proof. unfold rot. rewrite length_app, length_drop, length_take. lia. Qed.

Lemma rot_lookup {A} c (l : list A) j : (c < length l)%nat → (j < length l)%nat →
  rot c l !! j = l !! ((c + j) mod length l)%nat.
Proof.
  intros Hc Hj. unfold rot. destruct (decide (c + j < length l)%nat) as [Hlt|Hge].
  - rewrite Nat.mod_small by done. rewrite lookup_app_l by (rewrite length_drop; lia). by rewrite lookup_drop.
  - rewrite lookup_app_r by (rewrite length_drop; lia). rewrite length_drop.
    assert ((c + j) mod length l = c + j - length l)%nat as ->.
    { symmetry. apply (Nat.mod_unique _ _ 1); lia. }
    rewrite lookup_take_lt by lia. f_equal. lia.
Qed.

Lemma mod_add_inj n c i j : (i < n)%nat → (j < n)%nat → ((c + i) mod n = (c + j) mod n)%nat → i = j.
Proof.
  intros Hi Hj E. pose proof (Nat.div_mod_eq (c + i) n) as Ei. pose proof (Nat.div_mod_eq (c + j) n) as Ej.
  rewrite E in Ei. assert ((c + i) / n = (c + j) / n)%nat by nia. nia.
Qed.

Lemma rot_insert {A} c (l : list A) j x : (c < length l)%nat → (j < length l)%nat →
  rot c (<[((c + j) mod length l)%nat := x]> l) = <[j := x]> (rot c l).
Proof.
  intros Hc Hj. apply list_eq_same_length with (n := length l); [by rewrite length_insert, rot_length|by rewrite rot_length, length_insert|].
  intros i y y' Hi Ey Ey'. rewrite rot_lookup in Ey by (rewrite length_insert; lia). rewrite length_insert in Ey.
  assert ((c + j) mod length l < length l)%nat by (apply Nat.mod_upper_bound; lia).
  destruct (decide (i = j)) as [->|Hne].
  - rewrite list_lookup_insert_eq in Ey by done. rewrite list_lookup_insert_eq in Ey' by (rewrite rot_length; lia). congruence.
  - rewrite list_lookup_insert_ne in Ey by (intros E; apply Hne; symmetry; by eapply mod_add_inj).
    rewrite list_lookup_insert_ne in Ey' by done. rewrite rot_lookup in Ey' by lia. congruence.
Qed.

Lemma rot_next {A} c (l : list A) x r : (c < length l)%nat → rot c l = x :: r → rot ((c + 1) mod length l) l = r ++ [x].
Proof.
  intros Hc E. pose proof (rot_lookup c l 0 Hc ltac:(lia)) as H0'. rewrite E, Nat.add_0_r, Nat.mod_small in H0' by done.
  cbn in H0'. unfold rot in *. rewrite (drop_S l x c) in E by done. cbn [List.app] in E. injection E as <-.
  destruct (decide (c + 1 < length l)%nat) as [Hlt|Hge].
  - rewrite Nat.mod_small by done. replace (c + 1)%nat with (S c) by lia. rewrite (take_S_r l c x) by done. by rewrite app_assoc.
  - replace (c + 1)%nat with (length l) by lia. rewrite Nat.Div0.mod_same, drop_0, take_0, app_nil_r.
    rewrite (drop_ge l (S c)) by lia. cbn [List.app]. rewrite <- (take_S_r l c x) by done. by rewrite take_ge by lia.
Qed.

(** ** The ring *)

Definition view (nd : buffer_node) : list byte := fb_view (buffer nd).
Definition views (l : list buffer_node) : list byte := concat (map view l).

(** From the consumer on: the full buffers, then the free ones; the producer is on the first free
    one, the only one that can hold text, or has run into the consumer's full one. *)
Definition ring_inv (g : logger) (fulls frees : list buffer_node) : Prop :=
  ∃ c p, _consumer g = Some c ∧ _producer g = Some p ∧ (c < length (_circular g))%nat ∧
    rot c (_circular g) = fulls ++ frees ∧
    Forall (λ nd, is_full nd = true) fulls ∧ Forall (λ nd, is_full nd = false) frees ∧
    Forall (λ nd, fb_ok SIZE (buffer nd)) (fulls ++ frees) ∧
    ((∃ nd rest, frees = nd :: rest ∧ p = ((c + length fulls) mod length (_circular g))%nat ∧
        Forall (λ nd, view nd = []) rest) ∨
     (fulls ≠ [] ∧ p = c ∧ Forall (λ nd, view nd = []) frees)).

Lemma ring_length g fulls frees : ring_inv g fulls frees → length (_circular g) = (length fulls + length frees)%nat.
Proof. intros (c & p & _ & _ & _ & E & _). by rewrite <- (rot_length c), E, length_app. Qed.

Lemma views_app l l' : views (l ++ l') = views l ++ views l'.
Proof. unfold views. by rewrite map_app, concat_app. Qed.

Lemma views_empty l : Forall (λ nd, view nd = []) l → views l = [].
Proof. induction 1 as [|nd l E _ IH]; [done|]. unfold views in *. cbn. by rewrite E, IH. Qed.

Lemma lookup_fulls {A} (l : list A) x r : (l ++ x :: r) !! length l = Some x.
Proof. rewrite lookup_app_r by lia. by rewrite Nat.sub_diag. Qed.

Lemma insert_fulls {A} (l : list A) x y r : <[length l := y]> (l ++ x :: r) = l ++ y :: r.
Proof. rewrite insert_app_r_alt by lia. by rewrite Nat.sub_diag. Qed.

(** The bytes of a line that a buffer takes. *)
Lemma append_taken b data : fb_ok SIZE b → Z.of_nat (length data) < 2 ^ 62 →
  ∃ b', fb_append SIZE b data (Z.of_nat (length data)) = Some b' ∧ fb_ok SIZE b' ∧
    fb_view b' = fb_view b ++ drop (length (fb_view b)) (fb_view b') ∧
    drop (length (fb_view b)) (fb_view b') = take (Z.to_nat SIZE - length (fb_view b)) data.
Proof.
  intros Hb Hl. destruct (fb_append_ok SIZE b data (Z.of_nat (length data)) Hb) as (b' & E & Hb' & Hv); [lia|lia|].
  exists b'. pose proof (fb_view_length _ _ Hb) as Hn. destruct Hb as (Hp & _ & _).
  rewrite Nat2Z.id, (take_ge data) in Hv by lia. rewrite take_app, take_ge in Hv by lia.
  assert (drop (length (fb_view b)) (fb_view b') = take (Z.to_nat SIZE - length (fb_view b)) data) as Ed
    by (rewrite Hv; apply drop_app_length).
  split_and!; try done. by rewrite Ed.
Qed.

Lemma views_cons nd l : views (nd :: l) = view nd ++ views l.
Proof. done. Qed.

(** The text of a line put into the first free buffer. *)
Lemma log_append_ok g c fulls nd rest data :
  _consumer g = Some c → (c < length (_circular g))%nat → rot c (_circular g) = fulls ++ nd :: rest →
  Forall (λ nd, is_full nd = true) fulls → Forall (λ nd, is_full nd = false) (nd :: rest) →
  Forall (λ nd, fb_ok SIZE (buffer nd)) (fulls ++ nd :: rest) → Forall (λ nd, view nd = []) rest →
  Z.of_nat (length data) < 2 ^ 62 →
  let p := ((c + length fulls) mod length (_circular g))%nat in
  ∃ r nd', log_append p nd data g =
      Some (set_ring r (Some p) (_consumer g) g, [LTaken (take (Z.to_nat SIZE - length (view nd)) data)]) ∧
    ring_inv (set_ring r (Some p) (_consumer g) g) fulls (nd' :: rest) ∧ length r = length (_circular g) ∧
    views (fulls ++ nd' :: rest) = views (fulls ++ nd :: rest) ++ take (Z.to_nat SIZE - length (view nd)) data.
Proof.
  intros Hc Hlt Hrot Hfu Hfr Hok Hrest Hd p. apply Forall_app in Hok as [Hok1 Hok2].
  assert (length fulls < length (_circular g))%nat as Hn by (rewrite <- (rot_length c (_circular g)), Hrot, length_app; cbn; lia).
  apply List.Forall_cons_iff in Hok2 as [Hoknd Hok2]. apply List.Forall_cons_iff in Hfr as [Hfnd Hfr].
  unfold log_append. destruct (append_taken (buffer nd) data Hoknd Hd) as (b & -> & Hb & Hv & Ht). cbn [mbind option_bind].
  rewrite Ht in Hv |- *. exists (<[p := mkBufNode b (status nd)]> (_circular g)), (mkBufNode b (status nd)).
  split; [done|]. split; [|split].
  - exists c, p. cbn [_consumer _producer _circular set_ring]. rewrite length_insert. split_and!; try done.
    + unfold p. rewrite rot_insert, Hrot by lia. apply insert_fulls.
    + by apply List.Forall_cons.
    + apply Forall_app. split; [done|]. by apply List.Forall_cons.
    + left. by exists (mkBufNode b (status nd)), rest.
  - by rewrite length_insert.
  - rewrite !views_app, !views_cons, (views_empty rest Hrest), !app_nil_r.
    change (view (mkBufNode b (status nd))) with (fb_view b). rewrite Hv. by rewrite app_assoc.
Qed.

Lemma head_full g c fulls frees : rot c (_circular g) = fulls ++ frees → (c < length (_circular g))%nat → fulls ≠ [] →
  Forall (λ nd, is_full nd = true) fulls → ∃ h l, fulls = h :: l ∧ _circular g !! c = Some h ∧ is_full h = true.
Proof.
  intros Hrot Hlt Hne Hfu. pose proof (rot_lookup c (_circular g) 0 Hlt ltac:(lia)) as E0.
  rewrite Nat.add_0_r, Nat.mod_small in E0 by lia. rewrite Hrot in E0. destruct fulls as [|h l]; [done|].
  exists h, l. apply List.Forall_cons_iff in Hfu as [? _]. done.
Qed.

(** A line goes behind everything that waits, or is refused. *)
Definition log_effect (g : logger) (fulls frees : list buffer_node) (data : list byte) (x : option (logger * list log_ev)) : Prop :=
  ∃ r p ev fulls' frees', x = Some (set_ring r (Some p) (_consumer g) g, ev) ∧
    ring_inv (set_ring r (Some p) (_consumer g) g) fulls' frees' ∧ length r = length (_circular g) ∧
    views (fulls' ++ frees') = views (fulls ++ frees) ++ taken ev ∧ (∃ l, fulls' = fulls ++ l) ∧
    (ev = [LErr] ∨ ev = [LTaken (take (Z.to_nat SIZE) data)]).

Lemma log_next_ok g c fulls nd rest data :
  _consumer g = Some c → (c < length (_circular g))%nat → rot c (_circular g) = fulls ++ nd :: rest →
  Forall (λ nd, is_full nd = true) fulls → Forall (λ nd, is_full nd = false) (nd :: rest) →
  Forall (λ nd, fb_ok SIZE (buffer nd)) (fulls ++ nd :: rest) → Forall (λ nd, view nd = []) rest →
  Z.of_nat (length data) < 2 ^ 62 →
  log_effect g fulls (nd :: rest) data (log_next ((c + length fulls) mod length (_circular g)) nd data g).
Proof.
  intros Hc Hlt Hrot Hfu Hfr Hok Hrest Hd. apply List.Forall_cons_iff in Hfr as [Hfnd Hfr].
  assert (length (_circular g) = length fulls + S (length rest))%nat as Hn by (by rewrite <- (rot_length c (_circular g)), Hrot, length_app).
  set (fnd := mkBufNode (buffer nd) Enum_Buffer_Full). set (p := ((c + length fulls) mod length (_circular g))%nat).
  unfold log_next. fold fnd. set (r := <[p := fnd]> (_circular g)).
  assert (length r = length (_circular g)) as Hr by (unfold r; by rewrite length_insert).
  assert (rot c r = (fulls ++ [fnd]) ++ rest) as Hrr.
  { unfold r, p. rewrite rot_insert, Hrot, insert_fulls by lia. by rewrite <- app_assoc. }
  assert (next g p = (c + length (fulls ++ [fnd])) mod length r)%nat as ->.
  { unfold next, p. rewrite Hr, Nat.Div0.add_mod_idemp_l, length_app. cbn [length]. f_equal. lia. }
  set (p' := ((c + length (fulls ++ [fnd])) mod length r)%nat). set (g1 := set_ring r (Some p') (_consumer g) g).
  assert (Forall (λ nd, is_full nd = true) (fulls ++ [fnd])) as Hfu' by (apply Forall_app; split; [done|by apply List.Forall_cons]).
  assert (Forall (λ nd, fb_ok SIZE (buffer nd)) ((fulls ++ [fnd]) ++ rest)) as Hok'.
  { apply Forall_app in Hok as [? Hok]. apply List.Forall_cons_iff in Hok as [? ?].
    apply Forall_app. split; [apply Forall_app; split; [done|by apply List.Forall_cons]|done]. }
  assert (views ((fulls ++ [fnd]) ++ rest) = views (fulls ++ nd :: rest)) as Hvw.
  { rewrite <- app_assoc. cbn [List.app]. by rewrite !views_app, !views_cons. }
  destruct rest as [|nd2 rest].
  - assert (p' = c) as Hp'.
    { unfold p'. rewrite Hr, length_app. cbn [length] in *. replace (c + _)%nat with (c + 1 * length (_circular g))%nat by lia.
      rewrite Nat.Div0.mod_add. by apply Nat.mod_small. }
    destruct (head_full g1 c (fulls ++ [fnd]) []) as (h & l & El & Eh & Hh); [exact Hrr|by cbn; rewrite Hr|by destruct fulls|done|].
    rewrite Hp'. cbn [_circular g1 set_ring] in Eh. rewrite Eh. cbn [mbind option_bind]. rewrite Hh.
    exists r, c, [LErr], (fulls ++ [fnd]), []. unfold g1. rewrite Hp'. split; [done|]. split_and!; [|done| |by exists [fnd]|by left].
    + exists c, c. cbn [_consumer _producer _circular set_ring]. rewrite Hr. split_and!; try done.
      right. split_and!; [by destruct fulls|done|done].
    + rewrite Hvw. cbn. by rewrite app_nil_r.
  - pose proof Hrest as Hrest'. apply List.Forall_cons_iff in Hrest' as [Hv2 Hrest'].
    assert (r !! p' = Some nd2) as ->.
    { unfold p'. rewrite <- rot_lookup by (rewrite ?Hr, ?length_app; cbn [length] in *; lia). rewrite Hrr. apply lookup_fulls. }
    cbn [mbind option_bind]. rewrite (proj1 (proj1 (List.Forall_cons_iff _ _ _) Hfr)).
    destruct (log_append_ok g1 c (fulls ++ [fnd]) nd2 rest data) as (r2 & nd' & E & Hinv & Hr2 & Hvw2); try done; [by cbn; rewrite Hr|].
    unfold p'. cbn [_circular g1 set_ring] in E. rewrite E. rewrite Hv2 in Hvw2 |- *. rewrite Nat.sub_0_r in Hvw2 |- *.
    eexists r2, _, _, (fulls ++ [fnd]), (nd' :: rest). split; [done|]. split_and!; [done|by rewrite Hr2| |by exists [fnd]|by right].
    rewrite Hvw2, Hvw. cbn. by rewrite app_nil_r.
Qed.

Lemma log_ok g fulls frees data : ring_inv g fulls frees → Z.of_nat (length data) < 2 ^ 62 →
  log_effect g fulls frees data (log data g).
Proof.
  intros (c & p & Hc & Hp & Hlt & Hrot & Hfu & Hfr & Hok & Hcase) Hd.
  unfold log. rewrite Hp. destruct Hcase as [(nd & rest & -> & -> & Hrest)|(Hne & -> & Hemp)].
  - assert (length (_circular g) = length fulls + S (length rest))%nat as Hn by (by rewrite <- (rot_length c (_circular g)), Hrot, length_app).
    pose proof Hfr as Hfr'. apply List.Forall_cons_iff in Hfr' as [Hfnd _].
    pose proof Hok as Hok'. apply Forall_app in Hok' as [_ Hok2]. apply List.Forall_cons_iff in Hok2 as [Hoknd _].
    pose proof (log_next_ok g c fulls nd rest data Hc Hlt Hrot Hfu Hfr Hok Hrest Hd) as Hnext.
    destruct (log_append_ok g c fulls nd rest data Hc Hlt Hrot Hfu Hfr Hok Hrest Hd) as (r & nd' & E & Hinv & Hr & Hvw).
    assert (_circular g !! ((c + length fulls) mod length (_circular g))%nat = Some nd) as ->
      by (rewrite <- rot_lookup, Hrot by lia; apply lookup_fulls).
    cbn [mbind option_bind]. rewrite Hfnd, (fb_avail_ok _ _ Hoknd). pose proof (fb_view_length _ _ Hoknd) as Hvl.
    destruct (Z.gtb_spec (SIZE - _pos (buffer nd)) (Z.of_nat (length data))) as [Hgt|Hle]; [|exact Hnext].
    rewrite E. destruct Hoknd as (Hpos & _ & _). unfold view in *. rewrite take_ge in Hvw |- * by lia.
    eexists r, _, _, fulls, (nd' :: rest). split; [done|]. split_and!; [done|done| |exists []; by rewrite app_nil_r|right; by rewrite take_ge by lia].
    rewrite Hvw. cbn. by rewrite app_nil_r.
  - destruct (head_full g c fulls frees Hrot Hlt Hne Hfu) as (h & l & El & -> & Hh).
    cbn [mbind option_bind]. rewrite Hh. exists (_circular g), c, [LErr], fulls, frees.
    assert (set_ring (_circular g) (Some c) (_consumer g) g = g) as -> by (destruct g; cbn in *; by subst).
    split; [done|]. split_and!; [|done|cbn; by rewrite app_nil_r|exists []; by rewrite app_nil_r|by left].
    exists c, c. split_and!; try done. right. by split_and!.
Qed.



(** The producer's text waits in the consumer's buffer: it is marked full. *)
Lemma ring_mark g c nd rest : ring_inv g [] (nd :: rest) → _consumer g = Some c →
  ring_inv (set_ring (<[c := mkBufNode (buffer nd) Enum_Buffer_Full]> (_circular g)) (_producer g) (_consumer g) g)
    [mkBufNode (buffer nd) Enum_Buffer_Full] rest.
Proof.
  intros Hinv Hc. destruct Hinv as (c' & p & Hc' & Hp & Hlt & Hrot & Hfu & Hfr & Hok & Hcase). rewrite Hc in Hc'. injection Hc' as <-.
  assert (p = c ∧ Forall (λ nd, view nd = []) rest) as [-> Hemp].
  { destruct Hcase as [(nd' & rest' & [= <- <-] & -> & He)|(Hne & _)]; [|done]. split; [|done]. cbn [length]. rewrite Nat.add_0_r. by apply Nat.mod_small. }
  exists c, c. cbn [_consumer _producer _circular set_ring]. rewrite length_insert. split_and!; try done.
  - pose proof (rot_insert c (_circular g) 0 (mkBufNode (buffer nd) Enum_Buffer_Full) Hlt ltac:(lia)) as E.
    rewrite Nat.add_0_r, Nat.mod_small in E by done. rewrite E, Hrot. done.
  - by apply List.Forall_cons.
  - by apply List.Forall_cons_iff in Hfr as [_ ?].
  - apply List.Forall_cons_iff in Hok as [? ?]. by apply List.Forall_cons.
  - right. by split_and!.
Qed.

(** The consumer's buffer has been written: it is emptied and given back. *)
Lemma ring_give_back g c p h fulls frees : ring_inv g (h :: fulls) frees → _consumer g = Some c → _producer g = Some p →
  _circular g !! c = Some h ∧
  ring_inv (set_ring (<[c := mkBufNode (fb_clear (buffer h)) Enum_Buffer_Free]> (_circular g))
              (Some (if decide (c = p) then next g p else p)) (Some (next g c)) g)
    fulls (frees ++ [mkBufNode (fb_clear (buffer h)) Enum_Buffer_Free]).
Proof.
  intros (c' & p' & Hc' & Hp' & Hlt & Hrot & Hfu & Hfr & Hok & Hcase) Hc Hp.
  rewrite Hc in Hc'. injection Hc' as <-. rewrite Hp in Hp'. injection Hp' as <-.
  destruct (head_full g c (h :: fulls) frees Hrot Hlt) as (h' & l & [= <- <-] & Hh & _); [done|done|]. split; [done|].
  set (nd := mkBufNode (fb_clear (buffer h)) Enum_Buffer_Free). set (n := length (_circular g)) in *.
  cbn [List.app] in Hok. apply List.Forall_cons_iff in Hok as [Hokh Hok]. apply List.Forall_cons_iff in Hfu as [_ Hfu].
  destruct (fb_clear_ok SIZE (buffer h) Hokh) as [Hokn Hvn].
  assert (rot c (<[c := nd]> (_circular g)) = nd :: fulls ++ frees) as Hrn.
  { pose proof (rot_insert c (_circular g) 0 nd Hlt ltac:(lia)) as E. rewrite Nat.add_0_r, Nat.mod_small in E by done. by rewrite E, Hrot. }
  assert (n = S (length fulls + length frees)) as Hn by (unfold n; rewrite <- (rot_length c (_circular g)), Hrot; cbn; by rewrite length_app).
  exists (next g c), (if decide (c = p) then next g p else p). cbn [_consumer _producer _circular set_ring]. rewrite length_insert. fold n.
  split_and!; try done.
  - apply Nat.mod_upper_bound. unfold n in Hlt. lia.
  - unfold next. rewrite <- (length_insert (_circular g) c nd). rewrite (rot_next c _ nd (fulls ++ frees)); [by rewrite app_assoc|by rewrite length_insert|done].
  - apply Forall_app. split; [done|]. by apply List.Forall_cons.
  - rewrite app_assoc. apply Forall_app. split; [done|]. by apply List.Forall_cons.
  - destruct Hcase as [(nd' & rest & -> & -> & He)|(_ & -> & He)].
    + left. exists nd', (rest ++ [nd]). split; [done|]. split.
      * rewrite decide_False.
        -- unfold next. fold n. rewrite Nat.Div0.add_mod_idemp_l. f_equal. cbn [length]. lia.
        -- intros E. assert (0 = length (h :: fulls))%nat as E0; [|cbn in E0; lia]. apply (mod_add_inj n c); [lia|cbn [length] in *; lia|].
           rewrite Nat.add_0_r, Nat.mod_small by done. exact E.
      * apply Forall_app. split; [done|]. by apply List.Forall_cons.
    + rewrite decide_True by done. destruct fulls as [|h2 fulls].
      * left. destruct frees as [|nd' rest].
        -- exists nd, []. split; [done|]. split; [|done]. unfold next. fold n. cbn [length]. rewrite Nat.add_0_r. symmetry. apply Nat.mod_small, Nat.mod_upper_bound. lia.
        -- apply List.Forall_cons_iff in He as [_ He]. exists nd', (rest ++ [nd]). split; [done|]. split; [|apply Forall_app; split; [done|by apply List.Forall_cons]].
           unfold next. fold n. cbn [length]. rewrite Nat.add_0_r. symmetry. apply Nat.mod_small, Nat.mod_upper_bound. lia.
      * right. split_and!; [done|done|]. apply Forall_app. split; [done|by apply List.Forall_cons].
Qed.

(** ** The thread *)

Lemma taken_app ev ev' : taken (ev ++ ev') = taken ev ++ taken ev'.
Proof. unfold taken. by rewrite omap_app, concat_app. Qed.
Lemma shown_app ev ev' : shown (ev ++ ev') = shown ev ++ shown ev'.
Proof. unfold shown. by rewrite omap_app, concat_app. Qed.
Lemma filed_app ev ev' : filed (ev ++ ev') = filed ev ++ filed ev'.
Proof. unfold filed. by rewrite omap_app, concat_app, concat_app. Qed.

(** Room in the counters of the open file. *)
Definition file_inv (g : logger) (filename pid : list byte) (withpid : bool) : Prop :=
  _thread g ≠ None → ∃ f, lg_file g = Some f ∧ file_ok f filename pid withpid ∧ checked f ∧
    _rollsize f < 2 ^ 61 ∧ _writesize f < 2 ^ 61 + 2 ^ 60.

(** What was taken, written to the file and shown, and what waits. *)
Definition flow (t : option dump_at) (fulls frees : list buffer_node) (T F O : list byte) : Prop :=
  match t with
  | Some DFile => fulls ≠ [] ∧ T = F ++ views (fulls ++ frees) ∧ F = O
  | Some DOut => ∃ h l, fulls = h :: l ∧ T = F ++ views (l ++ frees) ∧ F = O ++ view h
  | Some DRelock => ∃ h l, fulls = h :: l ∧ T = F ++ views (l ++ frees) ∧ F = O
  | _ => T = F ++ views (fulls ++ frees) ∧ F = O
  end.

Definition linv (filename pid : list byte) (withpid : bool) (fulls frees : list buffer_node) (g : logger) (T F O : list byte) : Prop :=
  _output g = true ∧ file_inv g filename pid withpid ∧ ring_inv g fulls frees ∧ flow (_thread g) fulls frees T F O.

(** The thread is in its loop and will stay there. *)
Definition live (g : logger) : Prop := _run g = true ∧ _thread g ≠ None ∧ _thread g ≠ Some DEnd.

(** The pieces of the loop until nothing waits. *)
Definition todo (t : option dump_at) (fulls frees : list buffer_node) : nat :=
  let k := (length fulls + if decide (views frees = []) then 0 else 1)%nat in
  match t with
  | Some DTop => 6 * k
  | Some DWait => 6 * k - 1
  | Some DFile => 6 * k - 2
  | Some DOut => 6 * k - 3
  | Some DRelock => 6 * k - 4
  | Some DFlush => 6 * k + 1
  | _ => 0
  end.

Definition op_ok (o : log_op) : Prop :=
  match o with
  | LLog data => Z.of_nat (length data) < 2 ^ 62
  | LDump e => env_ok e ∧ 0 < e_now e
  | _ => True
  end.

Lemma ring_inv_ext g g' fulls frees : _circular g' = _circular g → _consumer g' = _consumer g → _producer g' = _producer g →
  ring_inv g fulls frees → ring_inv g' fulls frees.
Proof. intros E1 E2 E3. unfold ring_inv. by rewrite E1, E2, E3. Qed.

(** Where the consumer is. *)
Lemma ring_consumer g fulls frees : ring_inv g fulls frees → ∃ c p nd, _consumer g = Some c ∧ _producer g = Some p ∧
  _circular g !! c = Some nd ∧ head (fulls ++ frees) = Some nd ∧ fb_ok SIZE (buffer nd) ∧
  (is_full nd = true → ∃ l, fulls = nd :: l) ∧
  (is_full nd = false → fulls = [] ∧ ∃ l, frees = nd :: l ∧ Forall (λ nd, view nd = []) l).
Proof.
  intros (c & p & Hc & Hp & Hlt & Hrot & Hfu & Hfr & Hok & Hcase).
  pose proof (rot_lookup c (_circular g) 0 Hlt ltac:(lia)) as E0. rewrite Nat.add_0_r, Nat.mod_small, Hrot in E0 by lia.
  assert (is_Some (_circular g !! c)) as [nd Hnd] by (by apply lookup_lt_is_Some_2). rewrite Hnd in E0.
  exists c, p, nd. split_and!; try done.
  - by rewrite head_lookup.
  - exact (Forall_lookup_1 _ _ _ _ Hok E0).
  - intros Hf. destruct fulls as [|h l]; [|cbn in E0; injection E0 as ->; by exists l].
    cbn in E0. destruct frees as [|h l]; [done|]. injection E0 as ->. apply List.Forall_cons_iff in Hfr as [Hf' _]. congruence.
  - intros Hf. destruct fulls as [|h l].
    + split; [done|]. destruct Hcase as [(nd' & rest & -> & _ & He)|(? & _)]; [|done]. injection E0 as ->. by exists rest.
    + cbn in E0. injection E0 as ->. apply List.Forall_cons_iff in Hfu as [Hf' _]. congruence.
Qed.

Lemma file_write e g c nd f filename pid withpid : env_ok e → 0 < e_now e → 0 < SIZE < 2 ^ 60 → fb_ok SIZE (buffer nd) →
  file_ok f filename pid withpid → checked f → _rollsize f < 2 ^ 61 → _writesize f < 2 ^ 61 + 2 ^ 60 →
  _consumer g = Some c → _circular g !! c = Some nd → lg_file g = Some f → _thread g = Some DFile →
  ∃ f' ev, dump_step e g = Some (set_thread DOut (Some f') g, [LFile ev]) ∧ filed [LFile ev] = view nd ∧
    file_inv (set_thread DOut (Some f') g) filename pid withpid.
Proof.
  intros He Hn Hsz Hok Hf Hch Hr Hw Hc Hnd Hfile Ht. pose proof (fb_view_length _ _ Hok) as Hl. destruct Hok as (Hp & _ & _).
  unfold dump_step. rewrite Ht, Hc. cbn [mbind option_bind]. rewrite Hnd. cbn [mbind option_bind]. rewrite Hfile. cbn [mbind option_bind].
  unfold fb_length. rewrite <- Hl.
  destruct (write_ok e (fb_view (buffer nd)) f filename pid withpid He Hf Hch Hn) as (f' & ev & -> & Hf' & Hc' & _ & _ & Hw' & Hr' & Hev); [lia|lia|].
  cbn [mbind option_bind]. exists f', ev. split; [done|]. split.
  - unfold filed. cbn [omap list_omap]. rewrite Hev. unfold view. destruct (decide (fb_view (buffer nd) = [])) as [->|]; [done|].
    cbn. by rewrite !app_nil_r.
  - intros _. exists f'. split; [done|]. split; [done|]. split; [done|]. rewrite Hr', Hw'.
    split; [done|]. destruct (_ || _) eqn:Eo; [lia|]. apply orb_false_iff in Eo as [_ Eo]. lia.
Qed.

(** A piece that leaves ring and counts as they are. *)
#[local] Ltac quiet fulls frees :=
  eexists _, _, fulls, frees; split; [done|]; cbn -[todo views linv live]; rewrite ?app_nil_r.
#[local] Ltac same_ring f Hinv :=
  split; [done|]; split; [by intros _; exists f|]; split; [by eapply ring_inv_ext; [..|exact Hinv]|].

Lemma dump_ok e filename pid withpid fulls frees g T F O : 0 < SIZE < 2 ^ 60 → env_ok e → 0 < e_now e →
  linv filename pid withpid fulls frees g T F O →
  ∃ g' ev fulls' frees', dump_step e g = Some (g', ev) ∧
    linv filename pid withpid fulls' frees' g' (T ++ taken ev) (F ++ filed ev) (O ++ shown ev) ∧
    (live g → live g' ∧ (todo (_thread g') fulls' frees' ≤ Nat.pred (todo (_thread g) fulls frees))%nat).
Proof.
  intros Hsz He Hn (Ho & Hfile & Hinv & Hflow).
  destruct (ring_consumer g fulls frees Hinv) as (c & p & nd & Hc & Hp & Hnd & Hhd & Hok & Hfull & Hfree).
  assert (∀ ev, dump_step e g = Some (g, ev) → ev = [] → ¬ live g →
    ∃ g' ev fulls' frees', dump_step e g = Some (g', ev) ∧
    linv filename pid withpid fulls' frees' g' (T ++ taken ev) (F ++ filed ev) (O ++ shown ev) ∧
    (live g → live g' ∧ (todo (_thread g') fulls' frees' ≤ Nat.pred (todo (_thread g) fulls frees))%nat)) as Hstill.
  { intros ev E -> Hl. exists g, [], fulls, frees. split; [done|]. cbn. rewrite !app_nil_r. by split. }
  destruct (_thread g) as [t|] eqn:Et; [|eapply Hstill; [unfold dump_step; by rewrite Et|done|by intros (_ & ? & _)]].
  destruct (decide (t = DEnd)) as [->|Hend]; [eapply Hstill; [unfold dump_step; by rewrite Et|done|by intros (_ & _ & ?)]|]. clear Hstill.
  destruct (Hfile ltac:(by rewrite Et)) as (f & Hf & Hfok & Hch & Hr & Hw).
  assert (concat (map snd (writes_of (flush f))) = []) as Efl by (unfold flush; by destruct (_file f)).
  assert (∀ g', live g → _run g' = _run g → _thread g' ≠ None → _thread g' ≠ Some DEnd → live g') as Hlive by (intros g' (? & _) Hr' ? ?; unfold live; by rewrite Hr').
  destruct (decide (t = DFile)) as [->|Hnf].
  { destruct (file_write e g c nd f filename pid withpid He Hn Hsz Hok Hfok Hch Hr Hw Hc Hnd Hf Et) as (f' & ev & -> & Hev & Hfi).
    exists (set_thread DOut (Some f') g), [LFile ev], fulls, frees. split; [done|]. rewrite Hev. cbn. rewrite !app_nil_r. split.
    - split; [done|]. split; [done|]. split; [by eapply ring_inv_ext; [..|exact Hinv]|]. destruct Hflow as (Hne & -> & ->).
      destruct fulls as [|h l]; [done|]. cbn in Hhd. injection Hhd as ->. exists nd, l. split; [done|].
      split; [|done]. cbn [List.app]. by rewrite views_cons, app_assoc.
    - intros Hl. split; [by apply Hlive|]. lia. }
  unfold dump_step. rewrite Et, Hc. cbn [mbind option_bind]. rewrite Hnd. cbn [mbind option_bind]. rewrite Hp, Hf, Ho. cbn [mbind option_bind].
  destruct t; try done; cbn [flow] in Hflow.
  - destruct (_run g) eqn:Er.
    + quiet fulls frees. split.
      * same_ring f Hinv. cbn [_thread set_thread]. destruct (is_full nd) eqn:Ef; cbn [flow]; [|done].
        destruct (Hfull eq_refl) as [l ->]. by destruct Hflow.
      * intros Hl. cbn [_thread set_thread]. split; [apply Hlive; try done; by destruct (is_full nd)|]. destruct (is_full nd); cbn [todo]; lia.
    + quiet fulls frees. rewrite ?Efl, ?app_nil_r. split; [by same_ring f Hinv|]. intros (? & _). congruence.
  - destruct (is_full nd) eqn:Ef; [|destruct (Z.gtb_spec (fb_length (buffer nd)) 0) as [Hg|Hg]].
    + quiet fulls frees. split; [same_ring f Hinv|].
      * destruct (Hfull eq_refl) as [l ->]. cbn. by destruct Hflow.
      * intros Hl. split; [by apply Hlive|]. cbn [todo _thread set_thread]. lia.
    + destruct (Hfree eq_refl) as (-> & l & -> & Hl). quiet [mkBufNode (buffer nd) Enum_Buffer_Full] l. split.
      * split; [done|]. split; [by intros _; exists f|].
        split; [eapply ring_inv_ext; [..|exact (ring_mark g c nd l Hinv Hc)]; try done; cbn; congruence|]. cbn. by destruct Hflow.
      * intros Hlv. split; [by apply Hlive|]. cbn [todo _thread set_thread set_ring length].
        rewrite (decide_True _ _ (views_empty l Hl)). rewrite decide_False; [lia|]. rewrite views_cons. intros E.
        apply app_nil in E as [E _]. pose proof (fb_view_length _ _ Hok) as Hvl. unfold view in E. rewrite E in Hvl. unfold fb_length in Hg. cbn in Hvl. lia.
    + destruct (Hfree eq_refl) as (-> & l & -> & Hl). quiet (@nil buffer_node) (nd :: l). split; [by same_ring f Hinv|].
      intros Hlv. split; [by apply Hlive|]. cbn [todo _thread set_thread length]. rewrite decide_True; [lia|].
      rewrite views_cons, (views_empty l Hl), app_nil_r. pose proof (fb_view_length _ _ Hok) as Hvl. unfold fb_length in Hg. unfold view.
      destruct (fb_view (buffer nd)); [done|]. cbn in Hvl. lia.
  - quiet fulls frees. split.
    + same_ring f Hinv. destruct Hflow as (h & l & -> & -> & ->). cbn in Hhd. injection Hhd as ->. exists nd, l. by split_and!.
    + intros Hl. split; [by apply Hlive|]. cbn [todo _thread set_thread]. lia.
  - destruct Hflow as (h & l & -> & -> & ->). cbn in Hhd. injection Hhd as ->.
    destruct (ring_give_back g c p nd l frees Hinv Hc Hp) as [_ Hinv']. set (nd' := mkBufNode _ Enum_Buffer_Free) in *.
    assert (views [nd'] = []) as Ee by done.
    quiet l (frees ++ [nd']). split.
    + split; [done|]. split; [by intros _; exists f|]. split; [by eapply ring_inv_ext; [..|exact Hinv']|]. cbn [flow _thread set_ring set_thread].
      split; [|done]. by rewrite !views_app, Ee, app_nil_r.
    + intros Hl. split; [by apply Hlive|]. cbn [todo _thread set_thread set_ring length]. rewrite views_app, Ee, app_nil_r. lia.
  - quiet fulls frees. rewrite ?Efl, ?app_nil_r. split; [by same_ring f Hinv|].
    intros Hl. split; [by apply Hlive|]. cbn [todo _thread set_thread]. lia.
Qed.

(** ** Executions *)

(** The lines given to [log], and what became of each: the bytes taken, or nothing. *)
Definition lines (os : list log_op) : list (list byte) :=
  omap (λ o, match o with LLog data => Some data | _ => None end) os.
Definition results (ev : list log_ev) : list (option (list byte)) :=
  omap (λ x, match x with LTaken bs => Some (Some bs) | LErr => Some None | _ => None end) ev.
Definition result_of (data : list byte) (r : option (list byte)) : Prop :=
  r = None ∨ r = Some (take (Z.to_nat SIZE) data).

(** The ways a piece can go. *)
#[local] Ltac dump_cases g :=
  unfold dump_step; destruct (_thread g) as [[]|]; intros E;
  repeat match goal with
    | H : (_ ≫= _) = Some _ |- _ => apply bind_Some in H as (? & ? & H)
    | H : (let '(_, _) := ?x in _) = Some _ |- _ => destruct x
    | H : (if ?b then _ else _) = Some _ |- _ => destruct b
    | H : Some (_, _) = Some (_, _) |- _ => injection H as <- <-
    end.

Lemma dump_results e g g' ev : dump_step e g = Some (g', ev) → results ev = [].
Proof. dump_cases g; try done. by destruct (_output g). Qed.

Lemma dump_nodes e g g' ev : dump_step e g = Some (g', ev) → length (_circular g') = length (_circular g).
Proof. dump_cases g; try done; cbn; by rewrite length_insert. Qed.

Lemma linv_step o filename pid withpid fulls frees g T F O : 0 < SIZE < 2 ^ 60 → op_ok o →
  linv filename pid withpid fulls frees g T F O →
  ∃ g' ev fulls' frees', log_step o g = Some (g', ev) ∧
    linv filename pid withpid fulls' frees' g' (T ++ taken ev) (F ++ filed ev) (O ++ shown ev) ∧
    length (_circular g') = length (_circular g) ∧ Forall2 result_of (lines [o]) (results ev) ∧
    (o ≠ LStop → live g → live g').
Proof.
  intros Hsz Ho Hl. destruct o as [data|e| |].
  - destruct Hl as (Hout & Hfile & Hinv & Hflow).
    destruct (log_ok g fulls frees data Hinv Ho) as (r & p & ev & fulls' & frees' & E & Hinv' & Hr & Hvw & (l & ->) & Hev).
    exists (set_ring r (Some p) (_consumer g) g), ev, (fulls ++ l), frees'. split; [exact E|].
    assert (filed ev = [] ∧ shown ev = []) as [-> ->] by (by destruct Hev as [->| ->]). rewrite !app_nil_r. split.
    + split; [done|]. split; [done|]. split; [done|]. cbn [_thread set_ring].
      assert (∀ X Y, T = X ++ views (fulls ++ frees) → X = Y → T ++ taken ev = X ++ views ((fulls ++ l) ++ frees')) as Hq
        by (intros X Y -> _; by rewrite Hvw, app_assoc).
      assert (∀ h l0, fulls = h :: l0 → views ((l0 ++ l) ++ frees') = views (l0 ++ frees) ++ taken ev) as Hq2.
      { intros h l0 ->. cbn [List.app] in Hvw. rewrite !views_cons, <- (app_assoc (view h)) in Hvw. by apply app_inv_head in Hvw. }
      destruct (_thread g) as [[]|]; cbn [flow] in *; try (destruct Hflow as [H1 H2]; split; [by eapply Hq|done]).
      * destruct Hflow as (Hne & H1 & H2). split; [by destruct fulls|]. split; [by eapply Hq|done].
      * destruct Hflow as (h & l0 & Hfl & -> & H2). exists h, (l0 ++ l). rewrite (Hq2 h l0 Hfl), Hfl. by rewrite app_assoc.
      * destruct Hflow as (h & l0 & Hfl & -> & H2). exists h, (l0 ++ l). rewrite (Hq2 h l0 Hfl), Hfl. by rewrite app_assoc.
    + split; [done|]. split; [|done]. destruct Hev as [->| ->]; (constructor; [|constructor]); [by left|by right].
  - destruct Ho as [He Hn]. destruct (dump_ok e filename pid withpid fulls frees g T F O Hsz He Hn Hl) as (g' & ev & fulls' & frees' & E & Hl' & Hlive).
    exists g', ev, fulls', frees'. split; [exact E|]. split; [exact Hl'|]. split; [|split].
    + by eapply dump_nodes.
    + rewrite (dump_results e g g' ev E). constructor.
    + intros _ Hlv. by apply Hlive.
  - exists (stop g), [], fulls, frees. cbn. rewrite !app_nil_r. split; [done|]. split; [|split; [done|split; [constructor|done]]].
    destruct Hl as (? & ? & ? & ?). by split_and!.
  - destruct Hl as (Hout & Hfile & Hinv & Hflow). unfold log_step, stop_join.
    destruct (_thread g) as [t|] eqn:Et; [destruct (decide (t = DEnd)) as [->|Hne]|].
    + destruct (Hfile ltac:(by rewrite Et)) as (f & Hf & _). rewrite Hf. cbn [mbind option_bind].
      eexists _, _, fulls, frees. split; [done|]. assert (filed [LFile (snd (_close f))] = []) as -> by (unfold _close; by destruct (_file f)).
      cbn. rewrite !app_nil_r. split; [|split; [done|split; [constructor|]]].
      * split; [done|]. split; [by intros ?|]. split; [by eapply ring_inv_ext; [..|exact Hinv]|done].
      * intros _ (_ & _ & ?). congruence.
    + exists g, [], fulls, frees. cbn. rewrite !app_nil_r. split; [by destruct t|]. split; [|split; [done|split; [constructor|done]]].
      split; [done|]. split; [done|]. split; [done|]. by rewrite Et.
    + exists g, [], fulls, frees. cbn. rewrite !app_nil_r. split; [done|]. split; [|split; [done|split; [constructor|done]]].
      split; [done|]. split; [done|]. split; [done|]. by rewrite Et.
Qed.

Lemma results_app ev ev' : results (ev ++ ev') = results ev ++ results ev'.
Proof. unfold results. by rewrite omap_app. Qed.

Lemma linv_run os filename pid withpid : 0 < SIZE < 2 ^ 60 → Forall op_ok os → ∀ fulls frees g T F O,
  linv filename pid withpid fulls frees g T F O →
  ∃ g' ev fulls' frees', log_run os g = Some (g', ev) ∧
    linv filename pid withpid fulls' frees' g' (T ++ taken ev) (F ++ filed ev) (O ++ shown ev) ∧
    length (_circular g') = length (_circular g) ∧ Forall2 result_of (lines os) (results ev) ∧
    (LStop ∉ os → live g → live g').
Proof.
  intros Hsz. induction os as [|o os IH]; intros Hok fulls frees g T F O Hl; cbn [log_run].
  - exists g, [], fulls, frees. cbn. rewrite !app_nil_r. split; [done|]. split; [done|]. split; [done|]. split; [constructor|done].
  - apply List.Forall_cons_iff in Hok as [Ho Hok].
    destruct (linv_step o filename pid withpid fulls frees g T F O Hsz Ho Hl) as (g1 & ev1 & fu1 & fr1 & -> & Hl1 & Hn1 & Hres1 & Hlv1).
    cbn [mbind option_bind]. destruct (IH Hok _ _ _ _ _ _ Hl1) as (g2 & ev2 & fu2 & fr2 & -> & Hl2 & Hn2 & Hres2 & Hlv2). cbn [mbind option_bind].
    exists g2, (ev1 ++ ev2), fu2, fr2. split; [done|]. rewrite taken_app, filed_app, shown_app, !app_assoc, results_app.
    split; [done|]. split; [congruence|]. split.
    + change (o :: os) with ([o] ++ os). unfold lines. rewrite omap_app. by apply Forall2_app.
    + intros Hns. rewrite not_elem_of_cons in Hns. destruct Hns as [Hno Hns]. intros Hlv. apply Hlv2; [done|]. apply Hlv1; [congruence|done].
Qed.

(** The thread has been started with [n] buffers. *)
Definition started (n : nat) (rollsize : Z) (e : file_env) (pid : Z) (filename : list byte) (withpid : bool) : option logger :=
  setfilename e pid filename withpid (setnodecnt n (setrollsize rollsize logger_new)).

Lemma started_ok n rollsize e pid filename withpid : 0 < SIZE < 2 ^ 60 → (0 < n)%nat → 0 < rollsize < 2 ^ 61 → env_ok e →
  ∃ g frees, started n rollsize e pid filename withpid = Some g ∧ length (_circular g) = n ∧ live g ∧
    linv filename (_getpid_ pid) withpid [] frees g [] [] [].
Proof.
  intros Hsz Hn Hr He. unfold started, setfilename. rewrite decide_True by done.
  unfold logfile_new, _roll_file, _close. cbn [_file _pid _filename _withpid _logidx lg_rollsize setnodecnt setrollsize].
  rewrite _logname_ok. cbn [mbind option_bind]. rewrite (proj1 He).
  eexists _, (circular_new n). split; [done|]. split; [apply length_replicate|]. split; [by split_and!|]. split; [done|]. split.
  - intros _. eexists. split; [done|]. cbn. split; [unfold file_ok; cbn; split_and!; try done; lia|]. split; [by left|lia].
  - split; [|split; [|done]].
    + exists 0%nat, 0%nat. cbn [_consumer _producer _circular]. unfold circular_new. rewrite length_replicate.
      set (nd := mkBufNode _ _). assert (fb_ok SIZE (buffer nd)) as Hnd by (apply fb_new_ok; [lia|rewrite length_malloc; lia]).
      split_and!; try done.
      * unfold rot. rewrite drop_0, take_0, app_nil_r. done.
      * by apply Forall_replicate.
      * by apply Forall_replicate.
      * left. destruct n as [|n]; [lia|]. exists nd, (replicate n nd). split; [done|]. split; [by rewrite Nat.Div0.mod_0_l|]. by apply Forall_replicate.
    + cbn [flow _thread List.app]. symmetry. apply views_empty. by apply Forall_replicate.
Qed.


Lemma todo_bound g fulls frees : ring_inv g fulls frees → (todo (_thread g) fulls frees ≤ 6 * length (_circular g) + 1)%nat.
Proof.
  intros Hinv. rewrite (ring_length g fulls frees Hinv). unfold todo.
  assert ((if decide (views frees = []) then 0 else 1) ≤ length frees)%nat by (destruct frees; [done|]; case_decide; cbn; lia).
  destruct (_thread g) as [[]|]; lia.
Qed.

(** C12: when no call of [fopen] or [fwrite] fails and the clock is positive ([env_ok] and
    [0 < e_now] in every piece): if the log has not been stopped, the thread alone, without
    further lines, has written and shown everything that was taken - the lines up to the size
    of a buffer that were not refused - after six of its pieces for each of the [n] buffers
    and one more. *)
Theorem logger_drains (n : nat) (rollsize pid : Z) (e : file_env) (filename : list byte) (withpid : bool)
    (os : list log_op) (es : list file_env) :
  0 < SIZE < 2 ^ 60 → (0 < n)%nat → 0 < rollsize < 2 ^ 61 → env_ok e → Forall op_ok os → LStop ∉ os →
  Forall (λ e, env_ok e ∧ 0 < e_now e) es → (6 * n + 1 ≤ length es)%nat →
  ∃ g0 g ev, started n rollsize e pid filename withpid = Some g0 ∧ log_run (os ++ map LDump es) g0 = Some (g, ev) ∧
    filed ev = taken ev ∧ shown ev = taken ev.
Proof.
  intros Hsz Hn Hr He Hok Hns Hes Hlen. destruct (started_ok n rollsize e pid filename withpid Hsz Hn Hr He) as (g0 & frees & E0 & Hn0 & Hlv0 & Hl).
  destruct (linv_run os _ _ _ Hsz Hok _ _ _ _ _ _ Hl) as (g1 & ev1 & fu & fr & E1 & Hl1 & Hn1 & _ & Hlv1). cbn [List.app] in Hl1.
  enough (∀ es g fulls frees T F O, Forall (λ e, env_ok e ∧ 0 < e_now e) es → live g → linv filename (_getpid_ pid) withpid fulls frees g T F O →
    (todo (_thread g) fulls frees ≤ length es)%nat →
    ∃ g' ev, log_run (map LDump es) g = Some (g', ev) ∧ F ++ filed ev = T ++ taken ev ∧ O ++ shown ev = T ++ taken ev) as Hgen.
  { destruct (Hgen es g1 fu fr _ _ _ Hes (Hlv1 Hns Hlv0) Hl1) as (g2 & ev2 & E2 & Hf & Hs).
    - destruct Hl1 as (_ & _ & Hinv & _). pose proof (todo_bound g1 fu fr Hinv). lia.
    - exists g0, g2, (ev1 ++ ev2). split; [done|]. rewrite taken_app, filed_app, shown_app. split; [|done].
      assert (∀ ops1 ops2 g, log_run (ops1 ++ ops2) g = '(g, ev) ← log_run ops1 g; '(g, ev') ← log_run ops2 g; Some (g, ev ++ ev')) as Happ.
      { clear. induction ops1 as [|o ops1 IH]; intros ops2 g; cbn [List.app log_run mbind option_bind].
        - by destruct (log_run ops2 g) as [[? ?]|].
        - destruct (log_step o g) as [[g1 e1]|]; cbn [mbind option_bind]; [|done]. rewrite IH.
          destruct (log_run ops1 g1) as [[g2 e2]|]; cbn [mbind option_bind]; [|done].
          destruct (log_run ops2 g2) as [[g3 e3]|]; cbn [mbind option_bind]; [|done]. by rewrite app_assoc. }
      by rewrite Happ, E1; cbn [mbind option_bind]; rewrite E2. }
  clear es Hes Hlen. induction es as [|e1 es IH]; intros g fulls frees' T F O Hes Hlv Hl' Hle.
  - exists g, []. cbn. rewrite !app_nil_r. split; [done|]. destruct Hl' as (_ & _ & _ & Hflow). destruct Hlv as (_ & Hnn & Hne).
    assert (∀ fulls, (length fulls + (if decide (views frees' = []) then 0 else 1) = 0)%nat → views (fulls ++ frees') = []) as Hz.
    { intros [|] Hz; [|cbn in Hz; lia]. cbn in *. by destruct (decide (views frees' = [])). }
    destruct (_thread g) as [[]|]; try done; cbn [flow todo] in *; cbn [length] in Hle; try lia;
      try (destruct Hflow as [-> <-]; rewrite Hz, app_nil_r by lia; done);
      destruct Hflow as (h & Hflow); destruct fulls as [|h' fulls]; try done; cbn [length] in Hle; try lia.
    all: by destruct Hflow as (? & ? & _).
  - apply List.Forall_cons_iff in Hes as [[He1 Hn1'] Hes]. cbn [map log_run log_step].
    destruct (dump_ok e1 _ _ _ _ _ _ _ _ _ Hsz He1 Hn1' Hl') as (g2 & ev2 & fu2 & fr2 & -> & Hl2 & Hlive). cbn [mbind option_bind].
    destruct (Hlive Hlv) as [Hlv2 Htd]. cbn [length] in Hle.
    destruct (IH g2 fu2 fr2 _ _ _ Hes Hlv2 Hl2) as (g3 & ev3 & -> & Hf & Hs); [lia|]. cbn [mbind option_bind].
    exists g3, (ev2 ++ ev3). split; [done|]. rewrite taken_app, filed_app, shown_app. rewrite <- !app_assoc in Hf, Hs. done.
Qed.

(** ** Lines that are lost *)

Definition outs (ev : list log_ev) : nat :=
  length (omap (λ x, match x with LOut bs => Some bs | _ => None end) ev).

Lemma outs_app ev ev' : outs (ev ++ ev') = (outs ev + outs ev')%nat.
Proof. unfold outs. by rewrite omap_app, length_app. Qed.

(** The producer is on the consumer's full buffer. *)
Definition ran_into (g : logger) (fulls frees : list buffer_node) : Prop :=
  ring_inv g fulls frees ∧ fulls ≠ [] ∧ _producer g = _consumer g.

Lemma ran_into_log g fulls frees data : ran_into g fulls frees → log data g = Some (g, [LErr]).
Proof.
  intros ((c & p & Hc & Hp & Hlt & Hrot & Hfu & _) & Hne & Hpc).
  destruct (head_full g c fulls frees Hrot Hlt Hne Hfu) as (h & l & _ & Eh & Hh).
  unfold log. rewrite Hpc, Hc, Eh. cbn [mbind option_bind]. by rewrite Hh.
Qed.

Definition owing (g : logger) : nat := if decide (_thread g = Some DRelock) then 1 else 0.

(** A step of an execution after which the producer is still on a full buffer. *)
Definition still_full (g : logger) (fulls : list buffer_node) (g' : logger) (ev : list log_ev) : Prop :=
  ∃ fulls' frees', ran_into g' fulls' frees' ∧ _output g' = true ∧
    (owing g' + length fulls = outs ev + owing g + length fulls')%nat.

(** A step that leaves the ring alone. *)
Lemma still_full_same g g' fulls frees ev : ran_into g fulls frees → _output g = true →
  _circular g' = _circular g → _consumer g' = _consumer g → _producer g' = _producer g → _output g' = _output g →
  owing g' = (outs ev + owing g)%nat → still_full g fulls g' ev.
Proof.
  intros (Hinv & Hne & Hpc) Ho E1 E2 E3 E4 E5. exists fulls, frees. split; [|split; [congruence|lia]].
  split; [by eapply ring_inv_ext; [..|exact Hinv]|]. split; [done|congruence].
Qed.

Lemma ran_into_dump e g g' ev fulls frees : ran_into g fulls frees → _output g = true → dump_step e g = Some (g', ev) →
  (outs ev + owing g < length fulls)%nat → still_full g fulls g' ev.
Proof.
  intros Hran Hout E Hlt. pose proof Hran as (Hinv & Hne & Hpc).
  destruct (ring_consumer g fulls frees Hinv) as (c & p & nd & Hc & Hp & Hnd & Hhd & _ & _ & Hfree).
  assert (is_full nd = true) as Hfull by (destruct (is_full nd) eqn:Ef; [done|by destruct (Hfree eq_refl) as [? _]]).
  unfold owing in Hlt. revert E. unfold dump_step. rewrite Hc. cbn [mbind option_bind]. rewrite Hnd. cbn [mbind option_bind]. rewrite Hfull, Hp, Hout.
  assert (∀ t f ev', t ≠ DRelock → owing (set_thread t f g) = 0%nat ∧ (outs [LFile ev'] = 0%nat)) as Hq
    by (intros t f ev' Ht; unfold owing; cbn [_thread set_thread]; by rewrite decide_False by congruence).
  destruct (_thread g) as [t|] eqn:Et; [|intros [= <- <-]; by eapply still_full_same].
  assert (t ≠ DRelock → owing g = 0%nat) as Hg by (intros Ht; unfold owing; by rewrite Et, decide_False by congruence).
  destruct t; intros E.
  - destruct (_run g); [|apply bind_Some in E as (f & _ & E)]; injection E as <- <-; (eapply still_full_same; try done; by rewrite Hg).
  - injection E as <- <-. eapply still_full_same; try done. by rewrite Hg.
  - apply bind_Some in E as (f & _ & E). apply bind_Some in E as ([[? ?] ?] & _ & E). injection E as <- <-.
    eapply still_full_same; try done. by rewrite Hg.
  - injection E as <- <-. eapply still_full_same; try done. by rewrite Hg.
  - cbn [mbind option_bind] in E. injection E as <- <-. rewrite decide_True in Hlt by done. cbn in Hlt.
    destruct fulls as [|h l]; [done|]. cbn in Hhd. injection Hhd as ->.
    destruct (ring_give_back g c p nd l frees Hinv Hc Hp) as [_ Hinv']. eexists l, _. split; [|split; [done|]].
    + split; [by eapply ring_inv_ext; [..|exact Hinv']|]. split; [destruct l; [cbn in Hlt; lia|done]|].
      cbn [_producer _consumer set_ring]. rewrite Hp, Hc in Hpc. injection Hpc as ->. by rewrite decide_True.
    + unfold owing. cbn [_thread set_ring set_thread]. rewrite Et, decide_False, decide_True by done. cbn. lia.
  - apply bind_Some in E as (f & _ & E). injection E as <- <-. eapply still_full_same; try done. by rewrite Hg.
  - injection E as <- <-. by eapply still_full_same.
Qed.

Lemma ran_into_step o g g' ev fulls frees : ran_into g fulls frees → _output g = true → log_step o g = Some (g', ev) →
  (outs ev + owing g < length fulls)%nat → still_full g fulls g' ev ∧ results ev = replicate (length (lines [o])) None.
Proof.
  intros Hran Hout E Hlt. destruct o as [data|e| |]; cbn [log_step] in E.
  - rewrite (ran_into_log g fulls frees data Hran) in E. injection E as <- <-. split; [by eapply still_full_same|done].
  - split; [by eapply ran_into_dump|exact (dump_results e g g' ev E)].
  - injection E as <- <-. split; [by eapply still_full_same|done].
  - unfold stop_join in E. destruct (_thread g) as [t|] eqn:Et; [destruct (decide (t = DEnd)) as [->|Hend]|].
    + apply bind_Some in E as (f & _ & E). injection E as <- <-. split; [|done]. eapply still_full_same; try done.
      unfold owing. cbn [_thread]. by rewrite Et, !decide_False by done.
    + assert (Some (g, @nil log_ev) = Some (g', ev)) as [= <- <-] by (by destruct t). split; [by eapply still_full_same|done].
    + injection E as <- <-. split; [by eapply still_full_same|done].
Qed.

(** C37: once the producer has run into the consumer's full buffer, every line is refused until all
    full buffers have been shown, however many have been given back meanwhile. *)
Theorem full_ring_discards (os : list log_op) : ∀ (g g' : logger) (fulls frees : list buffer_node) (ev : list log_ev),
  ran_into g fulls frees → _output g = true → log_run os g = Some (g', ev) → (outs ev + owing g < length fulls)%nat →
  results ev = replicate (length (lines os)) None.
Proof.
  induction os as [|o os IH]; intros g g' fulls frees ev Hran Hout E Hlt; cbn [log_run] in E; [by injection E as <- <-|].
  apply bind_Some in E as ([g1 ev1] & E1 & E). apply bind_Some in E as ([g2 ev2] & E2 & E). injection E as <- <-.
  rewrite outs_app in Hlt. rewrite results_app.
  destruct (ran_into_step o g g1 ev1 fulls frees Hran Hout E1) as [(fu & fr & Hr1 & Ho1 & Hq) ->]; [lia|].
  rewrite (IH g1 g2 fu fr ev2 Hr1 Ho1 E2) by lia.
  change (o :: os) with ([o] ++ os). unfold lines. by rewrite omap_app, length_app, replicate_add.
Qed.

(** Time runs out while some text waits: the thread marks the producer's buffer, so that lines are
    refused although every other buffer is empty. *)
Lemma flush_runs_into e g nd rest : ring_inv g [] (nd :: rest) → _thread g = Some DWait → view nd ≠ [] →
  ∃ g', dump_step e g = Some (g', []) ∧ ran_into g' [mkBufNode (buffer nd) Enum_Buffer_Full] rest ∧
    Forall (λ nd, view nd = []) rest.
Proof.
  intros Hinv Ht Hv. destruct (ring_consumer g [] (nd :: rest) Hinv) as (c & p & nd' & Hc & Hp & Hnd & Hhd & Hok & Hfull & Hfree).
  cbn in Hhd. injection Hhd as ->. assert (is_full nd' = false) as Ef by (destruct (is_full nd'); [by destruct (Hfull eq_refl)|done]).
  destruct (Hfree Ef) as (_ & l & [= <-] & Hl). unfold dump_step. rewrite Ht, Hc. cbn [mbind option_bind]. rewrite Hnd. cbn [mbind option_bind].
  rewrite Ef. pose proof (fb_view_length _ _ Hok) as Hvl. unfold view in Hv.
  destruct (Z.gtb_spec (fb_length (buffer nd')) 0) as [Hg|Hg];
    [|unfold fb_length in Hg; destruct (fb_view (buffer nd')); [done|cbn in Hvl; lia]].
  eexists. split; [done|]. split; [|done].
  split; [eapply ring_inv_ext; [..|exact (ring_mark g c nd' rest Hinv Hc)]; try done; cbn; congruence|]. split; [done|].
  cbn [_producer _consumer set_ring]. destruct Hinv as (c' & p' & Hc' & Hp' & Hlt & _ & _ & _ & _ & [(x & y & _ & -> & _)|(? & _)]); [|done].
  rewrite Hp'. rewrite Hc' in Hc. injection Hc as ->. cbn [length]. by rewrite Nat.add_0_r, Nat.mod_small.
Qed.

(** After [stop] nothing more is written: what waited in the buffers is lost. *)
Lemma stop_loses os : ∀ g g' ev, _run g = false → (_thread g = Some DTop ∨ _thread g = Some DEnd ∨ _thread g = None) →
  log_run os g = Some (g', ev) → filed ev = [] ∧ shown ev = [].
Proof.
  induction os as [|o os IH]; intros g g' ev Hr Ht E; cbn [log_run] in E; [by injection E as <- <-|].
  apply bind_Some in E as ([g1 ev1] & E1 & E). apply bind_Some in E as ([g2 ev2] & E2 & E). injection E as <- <-.
  rewrite filed_app, shown_app.
  enough ((filed ev1 = [] ∧ shown ev1 = []) ∧ _run g1 = false ∧ (_thread g1 = Some DTop ∨ _thread g1 = Some DEnd ∨ _thread g1 = None))
    as ([-> ->] & Hr1 & Ht1) by (by destruct (IH _ _ _ Hr1 Ht1 E2) as [-> ->]).
  assert (∀ f, filed [LFile (flush f)] = [] ∧ filed [LFile (snd (_close f))] = []) as Hf
    by (intros f; unfold flush, _close; by destruct (_file f)).
  destruct o as [data|e| |]; cbn [log_step] in E1.
  - unfold log, log_next, log_append in E1. destruct (_producer g); [|by injection E1 as <- <-].
    apply bind_Some in E1 as (nd & _ & E1). repeat case_match; try (by injection E1 as <- <-).
    + apply bind_Some in E1 as (b & _ & E1). by injection E1 as <- <-.
    + apply bind_Some in E1 as (nd' & _ & E1). destruct (is_full nd'); [by injection E1 as <- <-|].
      apply bind_Some in E1 as (b & _ & E1). by injection E1 as <- <-.
  - unfold dump_step in E1. rewrite Hr in E1. destruct Ht as [Ht|[Ht|Ht]]; rewrite Ht in E1; [|injection E1 as <- <-; split; [done|]; split; [done|tauto]..].
    apply bind_Some in E1 as (f & _ & E1). injection E1 as <- <-. destruct (Hf f) as [-> _]. split; [done|]. split; [done|]. cbn. auto.
  - injection E1 as <- <-. split; [done|]. split; [done|exact Ht].
  - unfold stop_join in E1. destruct Ht as [Ht|[Ht|Ht]]; rewrite Ht in E1;
      [injection E1 as <- <-; split; [done|]; split; [done|tauto]| |injection E1 as <- <-; split; [done|]; split; [done|tauto]].
    apply bind_Some in E1 as (f & _ & E1). injection E1 as <- <-. destruct (Hf f) as [_ ->]. split; [done|]. split; [done|]. cbn. auto.
Qed.
End logger.

(** ** Witnesses *)

#[local] Existing Instance zero_malloc.

#[local] Instance days : LocalTime.
Proof.
  refine {| localtime := λ t, mkTm (t / 86400 mod 1000) 0 1 0 0 0 |}. intros t. cbn.
  pose proof (Z.mod_pos_bound (t / 86400) 1000 ltac:(lia)). lia.
Defined.

Definition calm (now : Z) : file_env := mkFileEnv now (λ _, true) [].

Definition demo_ops : list log_op :=
  [LLog B["abc"]; LDump (calm 5); LLog B["defgh"]; LLog B["ijklmnopq"]; LDump (calm 5); LLog B["r"]; LDump (calm 6)].

Lemma demo_ops_ok : Forall op_ok demo_ops.
Proof. repeat (apply List.Forall_cons; [first [split; [by split|cbn; lia]|cbn; lia]|]). apply List.Forall_nil. Qed.


Lemma logger_drains_witness :
  ∃ g0 g ev, started 8 2 100 (calm 5) 7 B["svr"] true = Some g0 ∧
    log_run 8 (demo_ops ++ map LDump (replicate 13 (calm 7))) g0 = Some (g, ev) ∧ filed ev = taken ev ∧ shown ev = taken ev.
Proof.
  apply (logger_drains 8 2 100 7 (calm 5) B["svr"] true demo_ops (replicate 13 (calm 7))).
  - lia.
  - lia.
  - lia.
  - by split.
  - apply demo_ops_ok.
  - unfold demo_ops. rewrite !not_elem_of_cons. repeat split; try discriminate. apply not_elem_of_nil.
  - apply Forall_replicate. split; [by split|cbn; lia].
  - cbn. lia.
Defined.

(** A log with three buffers whose only text is being written. *)
Definition flushing : option logger :=
  g ← started 8 3 100 (calm 5) 7 B["svr"] true;
  '(g, _) ← log_run 8 [LLog B["abc"]; LDump (calm 5); LDump (calm 5)] g; Some g.

Lemma full_ring_discards_witness :
  ∃ g (frees : list buffer_node), flushing = Some g ∧ length frees = 2%nat ∧ Forall (λ nd, view nd = []) frees ∧
    ∀ g' ev, log_run 8 [LLog B["x"]; LDump (calm 5); LLog B["y"]] g = Some (g', ev) → outs ev = 0%nat →
      results ev = [None; None].
Proof.
  destruct flushing as [g|] eqn:E; [|exfalso; revert E; vm_compute; discriminate].
  assert (∃ nd0 nd1 nd2 : buffer_node, _circular g = [nd0; nd1; nd2] ∧ _producer g = Some 0%nat ∧ _consumer g = Some 0%nat ∧ _output g = true ∧
    _thread g = Some DFile ∧ is_full nd0 = true ∧ is_full nd1 = false ∧ is_full nd2 = false ∧ view nd1 = [] ∧ view nd2 = [] ∧
    Forall (λ nd, fb_ok 8 (buffer nd)) [nd0; nd1; nd2]) as (nd0 & nd1 & nd2 & Hr & Hp & Hc & Ho & Ht & H0 & H1 & H2 & V1 & V2 & Hok).
  { revert E. vm_compute. intros [= <-]. do 3 eexists. split; [reflexivity|]. repeat (split; [reflexivity|]).
    repeat constructor; discriminate. }
  exists g, [nd1; nd2]. split; [reflexivity|]. split; [reflexivity|].
  split; [apply List.Forall_cons; [exact V1|apply List.Forall_cons; [exact V2|apply List.Forall_nil]]|].
  intros g' ev Er Hz. apply (full_ring_discards 8 [LLog B["x"]; LDump (calm 5); LLog B["y"]] g g' [nd0] [nd1; nd2] ev).
  - split; [|split; [discriminate|by rewrite Hp, Hc]]. exists 0%nat, 0%nat. rewrite Hr.
    split; [exact Hc|]. split; [exact Hp|]. split; [cbn; lia|]. split; [reflexivity|].
    split; [by apply List.Forall_cons|]. split; [apply List.Forall_cons; [exact H1|by apply List.Forall_cons]|]. split; [exact Hok|].
    right. split; [discriminate|]. split; [reflexivity|]. apply List.Forall_cons; [exact V1|by apply List.Forall_cons].
  - exact Ho.
  - exact Er.
  - rewrite Hz. unfold owing. rewrite Ht, decide_False by done. cbn. lia.
Defined.
