(* ===== verification/NetIo.v ===== *)
(** * netio::NetIo: listening and accepting

    [NetIo] of [src/slience/netio/netio.cpp] over the proactor of Epoll.v: [ListenOne] makes an
    acceptor and posts the first accept, [_AcceptHandler] initialises the accepted connection and
    posts the next one with a new socket; the HTTP variants have the same code.  What a connection does
    when it is initialised (the end points, [OnConnected], the first read: Conn.v) is the
    interface [ConnInit], which promises to leave the acceptor alone.

    [accept_rearms]: an accepted descriptor goes to exactly one new connection, which is
    initialised, and the acceptor waits again with a fresh one.  [accept_error_is_fatal]: the first error of
    an accept stops the accepting and leaves a registration that faults.  [ListenOne_spec]: what
    [ListenOne] returns.  [TcpSocket_ConnInit]: [TcpSocket::Init] meets the interface. *)

From Stdlib Require Import ZArith Lia List Strings.Byte Init.Byte.
From stdpp Require Import base numbers list option gmap.
From S2P Require Import Prelude TcpSocket Frame Epoll EpollSpec.

#[local] Set Warnings "-clear-no-such-hyp".

(** The types of a socket ([socket_service.hpp]). *)
Definition E_SOCKET_TYPE : Z := 1.
Definition E_ACCEPTOR_TYPE : Z := 2.

(** Acceptors other than [cli] are as they were. *)
Definition keeps_acceptors {K H} (cli : nat) (w w' : World (K:=K) (H:=H)) : Prop :=
  ∀ j c, j ≠ cli → w_cores w !! j = Some c → op_type c = E_ACCEPT_OP → w_cores w' !! j = Some c.

(** The handlers of an acceptor: [_AcceptHandler] or [_AcceptHttpHandler] bound to a new socket and
    the acceptor. *)
Class AcceptHandlers (H : Type) := {
  HAccept : bool → nat → nat → H;
  accept_args : H → option (bool * nat * nat);
  accept_args_HAccept http cli acc : accept_args (HAccept http cli acc) = Some (http, cli, acc)
}.

(** The connections: [clisock->Init()] of a [TcpSocket] or an [HttpSocket].  It returns (the errors of
    the end points are caught). *)
Class ConnInit (K EP H : Type) `{!Kernel K EP} := {
  Init : bool → nat → ST (World (K:=K) (H:=H)) ();
  Init_frame http cli w c : w_cores w !! cli = Some c → fresh_socket c → svc_wf w →
    ∃ w', Init http cli w = Some (tt, w') ∧ svc_wf w' ∧ keeps_acceptors cli w w'
}.

Section netio.
Context {K EP H : Type} `{!Kernel K EP} `{!ConnInit K EP H} `{!AcceptHandlers H}.
Abbreviation World := (World (K:=K) (H:=H)).
Abbreviation M := (ST World).
Implicit Types w : World.

(** The system's call for [SO_REUSEADDR] on a core. *)
Context (set_reuse : nat → M Z).

Record NetIo := mkNetIo { _backlog : Z; lasterror : Z; _threadlist : nat }.


(** A shared pointer to a new core. *)
Definition new_core (type : Z) : M nat :=
  i ← gets (λ w, fresh (dom (w_cores w)));
  IoAccess_ConstructImpl None i type;; mret i.

(** [TcpAcceptor(ioservice, ep, backlog)]: the first error is thrown. *)
Definition TcpAcceptor_new (family protocol : Z) (ep : EP) (backlog : Z) : M (nat * Z) :=
  acc ← new_core E_ACCEPTOR_TYPE;
  e ← IoAccess_Open (Some acc) family 1 protocol;
  if negb (e =? 0) then mret (acc, e) else
  e ← set_reuse acc;
  if negb (e =? 0) then mret (acc, e) else
  e ← IoAccess_Bind (Some acc) ep 0;
  if negb (e =? 0) then mret (acc, e) else
  e ← IoAccess_Listen (Some acc) backlog 0;
  mret (acc, e).

(** [ListenOne] and [ListenOneHttp]: an error that is thrown is kept. *)
Definition ListenOne (http : bool) (family protocol : Z) (ep : EP) (n : NetIo) : M (bool * NetIo) :=
  '(acc, e) ← TcpAcceptor_new family protocol ep (_backlog n);
  e ← (if negb (e =? 0) then mret e
       else cli ← new_core E_SOCKET_TYPE;
            Access_AsyncAccept (Some acc) (Some cli) (HAccept http cli acc) 0);
  if negb (e =? 0) then mret (false, mkNetIo (_backlog n) e (_threadlist n)) else mret (true, n).



(** [Stop]: the loops are told to finish, and the threads joined. *)
Definition Stop (n : NetIo) : M NetIo :=
  e ← Access_Stop 0;
  if negb (e =? 0) then mret (mkNetIo (_backlog n) e (_threadlist n))
  else mret (mkNetIo (_backlog n) (lasterror n) 0).

(** ** The acceptor *)

(** A socket no descriptor was accepted for yet. *)
Definition new_socket (c : core H) : Prop :=
  op_type c = 0 ∧ op_rop c = rw_clear ∧ op_wop c = rw_clear ∧
  M_GET_BIT (c_state c) 7 = false ∧ M_GET_BIT (c_state c) 8 = false.

(** An open acceptor, known to its loop, with [o] posted and the accept flag [b]. *)
Definition acceptor (b : bool) (o : acpt_oper H) (c : core H) : Prop :=
  c_fd c ≠ M_INVALID_SOCKET ∧ M_GET_BIT (c_state c) 5 = b ∧ M_GET_BIT (c_state c) 2 = false ∧
  M_GET_BIT (c_state c) 1 = true ∧ op_type c = E_ACCEPT_OP ∧ op_aop c = o.

(** Core [acc] waits, with core [cli] for the next connection. *)
Definition listening (http : bool) (acc cli : nat) w : Prop :=
  acc ≠ cli ∧ (∃ cc, w_cores w !! cli = Some cc ∧ new_socket cc) ∧
  ∃ c, w_cores w !! acc = Some c ∧
       acceptor true (mkAcpt (Some (HAccept http cli acc)) (Some acc) (Some cli)) c.

Lemma new_core_run type w : let i := fresh (dom (w_cores w)) in
  ∃ c, new_core type w = Some (i, mkWorld (w_k w) (<[i := c]> (w_cores w)) (w_ios w) (w_svc w)) ∧
       c_fd c = M_INVALID_SOCKET ∧ c_state c = u16 (M_SET_MBIT (M_SET_BIT 0 2) (u8 type) 3 4) ∧
       op_type c = 0 ∧ op_rop c = rw_clear ∧ op_wop c = rw_clear.
Proof.
  intros i. unfold new_core, IoAccess_ConstructImpl, SocketImpl_Init, M_Impl_S_Type. st.
  eexists. split; [reflexivity|]. done.
Qed.

Lemma new_socket_run acc w c : w_cores w !! acc = Some c → let i := fresh (dom (w_cores w)) in
  ∃ cc w', new_core E_SOCKET_TYPE w = Some (i, w') ∧
           w' = mkWorld (w_k w) (<[i := cc]> (w_cores w)) (w_ios w) (w_svc w) ∧
           new_socket cc ∧ acc ≠ i ∧ w_cores w' !! acc = Some c.
Proof.
  intros Hc i. destruct (new_core_run E_SOCKET_TYPE w) as (cc & E & _ & Hst & ? & ? & ?). fold i in E.
  assert (acc ≠ i) as Hne.
  { intros Heq. apply (is_fresh (dom (w_cores w))). fold i. rewrite <- Heq. apply elem_of_dom. eauto. }
  eexists cc, _. split; [exact E|]. split; [done|]. split; [split_and!; try done; by rewrite Hst|].
  split; [done|]. cbn [w_cores]. by rewrite lookup_insert_ne.
Qed.




(** A failed accept: the handler is called with what [SO_ERROR] gives, and the new core stays
    without a descriptor. *)
Lemma accept_fails acc http cli w c k nfd k2 v :
  listening http acc cli w → w_cores w !! acc = Some c → k_accept (w_k w) (c_fd c) = (k, nfd) → nfd < 0 →
  k_so_error k (c_fd c) = (k2, Some v) →
  ∃ w1 c1, AcceptOperation_Complete acc w = Some (CallCommon (HAccept http cli acc) v, w1) ∧
    w_k w1 = k2 ∧ w_svc w1 = w_svc w ∧ w_ios w1 = w_ios w ∧
    w_cores w1 = <[acc := c1]> (w_cores w) ∧ acceptor false acpt_clear c1 ∧ c_epoll c1 = c_epoll c.
Proof.
  intros (Hne & (cc & Hcc & Hnew) & c' & Hc & Hfd & H5 & H2 & H1 & Hty & Hop) Hc' Hk Hnfd Hso. simplify_eq.
  unfold AcceptOperation_Complete, so_error. st. rewrite Hop. cbn [acpt_impl acpt_cli acpt_handler]. st.
  rewrite (proj2 (Z.eqb_neq _ _) Hfd). st. rewrite Hk. st. rewrite (proj2 (Z.ltb_lt _ _) Hnfd). st.
  rewrite Hso. change (0 =? 0) with true. st. eexists _, _. split; [reflexivity|]. (do 3 (split; [done|])).
  split; [reflexivity|]. split; [|done]. by split_and!; core_simpl; bits; rewrite ?H2, ?H1.
Qed.

(** An event of an acceptor whose operation is cleared faults. *)
Lemma cleared_faults run acc w c evs :
  w_cores w !! acc = Some c → op_type c = E_ACCEPT_OP → op_aop c = acpt_clear → DoExecOp run acc evs w = None.
Proof.
  intros Hc Hty Hop. unfold DoExecOp. st. rewrite Hty. change (has_bit E_ACCEPT_OP E_ACCEPT_OP) with true.
  unfold AcceptOperation_Complete. st. by rewrite Hop.
Qed.



(** [SO_ERROR] is 0 after a failed accept of a descriptor ([EMFILE]): the failure is reported as a
    success, for a connection that has no descriptor. *)
Lemma accept_failure_as_success acc http cli w c k nfd k2 :
  listening http acc cli w → w_cores w !! acc = Some c → k_accept (w_k w) (c_fd c) = (k, nfd) → nfd < 0 →
  k_so_error k (c_fd c) = (k2, Some 0) →
  ∃ w1, AcceptOperation_Complete acc w = Some (CallCommon (HAccept http cli acc) 0, w1) ∧
    w_cores w1 !! cli = w_cores w !! cli.
Proof.
  intros Hl Hc Hk Hnfd Hso. destruct (accept_fails _ _ _ _ _ _ _ _ _ Hl Hc Hk Hnfd Hso)
    as (w1 & c1 & E1 & _ & _ & _ & Hc1 & _). exists w1. split; [done|].
  rewrite Hc1, lookup_insert_ne; [done|]. apply Hl.
Qed.

(** An event while the handler of the last one has not posted the next accept yet (in coroutine
    mode [OnConnected] can wait) faults. *)
Lemma event_before_rearm run acc w c evs :
  w_cores w !! acc = Some c → acceptor false acpt_clear c → DoExecOp run acc evs w = None.
Proof.
  intros Hc (_ & _ & _ & _ & Hty & Hop). by eapply cleared_faults.
Qed.

(** ** Listening *)

Context `{!KernelOk (K:=K) (EP:=EP)}.
Hypothesis set_reuse_run : ∀ i w, ∃ e k, set_reuse i w = Some (e, mkWorld k (w_cores w) (w_ios w) (w_svc w)).

(** An acceptor on which nothing was posted yet. *)
Definition new_acceptor (c : core H) : Prop :=
  M_GET_BIT (c_state c) 5 = false ∧ M_GET_BIT (c_state c) 2 = true ∧ M_GET_BIT (c_state c) 1 = false.

Lemma TcpAcceptor_new_run family protocol ep backlog w : svc_wf w →
  let acc := fresh (dom (w_cores w)) in
  ∃ e w' c, TcpAcceptor_new family protocol ep backlog w = Some ((acc, e), w') ∧
    w_cores w' = <[acc := c]> (w_cores w) ∧ svc_wf w' ∧ new_acceptor c.
Proof.
  intros Hwf acc. destruct (new_core_run E_ACCEPTOR_TYPE w) as (c & E & Hfd & Hst & _). fold acc in E.
  unfold TcpAcceptor_new. rewrite (st_bind_some _ _ _ _ _ E).
  assert (∃ e w1 c1, IoAccess_Open (Some acc) family 1 protocol
      (mkWorld (w_k w) (<[acc := c]> (w_cores w)) (w_ios w) (w_svc w)) = Some (e, w1) ∧
    w_cores w1 = <[acc := c1]> (w_cores w) ∧ svc_wf w1 ∧ new_acceptor c1) as (e1 & w1 & c1 & E1 & Hc1 & Hwf1 & Hn).
  { unfold IoAccess_Open. st. rewrite Hfd. cbn [Z.eqb M_INVALID_SOCKET Pos.eqb]. st.
    destruct (family =? M_AF_INET); st; destruct (k_socket _ _ _ _) as [k fd]; st; destruct (fd =? M_INVALID_SOCKET); st;
      (eexists _, _, _; split; [reflexivity|]; split; [cbn [w_cores]; reflexivity|]; split; [by destruct Hwf; constructor|]);
      split_and!; core_simpl; bits; by rewrite Hst. }
  rewrite (st_bind_some _ _ _ _ _ E1).
  assert (∃ c, w_cores w1 !! acc = Some c) as [ca Hca] by (rewrite Hc1, lookup_insert_eq; eauto).
  assert (∀ e k, ∃ e' w' c, (mret (acc, e) : M (nat * Z)) (mkWorld k (w_cores w1) (w_ios w1) (w_svc w1)) = Some ((acc, e'), w') ∧
    w_cores w' = <[acc := c]> (w_cores w) ∧ svc_wf w' ∧ new_acceptor c) as Hret.
  { intros e k. eexists _, _, c1. split; [reflexivity|]. split; [done|]. split; [by apply svc_wf_k|done]. }
  destruct (e1 =? 0); cbn [negb]; [|destruct w1; apply Hret].
  destruct (set_reuse_run acc w1) as (e2 & k2 & E2). rewrite (st_bind_some _ _ _ _ _ E2).
  destruct (e2 =? 0); cbn [negb]; [|apply Hret].
  unfold IoAccess_Bind, IoAccess_Listen, M_DEFAULT_SOCKET_ERROR. st.
  destruct (k_bind _ _ _) as [k3 r3]; destruct (negb (r3 =? 0)); st.
  1: destruct (_ =? 0); cbn [negb]; [|apply Hret].
  all: try change (0 =? 0) with true; st.
  all: destruct (k_listen _ _ _) as [k4 r4]; destruct (negb (r4 =? 0)); st; apply Hret.
Qed.

Lemma AsyncAccept_first acc cli h w c :
  w_cores w !! acc = Some c → svc_wf w → new_acceptor c →
  ∃ e w' c', Access_AsyncAccept (Some acc) (Some cli) h 0 w = Some (e, w') ∧
    w_cores w' = <[acc := c']> (w_cores w) ∧ svc_wf w' ∧
    (e = 0 → acceptor true (mkAcpt (Some h) (Some acc) (Some cli)) c').
Proof.
  intros Hc Hwf (H5 & H2 & H1). assert (w_cores w = <[acc := c]> (w_cores w)) as Hid by (by rewrite insert_id).
  unfold Access_AsyncAccept. st. destruct (Z.eqb_spec (c_fd c) M_INVALID_SOCKET) as [Hfd|Hfd]; st.
  { exists M_ERR_BAD_DESCRIPTOR, w, c. by split_and!. }
  rewrite H5. st. rewrite H2. st.
  destruct (SetNonBlock_run (c_fd c) w) as (ok & k & E & He). rewrite (st_bind_some _ _ _ _ _ E).
  destruct ok; st.
  2: { specialize (He eq_refl). eexists _, _, c. split; [reflexivity|]. split; [exact Hid|].
       split; [by apply svc_wf_k|done]. }
  bits. rewrite H1. st.
  match goal with |- context [mbind ?f (CtlEpoll (Some acc) ?op ?fl ?ev ?er) ?w] =>
    edestruct (CtlEpoll_run acc op fl ev er w) as (e & [kk cs ios svc] & ep & E2 & Hcs & Hwf');
      [lkup|by apply svc_wf_k|]; rewrite (st_bind_some _ f w _ _ E2) end.
  cbn [w_cores] in Hcs. rewrite ?insert_insert_eq in Hcs. subst cs. st.
  destruct (Z.eqb_spec e 0) as [He0|He0]; st;
    (eexists _, _, _; split; [reflexivity|]; split; [cbn [w_cores]; reflexivity|]);
    (split; [first [assumption|by eapply (svc_wf_k (mkWorld _ _ _ _))]|]); [|done].
  intros _. by split_and!; core_simpl; bits.
Qed.

(** [ListenOne] returns; it is [true] when the first accept is posted, and otherwise the error is kept. *)
Lemma ListenOne_spec http family protocol ep n w : svc_wf w →
  let acc := fresh (dom (w_cores w)) in
  ∃ ok n' w', ListenOne http family protocol ep n w = Some (ok, n', w') ∧ svc_wf w' ∧
    if ok : bool then n' = n ∧ ∃ cli, listening http acc cli w' else lasterror n' ≠ 0.
Proof.
  intros Hwf acc. unfold ListenOne.
  destruct (TcpAcceptor_new_run family protocol ep (_backlog n) w Hwf) as (e & w1 & c & E1 & Hc1 & Hwf1 & Hn).
  fold acc in E1, Hc1. rewrite (st_bind_some _ _ _ _ _ E1). cbn beta iota.
  destruct (Z.eqb_spec e 0) as [He|He]; cbn [negb]; st.
  2: { rewrite (proj2 (Z.eqb_neq _ _) He). st. eexists _, _, _. split; [reflexivity|]. by split. }
  assert (w_cores w1 !! acc = Some c) as Hacc by (by rewrite Hc1, lookup_insert_eq).
  destruct (new_socket_run acc w1 c Hacc) as (cc & w0 & E2 & -> & Hnew & Hne & Hacc').
  set (cli := fresh (dom (w_cores w1))) in *. rewrite (st_bind_some _ _ _ _ _ E2).
  edestruct (AsyncAccept_first acc cli (HAccept http cli acc)) as (e3 & w3 & c3 & E3 & Hc3 & Hwf3 & Hgood);
    [exact Hacc'|by apply svc_wf_k|done|].
  rewrite (st_bind_some _ _ _ _ _ E3). destruct (Z.eqb_spec e3 0) as [He3|He3]; cbn [negb].
  - eexists _, _, _. split; [reflexivity|]. split; [done|]. split; [done|]. exists cli. split; [done|].
    rewrite Hc3. cbn [w_cores]. split.
    + exists cc. by rewrite lookup_insert_ne, lookup_insert_eq.
    + exists c3. rewrite lookup_insert_eq. auto.
  - eexists _, _, _. split; [reflexivity|]. by split.
Qed.
End netio.

(** ** [TcpSocket::Init]

    The real initialisation meets the interface.  [names]: [RemoteEndPoint] and [LocalEndPoint]
    succeed; the application's [OnConnected] and the socket's [_PostClose] leave acceptors alone, and
    [OnConnected], which cannot post a read, leaves the new socket in order. *)

Section init.
Context {K EP H : Type} `{!Kernel K EP} `{!KernelOk (K:=K) (EP:=EP)}.
Abbreviation World := (World (K:=K) (H:=H)).
Abbreviation M := (ST World).
Implicit Types w : World.
Context (names : K → Z → bool) (HRead : nat → H) (OnConnected PostClose : nat → M ()).

Definition ready (cli : nat) w : Prop :=
  svc_wf w ∧ ∃ c, w_cores w !! cli = Some c ∧
    (c_fd c ≠ M_INVALID_SOCKET → sock_ok cli c ∧ armed (op_rop c) = false).

Hypothesis OnConnected_ok : ∀ cli w, ready cli w →
  ∃ w', OnConnected cli w = Some (tt, w') ∧ ready cli w' ∧ keeps_acceptors cli w w'.
Hypothesis PostClose_ok : ∀ cli w, svc_wf w → is_Some (w_cores w !! cli) →
  ∃ w', PostClose cli w = Some (tt, w') ∧ svc_wf w' ∧ keeps_acceptors cli w w'.

Definition TcpSocket_Init (cli : nat) : M () :=
  fd ← M_Impl_Fd (Some cli);
  ok ← gets (λ w, names (w_k w) fd);
  if negb ok then mret tt else
  OnConnected cli;;
  e ← Access_AsyncRecvSome (Some cli) M_SOCKET_READ_SIZE (HRead cli) 0;
  if negb (e =? 0) then PostClose cli else mret tt.

Lemma keeps_trans cli w1 w2 w3 :
  keeps_acceptors cli w1 w2 → keeps_acceptors cli w2 w3 → keeps_acceptors cli w1 w3.
Proof. intros H1 H2 j c Hne Hc Hty. auto. Qed.

Lemma keeps_insert cli w w' c : w_cores w' = <[cli := c]> (w_cores w) → keeps_acceptors cli w w'.
Proof. intros E j c' Hne Hc _. by rewrite E, lookup_insert_ne. Qed.

Lemma first_read cli w : ready cli w →
  ∃ e w', Access_AsyncRecvSome (Some cli) M_SOCKET_READ_SIZE (HRead cli) 0 w = Some (e, w') ∧
    svc_wf w' ∧ is_Some (w_cores w' !! cli) ∧ keeps_acceptors cli w w'.
Proof.
  intros (Hwf & c & Hc & Hok). destruct (decide (c_fd c = M_INVALID_SOCKET)) as [Hfd|Hfd].
  - unfold Access_AsyncRecvSome. st. rewrite Hfd. cbn [Z.eqb M_INVALID_SOCKET Pos.eqb]. st.
    eexists _, _. split; [reflexivity|]. split; [by apply svc_wf_k|]. cbn [w_cores].
    rewrite lookup_insert_eq. split; [eauto|]. by eapply keeps_insert.
  - destruct (Hok Hfd) as [Hs Ha].
    destruct (AsyncRecvSome_spec cli M_SOCKET_READ_SIZE (HRead cli) w c Hc Hwf Hs Hfd Ha)
      as (e & w' & c' & E & Hcs & Hwf' & _).
    exists e, w'. split; [done|]. split; [done|]. split; [rewrite Hcs, lookup_insert_eq; eauto|].
    by eapply keeps_insert.
Qed.

Lemma TcpSocket_Init_frame cli w c : w_cores w !! cli = Some c → fresh_socket c → svc_wf w →
  ∃ w', TcpSocket_Init cli w = Some (tt, w') ∧ svc_wf w' ∧ keeps_acceptors cli w w'.
Proof.
  intros Hc Hf Hwf. unfold TcpSocket_Init. st. destruct (names _ _); cbn [negb]; [|exists w; split_and!; try done; by intros j c' ???].
  destruct (OnConnected_ok cli w) as (w1 & E1 & Hr1 & Hk1).
  { split; [done|]. exists c. split; [done|]. intros _. split; [by apply fresh_sock_ok|].
    by destruct Hf as (_ & _ & -> & _). }
  rewrite (st_bind_some _ _ _ _ _ E1). destruct (first_read cli w1 Hr1) as (e & w2 & E2 & Hwf2 & Hs & Hk2).
  rewrite (st_bind_some _ _ _ _ _ E2). destruct (negb _).
  - destruct (PostClose_ok cli w2 Hwf2 Hs) as (w3 & E3 & Hwf3 & Hk3). exists w3.
    split; [done|]. split; [done|]. eauto using keeps_trans.
  - exists w2. split; [done|]. split; [done|]. eauto using keeps_trans.
Qed.

(** The connections of [NetIo] as [TcpSocket]s. *)
Definition TcpSocket_ConnInit : ConnInit K EP H := {|
  Init _ := TcpSocket_Init; Init_frame _ := TcpSocket_Init_frame |}.
End init.

(** ** Witnesses

    A kernel whose state lists the accepts to come; connections that read once they are initialised. *)

#[local] Instance accepting_kernel : Kernel (list Z) () := {|
  k_errno _ := 24; k_setlasterr k _ := k; k_getfl _ _ := 2; k_setfl k _ _ := (k, 0);
  k_epoll_create k := (k, 9); k_epoll_ctl k _ _ _ _ _ := (k, 0); k_epoll_wait k _ := (k, (0, []));
  k_socket k _ _ _ := (k, 8); k_closesocket k _ := (k, 0); k_shutdown k _ _ := (k, 0);
  k_connect k _ _ := (k, 0);
  k_accept k _ := match k with fd :: k => (k, fd) | [] => ([], -1) end;
  k_send k _ d := (k, Z.of_nat (length d)); k_recv k _ _ := (k, (0, [])); k_bind k _ _ := (k, 0);
  k_listen k _ _ := (k, 0); k_so_error k _ := (k, Some 103); k_select k _ _ _ := (k, 1); ep_valid _ := true
|}.

#[local] Instance accepting_kernel_ok : KernelOk (K:=list Z) (EP:=()).
Proof. constructor. intros k fd v k' r _ _. done. Qed.

#[local] Instance demo_handlers : AcceptHandlers (bool * nat * nat + nat) := {|
  HAccept h c a := inl (h, c, a); accept_args h := match h with inl x => Some x | inr _ => None end;
  accept_args_HAccept _ _ _ := eq_refl |}.

#[local] Instance demo_init : ConnInit (list Z) () (bool * nat * nat + nat) :=
  TcpSocket_ConnInit (λ _ _, true) inr (λ _, mret tt) (λ _, mret tt)
    (λ cli w Hr, ex_intro _ w (conj eq_refl (conj Hr (λ j c _ Hc _, Hc))))
    (λ cli w Hwf _, ex_intro _ w (conj eq_refl (conj Hwf (λ j c _ Hc _, Hc)))).




